(* ===== verification/_CoqProject ===== *)
-Q . S2P
Prelude.v
JsString.v
LineSplitter.v
LineWidth.v
LineWellFormed.v
JsNumber.v
Rounding.v
SafeInteger.v
RoundingError.v
RoundingOrder.v
IntegerNumber.v
RoundingNearest.v
Layout.v
LayoutExact.v
LayoutFit.v
LayoutScaled.v
LayoutTop.v
LayoutDisjoint.v
LayoutCentred.v
WellFormed.v
Options.v
FontCache.v
NumberToString.v
Warning.v
Renderer.v
StringMatch.v
RendererExact.v
Api.v
EndToEnd.v
