(* ===== verification/Prelude.v ===== *)
(** * Verification of the xibao banner compositor (src/index.js)

    The program takes a text (one string, or a list of lines with optional
    per-line styles), asks a glyph renderer for one SVG per line, computes
    where and how large every line is drawn on a fixed-size background and
    hands the overlay list to a raster library.  Everything is in one
    ECMAScript file, [src/index.js]; the parts and the files that model them:

    Strings and the line splitter.
    - [Prelude] (this file): the [completion] type of computations that may
      throw (an instance of stdpp's [MBind], so [x ← r; k] sequences calls
      and propagates the exception), [drop_while] and the list
      lemmas the components share, the tactics [case_bool] and [simpl_completion],
      the hint database [xibao].
    - [JsString]: ECMAScript strings as lists of UTF-16 code units ([N]),
      the string iterator behind [for (const char of text)], [trim] with the
      WhiteSpace and LineTerminator classes, [includes], [substring], and
      the [match] and [replace] of [textSvg] ([match_digits],
      [replace_first]).
    - [LineSplitter]: [textToLines] (index.js 137-171): the scanner state
      [(lines, line, ctr)] as a Record, [addLine], one step [scan_char] per
      iterated character, the filter of empty lines, and the rebalancing of a
      short last line.  Reading [last.length] of an absent last line throws a
      TypeError in the source; the model returns [Throw TypeError] there.
    - [LineWidth]: the width of a line as the scanner counts it
      ([line_width]), the invariant of the scanner ([scanner_ok]: the
      counter is the width of the line in progress and is below the limit),
      texts written as short lines joined by line feeds ([join_LF]), and
      the texts that end with a wide character one unit before the limit
      ([wide]).
    - [LineWellFormed]: strings without lone surrogates ([well_formed]) and
      their characters ([scalar]), the scanner on well-formed text
      ([scanner_wf]) and on text without white space ([scanner_full]), what
      the rebalancing keeps ([pairs_kept]), and the texts with a surrogate
      pair before the last code unit of the line before the last
      ([letter]).

    Numbers.
    - [JsNumber]: ECMAScript Numbers: IEEE 754 binary64 values carried by
      the Standard Library's [spec_float], arithmetic defined as the exact
      rational result rounded to nearest, ties to even ([round_ne]), as
      ECMA-262 6.1.6.1 words it, comparisons, [Math.floor], [Math.ceil].
      The operations are checked against the kernel's hardware floats and
      against [SpecFloat]'s bit-level operations on sample inputs.
    - [Rounding]: the theory of [round_ne]: it depends on the value of the
      rational only, it is exact on the values of the format
      ([canonical], [value]), and the comparisons of finite numbers are the
      comparisons of their values.
    - [SafeInteger]: the integers below 2^53 as Numbers ([safe], [of_Z]):
      on them the operations are those of the integers.
    - [RoundingError]: the error of [round_ne] in the range of the normal
      numbers: half a unit in the last place, the fraction 2^-53 of the
      exact result ([near], [normal_range]).
    - [RoundingOrder]: the mantissa and the exponent [round_pos] chooses,
      and that rounding never crosses a Number of the format ([between]),
      subnormal numbers included.
    - [IntegerNumber]: Numbers that are integers up to the sign of zero
      ([integer], [to_Z]), which is what the layout computes with.
    - [RoundingNearest]: [round_ne] returns the Number value of ECMA-262:
      a nearest Number ([nearest_value]), the one of even significand on a
      tie ([number_value]).
    - [WellFormed]: every rounding and every operation returns a Number of
      the format ([wf]).
    - [NumberToString]: Number::toString (ECMA-262 6.1.6.1.20) for every
      Number: the shortest digits that round to the Number
      ([shortest_digits]) and their layout ([format_digits]).

    The layout.
    - [Layout]: [generateImage] (index.js 72-120): per-line fit scale,
      real sizes, total height, global scale, the [y] accumulator of the
      [for] loop as a fold, and the overlay list with its two branches (the
      drawing passed as it is, or rasterised at the computed size).
    - [LayoutExact]: the integer reference layout ([centred], [stack],
      [block_height]) and the case where no line and no block is scaled
      ([unscaled]).
    - [LayoutFit]: the fit scale of a line larger than the canvas, with the
      two roundings of [canvas / line] and [line * scale] ([pixels],
      [fitting], [tight]).
    - [LayoutScaled]: the loop when the block is scaled: every product
      with the global scale carries the factor 1 + 2^-53 at most ([up]),
      the tops follow the integer stack of the real heights within one
      pixel, and every overlay lies within the canvas ([within]).
    - [LayoutTop]: the first top under a global scale, from the rounded
      product of the total height and the global scale ([scaled_total]).
    - [LayoutDisjoint]: the advance of [y] past a line against the height
      the line is drawn at ([below]).
    - [LayoutCentred]: the left offset of a line against the width it is
      drawn at ([centred_in]).
    - [Warning]: the text of the warning (index.js 96), with
      Number.prototype.toFixed ([toFixed]).

    The font, the renderer and the public operations.
    - [Options]: [parseTextOption] (index.js 179-203): the union
      string | TextOption as an Inductive, the three-layer [Object.assign]
      merge as [assign] on partial style records.
    - [FontCache]: the process-wide [t2sConfig], [getT2s] and [setFont]
      (index.js 8-19, 279-281) as a state machine over an abstract loader.
    - [Renderer]: [textSvg] (index.js 41-63) over an abstract glyph renderer.
    - [StringMatch]: the regular expression of [textSvg], a name followed
      by digits, at a position ([match_here]), and the match after a
      replacement.
    - [RendererExact]: [textSvg] on an SVG that declares its width and
      height in decimal ([declares]): the round trip of decimal digits, the
      place of the replacement, and what is written for a stroke size that
      is no natural number.
    - [Api]: [custom], [xibao], [beibao] (index.js 217-272) and the two
      presets [xibaoSize], [beibaoSize], composed as the code composes them.
    - [EndToEnd]: [custom] from the options to the overlays.

    What the theorems show.  [LineSplitter]: when the call throws and when
    it returns; that no returned line is empty; that the lines, concatenated,
    are the text when it has no white space; the exact result on
    pre-formatted text; what the rebalancing guarantees; the spec's examples.
    [LineWidth]: no returned line is wider than the limit plus one (for a
    limit of 7 or more), and at every limit the texts that end with a wide
    character one unit before the limit come back as one line of the limit
    plus one; a text of short lines joined by line feeds is split back into
    these lines.  [LineWellFormed]: the scanner never cuts a pair, so only
    the last two lines can hold a lone surrogate, and none does on
    pre-formatted text; the rebalancing does cut the pair of every text in
    which an astral character and a letter end the line before a last line
    of one or two letters; on text without white space all lines but the
    last two are filled to the limit and the number of lines is the least
    possible up to one.
    [Options]: the precedence of the merge and the shape of the result.
    [Layout]: one overlay per line, in order; the recurrence of [top]; the
    global scale; the numeric examples of the specification evaluated on
    binary64.  [Rounding] and [SafeInteger]: rounding is exact on the
    format, comparisons are those of the values, arithmetic on integers
    below 2^53 is integer arithmetic.  [RoundingError], [RoundingOrder] and
    [WellFormed]: the operations have the relative error 2^-53 at most,
    their results stay between the Numbers that bound the exact result, and
    they are Numbers of the format.  These are theorems of the arithmetic
    of the model, which is written from ECMA-262 and not from lines of
    [src/index.js]; the layout theorems rest on them.  [RoundingNearest]: a finite result is
    as near to the exact result as any finite Number, and it is the one of
    even significand when two are as near, so the operations of the model
    are the operations ECMA-262 defines.  [LayoutExact]: when every line fits
    the canvas and the block is not higher than the canvas, [generateImage]
    computes the integer reference layout exactly; every line is then inside
    the canvas, centred in the width, and the block is centred in the
    height.  [LayoutFit]: the fit scale is in (0, 1], every fitted line has
    an integer size within the canvas, a line larger than the canvas
    reaches the canvas width or height up to one pixel, and a line wider
    than its height times the canvas width has the real height 0 and is
    resized to the height 0.  [LayoutScaled]:
    whatever is scaled, every overlay has integer offsets and size and lies
    between the left and the right edge of the canvas and above its bottom
    edge; its top is at row -1 or below (row 0 when the block is not
    scaled).  [LayoutTop]: when the block is scaled the first line is at
    row -1 exactly when the product of the total height and the global
    scale, rounded, is greater than the canvas height, and at row 0
    otherwise; both happen.  [LayoutDisjoint]: every overlay starts at
    or below the row where the one before it ends.  [LayoutCentred]: the
    margin on the right of every overlay is the margin on its left or up
    to two pixels more.  [Warning]: the warning is printed with a
    scale below 1 and shows the canvas height over the block height to
    four places.  [RendererExact]: the width reported for a line is the
    width the SVG declares plus the stroke size, the SVG returned declares
    it, and the two regular expressions read the reported size back from
    it, when the stroke size is a natural number; for any stroke size the
    digits read are replaced by the string of the sum and the text behind
    them is kept, so that a fraction the font declared follows the new
    width.  [EndToEnd]: [custom] returns the reference layout of the
    measured lines when nothing is scaled, and overlays within the canvas
    in every case.  [FontCache]: the cache invariant (a loaded instance is
    the font of [loadedFontfile]) and that [getT2s] returns the font of the
    configured path.

    Bounds.  Code units are [N] (any value; the surrogate and white-space
    tests only read ranges below 2^16).  Counters and the width limit are
    [Z].  Numbers are binary64 throughout; no fuel is used anywhere, every
    loop of the source is a fold over a list.  The exact layout needs the
    canvas width and the canvas height plus the line space below 2^53,
    which every image size satisfies.  The fit of a line and the scaled
    layout are proved for sizes that are positive integers below 2^51
    ([pixels]) and for fewer than 2^51 / (height + line space) lines, so
    that the two or three roundings on the way to a [Math.floor] stay below
    one pixel.  [shortest_digits] tries 1 to 17 digits: 17 significant
    digits determine a binary64 value.  [toFixed] is modelled for 0 to 100
    fraction digits; the code passes 4.

    Not modelled: the raster library sharp (decoding, resizing,
    compositing), the font library text-to-svg (glyph outlines), the file
    system, the output stream of [console.warn] (the text is a value of
    [Warning]).  The model of [generateImage] is total: a resize to the
    width or the height 0, which sharp rejects, is an overlay like any
    other, and [getSVG] never throws.  Properties whose values are [undefined] by explicit
    assignment are not distinguished from absent ones.  The regular
    expressions are modelled as the two patterns of the source, not as a
    regular-expression engine. *)

From stdpp Require Export base tactics list.
From Stdlib Require Export ZArith Lia ZifyBool.

Set Default Proof Using "Type".

(** ** Computations that may throw

    A call either completes normally with a value or abruptly with a
    thrown exception (the completion records of ECMA-262 6.2.4). *)

(** The exceptions of the program: the TypeError of reading a property of
    [undefined], and the Error a library call throws. *)
Inductive js_error := TypeError | Error.

Inductive completion (A : Type) :=
  | Normal (a : A)
  | Throw (e : js_error).
Arguments Normal {A} a.
Arguments Throw {A} e.

#[export] Instance completion_ret : MRet completion := @Normal.
#[export] Instance completion_bind : MBind completion := λ A B k r,
  match r with Normal a => k a | Throw e => Throw e end.
#[export] Instance completion_fmap : FMap completion := λ A B f r,
  match r with Normal a => Normal (f a) | Throw e => Throw e end.

Definition is_normal {A} (r : completion A) : bool :=
  match r with Normal _ => true | Throw _ => false end.

#[export] Instance js_error_eq_dec : EqDecision js_error.
Proof. solve_decision. Defined.
#[export] Instance completion_eq_dec `{EqDecision A} : EqDecision (completion A).
Proof. solve_decision. Defined.

(** ** Lists *)

Section drop_while.
Context {A : Type} (p : A → bool).

Fixpoint drop_while (l : list A) : list A :=
  match l with
  | [] => []
  | x :: l' => if p x then drop_while l' else l
  end.

Lemma drop_while_suffix l : drop_while l `suffix_of` l.
Proof.
  induction l as [|x l IH]; simpl; [done|].
  destruct (p x); [by apply suffix_cons_r|done].
Qed.

(** What is dropped satisfies the test. *)
Lemma drop_while_split l :
  ∃ k, l = k ++ drop_while l ∧ Forall (λ x, p x = true) k.
Proof.
  induction l as [|x l (k & IH & Hk)]; [by exists []|]. simpl.
  destruct (p x) eqn:Hx; [|by exists []].
  exists (x :: k). split; [by rewrite IH at 1|by constructor].
Qed.

Lemma drop_while_sublist l : drop_while l `sublist_of` l.
Proof.
  induction l as [|x l IH]; simpl; [done|].
  destruct (p x); [by apply sublist_cons|done].
Qed.

Lemma drop_while_id l : Forall (λ x, p x = false) l → drop_while l = l.
Proof. destruct 1 as [|x l Hx _]; simpl; [done|by rewrite Hx]. Qed.

Lemma drop_while_all l : Forall (λ x, p x = true) l → drop_while l = [].
Proof. induction 1 as [|x l Hx _ IH]; simpl; [done|by rewrite Hx]. Qed.

Lemma drop_while_nil_inv l : drop_while l = [] → Forall (λ x, p x = true) l.
Proof.
  induction l as [|x l IH]; simpl; [constructor|].
  destruct (p x) eqn:Hx; [|done]. constructor; auto.
Qed.

Lemma drop_while_head l x l' : drop_while l = x :: l' → p x = false.
Proof.
  induction l as [|y l IH]; simpl; [done|].
  destruct (p y) eqn:Hy; [done|]. by intros [= -> _].
Qed.

Lemma filter_drop_while l :
  filter (λ x, p x = false) (drop_while l) = filter (λ x, p x = false) l.
Proof.
  induction l as [|x l IH]; simpl; [done|].
  destruct (p x) eqn:Hx; [|done].
  rewrite filter_cons_False; [done|congruence].
Qed.

Lemma drop_while_app_keep l k x :
  x ∈ l → p x = false → drop_while (l ++ k) = drop_while l ++ k.
Proof.
  induction l as [|y l IH]; simpl; [by intros ?%elem_of_nil|].
  intros [->|?]%elem_of_cons Hx; [by rewrite Hx|].
  destruct (p y); auto.
Qed.
End drop_while.

(** An invariant of a left fold: it holds at the start and every step on
    an element of the list keeps it. *)
Lemma foldl_invariant {A B} (P : A → Prop) (Q : B → Prop) (f : A → B → A) l a :
  (∀ a b, P a → Q b → P (f a b)) → Forall Q l → P a → P (foldl f a l).
Proof.
  intros Hf Hl. revert a. induction Hl as [|b l Hb _ IH]; intros a Ha; simpl; auto.
Qed.

Lemma sublist_reverse {A} (l k : list A) :
  l `sublist_of` k → reverse l `sublist_of` reverse k.
Proof.
  induction 1 as [|x l k _ IH|x l k _ IH]; rewrite ?reverse_cons; [done|..].
  - by apply sublist_app.
  - by apply sublist_inserts_r.
Qed.

Lemma elem_of_concat {A} (x : A) (ls : list (list A)) :
  x ∈ concat ls ↔ ∃ l, x ∈ l ∧ l ∈ ls.
Proof.
  rewrite list_elem_of_In, in_concat.
  split; intros (l & H1 & H2); exists l; rewrite ?list_elem_of_In in *; done.
Qed.

(** A list is empty, a singleton, or ends with two elements. *)
Lemma list_snoc2_cases {A} (l : list A) :
  l = [] ∨ (∃ x, l = [x]) ∨ (∃ init x y, l = init ++ [x; y]).
Proof.
  destruct l as [|y l _] using rev_ind; [by left|right].
  destruct l as [|x l _] using rev_ind; [left; by exists y|right].
  exists l, x, y. by rewrite <-app_assoc.
Qed.

Lemma filter_nil_iff {A} (P : A → Prop) `{!∀ x, Decision (P x)} l :
  filter P l = [] ↔ Forall (λ x, ¬ P x) l.
Proof.
  induction l as [|x l IH]; [by split; [constructor|]|].
  rewrite filter_cons, Forall_cons. case_decide; [|tauto].
  split; [done|tauto].
Qed.

Lemma filter_all {A} (P : A → Prop) `{!∀ x, Decision (P x)} l :
  Forall P l → filter P l = l.
Proof. induction 1; [done|]. rewrite filter_cons_True by done. by f_equal. Qed.

Lemma last_filter_snoc {A} (P : A → Prop) `{!∀ x, Decision (P x)} l x :
  P x → last (filter P (l ++ [x])) = Some x.
Proof. intros. by rewrite filter_app, filter_cons_True, filter_nil, last_snoc. Qed.

Lemma concat_filter_nonempty {A} (ls : list (list A)) :
  concat (filter (λ l, l ≠ []) ls) = concat ls.
Proof.
  induction ls as [|l ls IH]; [done|].
  rewrite filter_cons. case_decide as Hl; simpl; [by rewrite IH|].
  by rewrite Hl, IH.
Qed.

Lemma Forall_filter_nonempty {A} (ls : list (list A)) :
  Forall (λ l, l ≠ []) (filter (λ l, l ≠ []) ls).
Proof. apply Forall_forall. by intros l [? _]%list_elem_of_filter. Qed.

(** ** Tactics and hints *)

Create HintDb xibao discriminated.

(** Case analysis on the first boolean test ([if] or [bool_decide]) found
    in the goal, keeping the equation. *)
Ltac case_bool :=
  match goal with
  | |- context [bool_decide ?P] => destruct (bool_decide_reflect P)
  | |- context [if ?b then _ else _] =>
      lazymatch type of b with
      | bool => let E := fresh "Hb" in destruct b eqn:E
      end
  end.

(** Equations between completions: [Normal] is injective and differs from
    [Throw]. *)
Ltac simpl_completion :=
  repeat match goal with
  | H : Normal _ = Normal _ |- _ => injection H as H
  | H : Normal _ = Throw _ |- _ => discriminate H
  | H : Throw _ = Normal _ |- _ => discriminate H
  end; subst.
