(* ===== verification/JsString.v ===== *)
(** * ECMAScript strings

    A String value is a finite sequence of 16-bit code units (ECMA-262
    6.1.4).  The source indexes strings by code unit ([length],
    [substring], [charCodeAt]) but iterates them by code point
    ([for (const char of text)]), so both views are modelled: a string is a
    list of code units, and [string_iterator] groups a well-formed surrogate
    pair into one two-unit character, as the String iterator does. *)

From stdpp Require Import numbers.
From Stdlib Require Import Ascii String.
From S2P Require Import Prelude.

#[local] Open Scope N_scope.

Abbreviation code_unit := N (only parsing).
Abbreviation jsstring := (list N) (only parsing).

(** The line feed ['\n']. *)
Definition LF : code_unit := 10.

(** An ASCII literal as a string of code units, for examples. *)
Definition str (s : string) : jsstring :=
  N_of_ascii <$> list_ascii_of_string s.

(** ** Iteration by code point *)

Definition is_leading_surrogate (c : code_unit) : bool :=
  (0xD800 <=? c) && (c <=? 0xDBFF).
Definition is_trailing_surrogate (c : code_unit) : bool :=
  (0xDC00 <=? c) && (c <=? 0xDFFF).

(** The characters [for (const char of s)] yields, each as a string of one
    code unit, or of two when a leading surrogate is followed by a trailing
    one (CodePointAt, ECMA-262 11.1.4). *)
Fixpoint string_iterator (s : jsstring) : list jsstring :=
  match s with
  | [] => []
  | c :: tl =>
    match tl with
    | d :: tl' =>
      if is_leading_surrogate c && is_trailing_surrogate d
      then [c; d] :: string_iterator tl'
      else [c] :: string_iterator tl
    | [] => [[c]]
    end
  end.

(** [char.charCodeAt(0) < 256]; the comparison is false on the NaN of an
    empty string. *)
Definition charCode_lt_256 (char : jsstring) : bool :=
  match char with
  | c :: _ => c <? 256
  | [] => false
  end.

(** [s.includes('\n')]. *)
Definition includes_LF (s : jsstring) : bool := bool_decide (LF ∈ s).

(** ** White space and [trim] *)

(** WhiteSpace and LineTerminator code points (ECMA-262 12.2, 12.3): the
    characters [String.prototype.trim] strips. All are single code units. *)
Definition is_whitespace (c : code_unit) : bool :=
  (9 <=? c) && (c <=? 13) || (c =? 32) || (c =? 0xA0) || (c =? 0x1680)
  || (0x2000 <=? c) && (c <=? 0x200A)
  || (c =? 0x2028) || (c =? 0x2029) || (c =? 0x202F) || (c =? 0x205F)
  || (c =? 0x3000) || (c =? 0xFEFF).

Definition trim_start (s : jsstring) : jsstring := drop_while is_whitespace s.
Definition trim_end (s : jsstring) : jsstring :=
  reverse (drop_while is_whitespace (reverse s)).
Definition trim (s : jsstring) : jsstring := trim_end (trim_start s).

(** [s.substring(n)] and [s.substring(0, n)] for an index [n] that is not
    negative (indices past the end are clamped, as [drop] and [take] do). *)
Definition substring_from (s : jsstring) (n : nat) : jsstring := drop n s.
Definition substring_to (s : jsstring) (n : nat) : jsstring := take n s.

(** ** The iterator *)

Lemma string_iterator_cons c d tl :
  string_iterator (c :: d :: tl) =
    if is_leading_surrogate c && is_trailing_surrogate d
    then [c; d] :: string_iterator tl
    else [c] :: string_iterator (d :: tl).
Proof. reflexivity. Qed.

Lemma string_iterator_not_leading c s :
  is_leading_surrogate c = false →
  string_iterator (c :: s) = [c] :: string_iterator s.
Proof. intros Hc. destruct s as [|d s]; [done|]. by rewrite string_iterator_cons, Hc. Qed.

(** A code unit that is not a surrogate is a character of its own, whatever
    stands before it. *)
Lemma string_iterator_app_cons s c t :
  is_leading_surrogate c = false → is_trailing_surrogate c = false →
  string_iterator (s ++ c :: t) = string_iterator s ++ [c] :: string_iterator t.
Proof.
  intros Hl Ht. induction s as [s IH] using (induction_ltof1 _ length).
  unfold ltof in IH. destruct s as [|x [|y s]].
  - by apply string_iterator_not_leading.
  - simpl app. rewrite string_iterator_cons, Ht, andb_false_r.
    by rewrite string_iterator_not_leading.
  - simpl app. rewrite !string_iterator_cons.
    destruct (_ && _); simpl; f_equal; [apply IH|apply (IH (y :: s))]; simpl; lia.
Qed.

Lemma string_iterator_concat s : concat (string_iterator s) = s.
Proof.
  induction s as [s IH] using (induction_ltof1 _ length); unfold ltof in IH.
  destruct s as [|c [|d tl]]; [done..|].
  rewrite string_iterator_cons.
  destruct (_ && _); rewrite concat_cons, IH by (simpl; lia); done.
Qed.

Lemma string_iterator_nonempty s : Forall (λ char, char ≠ []) (string_iterator s).
Proof.
  induction s as [s IH] using (induction_ltof1 _ length); unfold ltof in IH.
  destruct s as [|c [|d tl]]; [repeat constructor; done..|].
  rewrite string_iterator_cons.
  destruct (_ && _); constructor; try done; apply IH; simpl; lia.
Qed.

Lemma string_iterator_units s char :
  char ∈ string_iterator s → Forall (λ c, c ∈ s) char.
Proof.
  intros Hin. apply Forall_forall. intros c Hc.
  rewrite <-(string_iterator_concat s). apply elem_of_concat. eauto.
Qed.

Lemma string_iterator_nil_inv s : string_iterator s = [] → s = [].
Proof. intros H. by rewrite <-(string_iterator_concat s), H. Qed.

(** Surrogates are not white space, so stripping never splits a pair. *)
Lemma is_whitespace_not_surrogate c :
  is_whitespace c = true →
  is_leading_surrogate c = false ∧ is_trailing_surrogate c = false.
Proof. unfold is_whitespace, is_leading_surrogate, is_trailing_surrogate. lia. Qed.

Lemma is_whitespace_LF : is_whitespace LF = true.
Proof. reflexivity. Qed.

Lemma includes_LF_false s : includes_LF s = false ↔ LF ∉ s.
Proof. unfold includes_LF. by rewrite bool_decide_eq_false. Qed.

Lemma includes_LF_true s : includes_LF s = true ↔ LF ∈ s.
Proof. unfold includes_LF. by rewrite bool_decide_eq_true. Qed.

(** ** [trim] *)

Lemma trim_end_sublist s : trim_end s `sublist_of` s.
Proof.
  unfold trim_end. rewrite <-(reverse_involutive s) at 2.
  apply sublist_reverse, drop_while_sublist.
Qed.

Lemma trim_sublist s : trim s `sublist_of` s.
Proof.
  unfold trim. etrans; [apply trim_end_sublist|apply drop_while_sublist].
Qed.

Lemma trim_length s : (length (trim s) ≤ length s)%nat.
Proof. apply sublist_length, trim_sublist. Qed.

Lemma trim_nil : trim [] = [].
Proof. reflexivity. Qed.

(** A string without white space is its own trim. *)
Lemma trim_id s : Forall (λ c, is_whitespace c = false) s → trim s = s.
Proof.
  intros Hs. unfold trim, trim_end, trim_start.
  rewrite (drop_while_id _ s Hs), drop_while_id, reverse_involutive; [done|].
  by apply Forall_reverse.
Qed.

(** [trim] is empty exactly on strings of white space. *)
Lemma trim_nil_iff s : trim s = [] ↔ Forall (λ c, is_whitespace c = true) s.
Proof.
  unfold trim, trim_end, trim_start. split.
  - intros H. apply (f_equal reverse) in H.
    rewrite reverse_involutive, reverse_nil in H.
    apply drop_while_nil_inv, Forall_reverse in H.
    rewrite reverse_involutive in H.
    destruct (drop_while is_whitespace s) as [|c s'] eqn:Hd.
    { by apply drop_while_nil_inv in Hd. }
    apply drop_while_head in Hd. apply Forall_cons_1 in H as [H _]. congruence.
  - intros H. by rewrite (drop_while_all _ s H).
Qed.

(** [trim] strips white space on both sides, and nothing else. *)
Lemma trim_split s :
  ∃ k k', s = k ++ trim s ++ k' ∧
    Forall (λ c, is_whitespace c = true) k ∧ Forall (λ c, is_whitespace c = true) k'.
Proof.
  unfold trim, trim_end, trim_start.
  destruct (drop_while_split is_whitespace s) as (k & Hs & Hk).
  destruct (drop_while_split is_whitespace (reverse (drop_while is_whitespace s)))
    as (k' & Hr & Hk').
  exists k, (reverse k'). split_and!; [|done|by apply Forall_reverse].
  apply (f_equal reverse) in Hr. rewrite reverse_involutive, reverse_app in Hr.
  by rewrite <-Hr.
Qed.

Lemma trim_elem_of c s : c ∈ trim s → c ∈ s.
Proof. intros. by eapply elem_of_sublist; [|apply trim_sublist]. Qed.

(** The first and the last code unit of a trimmed string are not white
    space. *)
Lemma trim_head s c : head (trim s) = Some c → is_whitespace c = false.
Proof.
  unfold trim, trim_end, trim_start.
  destruct (drop_while is_whitespace s) as [|d s'] eqn:Hd; [done|].
  apply drop_while_head in Hd. intros Hh.
  destruct (decide (is_whitespace c = false)) as [|Hc%not_false_is_true]; [done|].
  exfalso. revert Hh.
  destruct (drop_while is_whitespace (reverse (d :: s'))) as [|e k] eqn:Hk.
  { done. }
  pose proof (drop_while_suffix is_whitespace (reverse (d :: s'))) as [pre Hpre].
  rewrite Hk in Hpre. apply (f_equal reverse) in Hpre.
  rewrite reverse_involutive, reverse_app in Hpre.
  destruct (reverse (e :: k)) as [|x r] eqn:Hr.
  { apply (f_equal length) in Hr. rewrite length_reverse in Hr. done. }
  simpl in Hpre. injection Hpre as -> _. simpl. intros [= ->]. congruence.
Qed.

Lemma trim_last s c : last (trim s) = Some c → is_whitespace c = false.
Proof.
  unfold trim, trim_end. rewrite last_reverse.
  destruct (drop_while is_whitespace (reverse (trim_start s))) eqn:Hd; [done|].
  intros [= ->]. by apply drop_while_head in Hd.
Qed.

(** ** Searching and replacing *)

#[local] Open Scope N_scope.

(** The rest of [s] after the prefix [p], when [s] starts with [p]. *)
Fixpoint strip_prefix (p s : jsstring) : option jsstring :=
  match p, s with
  | [], _ => Some s
  | a :: p', b :: s' => if bool_decide (a = b) then strip_prefix p' s' else None
  | _ :: _, [] => None
  end.

(** [s.replace(pat, rep)] for a string pattern and a replacement without
    [$]: the first occurrence of [pat] is replaced. *)
Fixpoint replace_first (pat rep s : jsstring) : jsstring :=
  match strip_prefix pat s with
  | Some rest => rep ++ rest
  | None =>
    match s with
    | [] => []
    | c :: tl => c :: replace_first pat rep tl
    end
  end.

Definition is_digit (c : code_unit) : bool := (48 <=? c) && (c <=? 57).

(** The digits a string starts with: what [(\d+)] captures, greedily. *)
Fixpoint leading_digits (s : jsstring) : jsstring :=
  match s with
  | c :: tl => if is_digit c then c :: leading_digits tl else []
  | [] => []
  end.

(** [s.match(/name(\d+)/)?.[1]]: the digits captured by the leftmost
    match, [None] ([undefined]) when nothing matches. *)
Fixpoint match_digits (name s : jsstring) : option jsstring :=
  let here :=
    match strip_prefix name s with
    | Some rest =>
      match leading_digits rest with
      | [] => None
      | ds => Some ds
      end
    | None => None
    end in
  match here, s with
  | Some ds, _ => Some ds
  | None, [] => None
  | None, _ :: tl => match_digits name tl
  end.

Lemma strip_prefix_app p s : strip_prefix p (p ++ s) = Some s.
Proof. induction p as [|a p IH]; simpl; [done|]. by rewrite bool_decide_eq_true_2. Qed.

Lemma strip_prefix_Some p s rest : strip_prefix p s = Some rest → s = p ++ rest.
Proof.
  revert s. induction p as [|a p IH]; intros [|b s]; simpl; try done.
  - by intros [= ->].
  - by intros [= ->].
  - case_bool; [|done]. intros ?%IH. by subst.
Qed.

Lemma leading_digits_all s : Forall (λ c, is_digit c = true) (leading_digits s).
Proof.
  induction s as [|c s IH]; simpl; [constructor|].
  destruct (is_digit c) eqn:Hc; by constructor.
Qed.

Lemma leading_digits_app ds s :
  Forall (λ c, is_digit c = true) ds → leading_digits s = [] →
  leading_digits (ds ++ s) = ds.
Proof.
  intros Hds Hs. induction Hds as [|c ds Hc _ IH]; simpl; [done|].
  by rewrite Hc, IH.
Qed.

(** A string is the digits it starts with and a rest that starts with no
    digit. *)
Lemma leading_digits_split s :
  ∃ rest, s = leading_digits s ++ rest ∧ leading_digits rest = [].
Proof.
  induction s as [|c s (rest & Hs & Hr)]; simpl; [by exists []|].
  destruct (is_digit c) eqn:Hc.
  - exists rest. simpl. by rewrite <-Hs.
  - exists (c :: s). split; [done|]. simpl. by rewrite Hc.
Qed.

Lemma leading_digits_nonempty ds s :
  ds ≠ [] → Forall (λ c, is_digit c = true) ds → leading_digits (ds ++ s) ≠ [].
Proof. intros Hne Hds. destruct Hds as [|c ds Hc _]; [done|]. simpl. by rewrite Hc. Qed.

Lemma strip_prefix_app_Some p q s rest :
  strip_prefix (p ++ q) s = Some rest →
  ∃ mid, strip_prefix p s = Some mid ∧ strip_prefix q mid = Some rest.
Proof.
  intros H. apply strip_prefix_Some in H as ->. exists (q ++ rest).
  by rewrite <-app_assoc, !strip_prefix_app.
Qed.

Lemma replace_first_prefix pat rep s rest :
  strip_prefix pat s = Some rest → replace_first pat rep s = rep ++ rest.
Proof. intros H. destruct s; simpl; by rewrite H. Qed.

Lemma replace_first_cons pat rep c s :
  strip_prefix pat (c :: s) = None →
  replace_first pat rep (c :: s) = c :: replace_first pat rep s.
Proof. intros H. simpl in *. by rewrite H. Qed.

(** No match of [name ++ ds] starts where [name] is not followed by
    digits. *)
Lemma strip_prefix_no_digits name ds s :
  ds ≠ [] → Forall (λ c, is_digit c = true) ds →
  match strip_prefix name s with
  | Some rest => leading_digits rest = []
  | None => True
  end →
  strip_prefix (name ++ ds) s = None.
Proof.
  intros Hne Hds H. destruct (strip_prefix (name ++ ds) s) as [r|] eqn:Hp; [|done].
  apply strip_prefix_app_Some in Hp as (mid & Hmid & Hr). rewrite Hmid in H.
  apply strip_prefix_Some in Hr as ->.
  by apply (leading_digits_nonempty ds r) in Hne.
Qed.

(** What the match of [/name(\d+)/] tells about the string: the captured
    digits [ds] follow the leftmost [name] that digits follow, and
    replacing [name ++ ds] replaces them there. *)
Lemma match_digits_Some name s ds :
  match_digits name s = Some ds →
  ds ≠ [] ∧ Forall (λ c, is_digit c = true) ds ∧
  ∃ pre post, s = pre ++ name ++ ds ++ post ∧ leading_digits post = [] ∧
    ∀ rep, replace_first (name ++ ds) rep s = pre ++ rep ++ post.
Proof.
  induction s as [|c s IH]; intros H; simpl in H.
  - destruct (strip_prefix name []) as [rest|] eqn:Hp; [|done].
    apply strip_prefix_Some in Hp. by destruct name, rest.
  - pose proof (strip_prefix_no_digits name ds (c :: s)) as Hno.
    destruct (strip_prefix name (c :: s)) as [rest|] eqn:Hp;
      [destruct (leading_digits rest) as [|d ds'] eqn:Hd|].
    2:{ injection H as <-.
        destruct (leading_digits_split rest) as (post & Hrest & Hpost).
        rewrite Hd in Hrest. subst rest. apply strip_prefix_Some in Hp.
        split_and!; [done|rewrite <-Hd; apply leading_digits_all|].
        exists [], post. split_and!; [done..|].
        intros rep. rewrite (replace_first_prefix _ _ _ post); [done|].
        rewrite Hp, app_assoc. apply strip_prefix_app. }
    all: apply IH in H as (Hne & Hds & pre & post & -> & Hpost & Hrep);
      split_and!; [done..|]; exists (c :: pre), post; split_and!; [done..|];
      intros rep; rewrite replace_first_cons by auto; by rewrite Hrep.
Qed.
