(* ===== verification/LineSplitter.v ===== *)
(** * The line splitter: [textToLines] (src/index.js, lines 137-171)

    The scanner keeps three variables, the finished [lines], the current
    [line] and its width counter [ctr]; [addLine] flushes the trimmed line.
    A character narrower than code 256 counts one unit, any other two; a
    line feed flushes; reaching [max] units flushes.  After the scan empty
    lines are dropped and, when the text had no line feed, a last line
    shorter than three code units takes the last two code units of a
    second-to-last line longer than five. *)

From stdpp Require Import numbers.
From Stdlib Require Import String.
From S2P Require Import Prelude JsString.

#[local] Open Scope Z_scope.

(** ** The scanner *)

Record scanner := Scanner {
  lines : list jsstring;
  line : jsstring;
  ctr : Z
}.

Definition scanner_init : scanner := Scanner [] [] 0.

(** [addLine]: push the trimmed line, reset the line and the counter. *)
Definition addLine (st : scanner) : scanner :=
  {| lines := lines st ++ [trim (line st)]; line := []; ctr := 0 |}.

(** The width units of one iterated character. *)
Definition char_units (char : jsstring) : Z :=
  if charCode_lt_256 char then 1 else 2.

(** The body of the [for ... of] loop for one character. *)
Definition scan_char (max : Z) (st : scanner) (char : jsstring) : scanner :=
  if bool_decide (char = [LF]) then addLine st
  else
    let st' := {| lines := lines st;
                  line := line st ++ char;
                  ctr := ctr st + char_units char |} in
    if bool_decide (max ≤ ctr st') then addLine st' else st'.

(** The whole loop, then the final [addLine]. *)
Definition scan (max : Z) (text : jsstring) : scanner :=
  addLine (foldl (scan_char max) scanner_init (string_iterator text)).

(** [lines.filter(l => l)]: the empty string is the only falsy string. *)
Definition nonempty_lines (ls : list jsstring) : list jsstring :=
  filter (λ l, l ≠ []) ls.

(** The rebalancing of the last two lines: [last2] gives its last two code
    units to [last]. *)
Definition rebalance (init : list jsstring) (last2 last : jsstring)
  : list jsstring :=
  init ++ [substring_to last2 (length last2 - 2);
           substring_from last2 (length last2 - 2) ++ last].

(** The tail of [textToLines] for text without a line feed.  [last] is
    [result[result.length - 1]]; it is [undefined] when [result] is empty
    and reading its [length] throws a TypeError.  [last2] is [undefined]
    when [result] has one element, and the test is then false. *)
Definition balance_last (result : list jsstring) : completion (list jsstring) :=
  match reverse result with
  | [] => Throw TypeError
  | [_] => Normal result
  | last :: last2 :: rinit =>
    if bool_decide (length last < 3)%nat && bool_decide (5 < length last2)%nat
    then Normal (rebalance (reverse rinit) last2 last)
    else Normal result
  end.

Definition textToLines (text : jsstring) (max : Z) : completion (list jsstring) :=
  let result := nonempty_lines (lines (scan max text)) in
  if includes_LF text then Normal result else balance_last result.

(** The default value of the parameter [max]. *)
Definition default_max : Z := 16.

(** ** The specification's examples *)

Example textToLines_13_ascii :
  textToLines (str "ABCDEFGHIJKLM") 16 = Normal [str "ABCDEFGHIJKLM"].
Proof. vm_compute. reflexivity. Qed.

Example textToLines_rebalance :
  textToLines (str "ABCDEFGHXY") 8 = Normal [str "ABCDEF"; str "GHXY"].
Proof. vm_compute. reflexivity. Qed.

Example textToLines_9_wide :
  textToLines (replicate 9 0x559C%N) 16 =
    Normal [replicate 6 0x559C%N; replicate 3 0x559C%N].
Proof. vm_compute. reflexivity. Qed.

(** ** The non-white-space content is preserved *)

Abbreviation nonws := (λ c : N, is_whitespace c = false).

(** Everything the scanner has read and not dropped. *)
Definition content (st : scanner) : jsstring := concat (lines st) ++ line st.

Lemma filter_nonws_trim s : filter nonws (trim s) = filter nonws s.
Proof.
  unfold trim, trim_end, trim_start.
  rewrite filter_reverse, filter_drop_while, filter_reverse, filter_drop_while.
  apply reverse_involutive.
Qed.

Lemma addLine_content st :
  filter nonws (content (addLine st)) = filter nonws (content st).
Proof.
  unfold content, addLine; simpl.
  rewrite concat_app, app_nil_r, !filter_app; simpl.
  by rewrite app_nil_r, filter_nonws_trim.
Qed.

Lemma scan_char_content max st char :
  filter nonws (content (scan_char max st char)) =
  filter nonws (content st ++ char).
Proof.
  unfold scan_char. repeat case_bool; rewrite ?addLine_content; subst.
  - rewrite filter_app, filter_cons_False, filter_nil, app_nil_r; done.
  - unfold content; simpl. by rewrite app_assoc.
  - unfold content; simpl. by rewrite app_assoc.
Qed.

Lemma foldl_scan_char_content max chars st :
  filter nonws (content (foldl (scan_char max) st chars)) =
  filter nonws (content st ++ concat chars).
Proof.
  revert st. induction chars as [|char chars IH]; intros st; simpl.
  { by rewrite app_nil_r. }
  by rewrite IH, !filter_app, scan_char_content, filter_app, <-!app_assoc.
Qed.

Lemma scan_line max text : line (scan max text) = [].
Proof. reflexivity. Qed.

Lemma scan_content max text :
  filter nonws (concat (lines (scan max text))) = filter nonws text.
Proof.
  rewrite <-(app_nil_r (concat _)), <-(scan_line max text).
  unfold scan. fold (content (addLine (foldl (scan_char max) scanner_init
    (string_iterator text)))).
  by rewrite addLine_content, foldl_scan_char_content, string_iterator_concat.
Qed.

(** ** Every scanned line is trimmed *)

Definition trimmed (l : jsstring) : Prop := trim l = l.

Lemma trim_trimmed s : trimmed (trim s).
Proof.
  unfold trimmed. destruct (trim s) as [|c s'] eqn:Hs; [done|].
  rewrite <-Hs. unfold trim at 1, trim_start, trim_end.
  assert (Hh : is_whitespace c = false) by (apply (trim_head s); by rewrite Hs).
  rewrite Hs. simpl. rewrite Hh.
  destruct (reverse (c :: s')) as [|d r] eqn:Hr.
  { apply (f_equal length) in Hr. rewrite length_reverse in Hr. done. }
  simpl. assert (Hl : is_whitespace d = false).
  { apply (trim_last s). by rewrite Hs, <-head_reverse, Hr. }
  by rewrite Hl, <-Hr, reverse_involutive.
Qed.

Lemma addLine_trimmed st :
  Forall trimmed (lines st) → Forall trimmed (lines (addLine st)).
Proof. intros H. apply Forall_app. split; [done|]. repeat constructor. apply trim_trimmed. Qed.

Lemma scan_char_trimmed max st char :
  Forall trimmed (lines st) → Forall trimmed (lines (scan_char max st char)).
Proof. intros H. unfold scan_char. repeat case_bool; auto using addLine_trimmed. Qed.

Lemma scan_trimmed max text : Forall trimmed (lines (scan max text)).
Proof.
  unfold scan. apply addLine_trimmed.
  apply (foldl_invariant (λ st, Forall trimmed (lines st)) (λ _, True));
    [auto using scan_char_trimmed|by apply Forall_true|constructor].
Qed.

(** A trimmed line that is not empty holds a code unit that is not white
    space, so it shows in the filtered content. *)
Lemma trimmed_nonempty_content l :
  trimmed l → l ≠ [] → filter nonws l ≠ [].
Proof.
  intros Ht Hl. destruct l as [|c l]; [done|].
  assert (is_whitespace c = false) by (apply (trim_head (c :: l)); by rewrite Ht).
  by rewrite filter_cons_True.
Qed.

Lemma nonempty_lines_nil_iff text max :
  nonempty_lines (lines (scan max text)) = [] ↔
  Forall (λ c, is_whitespace c = true) text.
Proof.
  pose proof (scan_content max text) as Hc.
  pose proof (scan_trimmed max text) as Ht.
  assert (Hws : Forall (λ c, is_whitespace c = true) text ↔ filter nonws text = []).
  { rewrite filter_nil_iff. apply Forall_iff. intros c. by destruct (is_whitespace c). }
  rewrite Hws, <-Hc. unfold nonempty_lines. split.
  - intros Hn. by rewrite <-concat_filter_nonempty, Hn.
  - intros Hf. apply filter_nil_iff, Forall_forall. intros l Hl Hne. apply Hne.
    rewrite Forall_forall in Ht.
    destruct (decide (l = [])) as [|Hne']; [done|exfalso].
    apply (trimmed_nonempty_content l (Ht l Hl) Hne').
    rewrite filter_nil_iff, Forall_forall in Hf |- *.
    intros c Hin. apply Hf, elem_of_concat. eauto.
Qed.

(** ** The last two lines *)

Lemma balance_last_nil : balance_last [] = Throw TypeError.
Proof. reflexivity. Qed.

Lemma balance_last_singleton l : balance_last [l] = Normal [l].
Proof. reflexivity. Qed.

Lemma balance_last_snoc2 init l2 l :
  balance_last (init ++ [l2; l]) =
    if bool_decide (length l < 3)%nat && bool_decide (5 < length l2)%nat
    then Normal (rebalance init l2 l)
    else Normal (init ++ [l2; l]).
Proof.
  unfold balance_last. rewrite reverse_app. simpl.
  by rewrite reverse_involutive.
Qed.

Lemma rebalance_concat init l2 l :
  concat (rebalance init l2 l) = concat (init ++ [l2; l]).
Proof.
  unfold rebalance, substring_to, substring_from.
  rewrite !concat_app. f_equal. simpl.
  by rewrite !app_nil_r, app_assoc, take_drop.
Qed.

Lemma rebalance_length init l2 l :
  length (rebalance init l2 l) = length (init ++ [l2; l]).
Proof. unfold rebalance. by rewrite !length_app. Qed.

(** The three shapes of [result] and what [balance_last] does on each. *)
Lemma balance_last_cases res :
  (res = [] ∧ balance_last res = Throw TypeError) ∨
  (∃ l, res = [l] ∧ balance_last res = Normal res) ∨
  (∃ init l2 l, res = init ++ [l2; l] ∧
     (((length l < 3)%nat ∧ (5 < length l2)%nat ∧
       balance_last res = Normal (rebalance init l2 l)) ∨
      (((3 ≤ length l)%nat ∨ (length l2 ≤ 5)%nat) ∧
       balance_last res = Normal res))).
Proof.
  destruct (list_snoc2_cases res) as [->|[[l ->]|(init & l2 & l & ->)]].
  - by left.
  - right; left. by exists l.
  - right; right. exists init, l2, l. split; [done|].
    rewrite balance_last_snoc2.
    repeat case_bool; simpl; [left|right; split; [lia|done]..]. done.
Qed.

Lemma balance_last_throw res : balance_last res = Throw TypeError ↔ res = [].
Proof.
  destruct (balance_last_cases res)
    as [[-> ->]|[(l & -> & ->)|(init & l2 & l & -> & [(_ & _ & ->)|[_ ->]])]];
    split; try done; by intros [_ ?]%app_nil.
Qed.

Lemma balance_last_concat res ls :
  balance_last res = Normal ls → concat ls = concat res.
Proof.
  destruct (balance_last_cases res)
    as [[-> ->]|[(l & -> & ->)|(init & l2 & l & -> & [(_ & _ & ->)|[_ ->]])]];
    intros [= <-]; auto using rebalance_concat.
Qed.

Lemma balance_last_length res ls :
  balance_last res = Normal ls → length ls = length res.
Proof.
  destruct (balance_last_cases res)
    as [[-> ->]|[(l & -> & ->)|(init & l2 & l & -> & [(_ & _ & ->)|[_ ->]])]];
    intros [= <-]; auto using rebalance_length.
Qed.

Lemma rebalance_nonempty init l2 l :
  Forall (λ l, l ≠ []) (init ++ [l2; l]) → (5 < length l2)%nat →
  Forall (λ l, l ≠ []) (rebalance init l2 l).
Proof.
  intros [Hi Hl]%Forall_app Hlen. apply Forall_app. split; [done|].
  apply Forall_cons_1 in Hl as [_ [Hl _]%Forall_cons_1].
  unfold substring_to, substring_from.
  repeat constructor; intros H%(f_equal length); revert H;
    rewrite ?length_app, ?length_take, ?length_drop; simpl; [lia|].
  destruct l; [done|simpl; lia].
Qed.

#[export] Hint Resolve rebalance_concat rebalance_length rebalance_nonempty : xibao.

Lemma balance_last_nonempty res ls :
  Forall (λ l, l ≠ []) res → balance_last res = Normal ls →
  Forall (λ l, l ≠ []) ls.
Proof.
  destruct (balance_last_cases res)
    as [[-> ->]|[(l & -> & ->)|(init & l2 & l & -> & [(_ & ? & ->)|[_ ->]])]];
    intros Hne [= <-]; auto with xibao.
Qed.

(** ** Theorems on [textToLines] *)

(** The lines returned, put together, are the lines of the scanner put
    together: the filter removes empty lines and the rebalancing moves code
    units from one line to the next. *)
Lemma textToLines_concat text max ls :
  textToLines text max = Normal ls → concat ls = concat (lines (scan max text)).
Proof.
  unfold textToLines. rewrite <-(concat_filter_nonempty (lines _)).
  fold (nonempty_lines (lines (scan max text))).
  destruct (includes_LF text); [by intros [= <-]|apply balance_last_concat].
Qed.

(** White space without a line feed makes the call throw. *)
Lemma textToLines_blank text max :
  includes_LF text = false → Forall (λ c, is_whitespace c = true) text →
  textToLines text max = Throw TypeError.
Proof.
  intros HLF Hws. unfold textToLines. rewrite HLF.
  by rewrite (proj2 (nonempty_lines_nil_iff text max) Hws).
Qed.

(** A call that throws got a text of white space without line feed. *)
Lemma textToLines_Throw_inv text max e :
  textToLines text max = Throw e →
  includes_LF text = false ∧ Forall (λ c, is_whitespace c = true) text.
Proof.
  unfold textToLines. rewrite <-(nonempty_lines_nil_iff text max).
  destruct (includes_LF text); [done|]. intros H. split; [done|].
  destruct (balance_last_cases (nonempty_lines (lines (scan max text))))
    as [[? _]|[(l & _ & E)|(init & l2 & l & _ & [(_ & _ & E)|[_ E]])]];
    [done|congruence..].
Qed.

(** C1: [textToLines] throws (the TypeError of reading [length] of
    [undefined]) exactly when the text has no line feed and consists of
    white space only; on every other text it returns. *)
Theorem textToLines_throws text max :
  textToLines text max = Throw TypeError ↔
  includes_LF text = false ∧ Forall (λ c, is_whitespace c = true) text.
Proof.
  unfold textToLines. rewrite <-(nonempty_lines_nil_iff text max).
  destruct (includes_LF text); [by split; [|intros []]|].
  rewrite balance_last_throw. tauto.
Qed.

Lemma textToLines_throw_TypeError text max e :
  textToLines text max = Throw e → e = TypeError.
Proof.
  unfold textToLines. destruct (includes_LF text); [done|].
  destruct (balance_last_cases (nonempty_lines (lines (scan max text))))
    as [[_ ->]|[(l & _ & ->)|(init & l2 & l & _ & [(_ & _ & ->)|[_ ->]])]];
    congruence.
Qed.

(** On the empty text, the default of the parameter, the call throws for
    every width limit, where the specification promises an empty result. *)
Example textToLines_empty_throws max : textToLines [] max = Throw TypeError.
Proof. reflexivity. Qed.

(** C24: no returned line is the empty string, also after rebalancing. *)
Theorem textToLines_nonempty text max ls :
  textToLines text max = Normal ls → Forall (λ l, l ≠ []) ls.
Proof.
  unfold textToLines. pose proof (Forall_filter_nonempty (lines (scan max text))).
  destruct (includes_LF text); [by intros [= <-]|].
  by apply balance_last_nonempty.
Qed.

Lemma textToLines_nonempty_witness :
  Forall (λ l, l ≠ []) [str "ABCDEF"; str "GHXY"].
Proof. apply (textToLines_nonempty (str "ABCDEFGHXY") 8). vm_compute. reflexivity. Defined.

(** C2: the code units that are not white space are kept, all of them and
    in order: the lines concatenated and the text agree once white space is
    removed from both. *)
Theorem textToLines_content text max ls :
  textToLines text max = Normal ls →
  filter nonws (concat ls) = filter nonws text.
Proof. intros ->%textToLines_concat. apply scan_content. Qed.

Lemma textToLines_content_witness :
  filter nonws (concat [str "ABCDEF"; str "GHXY"]) = filter nonws (str "ABCDEFGHXY").
Proof. apply (textToLines_content (str "ABCDEFGHXY") 8). vm_compute. reflexivity. Defined.

(** ** Nothing is invented: the lines are a subsequence of the text *)

Lemma addLine_sublist st : content (addLine st) `sublist_of` content st.
Proof.
  unfold content, addLine; simpl. rewrite concat_app, app_nil_r; simpl.
  rewrite app_nil_r. apply sublist_app; [done|apply trim_sublist].
Qed.

Lemma scan_char_sublist max st char :
  content (scan_char max st char) `sublist_of` content st ++ char.
Proof.
  assert (Happ : ∀ st', content st' = content st ++ char →
    content (addLine st') `sublist_of` content st ++ char).
  { intros st' <-. apply addLine_sublist. }
  unfold scan_char. repeat case_bool.
  - etrans; [apply addLine_sublist|by apply sublist_inserts_r].
  - apply Happ. unfold content; simpl. by rewrite app_assoc.
  - unfold content; simpl. by rewrite app_assoc.
Qed.

Lemma foldl_scan_char_sublist max chars st :
  content (foldl (scan_char max) st chars) `sublist_of` content st ++ concat chars.
Proof.
  revert st. induction chars as [|char chars IH]; intros st; simpl.
  { by rewrite app_nil_r. }
  etrans; [apply IH|]. rewrite app_assoc.
  apply sublist_app; [apply scan_char_sublist|done].
Qed.

Lemma scan_sublist max text : concat (lines (scan max text)) `sublist_of` text.
Proof.
  rewrite <-(app_nil_r (concat _)), <-(scan_line max text).
  unfold scan. etrans; [apply addLine_sublist|].
  etrans; [apply foldl_scan_char_sublist|]. by rewrite string_iterator_concat.
Qed.

(** The lines, concatenated, are a subsequence of the text: the splitter
    removes code units (line feeds, white space at the ends of lines) and
    never adds, repeats or reorders one. *)
Theorem textToLines_sublist text max ls :
  textToLines text max = Normal ls → concat ls `sublist_of` text.
Proof. intros ->%textToLines_concat. apply scan_sublist. Qed.

Lemma textToLines_sublist_witness :
  concat [str "ABCDEF"; str "GHXY"] `sublist_of` str "ABCDEFGHXY".
Proof. apply (textToLines_sublist (str "ABCDEFGHXY") 8). vm_compute. reflexivity. Defined.

(** Without white space in the text nothing is stripped. *)
Lemma scan_no_whitespace max text :
  Forall nonws text → concat (lines (scan max text)) = text.
Proof.
  intros Hws. pose proof (scan_content max text) as Hc.
  rewrite (filter_all _ text Hws) in Hc. rewrite <-Hc at 2. symmetry.
  apply filter_all, Forall_forall. intros c Hin.
  rewrite Forall_forall in Hws. eapply Hws, elem_of_sublist, scan_sublist. done.
Qed.

(** C22: a text that is not empty and holds no white space is returned
    whole: the call does not throw and the lines concatenate to the text. *)
Theorem textToLines_no_whitespace text max :
  text ≠ [] → Forall nonws text →
  ∃ ls, textToLines text max = Normal ls ∧ concat ls = text.
Proof.
  intros Hne Hws. destruct (textToLines text max) as [ls|e] eqn:Hr.
  - exists ls. split; [done|]. rewrite (textToLines_concat _ _ _ Hr).
    by apply scan_no_whitespace.
  - apply textToLines_Throw_inv in Hr as [_ Hall].
    destruct text as [|c text]; [done|].
    apply Forall_cons_1 in Hall as [Hc _], Hws as [Hc' _]. congruence.
Qed.

Lemma textToLines_no_whitespace_witness :
  ∃ ls, textToLines (str "ABCDEFGHXY") 8 = Normal ls ∧ concat ls = str "ABCDEFGHXY".
Proof.
  apply (textToLines_no_whitespace (str "ABCDEFGHXY") 8); [done|].
  vm_compute. repeat constructor.
Defined.

(** C23: without a line feed in the text, the result never ends in an
    orphan: when there are two lines or more, the last has at least three
    code units unless the line before it has at most five. *)
Theorem textToLines_no_orphan text max init l2 l :
  includes_LF text = false →
  textToLines text max = Normal (init ++ [l2; l]) →
  (3 ≤ length l)%nat ∨ (length l2 ≤ 5)%nat.
Proof.
  unfold textToLines. intros -> Hb.
  pose proof (Forall_filter_nonempty (lines (scan max text))) as Hne.
  fold (nonempty_lines (lines (scan max text))) in Hne.
  revert Hb Hne. generalize (nonempty_lines (lines (scan max text))) as res.
  intros res Hb Hne.
  destruct (balance_last_cases res)
    as [[_ Hr]|[(x & -> & Hr)|(i & x2 & x & -> & [(_ & Hl2 & Hr)|[Hlen Hr]])]];
    rewrite Hr in Hb; [done| |unfold rebalance in Hb|];
    injection Hb as Hb.
  - apply (f_equal length) in Hb. rewrite length_app in Hb. simpl in Hb. lia.
  - apply app_inj_2 in Hb as [_ [= <- <-]]; [|done].
    apply Forall_app in Hne as [_ Hne].
    apply Forall_cons_1 in Hne as [_ [Hne _]%Forall_cons_1].
    left. unfold substring_from. rewrite length_app, length_drop.
    destruct x; [done|simpl; lia].
  - apply app_inj_2 in Hb as [_ [= <- <-]]; done.
Qed.

Lemma textToLines_no_orphan_witness :
  (3 ≤ length (str "GHXY"))%nat ∨ (length (str "ABCDEF") ≤ 5)%nat.
Proof.
  apply (textToLines_no_orphan (str "ABCDEFGHXY") 8 []); vm_compute; reflexivity.
Defined.
