(* ===== verification/LineWidth.v ===== *)
(** * The width of the lines [textToLines] returns

    The width of a line is what the scanner counts: one unit for a
    character below code 256, two for any other, characters being those the
    string iterator yields.  This file bounds the width of every returned
    line, shows that the bound is attained at every limit, and that a text
    made of short lines joined by line feeds is split back into these
    lines. *)

From stdpp Require Import numbers.
From Stdlib Require Import String.
From S2P Require Import Prelude JsString LineSplitter.

#[local] Open Scope Z_scope.

(** ** Width *)

Definition units_of (chars : list jsstring) : Z :=
  foldr (λ char acc, char_units char + acc) 0 chars.

Definition line_width (l : jsstring) : Z := units_of (string_iterator l).

(** A character of the iterator: one code unit, or a surrogate pair. *)
Definition is_char (char : jsstring) : Prop :=
  (∃ c, char = [c]) ∨
  (∃ c d, char = [c; d] ∧ is_leading_surrogate c && is_trailing_surrogate d = true).

Lemma char_units_bounds char : 1 ≤ char_units char ≤ 2.
Proof. unfold char_units. destruct (charCode_lt_256 char); lia. Qed.

Lemma char_units_head c s s' : char_units (c :: s) = char_units (c :: s').
Proof. reflexivity. Qed.

Lemma units_of_cons c cs : units_of (c :: cs) = char_units c + units_of cs.
Proof. reflexivity. Qed.

Lemma units_of_app cs cs' : units_of (cs ++ cs') = units_of cs + units_of cs'.
Proof. induction cs as [|c cs IH]; simpl; [done|]. rewrite IH. lia. Qed.

Lemma units_of_nonneg cs : 0 ≤ units_of cs.
Proof.
  induction cs as [|c cs IH]; simpl; [done|].
  pose proof (char_units_bounds c). lia.
Qed.

Lemma line_width_nonneg s : 0 ≤ line_width s.
Proof. apply units_of_nonneg. Qed.

Lemma trailing_not_leading c :
  is_trailing_surrogate c = true → is_leading_surrogate c = false.
Proof. unfold is_trailing_surrogate, is_leading_surrogate. lia. Qed.

Lemma leading_units c s : is_leading_surrogate c = true → char_units (c :: s) = 2.
Proof.
  unfold is_leading_surrogate, char_units, charCode_lt_256. intros H.
  destruct (N.ltb_spec c 256); [lia|done].
Qed.

Lemma trailing_units c s : is_trailing_surrogate c = true → char_units (c :: s) = 2.
Proof.
  unfold is_trailing_surrogate, char_units, charCode_lt_256. intros H.
  destruct (N.ltb_spec c 256); [lia|done].
Qed.

(** The width of a string with one more code unit in front. *)
Lemma line_width_cons c s :
  line_width s ≤ line_width (c :: s) ≤ char_units [c] + line_width s.
Proof.
  unfold line_width. destruct s as [|d s].
  { simpl. pose proof (char_units_bounds [c]). lia. }
  rewrite string_iterator_cons.
  destruct (is_leading_surrogate c && is_trailing_surrogate d) eqn:Hp.
  - apply andb_prop in Hp as [Hc Hd].
    rewrite (string_iterator_not_leading d s (trailing_not_leading d Hd)).
    rewrite !units_of_cons.
    rewrite (leading_units c [d] Hc), (leading_units c [] Hc), (trailing_units d [] Hd).
    lia.
  - rewrite units_of_cons. pose proof (char_units_bounds [c]).
    pose proof (units_of_nonneg (string_iterator (d :: s))). lia.
Qed.

Lemma line_width_le_length s : line_width s ≤ 2 * Z.of_nat (length s).
Proof.
  induction s as [|c s IH]; [done|].
  pose proof (line_width_cons c s). pose proof (char_units_bounds [c]).
  simpl length. lia.
Qed.

(** A string is not narrower than its prefixes and its suffixes. *)
Lemma line_width_app_l s k : line_width s ≤ line_width (s ++ k).
Proof.
  induction s as [s IH] using (induction_ltof1 _ length); unfold ltof in IH.
  destruct s as [|c [|d s]]; [apply line_width_nonneg|..].
  - destruct k as [|e k]; [done|]. unfold line_width. simpl app.
    rewrite string_iterator_cons. pose proof (units_of_nonneg (string_iterator k)).
    pose proof (units_of_nonneg (string_iterator (e :: k))).
    change (string_iterator [c]) with [[c]].
    destruct (_ && _); rewrite !units_of_cons, ?(char_units_head c [e] []);
      change (units_of []) with 0; lia.
  - unfold line_width. simpl app. rewrite !string_iterator_cons.
    destruct (_ && _); rewrite !units_of_cons.
    + specialize (IH s ltac:(simpl; lia)). unfold line_width in IH. lia.
    + specialize (IH (d :: s) ltac:(simpl; lia)). unfold line_width in IH.
      simpl app in IH. lia.
Qed.

Lemma line_width_app_r k s : line_width s ≤ line_width (k ++ s).
Proof.
  induction k as [|c k IH]; [done|]. simpl.
  pose proof (line_width_cons c (k ++ s)). lia.
Qed.

Lemma trim_end_prefix s : trim_end s `prefix_of` s.
Proof.
  unfold trim_end.
  destruct (drop_while_suffix is_whitespace (reverse s)) as [k Hk].
  exists (reverse k). apply (f_equal reverse) in Hk.
  by rewrite reverse_involutive, reverse_app in Hk.
Qed.

Lemma line_width_trim s : line_width (trim s) ≤ line_width s.
Proof.
  unfold trim.
  destruct (trim_end_prefix (trim_start s)) as [k Hk].
  destruct (drop_while_suffix is_whitespace s) as [k' Hk'].
  fold (trim_start s) in Hk'. rewrite Hk' at 2. rewrite Hk at 2.
  etrans; [apply (line_width_app_l _ k)|apply line_width_app_r].
Qed.

Lemma string_iterator_is_char s : Forall is_char (string_iterator s).
Proof.
  induction s as [s IH] using (induction_ltof1 _ length); unfold ltof in IH.
  destruct s as [|c [|d s]]; [by constructor| |].
  { apply Forall_singleton. left. by eexists. }
  rewrite string_iterator_cons.
  destruct (_ && _) eqn:Hp; constructor; try (apply IH; simpl; lia).
  - right. by eexists _, _.
  - left. by eexists.
Qed.

(** Characters put together are not wider than their units add up to. *)
Lemma line_width_concat cs : Forall is_char cs → line_width (concat cs) ≤ units_of cs.
Proof.
  induction 1 as [|char cs Hc _ IH]; [done|]. simpl concat.
  rewrite units_of_cons. destruct Hc as [[c ->]|(c & d & -> & Hp)]; simpl app.
  - pose proof (line_width_cons c (concat cs)). lia.
  - unfold line_width in *. rewrite string_iterator_cons, Hp, units_of_cons. lia.
Qed.

(** ** The scanner keeps its lines narrow *)

(** The bound on the lines of the scanner: a line is flushed by the
    character that takes the counter to [max] or above, and that character
    counts for two at most. *)
Definition bound (max : Z) : Z := Z.max (max + 1) 2.

Abbreviation narrow max := (λ l : jsstring, line_width l ≤ bound max).

(** The scanner between two characters: the line in progress is made of the
    characters counted, the counter is their width, below [max] unless the
    line is empty, and every line pushed is narrow. *)
Definition scanner_ok (max : Z) (st : scanner) : Prop :=
  (∃ cur, Forall is_char cur ∧ line st = concat cur ∧ ctr st = units_of cur ∧
          (cur = [] ∨ ctr st < max)) ∧
  Forall (narrow max) (lines st).

Lemma scanner_ok_init max : scanner_ok max scanner_init.
Proof. split; [|constructor]. exists []. repeat split; auto. Qed.

Lemma addLine_ok max st :
  Forall (narrow max) (lines st) → line_width (line st) ≤ bound max →
  scanner_ok max (addLine st).
Proof.
  intros Hls Hl. split; [exists []; repeat split; auto|].
  apply Forall_app. split; [done|]. apply Forall_singleton.
  pose proof (line_width_trim (line st)). simpl in *. lia.
Qed.

(** With one more character the line in progress is as wide as the counter
    says at most, and the counter has grown by two at most. *)
Lemma scanner_ok_push max st char :
  scanner_ok max st → is_char char →
  line_width (line st ++ char) ≤ ctr st + char_units char ≤ bound max.
Proof.
  intros [(cur & Hcur & -> & -> & Hctr) _] Hchar.
  pose proof (line_width_concat (cur ++ [char])) as Hw.
  rewrite concat_app, units_of_app in Hw. simpl in Hw.
  rewrite app_nil_r, Z.add_0_r in Hw.
  pose proof (char_units_bounds char). unfold bound.
  split; [by apply Hw, Forall_app_2, Forall_singleton|].
  destruct Hctr as [->|]; simpl; lia.
Qed.

Lemma scanner_ok_line max st : scanner_ok max st → line_width (line st) ≤ bound max.
Proof.
  intros [(cur & Hcur & -> & Hu & Hctr) _].
  pose proof (line_width_concat cur Hcur). unfold bound.
  destruct Hctr as [->|]; simpl in *; lia.
Qed.

Lemma scan_char_ok max st char :
  scanner_ok max st → is_char char → scanner_ok max (scan_char max st char).
Proof.
  intros Hok Hchar. pose proof (scanner_ok_push max st char Hok Hchar) as Hp.
  unfold scan_char. case_bool.
  { apply addLine_ok; [apply Hok|by apply scanner_ok_line]. }
  case_bool; [apply addLine_ok; simpl; [apply Hok|lia]|].
  destruct Hok as [(cur & Hcur & Hl & Hu & _) Hls]. split; [|done].
  exists (cur ++ [char]). simpl. rewrite concat_app, units_of_app, Hl, Hu. simpl.
  rewrite app_nil_r. repeat split; [by apply Forall_app_2, Forall_singleton|lia|].
  right. simpl in *. lia.
Qed.

Lemma scan_narrow max text : Forall (narrow max) (lines (scan max text)).
Proof.
  unfold scan.
  assert (scanner_ok max (foldl (scan_char max) scanner_init (string_iterator text)))
    as Hok.
  { apply (foldl_invariant (scanner_ok max) is_char);
      auto using scan_char_ok, string_iterator_is_char, scanner_ok_init. }
  apply addLine_ok; [apply Hok|by apply scanner_ok_line].
Qed.

(** ** The last two lines *)

Lemma rebalance_narrow b init l2 l :
  8 ≤ b → (length l < 3)%nat →
  Forall (λ l, line_width l ≤ b) (init ++ [l2; l]) →
  Forall (λ l, line_width l ≤ b) (rebalance init l2 l).
Proof.
  intros Hb Hlen [Hi Hl]%Forall_app. apply Forall_app. split; [done|].
  apply Forall_cons_1 in Hl as [Hl2 _].
  unfold substring_to, substring_from. repeat constructor.
  - pose proof (line_width_app_l (take (length l2 - 2) l2) (drop (length l2 - 2) l2)).
    rewrite take_drop in *. lia.
  - pose proof (line_width_le_length (drop (length l2 - 2) l2 ++ l)) as Hw.
    rewrite length_app, length_drop in Hw. lia.
Qed.

Lemma balance_last_narrow b res ls :
  8 ≤ b → Forall (λ l, line_width l ≤ b) res → balance_last res = Normal ls →
  Forall (λ l, line_width l ≤ b) ls.
Proof.
  intros Hb.
  destruct (balance_last_cases res)
    as [[-> ->]|[(l & -> & ->)|(init & l2 & l & -> & [(? & _ & ->)|[_ ->]])]];
    intros Hne [= <-]; auto using rebalance_narrow.
Qed.

Lemma nonempty_lines_Forall (P : jsstring → Prop) ls :
  Forall P ls → Forall P (nonempty_lines ls).
Proof.
  rewrite !Forall_forall. intros H l [_ Hl]%list_elem_of_filter. auto.
Qed.

(** ** Short lines joined by line feeds *)

(** [ls.join('\n')]. *)
Fixpoint join_LF (ls : list jsstring) : jsstring :=
  match ls with
  | [] => []
  | l :: rest =>
    match rest with
    | [] => l
    | _ => l ++ LF :: join_LF rest
    end
  end.

(** A line as the author of a text with explicit line feeds writes it: no
    line feed inside, no white space at its ends, not wider than [max]. *)
Definition short_line (max : Z) (l : jsstring) : Prop :=
  (LF ∉ l) ∧ trimmed l ∧ line_width l ≤ max.

Lemma join_LF_cons l l' rest :
  join_LF (l :: l' :: rest) = l ++ LF :: join_LF (l' :: rest).
Proof. reflexivity. Qed.

Lemma nonempty_lines_app ls ls' :
  nonempty_lines (ls ++ ls') = nonempty_lines ls ++ nonempty_lines ls'.
Proof. apply filter_app. Qed.

(** The scanner on the characters of a short line, from an empty line in
    progress: the characters are gathered, and the last one may flush. *)
Lemma scan_short_chars max ls0 chars :
  Forall (λ char, char ≠ [LF]) chars → units_of chars ≤ max →
  (foldl (scan_char max) (Scanner ls0 [] 0) chars
     = Scanner ls0 (concat chars) (units_of chars) ∧
   (chars = [] ∨ units_of chars < max)) ∨
  (foldl (scan_char max) (Scanner ls0 [] 0) chars
     = Scanner (ls0 ++ [trim (concat chars)]) [] 0 ∧
   chars ≠ [] ∧ max ≤ units_of chars).
Proof.
  induction chars as [|char chars IH] using rev_ind; [left; auto|].
  intros [Hc Hchar]%Forall_app. rewrite Forall_singleton in Hchar.
  rewrite units_of_app, foldl_app. simpl.
  pose proof (char_units_bounds char). intros Hmax.
  destruct (IH Hc ltac:(lia)) as [[-> _]|(_ & _ & ?)]; [|lia].
  unfold scan_char. rewrite (bool_decide_false (char = [LF])) by done. simpl.
  rewrite concat_app. simpl. rewrite app_nil_r, Z.add_0_r.
  case_bool; [right|left]; (split; [done|]); [|lia].
  split; [by intros [_ ?]%app_nil|done].
Qed.

(** A short line and the flush that follows it (a line feed, or the end of
    the text) leave the line among the lines, and maybe an empty line. *)
Lemma scan_short_line max ls0 l :
  short_line max l →
  ∃ ls1, addLine (foldl (scan_char max) (Scanner ls0 [] 0) (string_iterator l))
           = Scanner ls1 [] 0 ∧
         nonempty_lines ls1 = nonempty_lines (ls0 ++ [l]).
Proof.
  intros (HLF & Ht & Hw).
  destruct (scan_short_chars max ls0 (string_iterator l)) as [[-> _]|[-> _]];
    [|done|..]; unfold addLine; simpl; rewrite ?string_iterator_concat, ?Ht.
  { apply Forall_forall. intros char Hin ->.
    apply string_iterator_units in Hin. by rewrite Forall_singleton in Hin. }
  - by eexists.
  - eexists. split; [done|]. by rewrite nonempty_lines_app, app_nil_r.
Qed.

(** The scanner on short lines joined by line feeds. *)
Lemma scan_join_from max ls ls0 :
  Forall (short_line max) ls →
  nonempty_lines
    (lines (addLine (foldl (scan_char max) (Scanner ls0 [] 0)
                       (string_iterator (join_LF ls)))))
  = nonempty_lines (ls0 ++ ls).
Proof.
  intros Hls. revert ls0. induction Hls as [|l ls Hl _ IH]; intros ls0.
  { cbn [join_LF string_iterator foldl]. unfold addLine. simpl lines.
    by rewrite !nonempty_lines_app. }
  destruct (scan_short_line max ls0 l Hl) as (ls1 & H1 & Hn).
  destruct ls as [|l' ls]; [simpl join_LF; by rewrite H1|].
  rewrite join_LF_cons, string_iterator_app_cons, foldl_app by done.
  cbn [foldl]. unfold scan_char at 2. rewrite bool_decide_true, H1, IH by done.
  by rewrite nonempty_lines_app, Hn, <-nonempty_lines_app, <-app_assoc.
Qed.

Lemma scan_join max ls :
  Forall (short_line max) ls →
  nonempty_lines (lines (scan max (join_LF ls))) = nonempty_lines ls.
Proof. apply (scan_join_from max ls []). Qed.

Lemma join_LF_includes_LF l l' rest : includes_LF (join_LF (l :: l' :: rest)) = true.
Proof.
  apply includes_LF_true. rewrite join_LF_cons. apply elem_of_app. right. left.
Qed.

(** ** The bound is attained *)

(** A code unit that is a character of width two: not below 256 and no
    surrogate. *)
Definition wide (c : code_unit) : Prop :=
  (256 ≤ c)%N ∧ is_leading_surrogate c = false ∧ is_trailing_surrogate c = false.

Lemma string_iterator_not_LF l :
  LF ∉ l → Forall (λ char, char ≠ [LF]) (string_iterator l).
Proof.
  intros HLF. apply Forall_forall. intros char Hin ->.
  apply string_iterator_units in Hin. by rewrite Forall_singleton in Hin.
Qed.

Lemma line_width_snoc_wide l c : wide c → line_width (l ++ [c]) = line_width l + 2.
Proof.
  intros (Hc & Hl & Ht). unfold line_width.
  rewrite (string_iterator_app_cons l c []), units_of_app by done. simpl.
  unfold char_units. simpl. rewrite (proj2 (N.ltb_ge _ _)) by done. lia.
Qed.

(** A line one unit short of the limit and a wide character after it: the
    character takes the counter from [max - 1] to [max + 1], and the line
    is flushed with it. *)
Lemma scan_overfull max l c :
  LF ∉ l → line_width l = max - 1 → wide c →
  lines (scan max (l ++ [c])) = [trim (l ++ [c]); []].
Proof.
  intros HLF Hw (Hc & Hl & Ht). unfold scan, scanner_init.
  rewrite (string_iterator_app_cons l c []), foldl_app by done.
  destruct (scan_short_chars max [] (string_iterator l)) as [[-> _]|(_ & _ & ?)];
    [by apply string_iterator_not_LF|unfold line_width in Hw; lia| |unfold line_width in *; lia].
  simpl. unfold scan_char. rewrite bool_decide_false by (intros [= ->]; done).
  fold (line_width l). unfold char_units. simpl.
  rewrite (proj2 (N.ltb_ge _ _)), bool_decide_true by (done || lia).
  by rewrite string_iterator_concat.
Qed.

(** ** Theorems *)

(** C14: when the width limit is 7 or more, no line [textToLines] returns is
    wider than the limit plus one, the width counted the way the scanner
    counts (one for a character below code 256, two for any other). *)
Theorem textToLines_width text max ls :
  7 ≤ max → textToLines text max = Normal ls →
  Forall (λ l, line_width l ≤ max + 1) ls.
Proof.
  intros Hmax. unfold textToLines.
  assert (Forall (λ l, line_width l ≤ max + 1) (nonempty_lines (lines (scan max text))))
    as Hn.
  { apply nonempty_lines_Forall.
    eapply Forall_impl; [apply scan_narrow|]. unfold bound. simpl. lia. }
  destruct (includes_LF text); [by intros [= <-]|].
  apply balance_last_narrow; [lia|done].
Qed.

Lemma textToLines_width_witness :
  Forall (λ l, line_width l ≤ 16 + 1)
    [str "ABCDEFGHIJKLMN"; str "OPQR"].
Proof.
  apply (textToLines_width (str "ABCDEFGHIJKLMNOPQR") 16); [lia|].
  vm_compute. reflexivity.
Defined.

(** C38: the bound of the limit plus one is attained, at every limit.  A
    text without line feed and without white space at its ends, made of a
    line one unit short of the limit and one wide character, is returned
    whole as a single line, one unit wider than the limit. *)
Theorem textToLines_width_attained max l c :
  LF ∉ l → trimmed (l ++ [c]) → line_width l = max - 1 → wide c →
  textToLines (l ++ [c]) max = Normal [l ++ [c]] ∧ line_width (l ++ [c]) = max + 1.
Proof.
  intros HLF Ht Hw Hc. split; [|rewrite line_width_snoc_wide by done; lia].
  unfold textToLines. rewrite (scan_overfull max l c), Ht by done.
  assert (includes_LF (l ++ [c]) = false) as ->.
  { apply includes_LF_false. rewrite elem_of_app, list_elem_of_singleton.
    intros [?|<-]; [done|]. by destruct Hc. }
  unfold nonempty_lines. rewrite filter_cons_True by (by destruct l).
  by rewrite filter_cons_False by (by intros ?).
Qed.

(** The letter a and eight wide characters at the limit 16: one line of
    width 17. *)
Lemma textToLines_width_attained_witness :
  let text := str "a" ++ replicate 7 0x559C%N in
  textToLines (text ++ [0x559C%N]) 16 = Normal [text ++ [0x559C%N]] ∧
  line_width (text ++ [0x559C%N]) = 16 + 1.
Proof.
  intros text. apply (textToLines_width_attained 16 text 0x559C%N); try done.
  vm_compute. intros H. by repeat (apply elem_of_cons in H as [H|H]; [done|]); inversion H.
Defined.

(** C16: a text written as two or more short lines joined by line feeds
    (no white space at the ends of a line, none wider than the limit) is
    split back into these lines, the empty ones dropped; nothing is wrapped
    and nothing is rebalanced. *)
Theorem textToLines_join max l l' rest :
  Forall (short_line max) (l :: l' :: rest) →
  textToLines (join_LF (l :: l' :: rest)) max
    = Normal (nonempty_lines (l :: l' :: rest)).
Proof.
  intros Hls. unfold textToLines.
  by rewrite join_LF_includes_LF, scan_join.
Qed.

(** A text that is one short line, not empty, is returned as the only
    line. *)
Theorem textToLines_short max l :
  short_line max l → l ≠ [] → textToLines l max = Normal [l].
Proof.
  intros Hl Hne. unfold textToLines.
  rewrite (proj2 (includes_LF_false l)) by apply Hl.
  change l with (join_LF [l]) at 1.
  rewrite (scan_join max [l]) by by apply Forall_singleton.
  unfold nonempty_lines. by rewrite filter_cons_True.
Qed.

#[local] Ltac short_lines :=
  repeat first
    [ apply Forall_nil_2
    | apply Forall_cons_2
    | split
    | by apply includes_LF_false; vm_compute
    | by vm_compute ].

Lemma textToLines_join_witness :
  textToLines (join_LF [str "happy"; []; str "new year"]) 16
    = Normal (nonempty_lines [str "happy"; []; str "new year"]).
Proof. apply (textToLines_join 16). short_lines. Defined.

Lemma textToLines_short_witness :
  textToLines (str "sixteen units ok") 16 = Normal [str "sixteen units ok"].
Proof. apply (textToLines_short 16); [short_lines|done]. Defined.
