(* ===== verification/LineWellFormed.v ===== *)
(** * Surrogate pairs in the line splitter

    [textToLines] iterates the text by character, so the scanner never cuts
    a surrogate pair: on a text without lone surrogates every line it pushes
    is without lone surrogates.  Stripping white space keeps this, since no
    surrogate is white space.  Only the rebalancing of the last two lines
    cuts by code unit: when the second-to-last line ends with a pair and one
    more code unit, the pair is cut.  On a text without white space the
    scanner fills every line but the last up to the limit. *)

From stdpp Require Import numbers.
From Stdlib Require Import String.
From S2P Require Import Prelude JsString LineSplitter LineWidth.

#[local] Open Scope Z_scope.

(** ** Characters of a well-formed string *)

(** No surrogate stands alone in the string. *)
Definition well_formed (s : jsstring) : bool :=
  forallb (λ char,
             match char with
             | [c] => negb (is_leading_surrogate c || is_trailing_surrogate c)
             | _ => true
             end) (string_iterator s).

Definition is_surrogate (c : code_unit) : bool :=
  is_leading_surrogate c || is_trailing_surrogate c.

(** A character of a string without lone surrogates: a code unit that is no
    surrogate, or a pair. *)
Definition scalar (char : jsstring) : Prop :=
  (∃ c, char = [c] ∧ is_surrogate c = false) ∨
  (∃ c d, char = [c; d] ∧ is_leading_surrogate c && is_trailing_surrogate d = true).

Abbreviation wf := (λ s : jsstring, well_formed s = true).

Lemma scalar_is_char char : scalar char → is_char char.
Proof. intros [(c & -> & _)|(c & d & -> & H)]; [left|right]; eauto. Qed.

Lemma is_surrogate_false c :
  is_surrogate c = false ↔
  is_leading_surrogate c = false ∧ is_trailing_surrogate c = false.
Proof. unfold is_surrogate. apply orb_false_iff. Qed.

Lemma is_whitespace_scalar c : is_whitespace c = true → is_surrogate c = false.
Proof. intros H. by apply is_surrogate_false, is_whitespace_not_surrogate. Qed.

Lemma forallb_scalar cs :
  Forall is_char cs →
  forallb (λ char, match char with
                   | [c] => negb (is_leading_surrogate c || is_trailing_surrogate c)
                   | _ => true
                   end) cs = true ↔ Forall scalar cs.
Proof.
  induction 1 as [|char cs Hc _ IH]; [by split; [constructor|]|].
  simpl forallb. rewrite andb_true_iff, Forall_cons, IH.
  apply and_iff_compat_r.
  destruct Hc as [[c ->]|(c & d & -> & Hp)]; unfold scalar.
  - rewrite negb_true_iff. split; [left; by exists c|].
    by intros [(? & [= <-] & ?)|(? & ? & [=] & _)].
  - split; [right; by exists c, d|done].
Qed.

(** A string is well formed when its iterator yields scalars only. *)
Lemma well_formed_scalars s : well_formed s = true ↔ Forall scalar (string_iterator s).
Proof. apply forallb_scalar, string_iterator_is_char. Qed.

(** Scalars put together are iterated as they were put. *)
Lemma string_iterator_scalars cs :
  Forall scalar cs → string_iterator (concat cs) = cs.
Proof.
  induction 1 as [|char cs Hc _ IH]; [done|]. simpl concat.
  destruct Hc as [(c & -> & [Hl _]%is_surrogate_false)|(c & d & -> & Hp)]; simpl app.
  - by rewrite string_iterator_not_leading, IH.
  - by rewrite string_iterator_cons, Hp, IH.
Qed.

Lemma well_formed_concat cs : Forall scalar cs → well_formed (concat cs) = true.
Proof. intros H. apply well_formed_scalars. by rewrite string_iterator_scalars. Qed.

Lemma well_formed_app s t :
  well_formed s = true → well_formed t = true → well_formed (s ++ t) = true.
Proof.
  intros Hs%well_formed_scalars Ht%well_formed_scalars.
  rewrite <-(string_iterator_concat s), <-(string_iterator_concat t), <-concat_app.
  by apply well_formed_concat, Forall_app.
Qed.

Lemma well_formed_scalar char : scalar char → well_formed char = true.
Proof.
  intros H. rewrite <-(app_nil_r char). change (char ++ []) with (concat [char]).
  by apply well_formed_concat, Forall_singleton.
Qed.

Lemma well_formed_strings ls :
  Forall wf ls → well_formed (concat ls) = true.
Proof. induction 1; [done|]. by apply well_formed_app. Qed.

(** ** Code units that are no surrogates *)

Lemma string_iterator_units_l k s :
  Forall (λ c, is_surrogate c = false) k →
  string_iterator (k ++ s) = ((λ c, [c]) <$> k) ++ string_iterator s.
Proof.
  induction 1 as [|c k [Hc _]%is_surrogate_false _ IH]; [done|].
  rewrite <-app_comm_cons, fmap_cons, string_iterator_not_leading by done.
  by rewrite IH.
Qed.

Lemma string_iterator_units_r s k :
  Forall (λ c, is_surrogate c = false) k →
  string_iterator (s ++ k) = string_iterator s ++ ((λ c, [c]) <$> k).
Proof.
  intros Hk. pose proof (string_iterator_units_l k [] Hk) as Hi.
  rewrite !app_nil_r in Hi.
  destruct Hk as [|c k [Hl Ht]%is_surrogate_false Hk]; [by rewrite !app_nil_r|].
  rewrite (string_iterator_app_cons s c k Hl Ht). f_equal.
  by rewrite <-Hi, string_iterator_not_leading.
Qed.

(** Code units that are no surrogates, before or after a string, do not
    change whether it is well formed. *)
Lemma well_formed_units k s k' :
  Forall (λ c, is_surrogate c = false) k →
  Forall (λ c, is_surrogate c = false) k' →
  well_formed (k ++ s ++ k') = well_formed s.
Proof.
  intros Hk Hk'. unfold well_formed.
  rewrite string_iterator_units_l, string_iterator_units_r, !forallb_app by done.
  assert (∀ l, Forall (λ c, is_surrogate c = false) l →
            forallb (λ char, match char with
                             | [c] => negb (is_leading_surrogate c || is_trailing_surrogate c)
                             | _ => true
                             end) ((λ c, [c]) <$> l) = true) as Hall.
  { induction 1 as [|c l Hc _ IH]; [done|]. simpl.
    unfold is_surrogate in Hc. rewrite Hc. exact IH. }
  rewrite !Hall by done. by rewrite andb_true_r.
Qed.

Lemma well_formed_trim s : well_formed s = true → well_formed (trim s) = true.
Proof.
  destruct (trim_split s) as (k & k' & Hs & Hk & Hk'). intros H.
  rewrite Hs, well_formed_units in H; [done|..];
    eapply Forall_impl; eauto using is_whitespace_scalar.
Qed.

(** ** The scanner keeps pairs together *)

Definition scanner_wf (st : scanner) : Prop :=
  well_formed (line st) = true ∧ Forall wf (lines st).

Lemma addLine_wf st : scanner_wf st → scanner_wf (addLine st).
Proof.
  intros [Hl Hls]. split; [done|]. simpl.
  apply Forall_app. split; [done|]. by apply Forall_singleton, well_formed_trim.
Qed.

Lemma scan_char_wf max st char :
  scanner_wf st → scalar char → scanner_wf (scan_char max st char).
Proof.
  intros Hok Hc. unfold scan_char. case_bool; [by apply addLine_wf|].
  assert (scanner_wf {| lines := lines st; line := line st ++ char;
                        ctr := ctr st + char_units char |}) as Hok'.
  { split; [|apply Hok]. apply well_formed_app; [apply Hok|by apply well_formed_scalar]. }
  case_bool; [by apply addLine_wf|done].
Qed.

Lemma scan_wf max text :
  well_formed text = true → Forall wf (lines (scan max text)).
Proof.
  intros Ht%well_formed_scalars. unfold scan.
  apply addLine_wf, (foldl_invariant scanner_wf scalar);
    auto using scan_char_wf. by split.
Qed.

(** ** The last two lines *)

(** All lines but the last two are well formed, and the last two are when
    joined: a pair is cut between them at most. *)
Definition pairs_kept (ls : list jsstring) : Prop :=
  Forall wf (take (length ls - 2) ls) ∧
  well_formed (concat (drop (length ls - 2) ls)) = true.

Lemma pairs_kept_all ls : Forall wf ls → pairs_kept ls.
Proof.
  intros H. split; [by apply Forall_take|by apply well_formed_strings, Forall_drop].
Qed.

Lemma pairs_kept_rebalance init l2 l :
  Forall wf (init ++ [l2; l]) → pairs_kept (rebalance init l2 l).
Proof.
  intros [Hi Hl]%Forall_app. unfold pairs_kept, rebalance.
  rewrite length_app. simpl length.
  replace (length init + 2 - 2)%nat with (length init) by lia.
  rewrite take_app_length, drop_app_length. split; [done|].
  simpl. unfold substring_to, substring_from.
  rewrite app_nil_r, app_assoc, take_drop.
  apply Forall_cons_1 in Hl as [Hl2 [Hl _]%Forall_cons_1]. by apply well_formed_app.
Qed.

Lemma balance_last_pairs res ls :
  Forall wf res → balance_last res = Normal ls → pairs_kept ls.
Proof.
  destruct (balance_last_cases res)
    as [[-> ->]|[(l & -> & ->)|(init & l2 & l & -> & [(? & _ & ->)|[_ ->]])]];
    intros Hwf [= <-]; auto using pairs_kept_all, pairs_kept_rebalance.
Qed.

(** ** Full lines

    On a text without white space nothing is stripped, and a line is pushed
    by the character that takes its width to the limit. *)

Definition full (max : Z) (l : jsstring) : Prop := max ≤ line_width l.

(** After scalars the iteration starts afresh. *)
Lemma string_iterator_scalars_app cs t :
  Forall scalar cs → string_iterator (concat cs ++ t) = cs ++ string_iterator t.
Proof.
  induction 1 as [|char cs Hc _ IH]; [done|]. simpl concat. rewrite <-app_assoc.
  destruct Hc as [(c & -> & [Hl _]%is_surrogate_false)|(c & d & -> & Hp)]; simpl app.
  - by rewrite string_iterator_not_leading, IH.
  - by rewrite string_iterator_cons, Hp, IH.
Qed.

Lemma string_iterator_app s t :
  well_formed s = true →
  string_iterator (s ++ t) = string_iterator s ++ string_iterator t.
Proof.
  intros Hs%well_formed_scalars.
  by rewrite <-(string_iterator_concat s) at 1; rewrite string_iterator_scalars_app.
Qed.

Lemma line_width_app s t :
  well_formed s = true → line_width (s ++ t) = line_width s + line_width t.
Proof. intros. unfold line_width. by rewrite string_iterator_app, units_of_app. Qed.

Lemma line_width_scalars cs : Forall scalar cs → line_width (concat cs) = units_of cs.
Proof. intros. unfold line_width. by rewrite string_iterator_scalars. Qed.

Lemma concat_snoc {A} (ls : list (list A)) l : concat (ls ++ [l]) = concat ls ++ l.
Proof. rewrite concat_app. simpl. by rewrite app_nil_r. Qed.

(** Full lines put together are as wide as their number times the limit. *)
Lemma line_width_full max ls :
  Forall wf ls → Forall (full max) ls →
  Z.of_nat (length ls) * max ≤ line_width (concat ls).
Proof.
  induction 1 as [|l ls Hl Hls IH]; [done|]. intros [Hf Hfs]%Forall_cons_1.
  simpl concat. rewrite line_width_app by done.
  unfold full in Hf. specialize (IH Hfs). simpl length. lia.
Qed.

(** The scanner between two characters of a text without white space: the
    line in progress is the characters counted, and every line pushed is
    full. *)
Definition scanner_full (max : Z) (st : scanner) : Prop :=
  (∃ cur, Forall scalar cur ∧ line st = concat cur ∧ ctr st = units_of cur) ∧
  Forall nonws (line st) ∧
  Forall (full max) (lines st).

(** A character of such a text. *)
Definition solid (char : jsstring) : Prop := scalar char ∧ Forall nonws char.

Lemma scan_char_full max st char :
  scanner_full max st → solid char → scanner_full max (scan_char max st char).
Proof.
  intros ((cur & Hcur & Hl & Hc) & Hws & Hls) [Hchar Hnw]. unfold scan_char.
  rewrite bool_decide_eq_false_2
    by (intros ->; apply Forall_inv in Hnw; by vm_compute in Hnw).
  assert (Forall scalar (cur ++ [char])) as Hcur' by by apply Forall_app_2, Forall_singleton.
  assert (ctr st + char_units char = units_of (cur ++ [char])) as Hu.
  { rewrite units_of_app, Hc. simpl. lia. }
  case_bool; simpl in *.
  - split_and!; [by exists []|done|]. apply Forall_app. split; [done|].
    apply Forall_singleton. rewrite trim_id by by apply Forall_app.
    unfold full. simpl. by rewrite Hl, <-concat_snoc, line_width_scalars, <-Hu.
  - split_and!; [|by apply Forall_app|done].
    exists (cur ++ [char]). by rewrite concat_snoc, Hl.
Qed.

Lemma string_iterator_solid text :
  well_formed text = true → Forall nonws text → Forall solid (string_iterator text).
Proof.
  intros Hwf%well_formed_scalars Hws. apply Forall_forall. intros char Hin. split.
  - by eapply Forall_forall in Hwf.
  - eapply Forall_impl; [by apply string_iterator_units|].
    intros c Hc. by eapply Forall_forall in Hws.
Qed.

(** All lines of the scanner but the last, the one of the final flush, are
    full. *)
Lemma scan_full max text :
  well_formed text = true → Forall nonws text →
  ∃ ls l, lines (scan max text) = ls ++ [l] ∧ Forall (full max) ls.
Proof.
  intros Hwf Hws. unfold scan. eexists _, _. split; [done|].
  apply (foldl_invariant (scanner_full max) solid);
    auto using scan_char_full, string_iterator_solid.
  split_and!; [by exists []|done..].
Qed.

Lemma full_nonempty max l : 0 < max → full max l → l ≠ [].
Proof. intros Hmax Hl ->. unfold full in Hl. change (line_width []) with 0 in Hl. lia. Qed.

(** The lines that are kept: full lines, and one more at most. *)
Lemma nonempty_lines_full max text :
  0 < max → well_formed text = true → Forall nonws text →
  ∃ ls rest, nonempty_lines (lines (scan max text)) = ls ++ rest ∧
    Forall (full max) ls ∧ (length rest ≤ 1)%nat.
Proof.
  intros Hmax Hwf Hws. destruct (scan_full max text Hwf Hws) as (ls & l & -> & Hls).
  exists ls, (nonempty_lines [l]). rewrite nonempty_lines_app. split_and!; [|done|].
  - f_equal. apply filter_all. eapply Forall_impl; eauto using full_nonempty.
  - etrans; [apply length_filter|done].
Qed.

Lemma Forall_take_app {A} (P : A → Prop) ls rest n :
  Forall P ls → (length rest ≤ n)%nat →
  Forall P (take (length (ls ++ rest) - n) (ls ++ rest)).
Proof.
  intros Hls Hn. rewrite take_app_le by (rewrite length_app; lia).
  by apply Forall_take.
Qed.

(** The rebalancing leaves all lines but the last two as they are. *)
Lemma balance_last_take res ls :
  balance_last res = Normal ls → take (length ls - 2) ls = take (length res - 2) res.
Proof.
  destruct (balance_last_cases res)
    as [[-> ->]|[(l & -> & ->)|(init & l2 & l & -> & [(? & _ & ->)|[_ ->]])]];
    intros [= <-]; [done| |done].
  unfold rebalance. rewrite !length_app. simpl length.
  replace (length init + 2 - 2)%nat with (length init) by lia.
  by rewrite !take_app_length.
Qed.

(** ** A pair before the last code unit of a line

    The line before the last is flushed by the character that takes the
    counter to the limit.  When this character is one code unit and a pair
    stands before it, the two code units the rebalancing moves are the
    second half of the pair and the character. *)

(** A code unit that is a character of width one and no white space. *)
Definition letter (c : code_unit) : Prop := (c < 256)%N ∧ is_whitespace c = false.

Lemma letter_no_surrogate c : letter c → is_surrogate c = false.
Proof.
  unfold letter, is_surrogate, is_leading_surrogate, is_trailing_surrogate. lia.
Qed.

Lemma letters_no_surrogate r : Forall letter r → Forall (λ c, is_surrogate c = false) r.
Proof. intros H. eapply Forall_impl; [done|apply letter_no_surrogate]. Qed.

Lemma units_of_letters r : Forall letter r → units_of ((λ c, [c]) <$> r) = Z.of_nat (length r).
Proof.
  induction 1 as [|c r [Hc _] _ IH]; [done|]. rewrite fmap_cons, units_of_cons, IH.
  unfold char_units. simpl. rewrite (proj2 (N.ltb_lt _ _) Hc). lia.
Qed.

Lemma concat_units {A} (r : list A) : concat ((λ c, [c]) <$> r) = r.
Proof. induction r as [|c r IH]; [done|]. by rewrite fmap_cons, concat_cons, IH. Qed.

(** A lone surrogate at the end or at the start of a string. *)
Lemma well_formed_snoc_leading s c :
  well_formed s = true → is_leading_surrogate c = true → well_formed (s ++ [c]) = false.
Proof.
  intros Hs Hc. unfold well_formed in *. rewrite string_iterator_app by done.
  rewrite forallb_app. simpl. by rewrite Hc, andb_false_r.
Qed.

Lemma well_formed_cons_trailing c s :
  is_trailing_surrogate c = true → well_formed (c :: s) = false.
Proof.
  intros Hc. unfold well_formed.
  rewrite string_iterator_not_leading by by apply trailing_not_leading.
  simpl. by rewrite Hc, orb_true_r.
Qed.

Section pair.
Context (max : Z) (l r : jsstring) (hi lo c : code_unit).
Context (Hl : well_formed l = true) (Hws : Forall nonws l).
Context (Hw : line_width l = max - 3).
Context (Hhi : is_leading_surrogate hi = true) (Hlo : is_trailing_surrogate lo = true).
Context (Hc : letter c) (Hr : Forall letter r) (Hlen : (length r < 3)%nat).

#[local] Abbreviation text := (l ++ [hi; lo; c] ++ r).

Lemma pair_text_iterator :
  string_iterator text = (string_iterator l ++ [[hi; lo]; [c]]) ++ ((λ c, [c]) <$> r).
Proof using Hl Hhi Hlo Hc Hr.
  rewrite string_iterator_app by done.
  change ([hi; lo; c] ++ r) with (hi :: lo :: c :: r).
  rewrite string_iterator_cons, Hhi, Hlo. cbn [andb].
  rewrite <-(app_nil_r (c :: r)), (string_iterator_units_l (c :: r) [])
    by (apply letters_no_surrogate; by constructor).
  by rewrite app_nil_r, <-app_assoc.
Qed.

Lemma pair_text_nonws : Forall nonws text.
Proof using Hws Hhi Hlo Hc Hr.
  apply Forall_app. split; [done|]. repeat apply Forall_cons_2.
  - clear -Hhi. unfold is_leading_surrogate, is_whitespace in *. lia.
  - clear -Hlo. unfold is_trailing_surrogate, is_whitespace in *. lia.
  - apply Hc.
  - eapply Forall_impl; [done|]. by intros ? [].
Qed.

Lemma pair_text_wf : well_formed text = true.
Proof using Hl Hhi Hlo Hc Hr.
  apply well_formed_scalars. rewrite pair_text_iterator.
  apply Forall_app_2; [apply Forall_app_2; [by apply well_formed_scalars|]|].
  - apply Forall_cons_2; [right|apply Forall_singleton; left].
    + exists hi, lo. by rewrite Hhi, Hlo.
    + exists c. split; [done|]. by apply letter_no_surrogate.
  - apply Forall_fmap. eapply Forall_impl; [done|]. intros x Hx.
    left. exists x. split; [done|]. by apply letter_no_surrogate.
Qed.

(** The scanner flushes the first line after [c], and the rest at the end
    of the text. *)
Lemma pair_line_units : units_of (string_iterator l ++ [[hi; lo]; [c]]) = max.
Proof using Hw Hhi Hc.
  rewrite units_of_app. fold (line_width l). rewrite Hw, !units_of_cons.
  rewrite (leading_units hi [lo] Hhi). unfold char_units. simpl.
  rewrite (proj2 (N.ltb_lt _ _)) by apply Hc. simpl. clear. lia.
Qed.

Lemma scan_pair : lines (scan max text) = [l ++ [hi; lo; c]; r].
Proof using All.
  assert (Forall (λ char, char ≠ [LF]) (string_iterator text)) as HLF.
  { apply string_iterator_not_LF. intros Hin.
    pose proof pair_text_nonws as Hn. rewrite Forall_forall in Hn.
    by specialize (Hn _ Hin). }
  rewrite pair_text_iterator in HLF. apply Forall_app in HLF as [H1 H2].
  pose proof (line_width_nonneg l). pose proof (units_of_letters r Hr) as Hu.
  pose proof pair_line_units as Hm. pose proof pair_text_nonws as Hn.
  rewrite app_assoc in Hn. apply Forall_app in Hn as [Hn Hn'].
  unfold scan, scanner_init. rewrite pair_text_iterator, foldl_app.
  destruct (scan_short_chars max [] _ H1) as [[_ [E|?]]|(-> & _)]; [lia| |lia|].
  { by destruct (string_iterator l). }
  destruct (scan_short_chars max ([] ++ [trim (concat (string_iterator l ++ [[hi; lo]; [c]]))]) _ H2)
    as [[-> _]|(_ & _ & ?)]; [lia| |lia].
  unfold addLine. simpl. rewrite concat_units, concat_app, string_iterator_concat. simpl.
  by rewrite !trim_id.
Qed.

End pair.

(** ** Theorems *)

(** C20: on a text without lone surrogates, pre-formatted with a line feed,
    no returned line has a lone surrogate; without a line feed all lines
    but the last two have none, and the last two have none when joined, so
    a pair is cut by the rebalancing at most. *)
Theorem textToLines_well_formed text max ls :
  well_formed text = true → textToLines text max = Normal ls →
  (includes_LF text = true → Forall wf ls) ∧ pairs_kept ls.
Proof.
  intros Ht. unfold textToLines.
  pose proof (nonempty_lines_Forall wf _ (scan_wf max text Ht)) as Hres.
  destruct (includes_LF text).
  - intros [= <-]. auto using pairs_kept_all.
  - intros Hb. split; [done|]. by apply (balance_last_pairs _ _ Hres).
Qed.

Lemma textToLines_well_formed_witness :
  let text := str "ab" ++ [0xD83D; 0xDE00; LF]%N ++ str "cd" in
  (includes_LF text = true →
   Forall wf [str "ab" ++ [0xD83D; 0xDE00]%N; str "cd"]) ∧
  pairs_kept [str "ab" ++ [0xD83D; 0xDE00]%N; str "cd"].
Proof.
  intros text. by apply (textToLines_well_formed text 16); vm_compute.
Defined.

(** C21: on a text without white space and without lone surrogates, all
    lines but the last two are filled up to the limit, and the number of
    lines is one more, at most, than the width of the text holds limits. *)
Theorem textToLines_full text max ls :
  0 < max → well_formed text = true → Forall nonws text →
  textToLines text max = Normal ls →
  Forall (full max) (take (length ls - 2) ls) ∧
  (Z.of_nat (length ls) - 1) * max ≤ line_width text.
Proof.
  intros Hmax Hwf Hws Hr.
  destruct (nonempty_lines_full max text Hmax Hwf Hws) as (fs & rest & Hres & Hfs & Hn).
  pose proof (nonempty_lines_Forall wf _ (scan_wf max text Hwf)) as Hwfs.
  assert (concat (fs ++ rest) = text) as Hc.
  { rewrite <-Hres. unfold nonempty_lines.
    rewrite concat_filter_nonempty. by apply scan_no_whitespace. }
  revert Hr. unfold textToLines.
  rewrite (proj2 (includes_LF_false text)), Hres.
  2: { intros Hin. eapply Forall_forall in Hws; [|done]. done. }
  intros Hr. rewrite (balance_last_take _ _ Hr), (balance_last_length _ _ Hr).
  split; [by apply Forall_take_app; [|lia]|].
  rewrite Hres in Hwfs. apply Forall_app in Hwfs as [Hwfs _].
  pose proof (line_width_full max fs Hwfs Hfs).
  pose proof (line_width_app_l (concat fs) (concat rest)).
  rewrite <-Hc, concat_app, length_app. nia.
Qed.

Lemma textToLines_full_witness :
  Forall (full 4) (take 1 [str "abcd"; str "efgh"; str "ij"]) ∧
  (3 - 1) * 4 ≤ line_width (str "abcdefghij").
Proof.
  apply (textToLines_full (str "abcdefghij") 4 [str "abcd"; str "efgh"; str "ij"]);
    [done|done|by repeat constructor|by vm_compute].
Defined.

(** C37: the rebalancing cuts a surrogate pair.  A text without white space
    and without lone surrogates, made of a line three units short of the
    limit, a surrogate pair, one letter and one or two letters more, is
    split by the scanner after the first letter; the rebalancing then moves
    the second half of the pair and the letter to the last line.  The text
    is well formed, and neither of the two lines returned is: the first
    ends with a lone leading surrogate, the second starts with a lone
    trailing one. *)
Theorem rebalance_splits_pair max l hi lo c r :
  well_formed l = true → Forall nonws l → (3 ≤ length l)%nat →
  line_width l = max - 3 →
  is_leading_surrogate hi = true → is_trailing_surrogate lo = true →
  letter c → Forall letter r → r ≠ [] → (length r < 3)%nat →
  well_formed (l ++ [hi; lo; c] ++ r) = true ∧
  textToLines (l ++ [hi; lo; c] ++ r) max = Normal [l ++ [hi]; [lo; c] ++ r] ∧
  well_formed (l ++ [hi]) = false ∧ well_formed ([lo; c] ++ r) = false.
Proof.
  intros Hl Hws Hlen Hw Hhi Hlo Hc Hr Hne Hlr.
  split_and!; [by apply pair_text_wf| |by apply well_formed_snoc_leading|
               by apply well_formed_cons_trailing].
  unfold textToLines. rewrite (scan_pair max l r hi lo c) by done.
  assert (includes_LF (l ++ [hi; lo; c] ++ r) = false) as ->.
  { apply includes_LF_false. intros Hin.
    pose proof (pair_text_nonws l r hi lo c Hws Hhi Hlo Hc Hr) as Hn.
    rewrite Forall_forall in Hn. by specialize (Hn _ Hin). }
  unfold nonempty_lines. rewrite !filter_cons_True, filter_nil by (done || by destruct l).
  change [l ++ [hi; lo; c]; r] with ([] ++ [l ++ [hi; lo; c]; r]).
  rewrite balance_last_snoc2, !bool_decide_true
    by (rewrite ?length_app; simpl; lia).
  unfold rebalance, substring_to, substring_from. simpl andb. cbv iota.
  replace (l ++ [hi; lo; c]) with ((l ++ [hi]) ++ [lo; c]) by by rewrite <-app_assoc.
  replace (length ((l ++ [hi]) ++ [lo; c]) - 2)%nat with (length (l ++ [hi]))
    by (rewrite !length_app; simpl; lia).
  by rewrite take_app_length, drop_app_length.
Qed.

(** Thirteen letters, U+1F600 and two letters at the limit 16. *)
Lemma rebalance_splits_pair_witness :
  let l := str "aaaaaaaaaaaaa" in
  well_formed (l ++ [0xD83D; 0xDE00; 98]%N ++ str "c") = true ∧
  textToLines (l ++ [0xD83D; 0xDE00; 98]%N ++ str "c") 16
    = Normal [l ++ [0xD83D]%N; [0xDE00; 98]%N ++ str "c"] ∧
  well_formed (l ++ [0xD83D]%N) = false ∧
  well_formed ([0xDE00; 98]%N ++ str "c") = false.
Proof.
  intros l.
  apply (rebalance_splits_pair 16 l 0xD83D%N 0xDE00%N 98%N (str "c"));
    try done; try (by repeat constructor); simpl; lia.
Defined.
