(* ===== verification/JsNumber.v ===== *)
(** * ECMAScript Numbers

    A Number is an IEEE 754 binary64 value (ECMA-262 6.1.6.1).  The values
    are carried by the Standard Library's [spec_float] (zeros and infinities
    with a sign, one NaN, finite values [m * 2^e] with a positive mantissa).
    The arithmetic operations are defined the way the standard words them:
    the exact rational result, rounded to the nearest representable value,
    ties to the even mantissa ([round_ne]); the special cases (NaN,
    infinities, signed zeros) are the tables of Number::add, ::multiply and
    ::divide.  Comparisons are [SpecFloat]'s.  The examples at the end check
    the operations against the kernel's hardware floats ([PrimFloat]) and
    against [SpecFloat]'s bit-level operations. *)

From Stdlib Require Import ZArith QArith Qround Lia Floats.
From stdpp Require Import numbers.
From S2P Require Import Prelude.

#[local] Open Scope Z_scope.

Abbreviation number := spec_float (only parsing).

(** The format: 53 bits of precision, exponents of the mantissa from
    [emin] to [emax_m]. *)
Definition prec : Z := 53.
Definition emin : Z := -1074.
Definition emax_m : Z := 971.

Definition NaN : number := S754_nan.
Definition pos_zero : number := S754_zero false.

(** ** Exact values *)

(** [2^e] as a rational, for any integer [e]. *)
Definition pow2 (e : Z) : Q :=
  if 0 <=? e then inject_Z (2 ^ e) else Qmake 1 (Z.to_pos (2 ^ (- e))).

(** The value of a finite number. *)
Definition F2Q (s : bool) (m : positive) (e : Z) : Q :=
  (inject_Z (if s then Zneg m else Zpos m) * pow2 e)%Q.

Definition to_Q (x : number) : option Q :=
  match x with
  | S754_zero _ => Some 0%Q
  | S754_finite s m e => Some (F2Q s m e)
  | S754_infinity _ | S754_nan => None
  end.

(** ** Rounding to nearest, ties to even *)

(** [floor (log2 q)] for a positive rational [q = n / d]. *)
Definition ilog2 (n d : positive) : Z :=
  let k := Z.log2 (Zpos n) - Z.log2 (Zpos d) in
  let below :=
    if 0 <=? k then Zpos n <? Zpos d * 2 ^ k
    else Zpos n * 2 ^ (- k) <? Zpos d in
  if below then k - 1 else k.

(** The integer nearest to [num / den] ([den > 0]), ties to even. *)
Definition div_nearest_even (num den : Z) : Z :=
  let fl := num / den in
  match (2 * (num mod den)) ?= den with
  | Lt => fl
  | Gt => fl + 1
  | Eq => if Z.even fl then fl else fl + 1
  end.

(** A positive rational rounded to binary64: the exponent of the result is
    chosen from the magnitude (never below [emin]: subnormals), the mantissa
    is the nearest integer, a mantissa that rounds up to [2^53] moves to the
    next binade, a result above the largest finite value is infinity. *)
Definition round_pos (n d : positive) : number :=
  let e := Z.max (ilog2 n d - (prec - 1)) emin in
  let m :=
    if 0 <=? e then div_nearest_even (Zpos n) (Zpos d * 2 ^ e)
    else div_nearest_even (Zpos n * 2 ^ (- e)) (Zpos d) in
  let '(m, e) := if m =? 2 ^ prec then (2 ^ (prec - 1), e + 1) else (m, e) in
  match m with
  | Zpos m => if emax_m <? e then S754_infinity false else S754_finite false m e
  | _ => S754_zero false
  end.

(** Rounding of any rational; [sz] is the sign given to a zero result. *)
Definition round_ne (sz : bool) (q : Q) : number :=
  match Qnum q with
  | Z0 => S754_zero sz
  | Zpos n => round_pos n (Qden q)
  | Zneg n => SFopp (round_pos n (Qden q))
  end.

Definition of_Z (n : Z) : number := round_ne false (inject_Z n).

(** ** Arithmetic *)

Definition neg (x : number) : number := SFopp x.

(** Number::add. *)
Definition add (x y : number) : number :=
  match x, y with
  | S754_nan, _ | _, S754_nan => S754_nan
  | S754_infinity sx, S754_infinity sy => if Bool.eqb sx sy then x else S754_nan
  | S754_infinity _, _ => x
  | _, S754_infinity _ => y
  | S754_zero sx, S754_zero sy => S754_zero (sx && sy)
  | S754_zero _, _ => y
  | _, S754_zero _ => x
  | S754_finite sx mx ex, S754_finite sy my ey =>
    round_ne false (F2Q sx mx ex + F2Q sy my ey)
  end.

(** Number::subtract: [x - y] is [x + (-y)]. *)
Definition sub (x y : number) : number := add x (neg y).

(** Number::multiply. *)
Definition mul (x y : number) : number :=
  match x, y with
  | S754_nan, _ | _, S754_nan => S754_nan
  | S754_infinity _, S754_zero _ | S754_zero _, S754_infinity _ => S754_nan
  | S754_infinity sx, (S754_infinity sy | S754_finite sy _ _)
  | S754_finite sx _ _, S754_infinity sy => S754_infinity (xorb sx sy)
  | S754_zero sx, (S754_zero sy | S754_finite sy _ _)
  | S754_finite sx _ _, S754_zero sy => S754_zero (xorb sx sy)
  | S754_finite sx mx ex, S754_finite sy my ey =>
    round_ne (xorb sx sy) (F2Q sx mx ex * F2Q sy my ey)
  end.

(** Number::divide. *)
Definition div (x y : number) : number :=
  match x, y with
  | S754_nan, _ | _, S754_nan => S754_nan
  | S754_infinity _, S754_infinity _ | S754_zero _, S754_zero _ => S754_nan
  | S754_infinity sx, (S754_zero sy | S754_finite sy _ _)
  | S754_finite sx _ _, S754_zero sy => S754_infinity (xorb sx sy)
  | S754_zero sx, (S754_infinity sy | S754_finite sy _ _)
  | S754_finite sx _ _, S754_infinity sy => S754_zero (xorb sx sy)
  | S754_finite sx mx ex, S754_finite sy my ey =>
    round_ne (xorb sx sy) (F2Q sx mx ex / F2Q sy my ey)
  end.

(** ** Comparisons: [<], [>], [===], [!==] *)

Definition lt (x y : number) : bool := SFltb x y.
Definition gt (x y : number) : bool := SFltb y x.
Definition strict_eq (x y : number) : bool := SFeqb x y.
Definition strict_ne (x y : number) : bool := negb (SFeqb x y).

(** ** [Math.floor] and [Math.ceil] *)

(** An integer result of [Math.floor] or [Math.ceil]; a zero result keeps
    the sign of the argument. *)
Definition integral (s : bool) (n : Z) : number :=
  match n with
  | Z0 => S754_zero s
  | _ => of_Z n
  end.

Definition floor (x : number) : number :=
  match x with
  | S754_finite s m e => integral s (Qfloor (F2Q s m e))
  | _ => x
  end.

Definition ceil (x : number) : number :=
  match x with
  | S754_finite s m e => integral s (Qceiling (F2Q s m e))
  | _ => x
  end.

(** ** Constants and decidable equality *)

Definition one : number := of_Z 1.
Definition two : number := of_Z 2.

#[export] Instance number_eq_dec : EqDecision spec_float.
Proof. solve_decision. Defined.

(** A number is well formed when it is a value of the format: the mantissa
    of a finite number has at most 53 bits, exactly 53 above [emin]. *)
Definition wf (x : number) : bool := SpecFloat.valid_binary prec 1024 x.

(** ** Agreement with the hardware and with [SpecFloat]

    The four operations on sample operands, compared with the kernel's
    primitive floats and with the bit-level operations of [SpecFloat] at
    precision 53: all pairs of [samples] (integers of the sizes the layout
    meets, fractions, zeros, infinities, NaN), and the pairs of [extremes]
    (subnormals, the largest finite value, overflow and underflow). *)

Definition samples : list float :=
  [1292; 1301; 968; 974; 16; 108; 12; 1; 2; 49; 3; 0.5; 1.5; 216; 1000;
   0x1.999999999999ap-4; 0x1.999999999999ap-3; 0x1.3333333333334p-2;
   9007199254740992; 0x1.fffffffffffffp+52;
   0; -0; -1; -1292; -0.75; infinity; neg_infinity; nan]%float.

Definition extremes : list (float * float) :=
  [(0x1.fffffffffffffp+1023, 0x1.fffffffffffffp+1023);
   (0x1.fffffffffffffp+1023, 0x1p+970); (0x1.fffffffffffffp+1023, 0x1p+969);
   (0x1p-1074, 2); (0x1p-1074, 0x1p-1074); (0x1p-1022, 0x1.8p+0);
   (0x1.8p-1074, 0.5); (0x1p-1022, 0x1p-1074); (0x1p-1074, 0x1.fffffffffffffp+1023);
   (0x1.7e43c8800759cp+996, 0x1.7e43c8800759cp+996); (3, 0x1p-1074)]%float.

Definition agrees_on (f : number → number → number)
    (g : float → float → float) (h : spec_float → spec_float → spec_float)
    (ab : float * float) : bool :=
  let '(a, b) := ab in
  bool_decide (f (Prim2SF a) (Prim2SF b) = Prim2SF (g a b)) &&
  bool_decide (f (Prim2SF a) (Prim2SF b) = h (Prim2SF a) (Prim2SF b)).

Definition agrees f g h : bool :=
  forallb (agrees_on f g h) (list_prod samples samples ++ extremes).

Example add_agrees : agrees add PrimFloat.add (SFadd 53 1024) = true.
Proof. vm_compute. reflexivity. Qed.

Example sub_agrees : agrees sub PrimFloat.sub (SFsub 53 1024) = true.
Proof. vm_compute. reflexivity. Qed.

Example mul_agrees : agrees mul PrimFloat.mul (SFmul 53 1024) = true.
Proof. vm_compute. reflexivity. Qed.

Example div_agrees : agrees div PrimFloat.div (SFdiv 53 1024) = true.
Proof. vm_compute. reflexivity. Qed.

Example samples_wf : forallb (λ a, wf (Prim2SF a)) samples = true.
Proof. vm_compute. reflexivity. Qed.

(** [Math.floor] and [Math.ceil] on values around the integers. *)
Example floor_examples :
  floor <$> (Prim2SF <$> [2.5; -2.5; 0.5; -0.5; 0; -0; 7; 0x1p+70; -0x1p-70]%float)
  = Prim2SF <$> [2; -3; 0; -1; 0; -0; 7; 0x1p+70; -1]%float.
Proof. vm_compute. reflexivity. Qed.

Example ceil_examples :
  ceil <$> (Prim2SF <$> [2.5; -2.5; 0.5; -0.5; 0; -0; 7; 6; 0x1p-70]%float)
  = Prim2SF <$> [3; -2; 1; -0; 0; -0; 7; 6; 1]%float.
Proof. vm_compute. reflexivity. Qed.

(** In binary64, [49 * (1 / 49)] is below one. *)
Example mul_div_not_exact :
  floor (mul (of_Z 49) (div one (of_Z 49))) = pos_zero.
Proof. vm_compute. reflexivity. Qed.
