(* ===== verification/Rounding.v ===== *)
(** * Rounding to binary64: what [round_ne] guarantees

    The operations of [JsNumber] round the exact rational result with
    [round_ne].  This file proves that the rounding depends on the value of
    the rational only, not on the fraction that represents it, and that a
    value of the format is left as it is (the operations are exact whenever
    the exact result is representable).  The layout relies on both: where no
    line is scaled, all its Numbers are integers below 2^53. *)

From Stdlib Require Import QArith Qround Qpower Qabs Lqa SpecFloat.
From stdpp Require Import numbers.
From S2P Require Import Prelude JsNumber.

#[local] Open Scope Z_scope.

(** ** Powers of two *)

Lemma pow2_Qpower e : (pow2 e == 2 ^ e)%Q.
Proof.
  unfold pow2. destruct (Z.leb_spec 0 e) as [He|He].
  - by rewrite Zpower_Qpower.
  - assert (2 ^ e == / inject_Z (2 ^ (- e)))%Q as ->.
    { rewrite (Zpower_Qpower 2 (- e)) by lia.
      by rewrite <-Qpower_opp, Z.opp_involutive. }
    assert (0 < 2 ^ (- e)) as Hp by (apply Z.pow_pos_nonneg; lia).
    destruct (2 ^ (- e)) as [|p|p] eqn:E; try lia. reflexivity.
Qed.

Lemma pow2_pos e : (0 < pow2 e)%Q.
Proof. rewrite pow2_Qpower. by apply Qpower_0_lt. Qed.

Lemma pow2_add a b : (pow2 (a + b) == pow2 a * pow2 b)%Q.
Proof. rewrite !pow2_Qpower. by apply Qpower_plus. Qed.

Lemma pow2_0 : (pow2 0 == 1)%Q.
Proof. reflexivity. Qed.

Lemma pow2_le a b : a ≤ b → (pow2 a <= pow2 b)%Q.
Proof. intros H. rewrite !pow2_Qpower. by apply Qpower_le_compat_l. Qed.

Lemma pow2_lt a b : a < b → (pow2 a < pow2 b)%Q.
Proof. intros H. rewrite !pow2_Qpower. by apply Qpower_lt_compat_l. Qed.

Lemma pow2_lt_inv a b : (pow2 a < pow2 b)%Q → a < b.
Proof.
  intros H. destruct (Z.lt_ge_cases a b) as [|Hge]; [done|].
  apply pow2_le in Hge. lra.
Qed.

Lemma pow2_nonneg e : 0 ≤ e → pow2 e = inject_Z (2 ^ e).
Proof. intros H. unfold pow2. by rewrite (proj2 (Z.leb_le 0 e)). Qed.

(** A positive fraction against a power of two, by cross-multiplication. *)
Lemma Qmake_lt_pow2 (n d : positive) k :
  (Zpos n # d < pow2 k)%Q ↔
  if 0 <=? k then Zpos n < Zpos d * 2 ^ k else Zpos n * 2 ^ (- k) < Zpos d.
Proof.
  unfold pow2, Qlt. destruct (Z.leb_spec 0 k) as [Hk|Hk]; simpl; [lia|].
  assert (0 < 2 ^ (- k)) as Hp by (apply Z.pow_pos_nonneg; lia).
  destruct (2 ^ (- k)) as [|p|p]; simpl; lia.
Qed.

Lemma Qmake_mul_den (n : Z) (d : positive) :
  ((n # d) * inject_Z (Zpos d) == inject_Z n)%Q.
Proof. unfold Qeq. simpl. lia. Qed.

Lemma log2_bounds (p : positive) :
  (pow2 (Z.log2 (Zpos p)) <= inject_Z (Zpos p) < pow2 (Z.log2 (Zpos p) + 1))%Q.
Proof.
  pose proof (Z.log2_spec (Zpos p) ltac:(lia)) as [Hl Hu].
  pose proof (Z.log2_nonneg (Zpos p)).
  rewrite !pow2_nonneg by lia. rewrite <-Zle_Qle, <-Zlt_Qlt. lia.
Qed.

(** ** The binade of a positive rational *)

(** [ilog2 n d] is the exponent of the binade of [n / d]. *)
Lemma ilog2_spec (n d : positive) :
  (pow2 (ilog2 n d) <= Zpos n # d < pow2 (ilog2 n d + 1))%Q.
Proof.
  unfold ilog2. set (a := Z.log2 (Zpos n)). set (b := Z.log2 (Zpos d)).
  pose proof (Qmake_lt_pow2 n d (a - b)) as Hbelow.
  pose proof (Qmake_mul_den (Zpos n) d) as Hq.
  pose proof (log2_bounds n) as [Hn1 Hn2]. pose proof (log2_bounds d) as [Hd1 Hd2].
  fold a in Hn1, Hn2. fold b in Hd1, Hd2.
  pose proof (pow2_pos b) as Hb. pose proof (pow2_pos (a - b - 1)) as Hk1.
  pose proof (pow2_pos (a - b)) as Hk. pose proof (pow2_pos (a - b + 1)) as Hk2.
  assert (pow2 (a - b - 1) * pow2 (b + 1) == pow2 a)%Q as E1
    by (rewrite <-pow2_add; f_equiv; lia).
  assert (pow2 (a - b + 1) * pow2 b == pow2 (a + 1))%Q as E2
    by (rewrite <-pow2_add; f_equiv; lia).
  remember (Zpos n # d)%Q as q eqn:Eq. clear Eq.
  assert (pow2 (a - b - 1) <= q < pow2 (a - b + 1))%Q as [Hlo Hhi].
  { split; [apply Qnot_lt_le|apply Qnot_le_lt]; intros Hc; nra. }
  revert Hbelow. destruct (0 <=? a - b); intros Hbelow;
    [destruct (Z.ltb_spec (Zpos n) (Zpos d * 2 ^ (a - b)))
    |destruct (Z.ltb_spec (Zpos n * 2 ^ (- (a - b))) (Zpos d))];
    rewrite ?Z.sub_add; split; try done;
    solve [by apply Hbelow | apply Qnot_lt_le; rewrite Hbelow; lia].
Qed.

Lemma binade_unique q k k' :
  (pow2 k <= q < pow2 (k + 1))%Q → (pow2 k' <= q < pow2 (k' + 1))%Q → k = k'.
Proof.
  intros [H1 H2] [H1' H2'].
  assert (k < k' + 1) by (apply pow2_lt_inv; lra).
  assert (k' < k + 1) by (apply pow2_lt_inv; lra). lia.
Qed.

Lemma ilog2_unique (n d : positive) k :
  (pow2 k <= Zpos n # d < pow2 (k + 1))%Q → ilog2 n d = k.
Proof. intros H. eapply binade_unique; [apply ilog2_spec|done]. Qed.

Lemma ilog2_Qeq (n d n' d' : positive) :
  (Zpos n # d == Zpos n' # d')%Q → ilog2 n d = ilog2 n' d'.
Proof. intros H. apply ilog2_unique. rewrite H. apply ilog2_spec. Qed.

(** ** The nearest integer *)

(** The nearest integer depends on the quotient only. *)
Lemma div_nearest_even_scale num den num' den' :
  0 < den → 0 < den' → num * den' = num' * den →
  div_nearest_even num den = div_nearest_even num' den'.
Proof.
  intros Hd Hd' H. unfold div_nearest_even.
  pose proof (Z.div_mod num den ltac:(lia)) as E.
  pose proof (Z.mod_pos_bound num den Hd) as B.
  pose proof (Z.div_mod num' den' ltac:(lia)) as E'.
  pose proof (Z.mod_pos_bound num' den' Hd') as B'.
  revert E B E' B'.
  generalize (num / den) (num mod den) (num' / den') (num' mod den').
  intros fl r fl' r' E B E' B'.
  rewrite E, E' in H.
  assert (r' * den < den' * den ∧ r * den' < den * den') as [? ?] by nia.
  assert (0 ≤ r' * den ∧ 0 ≤ r * den') as [? ?] by nia.
  assert ((fl - fl') * (den * den') = r' * den - r * den') as Hfl by lia.
  assert (fl - fl' = 0) by nia.
  assert (fl = fl') as <- by lia.
  assert (r * den' = r' * den) as Hr by lia.
  destruct (Z.compare_spec (2 * r) den), (Z.compare_spec (2 * r') den');
    try reflexivity; nia.
Qed.

Lemma div_nearest_even_exact m d : 0 < d → div_nearest_even (m * d) d = m.
Proof.
  intros Hd. unfold div_nearest_even. rewrite Z.div_mul, Z.mod_mul by lia.
  change (2 * 0) with 0. by destruct (Z.compare_spec 0 d); try lia.
Qed.

(** ** The rounding depends on the value only *)

Lemma round_pos_Qeq (n d n' d' : positive) :
  (Zpos n # d == Zpos n' # d')%Q → round_pos n d = round_pos n' d'.
Proof.
  intros H. unfold round_pos. rewrite (ilog2_Qeq n d n' d' H).
  unfold Qeq in H. simpl in H.
  set (e := Z.max (ilog2 n' d' - (prec - 1)) emin).
  assert (0 < 2 ^ e ∨ e < 0) as He.
  { destruct (Z.lt_ge_cases e 0); [by right|left; by apply Z.pow_pos_nonneg]. }
  assert (0 < 2 ^ (- e) ∨ 0 ≤ e) as He'.
  { destruct (Z.lt_ge_cases e 0); [left; apply Z.pow_pos_nonneg; lia|by right]. }
  destruct (Z.leb_spec 0 e).
  - by rewrite (div_nearest_even_scale _ _ (Zpos n') (Zpos d' * 2 ^ e)) by nia.
  - by rewrite (div_nearest_even_scale _ _ (Zpos n' * 2 ^ (- e)) (Zpos d')) by nia.
Qed.

#[export] Instance round_ne_Proper : Proper (eq ==> Qeq ==> eq) round_ne.
Proof.
  intros sz _ <- [[|n|n] d] [[|n'|n'] d'] H; unfold Qeq in H; simpl in H;
    try lia; unfold round_ne; simpl; [done|..];
    rewrite (round_pos_Qeq n d n' d'); try done; unfold Qeq; simpl; lia.
Qed.

(** ** Values of the format *)

(** The mantissa [m] and the exponent [e] are those of a value of the
    format: [m] has 53 bits, or fewer at the least exponent, and the value
    is below 2^1024. *)
Definition canonical (m : positive) (e : Z) : Prop :=
  Z.max (Z.log2 (Zpos m) + 1 + e - prec) emin = e ∧ e ≤ emax_m.

Lemma digits2_pos_log2 m : Zpos (digits2_pos m) = Z.log2 (Zpos m) + 1.
Proof.
  assert (∀ p, digits2_pos p = Pos.size p) as E.
  { induction p as [p IH|p IH|]; simpl; by rewrite ?IH. }
  rewrite E. destruct m; simpl; lia.
Qed.

Lemma wf_finite s m e : wf (S754_finite s m e) = true ↔ canonical m e.
Proof.
  unfold wf, valid_binary, bounded, canonical_mantissa, fexp, SpecFloat.emin, canonical.
  rewrite digits2_pos_log2, andb_true_iff, Z.eqb_eq, Z.leb_le.
  by change (3 - 1024 - prec) with emin; change (1024 - prec) with emax_m.
Qed.

Lemma canonical_lt m e : canonical m e → Zpos m < 2 ^ prec.
Proof.
  intros [H _]. apply Z.log2_lt_pow2; [lia|]. unfold prec in *. lia.
Qed.

Lemma F2Q_opp m e : (F2Q true m e == - F2Q false m e)%Q.
Proof. unfold F2Q. change (inject_Z (Z.neg m)) with (- inject_Z (Zpos m))%Q. ring. Qed.

Lemma F2Q_pos m e : (0 < F2Q false m e)%Q.
Proof.
  unfold F2Q. pose proof (pow2_pos e).
  assert (0 < inject_Z (Zpos m))%Q by (by rewrite <-(Zlt_Qlt 0)). nra.
Qed.

(** A positive fraction equal to [M * 2^e], by cross-multiplication. *)
Lemma Qmake_eq_pow2 (n d : positive) M e :
  (Zpos n # d == inject_Z M * pow2 e)%Q ↔
  if 0 <=? e then Zpos n = M * (Zpos d * 2 ^ e) else Zpos n * 2 ^ (- e) = M * Zpos d.
Proof.
  unfold pow2, Qeq. destruct (Z.leb_spec 0 e) as [He|He]; simpl; [lia|].
  assert (0 < 2 ^ (- e)) as Hp by (apply Z.pow_pos_nonneg; lia).
  destruct (2 ^ (- e)) as [|p|p]; simpl; lia.
Qed.

(** The binade of a finite value. *)
Lemma F2Q_binade m e :
  (pow2 (Z.log2 (Zpos m) + e) <= F2Q false m e < pow2 (Z.log2 (Zpos m) + e + 1))%Q.
Proof.
  unfold F2Q. pose proof (log2_bounds m) as [H1 H2]. pose proof (pow2_pos e).
  rewrite (pow2_add (Z.log2 (Zpos m)) e).
  replace (Z.log2 (Zpos m) + e + 1) with (Z.log2 (Zpos m) + 1 + e) by lia.
  rewrite (pow2_add (Z.log2 (Zpos m) + 1) e). nra.
Qed.

(** A value of the format is its own rounding. *)
Lemma round_pos_exact m e (n d : positive) :
  canonical m e → (Zpos n # d == F2Q false m e)%Q →
  round_pos n d = S754_finite false m e.
Proof.
  intros Hc H. pose proof (canonical_lt m e Hc) as Hlt. destruct Hc as [He Hmax].
  unfold round_pos. rewrite (ilog2_unique n d (Z.log2 (Zpos m) + e))
    by (rewrite H; apply F2Q_binade).
  replace (Z.log2 (Zpos m) + e - (prec - 1)) with (Z.log2 (Zpos m) + 1 + e - prec) by lia.
  rewrite He. apply Qmake_eq_pow2 in H.
  assert (0 < 2 ^ e ∨ e < 0) as Hp.
  { destruct (Z.lt_ge_cases e 0); [by right|left; by apply Z.pow_pos_nonneg]. }
  assert ((if 0 <=? e then div_nearest_even (Zpos n) (Zpos d * 2 ^ e)
           else div_nearest_even (Zpos n * 2 ^ (- e)) (Zpos d)) = Zpos m) as ->.
  { destruct (Z.leb_spec 0 e); rewrite H; apply div_nearest_even_exact; lia. }
  rewrite (proj2 (Z.eqb_neq _ _)) by lia.
  by rewrite (proj2 (Z.ltb_ge _ _)) by lia.
Qed.

Lemma round_ne_exact sz s m e q :
  canonical m e → (q == F2Q s m e)%Q → round_ne sz q = S754_finite s m e.
Proof.
  intros Hc H. pose proof (F2Q_pos m e) as Hpos. pose proof (F2Q_opp m e) as Hopp.
  destruct q as [[|n|n] d]; unfold round_ne; simpl.
  - destruct s; [rewrite Hopp in H|]; unfold Qeq in H; simpl in H;
      exfalso; revert H Hpos; unfold Qlt; simpl; lia.
  - destruct s.
    + exfalso. rewrite Hopp in H. assert (0 < Zpos n # d)%Q by done. lra.
    + by apply round_pos_exact.
  - destruct s.
    + rewrite (round_pos_exact m e) ; [done..|].
      change (Z.neg n # d)%Q with (- (Zpos n # d))%Q in H. lra.
    + exfalso. assert (Z.neg n # d < 0)%Q by done. lra.
Qed.

(** An integer mantissa below 2^53 at an exponent of the format is a value
    of the format: the mantissa is shifted left as far as the format
    allows. *)
Lemma dyadic_canonical (N : positive) E :
  Zpos N < 2 ^ prec → emin ≤ E → Z.log2 (Zpos N) + E ≤ emax_m + prec - 1 →
  ∃ m e, canonical m e ∧ (F2Q false m e == inject_Z (Zpos N) * pow2 E)%Q.
Proof.
  intros HN HE Hmax. set (k := Z.log2 (Zpos N)).
  assert (0 ≤ k < prec) as Hk.
  { split; [apply Z.log2_nonneg|]. apply Z.log2_lt_pow2; lia. }
  set (shift := Z.min (prec - 1 - k) (E - emin)).
  assert (0 ≤ shift) as Hs by (unfold prec in *; lia).
  assert (0 < 2 ^ shift) as Hp by (by apply Z.pow_pos_nonneg).
  exists (Z.to_pos (Zpos N * 2 ^ shift)), (E - shift).
  assert (Zpos (Z.to_pos (Zpos N * 2 ^ shift)) = Zpos N * 2 ^ shift) as Em
    by (apply Z2Pos.id; lia).
  split.
  - unfold canonical. rewrite Em, Z.log2_mul_pow2 by lia. fold k.
    unfold prec, emin, emax_m in *. lia.
  - unfold F2Q. rewrite Em, inject_Z_mult, <-(pow2_nonneg shift) by done.
    replace E with (shift + (E - shift)) at 2 by lia. rewrite (pow2_add shift). ring.
Qed.

(** ** Finite numbers and their values *)

Definition sign (x : number) : bool :=
  match x with
  | S754_zero s | S754_infinity s | S754_finite s _ _ => s
  | S754_nan => false
  end.

(** [x] is a finite number of the format and [q] is its value. *)
Definition value (x : number) (q : Q) : Prop :=
  wf x = true ∧ ∃ q', to_Q x = Some q' ∧ (q' == q)%Q.

#[export] Instance value_Proper : Proper (eq ==> Qeq ==> iff) value.
Proof.
  intros x _ <- q1 q2 H. unfold value.
  split; intros [Hw (q' & Hq & E)]; (split; [done|]); exists q'; split; try done;
    by rewrite E, H.
Qed.

Lemma value_zero s : value (S754_zero s) 0.
Proof. split; [done|]. by exists 0%Q. Qed.

Lemma value_finite s m e : canonical m e → value (S754_finite s m e) (F2Q s m e).
Proof. intros Hc. split; [by apply wf_finite|]. by eexists. Qed.

(** The three shapes of a finite number. *)
Lemma value_cases x q :
  value x q →
  (∃ s, x = S754_zero s ∧ (q == 0)%Q) ∨
  (∃ s m e, x = S754_finite s m e ∧ canonical m e ∧ (F2Q s m e == q)%Q ∧
            ¬ (q == 0)%Q ∧ (s = true ↔ (q < 0)%Q)).
Proof.
  intros [Hw (q' & Hq & E)]. destruct x as [s|s| |s m e]; simplify_eq/=.
  { left. exists s. by rewrite <-E. }
  right. exists s, m, e. apply (wf_finite s) in Hw.
  pose proof (F2Q_pos m e). pose proof (F2Q_opp m e).
  split_and!; [done..| |split].
  - intros Hz. destruct s; lra.
  - intros ->. lra.
  - destruct s; [done|lra].
Qed.

(** A finite number is the rounding of its value. *)
Lemma round_ne_value x q : value x q → round_ne (sign x) q = x.
Proof.
  intros [(s & -> & E)|(s & m & e & -> & Hc & E & _)]%value_cases.
  - by rewrite E.
  - by apply round_ne_exact.
Qed.

Lemma round_ne_nonzero sz sz' q : ¬ (q == 0)%Q → round_ne sz q = round_ne sz' q.
Proof.
  intros H. unfold round_ne. destruct q as [[|n|n] d]; [|done..].
  by destruct H.
Qed.

(** The rounding of a dyadic rational with a mantissa below 2^53 is exact. *)
Lemma round_ne_dyadic sz N E q :
  Z.abs N < 2 ^ prec → emin ≤ E → Z.log2 (Z.abs N) + E ≤ emax_m + prec - 1 →
  (q == inject_Z N * pow2 E)%Q → value (round_ne sz q) q.
Proof.
  intros HN HE Hmax Hq. rewrite Hq. clear q Hq. destruct N as [|N|N].
  - assert (inject_Z 0 * pow2 E == 0)%Q as -> by ring. apply value_zero.
  - destruct (dyadic_canonical N E) as (m & e & Hc & Hv); [done..|].
    rewrite <-Hv, (round_ne_exact sz false m e) by done. by apply value_finite.
  - destruct (dyadic_canonical N E) as (m & e & Hc & Hv); [done..|].
    assert (inject_Z (Z.neg N) * pow2 E == F2Q true m e)%Q as ->.
    { rewrite F2Q_opp, Hv. change (inject_Z (Z.neg N)) with (- inject_Z (Zpos N))%Q. ring. }
    rewrite (round_ne_exact sz true m e) by done. by apply value_finite.
Qed.

(** ** The order of finite numbers is the order of their values *)

Lemma Qcompare_Lt a b : (a < b)%Q → (a ?= b)%Q = Lt.
Proof. apply Qlt_alt. Qed.
Lemma Qcompare_Gt a b : (b < a)%Q → (a ?= b)%Q = Gt.
Proof. apply Qgt_alt. Qed.
Lemma Qcompare_Eq a b : (a == b)%Q → (a ?= b)%Q = Eq.
Proof. apply Qeq_alt. Qed.

Lemma canonical_bounds m e : canonical m e → emin ≤ e ∧ Z.log2 (Zpos m) ≤ prec - 1.
Proof. intros [H _]. unfold prec in *. lia. Qed.

(** Among values of the format the exponent decides first. *)
Lemma F2Q_lt_exp m1 e1 m2 e2 :
  canonical m1 e1 → canonical m2 e2 → e1 < e2 →
  (F2Q false m1 e1 < F2Q false m2 e2)%Q.
Proof.
  intros H1 H2 He. pose proof (canonical_bounds m1 e1 H1) as [? ?].
  destruct H2 as [H2 _].
  pose proof (F2Q_binade m1 e1) as [_ Hu]. pose proof (F2Q_binade m2 e2) as [Hl _].
  assert (pow2 (Z.log2 (Zpos m1) + e1 + 1) <= pow2 (Z.log2 (Zpos m2) + e2))%Q.
  { apply pow2_le. unfold prec in *. lia. }
  lra.
Qed.

Lemma F2Q_lt_mantissa m1 m2 e :
  (m1 < m2)%positive → (F2Q false m1 e < F2Q false m2 e)%Q.
Proof.
  intros H. unfold F2Q. pose proof (pow2_pos e).
  assert (inject_Z (Zpos m1) < inject_Z (Zpos m2))%Q by (rewrite <-Zlt_Qlt; lia).
  nra.
Qed.

Lemma F2Q_compare m1 e1 m2 e2 :
  canonical m1 e1 → canonical m2 e2 →
  (F2Q false m1 e1 ?= F2Q false m2 e2)%Q =
    match e1 ?= e2 with Lt => Lt | Gt => Gt | Eq => Pos.compare m1 m2 end.
Proof.
  intros H1 H2. destruct (Z.compare_spec e1 e2) as [->|He|He].
  - destruct (Pos.compare_spec m1 m2) as [->|Hm|Hm].
    + by apply Qcompare_Eq.
    + by apply Qcompare_Lt, F2Q_lt_mantissa.
    + by apply Qcompare_Gt, F2Q_lt_mantissa.
  - by apply Qcompare_Lt, F2Q_lt_exp.
  - by apply Qcompare_Gt, F2Q_lt_exp.
Qed.

Lemma Qcompare_opp a b : (- a ?= - b)%Q = CompOpp (a ?= b)%Q.
Proof.
  destruct (Qcompare_spec a b) as [H|H|H]; simpl;
    [apply Qcompare_Eq|apply Qcompare_Gt|apply Qcompare_Lt]; lra.
Qed.

Lemma SFcompare_value x y qx qy :
  value x qx → value y qy → SFcompare x y = Some (qx ?= qy)%Q.
Proof.
  intros [(sx & -> & Ex)|(sx & mx & ex & -> & Hcx & Ex & _ & Hsx)]%value_cases
         [(sy & -> & Ey)|(sy & my & ey & -> & Hcy & Ey & _ & Hsy)]%value_cases;
    simpl; f_equal; symmetry.
  - apply Qcompare_Eq. lra.
  - rewrite Ex. destruct sy; [apply Qcompare_Gt|apply Qcompare_Lt];
      pose proof (F2Q_pos my ey); pose proof (F2Q_opp my ey); lra.
  - rewrite Ey. destruct sx; [apply Qcompare_Lt|apply Qcompare_Gt];
      pose proof (F2Q_pos mx ex); pose proof (F2Q_opp mx ex); lra.
  - rewrite <-Ex, <-Ey. pose proof (F2Q_pos mx ex). pose proof (F2Q_pos my ey).
    destruct sx, sy; rewrite ?F2Q_opp.
    + rewrite Qcompare_opp, (F2Q_compare mx ex my ey) by done.
      by destruct (ex ?= ey).
    + apply Qcompare_Lt. lra.
    + apply Qcompare_Gt. lra.
    + by apply F2Q_compare.
Qed.

Lemma lt_value x y qx qy :
  value x qx → value y qy → (lt x y = true ↔ (qx < qy)%Q).
Proof.
  intros Hx Hy. unfold lt, SFltb. rewrite (SFcompare_value x y qx qy Hx Hy), Qlt_alt.
  destruct (qx ?= qy)%Q; by split.
Qed.

Lemma gt_value x y qx qy :
  value x qx → value y qy → (gt x y = true ↔ (qy < qx)%Q).
Proof. intros Hx Hy. by apply lt_value. Qed.

Lemma strict_eq_value x y qx qy :
  value x qx → value y qy → (strict_eq x y = true ↔ (qx == qy)%Q).
Proof.
  intros Hx Hy. unfold strict_eq, SFeqb.
  rewrite (SFcompare_value x y qx qy Hx Hy), Qeq_alt.
  destruct (qx ?= qy)%Q; by split.
Qed.

(** ** The operations on finite numbers

    On finite operands every operation is the rounding of the exact
    result; the sign of a zero result is the one the operation's table
    gives. *)

Lemma neg_value x q : value x q → value (neg x) (- q).
Proof.
  intros [(s & -> & E)|(s & m & e & -> & Hc & E & _)]%value_cases; simpl.
  - rewrite E. apply value_zero.
  - rewrite <-E. pose proof (F2Q_opp m e).
    assert (- F2Q s m e == F2Q (negb s) m e)%Q as -> by (destruct s; simpl; lra).
    by apply value_finite.
Qed.

Lemma sign_neg x q : value x q → sign (neg x) = negb (sign x).
Proof. by intros [(s & -> & E)|(s & m & e & -> & _)]%value_cases. Qed.

Lemma add_value x y qx qy :
  value x qx → value y qy →
  add x y = round_ne (sign x && sign y) (qx + qy).
Proof.
  intros Hx Hy. pose proof (round_ne_value x qx Hx) as Rx.
  pose proof (round_ne_value y qy Hy) as Ry.
  apply value_cases in Hx as [(sx & -> & Ex)|(sx & mx & ex & -> & Hcx & Ex & Hx0 & Hsx)];
    apply value_cases in Hy as [(sy & -> & Ey)|(sy & my & ey & -> & Hcy & Ey & Hy0 & Hsy)];
    simpl in *.
  - by assert (qx + qy == 0)%Q as -> by lra.
  - assert (qx + qy == qy)%Q as -> by lra. by rewrite (round_ne_nonzero _ sy).
  - assert (qx + qy == qx)%Q as -> by lra. by rewrite (round_ne_nonzero _ sx).
  - rewrite Ex, Ey. destruct (sx && sy) eqn:Hs; [|done].
    apply andb_prop in Hs as [-> ->]. apply round_ne_nonzero.
    assert (qx < 0)%Q by tauto. assert (qy < 0)%Q by tauto. lra.
Qed.

(** The sign of a finite number is the sign of its value. *)
Lemma sign_value x q : value x q → ¬ (q == 0)%Q → (sign x = true ↔ (q < 0)%Q).
Proof.
  intros [(s & -> & E)|(s & m & e & -> & _ & _ & _ & Hs)]%value_cases H0; [done|].
  done.
Qed.

Lemma mul_value x y qx qy :
  value x qx → value y qy →
  mul x y = round_ne (xorb (sign x) (sign y)) (qx * qy).
Proof.
  intros [(sx & -> & Ex)|(sx & mx & ex & -> & Hcx & Ex & _)]%value_cases
         [(sy & -> & Ey)|(sy & my & ey & -> & Hcy & Ey & _)]%value_cases; simpl.
  - by assert (qx * qy == 0)%Q as -> by (rewrite Ex; ring).
  - by assert (qx * qy == 0)%Q as -> by (rewrite Ex; ring).
  - by assert (qx * qy == 0)%Q as -> by (rewrite Ey; ring).
  - by rewrite Ex, Ey.
Qed.

Lemma div_value x y qx qy :
  value x qx → value y qy → ¬ (qy == 0)%Q →
  div x y = round_ne (xorb (sign x) (sign y)) (qx / qy).
Proof.
  intros [(sx & -> & Ex)|(sx & mx & ex & -> & Hcx & Ex & _)]%value_cases
         [(sy & -> & Ey)|(sy & my & ey & -> & Hcy & Ey & _)]%value_cases Hy;
    simpl; try done.
  - assert (qx / qy == 0)%Q as -> by (rewrite Ex; by field). done.
  - by rewrite Ex, Ey.
Qed.

Lemma floor_value x q : value x q → floor x = integral (sign x) (Qfloor q).
Proof.
  intros [(s & -> & E)|(s & m & e & -> & Hc & E & _)]%value_cases;
    unfold floor, sign; by rewrite E.
Qed.

Lemma ceil_value x q : value x q → ceil x = integral (sign x) (Qceiling q).
Proof.
  intros [(s & -> & E)|(s & m & e & -> & Hc & E & _)]%value_cases;
    unfold ceil, sign; by rewrite E.
Qed.

Lemma inject_Z_opp_lt a b : (a < - b)%Z ↔ (inject_Z a < - inject_Z b)%Q.
Proof. by rewrite <-inject_Z_opp, <-Zlt_Qlt. Qed.

(** ** Theorems *)

(** Whatever fraction represents the value of a finite number that is not
    zero, and whatever sign is asked for a zero, its rounding is the
    number. *)
Lemma round_ne_representable x q q' sz :
  value x q → ¬ (q == 0)%Q → (q' == q)%Q → round_ne sz q' = x.
Proof.
  intros Hx H0 ->. rewrite (round_ne_nonzero sz (sign x)) by done.
  by apply round_ne_value.
Qed.

(** The operations are exact whenever the exact result is a Number:
    for finite operands whose exact sum, product or quotient is the value
    of a finite number that is not zero, [+], [*] and [/] return that
    number. *)
Theorem exact_operations x y z qx qy qz :
  value x qx → value y qy → value z qz → ¬ (qz == 0)%Q →
  ((qx + qy == qz)%Q → add x y = z) ∧
  ((qx * qy == qz)%Q → mul x y = z) ∧
  (¬ (qy == 0)%Q → (qx / qy == qz)%Q → div x y = z).
Proof.
  intros Hx Hy Hz H0. split_and!.
  - intros E. rewrite (add_value x y qx qy) by done.
    by apply (round_ne_representable z qz).
  - intros E. rewrite (mul_value x y qx qy) by done.
    by apply (round_ne_representable z qz).
  - intros Hy0 E. rewrite (div_value x y qx qy) by done.
    by apply (round_ne_representable z qz).
Qed.

(** C30: on finite numbers the comparisons [<], [>], [===] and [!==] are
    the comparisons of the values. *)
Theorem comparisons_value x y qx qy :
  value x qx → value y qy →
  (lt x y = true ↔ (qx < qy)%Q) ∧ (gt x y = true ↔ (qy < qx)%Q) ∧
  (strict_eq x y = true ↔ (qx == qy)%Q) ∧
  (strict_ne x y = true ↔ ¬ (qx == qy)%Q).
Proof.
  intros Hx Hy. split_and!;
    [by apply lt_value|by apply gt_value|by apply strict_eq_value|].
  unfold strict_ne. fold (strict_eq x y).
  rewrite <-(strict_eq_value x y qx qy Hx Hy).
  destruct (strict_eq x y); simpl; split; done.
Qed.

(** The numbers 3 and 2: 3 / 2 is 1.5, 3 * 2 is not 1.5. *)
Lemma exact_operations_witness :
  let x := S754_finite false 6755399441055744 (-51) in
  let y := S754_finite false 4503599627370496 (-51) in
  let z := S754_finite false 6755399441055744 (-52) in
  ((inject_Z 3 + inject_Z 2 == 3 # 2)%Q → add x y = z) ∧
  ((inject_Z 3 * inject_Z 2 == 3 # 2)%Q → mul x y = z) ∧
  (¬ (inject_Z 2 == 0)%Q → (inject_Z 3 / inject_Z 2 == 3 # 2)%Q → div x y = z).
Proof.
  intros x y z.
  apply (exact_operations x y z (inject_Z 3) (inject_Z 2) (3 # 2));
    try (split; [done|]; by eexists). done.
Defined.

(** The numbers -0 and 1.5. *)
Lemma comparisons_value_witness :
  let x := S754_zero true in
  let y := S754_finite false 6755399441055744 (-52) in
  (lt x y = true ↔ (0 < 3 # 2)%Q) ∧ (gt x y = true ↔ (3 # 2 < 0)%Q) ∧
  (strict_eq x y = true ↔ (0 == 3 # 2)%Q) ∧
  (strict_ne x y = true ↔ ¬ (0 == 3 # 2)%Q).
Proof.
  intros x y. apply (comparisons_value x y 0 (3 # 2)).
  - apply value_zero.
  - split; [done|]. by eexists.
Defined.
