(* ===== verification/SafeInteger.v ===== *)
(** * Safe integers

    The integers of magnitude below 2^53 ([Number.MAX_SAFE_INTEGER] is
    2^53 - 1) are Numbers, and on them addition, subtraction,
    multiplication, halving with [Math.floor], and the comparisons are the
    operations of the integers, as long as the results stay safe.  The
    sizes, offsets and counters of the layout are safe integers whenever no
    line is scaled. *)

From Stdlib Require Import QArith Qround Lqa SpecFloat.
From stdpp Require Import numbers.
From S2P Require Import Prelude JsNumber Rounding.

#[local] Open Scope Z_scope.

(** [Number.isSafeInteger]. *)
Definition safe (n : Z) : Prop := Z.abs n < 2 ^ prec.

#[export] Instance safe_dec n : Decision (safe n).
Proof. unfold safe. apply _. Defined.

Lemma of_Z_value n : safe n → value (of_Z n) (inject_Z n).
Proof.
  intros Hn. apply (round_ne_dyadic false n 0); [done|done| |by rewrite pow2_0, Qmult_1_r].
  destruct (decide (n = 0)) as [->|]; [done|].
  assert (Z.log2 (Z.abs n) < prec) by (apply Z.log2_lt_pow2; unfold safe in *; lia).
  unfold prec, emax_m in *. lia.
Qed.

Lemma inject_Z_eq0 n : (inject_Z n == 0)%Q ↔ n = 0.
Proof. by rewrite (inject_Z_injective n 0). Qed.

Lemma inject_Z_lt0 n : (inject_Z n < 0)%Q ↔ n < 0.
Proof. by rewrite (Zlt_Qlt n 0). Qed.

Lemma sign_of_Z n : safe n → sign (of_Z n) = bool_decide (n < 0).
Proof.
  intros Hn. destruct (decide (n = 0)) as [->|H0]; [done|].
  pose proof (sign_value _ _ (of_Z_value n Hn)) as Hs.
  rewrite inject_Z_eq0, inject_Z_lt0 in Hs. specialize (Hs H0).
  case_bool; [tauto|]. destruct (sign (of_Z n)); [tauto|done].
Qed.

(** The rounding of an integer with any sign for zero is [of_Z] when the
    sign is the positive one or the integer is not zero. *)
Lemma round_ne_of_Z sz n :
  (n = 0 → sz = false) → round_ne sz (inject_Z n) = of_Z n.
Proof.
  intros H. destruct (decide (n = 0)) as [->|H0]; [by rewrite H|].
  apply round_ne_nonzero. by rewrite inject_Z_eq0.
Qed.

Section arithmetic.
Context (a b : Z) (Ha : safe a) (Hb : safe b).

Lemma add_of_Z : add (of_Z a) (of_Z b) = of_Z (a + b).
Proof using Ha Hb.
  rewrite (add_value _ _ _ _ (of_Z_value a Ha) (of_Z_value b Hb)), !sign_of_Z by done.
  rewrite <-inject_Z_plus. apply round_ne_of_Z. repeat case_bool; simpl; lia || done.
Qed.

Lemma sub_of_Z : sub (of_Z a) (of_Z b) = of_Z (a - b).
Proof using Ha Hb.
  unfold sub. pose proof (of_Z_value b Hb) as Vb.
  rewrite (add_value _ _ _ _ (of_Z_value a Ha) (neg_value _ _ Vb)).
  rewrite (sign_neg _ _ Vb), !sign_of_Z by done.
  rewrite <-inject_Z_opp, <-inject_Z_plus. apply round_ne_of_Z.
  repeat case_bool; simpl; lia || done.
Qed.

Lemma mul_of_Z : 0 ≤ a → 0 ≤ b → mul (of_Z a) (of_Z b) = of_Z (a * b).
Proof using Ha Hb.
  intros. rewrite (mul_value _ _ _ _ (of_Z_value a Ha) (of_Z_value b Hb)).
  rewrite !sign_of_Z, !bool_decide_false, <-inject_Z_mult by (done || lia).
  by apply round_ne_of_Z.
Qed.

Lemma mul_one_r : mul (of_Z a) one = of_Z a.
Proof using Ha.
  unfold one.
  rewrite (mul_value _ _ _ _ (of_Z_value a Ha) (of_Z_value 1 ltac:(done))).
  rewrite sign_of_Z, <-inject_Z_mult, Z.mul_1_r by done.
  apply round_ne_of_Z. intros ->. done.
Qed.

Lemma floor_of_Z : floor (of_Z a) = of_Z a.
Proof using Ha.
  rewrite (floor_value _ _ (of_Z_value a Ha)), Qfloor_Z, sign_of_Z by done.
  destruct a; done.
Qed.

Lemma lt_of_Z : lt (of_Z a) (of_Z b) = bool_decide (a < b).
Proof using Ha Hb.
  pose proof (lt_value _ _ _ _ (of_Z_value a Ha) (of_Z_value b Hb)) as H.
  rewrite <-Zlt_Qlt in H. case_bool; [tauto|].
  destruct (lt (of_Z a) (of_Z b)); [tauto|done].
Qed.

Lemma strict_ne_of_Z : strict_ne (of_Z a) (of_Z b) = bool_decide (a ≠ b).
Proof using Ha Hb.
  pose proof (strict_eq_value _ _ _ _ (of_Z_value a Ha) (of_Z_value b Hb)) as H.
  rewrite inject_Z_injective in H. unfold strict_ne.
  fold (strict_eq (of_Z a) (of_Z b)).
  destruct (strict_eq (of_Z a) (of_Z b)) eqn:E; simpl; symmetry.
  - apply bool_decide_eq_false_2. intros Hne. by apply Hne, H.
  - apply bool_decide_eq_true_2. intros Hab. apply H in Hab. congruence.
Qed.

End arithmetic.

Lemma gt_of_Z a b : safe a → safe b → gt (of_Z a) (of_Z b) = bool_decide (b < a).
Proof. intros. by apply lt_of_Z. Qed.

(** [Math.floor(n / 2)] is the integer division by 2. *)
Lemma floor_half_of_Z n : safe n → floor (div (of_Z n) two) = of_Z (n / 2).
Proof.
  intros Hn. unfold two. pose proof (of_Z_value n Hn) as Vn.
  pose proof (of_Z_value 2 ltac:(done)) as V2.
  rewrite (div_value _ _ _ _ Vn V2) by done.
  assert (value (round_ne (xorb (sign (of_Z n)) (sign (of_Z 2))) (inject_Z n / inject_Z 2))
                (inject_Z n / inject_Z 2)) as V.
  { apply (round_ne_dyadic _ n (-1)); [done|done| |done].
    destruct (decide (n = 0)) as [->|]; [done|].
    assert (Z.log2 (Z.abs n) < prec) by (apply Z.log2_lt_pow2; unfold safe in *; lia).
    unfold prec, emax_m in *. lia. }
  rewrite (floor_value _ _ V), <-Zdiv_Qdiv.
  destruct (decide (n / 2 = 0)) as [E|E]; [|by destruct (n / 2)].
  rewrite E. simpl. f_equal.
  destruct (decide (n = 0)) as [->|H0]; [done|].
  assert (n = 1) as -> by (pose proof (Z.div_mod n 2); pose proof (Z.mod_pos_bound n 2); lia).
  done.
Qed.

(** [-l + h] for a Number [-l] made by negation: the zero of [-0 + h] has
    the positive sign. *)
Lemma add_neg_of_Z l h :
  safe l → safe h → 0 ≤ l → 0 ≤ h → add (neg (of_Z l)) (of_Z h) = of_Z (h - l).
Proof.
  intros Hl Hh ? ?. pose proof (of_Z_value l Hl) as Vl.
  rewrite (add_value _ _ _ _ (neg_value _ _ Vl) (of_Z_value h Hh)).
  rewrite (sign_neg _ _ Vl), !sign_of_Z, (bool_decide_false (h < 0)) by (done || lia).
  rewrite andb_false_r, <-inject_Z_opp, <-inject_Z_plus.
  rewrite round_ne_of_Z by done. f_equal. lia.
Qed.

(** ** Theorems *)

(** Distinct safe integers are distinct Numbers, and the Number of a
    safe integer is a finite number of the format whose value is the
    integer. *)
Theorem of_Z_safe a b :
  safe a → safe b →
  value (of_Z a) (inject_Z a) ∧ (of_Z a = of_Z b → a = b).
Proof.
  intros Ha Hb. split; [by apply of_Z_value|]. intros E.
  pose proof (strict_ne_of_Z a b Ha Hb) as H. rewrite E in H.
  unfold strict_ne in H. fold (strict_eq (of_Z b) (of_Z b)) in H.
  rewrite (proj2 (strict_eq_value _ _ _ _ (of_Z_value b Hb) (of_Z_value b Hb)))
    in H by done.
  symmetry in H. apply bool_decide_eq_false in H. by destruct (decide (a = b)).
Qed.

(** C17: on safe integers the Number operations are the operations of the
    integers, rounded once: sum, difference, product of two non-negative
    integers, the comparisons, and [Math.floor(n / 2)], which is the
    integer division by 2. *)
Theorem safe_arithmetic a b :
  safe a → safe b →
  add (of_Z a) (of_Z b) = of_Z (a + b) ∧
  sub (of_Z a) (of_Z b) = of_Z (a - b) ∧
  (0 ≤ a → 0 ≤ b → mul (of_Z a) (of_Z b) = of_Z (a * b)) ∧
  lt (of_Z a) (of_Z b) = bool_decide (a < b) ∧
  gt (of_Z a) (of_Z b) = bool_decide (b < a) ∧
  strict_ne (of_Z a) (of_Z b) = bool_decide (a ≠ b) ∧
  floor (of_Z a) = of_Z a ∧
  floor (div (of_Z a) two) = of_Z (a / 2).
Proof.
  intros Ha Hb. split_and!;
    auto using add_of_Z, sub_of_Z, mul_of_Z, lt_of_Z, gt_of_Z, strict_ne_of_Z,
      floor_of_Z, floor_half_of_Z.
Qed.

Lemma of_Z_safe_witness :
  value (of_Z 1292) (inject_Z 1292) ∧ (of_Z 1292 = of_Z 968 → 1292 = 968).
Proof. apply (of_Z_safe 1292 968); done. Defined.

Lemma safe_arithmetic_witness :
  add (of_Z 1292) (of_Z (-852)) = of_Z (1292 + -852) ∧
  sub (of_Z 1292) (of_Z (-852)) = of_Z (1292 - -852) ∧
  (0 ≤ 1292 → 0 ≤ -852 → mul (of_Z 1292) (of_Z (-852)) = of_Z (1292 * -852)) ∧
  lt (of_Z 1292) (of_Z (-852)) = bool_decide (1292 < -852) ∧
  gt (of_Z 1292) (of_Z (-852)) = bool_decide (-852 < 1292) ∧
  strict_ne (of_Z 1292) (of_Z (-852)) = bool_decide (1292 ≠ -852) ∧
  floor (of_Z 1292) = of_Z 1292 ∧
  floor (div (of_Z 1292) two) = of_Z (1292 / 2).
Proof. apply (safe_arithmetic 1292 (-852)); done. Defined.
