(* ===== verification/RoundingError.v ===== *)
(** * The error of rounding to binary64

    A positive rational in the range of the normal numbers is rounded to a
    finite number of the format whose value differs from it by half a unit
    in the last place at most, that is by the fraction 2^-53 of the rational
    at most.  The bounds of the scaled layout rest on this. *)

From Stdlib Require Import QArith Qround Qabs Lqa SpecFloat.
From stdpp Require Import numbers.
From S2P Require Import Prelude JsNumber Rounding.

#[local] Open Scope Z_scope.

(** ** The nearest integer *)

Lemma div_nearest_even_bounds num den :
  0 < den →
  - den ≤ 2 * (div_nearest_even num den * den - num) ≤ den.
Proof.
  intros Hd. unfold div_nearest_even.
  pose proof (Z.div_mod num den ltac:(lia)) as E.
  pose proof (Z.mod_pos_bound num den Hd) as B.
  revert E B. generalize (num / den) (num mod den). intros fl r E B.
  destruct (Z.compare_spec (2 * r) den); [destruct (Z.even fl)|..]; nia.
Qed.

(** The nearest integer is within one half of the quotient. *)
Lemma div_nearest_even_error num den :
  0 < den →
  (inject_Z (div_nearest_even num den) - (1 # 2) <= inject_Z num / inject_Z den
   <= inject_Z (div_nearest_even num den) + (1 # 2))%Q.
Proof.
  intros Hd. pose proof (div_nearest_even_bounds num den Hd) as [Hl Hu].
  set (r := div_nearest_even num den) in *.
  rewrite Zle_Qle in Hl, Hu. revert Hl Hu. unfold Z.sub.
  rewrite !inject_Z_mult, !inject_Z_plus, !inject_Z_opp, !inject_Z_mult.
  assert (0 < inject_Z den)%Q as Hden by (by rewrite <-(Zlt_Qlt 0)).
  assert (inject_Z num / inject_Z den * inject_Z den == inject_Z num)%Q as E
    by (field; lra).
  revert E. generalize (inject_Z num / inject_Z den)%Q. intros x E.
  change (inject_Z 2) with 2%Q. intros Hl Hu.
  split; apply Qnot_lt_le; intros Hc; nra.
Qed.

(** ** Powers of two *)

Lemma pow2_opp_mul e : (pow2 e * pow2 (- e) == 1)%Q.
Proof. rewrite <-pow2_add, Z.add_opp_diag_r. reflexivity. Qed.

Lemma pow2_inv e : (pow2 (- e) == / pow2 e)%Q.
Proof.
  pose proof (pow2_pos e). apply (Qmult_inj_l _ _ (pow2 e)); [lra|].
  rewrite pow2_opp_mul, Qmult_inv_r; [done|lra].
Qed.

Lemma pow2_double e : (pow2 e == 2 * pow2 (e - 1))%Q.
Proof. replace e with (1 + (e - 1)) at 1 by lia. by rewrite pow2_add. Qed.

Lemma pow2_inject_Z e : 0 ≤ e → (inject_Z (2 ^ e) == pow2 e)%Q.
Proof. intros H. by rewrite pow2_nonneg. Qed.

(** ** The mantissa *)

(** The integer that [round_pos] rounds to at the exponent [e]. *)
Definition mantissa (n d : positive) (e : Z) : Z :=
  if 0 <=? e then div_nearest_even (Zpos n) (Zpos d * 2 ^ e)
  else div_nearest_even (Zpos n * 2 ^ (- e)) (Zpos d).

(** The mantissa is the nearest integer to a quotient of integers, the
    rational scaled by [2^-e]. *)
Lemma mantissa_quotient n d e :
  ∃ num den, 0 < den ∧ mantissa n d e = div_nearest_even num den ∧
    ((Zpos n # d) * pow2 (- e) == inject_Z num / inject_Z den)%Q.
Proof.
  unfold mantissa. pose proof (pow2_pos e).
  assert (0 < inject_Z (Zpos d))%Q by done.
  destruct (Z.leb_spec 0 e) as [He|He].
  - assert (0 < 2 ^ e) by (by apply Z.pow_pos_nonneg).
    exists (Zpos n), (Zpos d * 2 ^ e). split_and!; [lia|done|].
    rewrite (pow2_inv e), (Qmake_Qdiv (Zpos n) d), inject_Z_mult, (pow2_inject_Z e He).
    field. lra.
  - assert (0 < 2 ^ (- e)) by (apply Z.pow_pos_nonneg; lia).
    exists (Zpos n * 2 ^ (- e)), (Zpos d). split_and!; [lia|done|].
    rewrite (Qmake_Qdiv (Zpos n) d), inject_Z_mult, (pow2_inject_Z (- e)) by lia.
    field. lra.
Qed.

(** The mantissa is within one half of the rational scaled by [2^-e]. *)
Lemma mantissa_error n d e :
  (inject_Z (mantissa n d e) - (1 # 2) <= (Zpos n # d) * pow2 (- e)
   <= inject_Z (mantissa n d e) + (1 # 2))%Q.
Proof.
  destruct (mantissa_quotient n d e) as (num & den & Hden & -> & ->).
  by apply div_nearest_even_error.
Qed.

(** ** Rounding in the normal range *)

(** The result of [round_pos] from the mantissa at the exponent [e]. *)
Lemma round_pos_mantissa n d :
  round_pos n d =
    let e := Z.max (ilog2 n d - (prec - 1)) emin in
    let m := mantissa n d e in
    let '(m, e) := if m =? 2 ^ prec then (2 ^ (prec - 1), e + 1) else (m, e) in
    match m with
    | Zpos m => if emax_m <? e then S754_infinity false else S754_finite false m e
    | _ => S754_zero false
    end.
Proof. reflexivity. Qed.

(** In a binade of the normal range the mantissa has 53 bits, or is 2^53. *)
Lemma mantissa_bounds n d k :
  (pow2 k <= Zpos n # d < pow2 (k + 1))%Q →
  2 ^ (prec - 1) ≤ mantissa n d (k - (prec - 1)) ≤ 2 ^ prec.
Proof.
  intros [Hl Hu]. pose proof (mantissa_error n d (k - (prec - 1))) as [H1 H2].
  pose proof (pow2_pos (- (k - (prec - 1)))) as Hp.
  assert (pow2 k * pow2 (- (k - (prec - 1))) == inject_Z (2 ^ (prec - 1)))%Q as E1.
  { rewrite <-pow2_add. replace (k + - (k - (prec - 1))) with (prec - 1) by lia. done. }
  assert (pow2 (k + 1) * pow2 (- (k - (prec - 1))) == inject_Z (2 ^ prec))%Q as E2.
  { rewrite <-pow2_add. replace (k + 1 + - (k - (prec - 1))) with prec by lia. done. }
  revert H1 H2 E1 E2 Hl Hu Hp.
  generalize (mantissa n d (k - (prec - 1))) (pow2 (- (k - (prec - 1)))) (Zpos n # d)%Q.
  intros m P q H1 H2 E1 E2 Hl Hu Hp.
  assert (pow2 k * P <= q * P)%Q as Hl' by (apply Qmult_le_compat_r; lra).
  assert (q * P < pow2 (k + 1) * P)%Q as Hu' by (apply Qmult_lt_compat_r; lra).
  assert (inject_Z (2 ^ (prec - 1) - 1) < inject_Z m)%Q as Hlo.
  { unfold Z.sub at 1. rewrite inject_Z_plus, inject_Z_opp.
    change (inject_Z 1) with 1%Q. lra. }
  assert (inject_Z m < inject_Z (2 ^ prec + 1))%Q as Hhi.
  { rewrite inject_Z_plus. change (inject_Z 1) with 1%Q. lra. }
  rewrite <-Zlt_Qlt in Hlo, Hhi. lia.
Qed.

Lemma scaled_error (q P Pinv P1 m : Q) :
  (P * Pinv == 1 → 0 < P → P == 2 * P1 →
   m - (1 # 2) <= q * Pinv → q * Pinv <= m + (1 # 2) →
   m * P - q <= P1 ∧ q - m * P <= P1)%Q.
Proof.
  intros Hinv Hp Hd H1 H2.
  assert (q == q * Pinv * P)%Q as Hq.
  { rewrite <-Qmult_assoc, (Qmult_comm Pinv), Hinv. ring. }
  assert ((m - (1 # 2)) * P <= q * Pinv * P)%Q by (apply Qmult_le_compat_r; lra).
  assert (q * Pinv * P <= (m + (1 # 2)) * P)%Q by (apply Qmult_le_compat_r; lra).
  split; lra.
Qed.

(** A positive rational in the range of the normal numbers rounds to a
    finite number of the format within half a unit in the last place. *)
Lemma round_pos_normal (n d : positive) k :
  (pow2 k <= Zpos n # d < pow2 (k + 1))%Q →
  emin + prec - 1 ≤ k < emax_m + prec - 1 →
  ∃ m e, round_pos n d = S754_finite false m e ∧ canonical m e ∧
    (F2Q false m e - (Zpos n # d) <= pow2 (k - prec))%Q ∧
    ((Zpos n # d) - F2Q false m e <= pow2 (k - prec))%Q.
Proof.
  intros Hk Hrange. pose proof (mantissa_bounds n d k Hk) as Hm.
  pose proof (mantissa_error n d (k - (prec - 1))) as [H1 H2].
  rewrite round_pos_mantissa, (ilog2_unique n d k Hk).
  replace (Z.max (k - (prec - 1)) emin) with (k - (prec - 1))
    by (unfold prec, emin in *; lia).
  set (e := k - (prec - 1)) in *. cbv zeta.
  pose proof (pow2_opp_mul e) as Hinv. pose proof (pow2_pos e) as Hp.
  pose proof (pow2_pos (- e)) as Hp'. pose proof (pow2_double e) as Hd.
  replace (k - prec) with (e - 1) by (unfold e; lia).
  destruct (Z.eqb_spec (mantissa n d e) (2 ^ prec)) as [E|E].
  - exists 4503599627370496%positive, (e + 1).
    rewrite (proj2 (Z.ltb_ge _ _)) by (unfold e, prec, emax_m in *; lia).
    change (2 ^ (prec - 1)) with (Zpos 4503599627370496) in *.
    split; [done|]. split; [split; [|unfold e, prec, emax_m in *; lia]|].
    { change (Z.log2 (Zpos 4503599627370496)) with 52.
      unfold e, prec, emin in *. lia. }
    rewrite E in H1, H2. unfold F2Q. rewrite (pow2_add e 1).
    assert (inject_Z (Zpos 4503599627370496) == inject_Z (2 ^ prec) / 2)%Q as ->
      by (vm_compute; reflexivity).
    change (pow2 1) with 2%Q.
    destruct (scaled_error _ _ _ _ _ Hinv Hp Hd H1 H2).
    assert (inject_Z (2 ^ prec) / 2 * (pow2 e * 2) == inject_Z (2 ^ prec) * pow2 e)%Q
      as -> by field.
    done.
  - assert (0 < 2 ^ (prec - 1)) by done.
    destruct (mantissa n d e) as [|m|m] eqn:Em; [lia| |lia].
    exists m, e. rewrite (proj2 (Z.ltb_ge _ _)) by (unfold e, prec, emax_m in *; lia).
    split; [done|]. split.
    + split; [|unfold e, prec, emax_m in *; lia].
      assert (Z.log2 (Zpos m) = prec - 1) as ->.
      { apply Z.log2_unique; [done|]. change (Z.succ (prec - 1)) with prec. lia. }
      unfold e, prec, emin in *. lia.
    + unfold F2Q. apply (scaled_error _ _ _ _ _ Hinv Hp Hd H1 H2).
Qed.

(** ** The relative error *)

(** The unit roundoff of binary64, 2^-53. *)
Definition unit_roundoff : Q := pow2 (- prec).

(** [x] is a finite number whose value is within the unit roundoff of [q],
    relatively. *)
Definition near (x : number) (q : Q) : Prop :=
  ∃ v, value x v ∧ (q * (1 - unit_roundoff) <= v <= q * (1 + unit_roundoff))%Q.

(** The range of the positive normal numbers below 2^1023. *)
Definition normal_range (q : Q) : Prop :=
  (pow2 (emin + prec - 1) <= q < pow2 (emax_m + prec - 1))%Q.

(** A rational of the normal range rounds to a number near it. *)
Lemma round_ne_near sz q : normal_range q → near (round_ne sz q) q.
Proof.
  intros [Hlo Hhi]. pose proof (pow2_pos (emin + prec - 1)) as Hpos.
  destruct q as [[|n|n] d]; [assert (0 # d == 0)%Q by done; lra| |].
  2:{ assert (Z.neg n # d < 0)%Q by done. lra. }
  pose proof (ilog2_spec n d) as Hk. set (k := ilog2 n d) in *.
  assert (emin + prec - 1 ≤ k < emax_m + prec - 1) as Hrange.
  { assert (emin + prec - 1 < k + 1) by (apply pow2_lt_inv; lra).
    assert (k < emax_m + prec - 1) by (apply pow2_lt_inv; lra). lia. }
  destruct (round_pos_normal n d k Hk Hrange) as (m & e & Hr & Hc & H1 & H2).
  exists (F2Q false m e). unfold round_ne. simpl. rewrite Hr.
  split; [by apply value_finite|]. unfold unit_roundoff.
  assert (pow2 (k - prec) == pow2 k * pow2 (- prec))%Q as E
    by (rewrite <-pow2_add; f_equiv; lia).
  pose proof (pow2_pos (- prec)). destruct Hk as [Hk _].
  assert (pow2 k * pow2 (- prec) <= (Zpos n # d) * pow2 (- prec))%Q
    by (apply Qmult_le_compat_r; lra).
  split; lra.
Qed.

(** ** Theorems *)

(** C29: the standard model of binary64 arithmetic.  For finite operands,
    when the exact sum, product or quotient is in the range of the positive
    normal numbers, the Number [+], [*] or [/] returns is finite and differs
    from the exact result by the fraction 2^-53 of it at most. *)
Theorem standard_model x y qx qy :
  value x qx → value y qy →
  (normal_range (qx + qy) → near (add x y) (qx + qy)) ∧
  (normal_range (qx * qy) → near (mul x y) (qx * qy)) ∧
  (¬ (qy == 0)%Q → normal_range (qx / qy) → near (div x y) (qx / qy)).
Proof.
  intros Hx Hy. split_and!.
  - intros Hr. rewrite (add_value x y qx qy) by done. by apply round_ne_near.
  - intros Hr. rewrite (mul_value x y qx qy) by done. by apply round_ne_near.
  - intros H0 Hr. rewrite (div_value x y qx qy) by done. by apply round_ne_near.
Qed.

(** The numbers 1 and 3: 1 / 3 is not a Number, the quotient is near it. *)
Lemma standard_model_witness :
  let x := S754_finite false 4503599627370496 (-52) in
  let y := S754_finite false 6755399441055744 (-51) in
  (normal_range (1 + 3) → near (add x y) (1 + 3)) ∧
  (normal_range (1 * 3) → near (mul x y) (1 * 3)) ∧
  (¬ (3 == 0)%Q → normal_range (1 / 3) → near (div x y) (1 / 3)).
Proof.
  intros x y. apply (standard_model x y 1 3); (split; [done|]; by eexists).
Defined.
