(* ===== verification/RoundingOrder.v ===== *)
(** * Rounding and the order of the Numbers

    [round_ne] never crosses a value of the format: a rational between two
    finite Numbers rounds to a finite Number between them.  With the
    exactness of [Rounding] this bounds the result of an operation by the
    integers around its exact result, whatever the size of the operands;
    below the normal range too, where the relative error of
    [RoundingError] says nothing. *)

From Stdlib Require Import QArith Qround Lqa SpecFloat.
From stdpp Require Import numbers.
From S2P Require Import Prelude JsNumber Rounding RoundingError.

#[local] Open Scope Z_scope.

(** ** The exponent and the mantissa [round_pos] chooses *)

(** The exponent of the result before a carry: 52 below the binade of the
    rational, and [emin] for the subnormal numbers. *)
Definition exponent (n d : positive) : Z := Z.max (ilog2 n d - (prec - 1)) emin.

(** A finite Number whose value lies between two rationals. *)
Definition between (qa qb : Q) (x : number) : Prop :=
  ∃ v, value x v ∧ (qa <= v <= qb)%Q.

Lemma inject_Z_half_le a b : (inject_Z a - (1 # 2) <= inject_Z b)%Q → a ≤ b.
Proof.
  intros H. assert (inject_Z a < inject_Z (b + 1))%Q as Hlt.
  { rewrite inject_Z_plus. change (inject_Z 1) with 1%Q. lra. }
  rewrite <-Zlt_Qlt in Hlt. lia.
Qed.

Lemma inject_Z_le_half a b : (inject_Z a <= inject_Z b + (1 # 2))%Q → a ≤ b.
Proof. intros H. apply inject_Z_half_le. lra. Qed.

(** A rational scaled to the exponent [e] and back. *)
Lemma scale_le q b e : (q <= b * pow2 e → q * pow2 (- e) <= b)%Q.
Proof.
  intros H. pose proof (pow2_pos (- e)). pose proof (pow2_opp_mul e) as E.
  assert (b == b * pow2 e * pow2 (- e))%Q as -> by (rewrite <-Qmult_assoc, E; ring).
  apply Qmult_le_compat_r; lra.
Qed.

Lemma scale_ge q a e : (a * pow2 e <= q → a <= q * pow2 (- e))%Q.
Proof.
  intros H. pose proof (pow2_pos (- e)). pose proof (pow2_opp_mul e) as E.
  assert (a == a * pow2 e * pow2 (- e))%Q as -> by (rewrite <-Qmult_assoc, E; ring).
  apply Qmult_le_compat_r; lra.
Qed.

Lemma scale_lt q k e : (q < pow2 k → q * pow2 (- e) < pow2 (k - e))%Q.
Proof.
  intros H. pose proof (pow2_pos (- e)).
  rewrite (pow2_add k (- e) : (pow2 (k - e) == _)%Q).
  apply Qmult_lt_compat_r; lra.
Qed.

(** The mantissa is at most 2^53, and it has 53 bits above [emin]. *)
Lemma mantissa_range n d :
  let m := mantissa n d (exponent n d) in
  0 ≤ m ≤ 2 ^ prec ∧ (emin < exponent n d → 2 ^ (prec - 1) ≤ m).
Proof.
  cbv zeta. pose proof (ilog2_spec n d) as Hk.
  pose proof (mantissa_error n d (exponent n d)) as [Hlo Hhi].
  pose proof (pow2_pos (- exponent n d)). assert (0 < Zpos n # d)%Q by done.
  assert (0 ≤ mantissa n d (exponent n d)) as Hpos.
  { apply (inject_Z_le_half 0). change (inject_Z 0) with 0%Q.
    assert (0 < (Zpos n # d) * pow2 (- exponent n d))%Q by nra. lra. }
  revert Hlo Hhi Hpos. unfold exponent.
  destruct (Z.max_spec (ilog2 n d - (prec - 1)) emin) as [[Hlt ->]|[Hge ->]];
    intros Hlo Hhi Hpos.
  - split; [split; [done|]|lia]. apply inject_Z_half_le.
    destruct Hk as [_ Hk]. apply (scale_lt _ _ emin) in Hk.
    assert (pow2 (ilog2 n d + 1 - emin) <= pow2 prec)%Q by (apply pow2_le; lia).
    change (pow2 prec) with (inject_Z (2 ^ prec)) in *. lra.
  - pose proof (mantissa_bounds n d (ilog2 n d) Hk). lia.
Qed.

(** The result of [round_pos] when the exponent stays in the format: the
    finite number of the mantissa and the exponent chosen. *)
Lemma round_pos_finite n d :
  let e := exponent n d in
  let m := mantissa n d e in
  (e + (if m =? 2 ^ prec then 1 else 0) ≤ emax_m) →
  value (round_pos n d) (inject_Z m * pow2 e).
Proof.
  intros e m Hmax. destruct (mantissa_range n d) as [[H0 Hm] Hn].
  fold e m in H0, Hm, Hn. rewrite round_pos_mantissa. fold (exponent n d). fold e. cbv zeta. fold m.
  assert (emin ≤ e) as He by (unfold e, exponent; lia).
  destruct (Z.eqb_spec m (2 ^ prec)) as [E|E].
  - cbv beta iota. rewrite (proj2 (Z.ltb_ge _ _)) by lia.
    assert (inject_Z m * pow2 e == F2Q false 4503599627370496 (e + 1))%Q as ->.
    { rewrite E. unfold F2Q. rewrite (pow2_add e 1). change (pow2 1) with 2%Q.
      assert (inject_Z (2 ^ prec) == inject_Z (Zpos 4503599627370496) * 2)%Q as ->
        by (vm_compute; reflexivity). ring. }
    apply value_finite. split; [|lia].
    change (Z.log2 (Zpos 4503599627370496)) with 52. unfold prec. lia.
  - destruct m as [|p|p] eqn:Em; [|clear H0|lia].
    { assert (inject_Z 0 * pow2 e == 0)%Q as -> by ring. apply value_zero. }
    cbv beta iota. rewrite (proj2 (Z.ltb_ge _ _)) by lia. apply (value_finite false).
    split; [|lia]. assert (0 < 2 ^ (prec - 1)) by done.
    assert (Z.log2 (Zpos p) < prec) by (apply Z.log2_lt_pow2; lia).
    destruct (decide (emin < e)) as [Hlt|Hge]; [|lia].
    assert (prec - 1 ≤ Z.log2 (Zpos p)) by (apply Z.log2_le_pow2; [lia|]; by apply Hn).
    lia.
Qed.

(** ** Rounding a positive rational next to a value of the format *)

(** The exponent of a value of the format is the one [round_pos] chooses
    for its binade. *)
Lemma canonical_exponent m e :
  canonical m e → e = Z.max (Z.log2 (Zpos m) + e - (prec - 1)) emin.
Proof. intros [H _]. unfold prec in *. lia. Qed.

(** The binades of two ordered positive rationals are ordered. *)
Lemma binade_le q q' k k' :
  (pow2 k <= q)%Q → (q <= q')%Q → (q' < pow2 (k' + 1))%Q → k ≤ k'.
Proof. intros H1 H2 H3. assert (k < k' + 1) by (apply pow2_lt_inv; lra). lia. Qed.

Section next_to.
Context (n d : positive) (m' : positive) (e' : Z) (Hc : canonical m' e').

#[local] Abbreviation e := (exponent n d).
#[local] Abbreviation m := (mantissa n d (exponent n d)).

(** Below a value of the format: the result is not above it, and its
    exponent stays in the format. *)
Lemma round_pos_below :
  (Zpos n # d <= F2Q false m' e')%Q →
  (inject_Z m * pow2 e <= F2Q false m' e')%Q ∧
  e + (if m =? 2 ^ prec then 1 else 0) ≤ emax_m.
Proof using Hc.
  intros Hle. pose proof (ilog2_spec n d) as [Hk _].
  pose proof (F2Q_binade m' e') as [_ Hk'].
  pose proof (binade_le _ _ _ _ Hk Hle Hk') as Hkk.
  pose proof (canonical_exponent m' e' Hc) as He'. pose proof (canonical_lt m' e' Hc).
  destruct (mantissa_range n d) as [[H0 Hm] _]. destruct Hc as [_ Hmax].
  pose proof (pow2_pos e). unfold F2Q in *.
  destruct (decide (e = e')) as [E|E].
  - assert (m ≤ Zpos m') as Hmm.
    { apply inject_Z_half_le. destruct (mantissa_error n d e) as [Hlo _].
      rewrite <-E in Hle. apply scale_le in Hle. lra. }
    rewrite (proj2 (Z.eqb_neq _ _)) by lia. split; [|lia].
    rewrite <-E. rewrite Zle_Qle in Hmm. nra.
  - assert (e < e') as Hlt by (unfold exponent in *; lia).
    split; [|destruct (m =? 2 ^ prec); lia].
    assert (2 ^ (prec - 1) ≤ Zpos m') as Hm'.
    { apply Z.log2_le_pow2; [done|]. unfold exponent, prec in *. lia. }
    assert (pow2 (prec + e) <= pow2 (prec - 1 + e'))%Q as Hp by (apply pow2_le; lia).
    rewrite (pow2_add prec e), (pow2_add (prec - 1) e') in Hp.
    change (pow2 prec) with (inject_Z (2 ^ prec)) in Hp.
    change (pow2 (prec - 1)) with (inject_Z (2 ^ (prec - 1))) in Hp.
    pose proof (pow2_pos e'). rewrite Zle_Qle in Hm, Hm'. nra.
Qed.

(** Above a value of the format: the result is not below it. *)
Lemma round_pos_above :
  (F2Q false m' e' <= Zpos n # d)%Q → (F2Q false m' e' <= inject_Z m * pow2 e)%Q.
Proof using Hc.
  intros Hle. pose proof (ilog2_spec n d) as [_ Hk].
  pose proof (F2Q_binade m' e') as [Hk' _].
  pose proof (binade_le _ _ _ _ Hk' Hle Hk) as Hkk.
  pose proof (canonical_exponent m' e' Hc) as He'. pose proof (canonical_lt m' e' Hc) as Hm'.
  destruct (mantissa_range n d) as [_ Hn]. pose proof (pow2_pos e). unfold F2Q in *.
  destruct (decide (e = e')) as [E|E].
  - assert (Zpos m' ≤ m) as Hmm.
    { apply inject_Z_le_half. destruct (mantissa_error n d e) as [_ Hhi].
      rewrite <-E in Hle. apply scale_ge in Hle. lra. }
    rewrite <-E. rewrite Zle_Qle in Hmm. nra.
  - assert (e' < e) as Hlt by (unfold exponent in *; lia).
    assert (2 ^ (prec - 1) ≤ m) as Hm by (apply Hn; unfold exponent in *; lia).
    assert (pow2 (prec + e') <= pow2 (prec - 1 + e))%Q as Hp by (apply pow2_le; lia).
    rewrite (pow2_add prec e'), (pow2_add (prec - 1) e) in Hp.
    change (pow2 prec) with (inject_Z (2 ^ prec)) in Hp.
    change (pow2 (prec - 1)) with (inject_Z (2 ^ (prec - 1))) in Hp.
    pose proof (pow2_pos e'). rewrite Zlt_Qlt in Hm'. rewrite Zle_Qle in Hm. nra.
Qed.

End next_to.

(** ** Rounding between two Numbers *)

(** A finite Number of positive value is a value of the format. *)
Lemma value_positive x q :
  value x q → (0 < q)%Q → ∃ m e, canonical m e ∧ (F2Q false m e == q)%Q.
Proof.
  intros [(s & -> & E)|(s & m & e & -> & Hc & E & _ & Hs)]%value_cases Hq; [lra|].
  exists m, e. split; [done|]. destruct s; [|done].
  destruct Hs as [Hs _]. specialize (Hs eq_refl). lra.
Qed.

Lemma round_pos_between n d a b qa qb :
  value a qa → value b qb → (qa <= Zpos n # d <= qb)%Q →
  ∃ v, value (round_pos n d) v ∧ (qa <= v <= qb)%Q.
Proof.
  intros Ha Hb [Hlo Hhi]. assert (0 < Zpos n # d)%Q as Hq by done.
  destruct (value_positive b qb Hb ltac:(lra)) as (mb & eb & Hcb & Eb).
  rewrite <-Eb in Hhi. destruct (round_pos_below n d mb eb Hcb Hhi) as [Hle Hmax].
  exists (inject_Z (mantissa n d (exponent n d)) * pow2 (exponent n d))%Q.
  split; [by apply round_pos_finite|]. split; [|lra].
  destruct (Qlt_le_dec 0 qa) as [Hpos|Hneg].
  - destruct (value_positive a qa Ha Hpos) as (ma & ea & Hca & Ea).
    rewrite <-Ea in *. by apply round_pos_above.
  - destruct (mantissa_range n d) as [[H0 _] _]. rewrite Zle_Qle in H0.
    pose proof (pow2_pos (exponent n d)). change (inject_Z 0) with 0%Q in H0. nra.
Qed.

(** A rational between the values of two finite Numbers rounds to a finite
    Number between them. *)
Lemma round_ne_between sz a b qa qb q :
  value a qa → value b qb → (qa <= q <= qb)%Q →
  ∃ v, value (round_ne sz q) v ∧ (qa <= v <= qb)%Q.
Proof.
  intros Ha Hb [Hlo Hhi]. destruct q as [[|n|n] d]; unfold round_ne; simpl.
  - exists 0%Q. split; [apply value_zero|]. assert (0 # d == 0)%Q by done. lra.
  - by apply (round_pos_between n d a b).
  - change (Z.neg n # d)%Q with (- (Zpos n # d))%Q in *.
    destruct (round_pos_between n d (neg b) (neg a) (- qb) (- qa)) as (v & Hv & Hvl & Hvh);
      [by apply neg_value..|lra|].
    exists (- v)%Q. split; [by apply (neg_value _ v)|lra].
Qed.

(** The relative error, for a zero or a rational of the normal range. *)
Lemma round_ne_near0 sz q : (q == 0)%Q ∨ normal_range q → near (round_ne sz q) q.
Proof.
  intros [E|Hn]; [|by apply round_ne_near].
  exists 0%Q. split; rewrite E; [apply value_zero|lra].
Qed.

(** ** Theorems *)

(** C28: rounding never crosses a Number.  When the exact result of an
    operation lies between the values of two finite Numbers, [+], [*] and
    [/] return a finite Number between them: in particular the result of
    an operation on Numbers of the layout is bounded by the integers that
    bound the exact result. *)
Theorem operations_between x y a b qx qy qa qb :
  value x qx → value y qy → value a qa → value b qb →
  ((qa <= qx + qy <= qb)%Q → between qa qb (add x y)) ∧
  ((qa <= qx * qy <= qb)%Q → between qa qb (mul x y)) ∧
  (¬ (qy == 0)%Q → (qa <= qx / qy <= qb)%Q → between qa qb (div x y)).
Proof.
  intros Hx Hy Ha Hb. unfold between. split_and!.
  - intros Hr. rewrite (add_value x y qx qy) by done. by apply (round_ne_between _ a b).
  - intros Hr. rewrite (mul_value x y qx qy) by done. by apply (round_ne_between _ a b).
  - intros H0 Hr. rewrite (div_value x y qx qy) by done. by apply (round_ne_between _ a b).
Qed.

(** 968 / 1086 and the like lie between zero and one. *)
Lemma operations_between_witness :
  let x := of_Z 968 in
  let y := of_Z 1086 in
  ((0 <= 968 + 1086 <= 2054)%Q → between 0 2054 (add x y)) ∧
  ((0 <= 968 * 1086 <= 2054)%Q → between 0 2054 (mul x y)) ∧
  (¬ (1086 == 0)%Q → (0 <= 968 / 1086 <= 2054)%Q → between 0 2054 (div x y)).
Proof.
  intros x y.
  apply (operations_between x y (of_Z 0) (of_Z 2054) 968 1086 0 2054);
    (split; [done|]; by eexists).
Defined.
