(* ===== verification/IntegerNumber.v ===== *)
(** * Numbers that are integers

    The layout computes with Numbers whose values are integers: sizes,
    offsets, sums of heights.  Where a product with a scale was rounded,
    such a Number is a zero of either sign or the Number of an integer, so
    the lemmas here speak of the value ([integer x n]: [x] is finite and
    its value is [n]) and not of the representation.  On safe integers the
    operations of [generateImage] are those of the integers. *)

From Stdlib Require Import QArith Qround Lqa SpecFloat.
From stdpp Require Import numbers.
From S2P Require Import Prelude JsNumber Rounding SafeInteger RoundingError RoundingOrder.

#[local] Open Scope Z_scope.

Definition integer (x : number) (n : Z) : Prop := value x (inject_Z n).

(** The integer a Number holds, zero for the Numbers that hold none. *)
Definition to_Z (x : number) : Z :=
  match to_Q x with
  | Some q => Qfloor q
  | None => 0
  end.

Lemma value_unique x q q' : value x q → value x q' → (q == q')%Q.
Proof. intros [_ (q1 & E1 & H1)] [_ (q2 & E2 & H2)]. simplify_eq. by rewrite <-H1. Qed.

Lemma integer_unique x a b : integer x a → integer x b → a = b.
Proof. intros Ha Hb. apply inject_Z_injective. by apply (value_unique x). Qed.

Lemma integer_of_Z n : safe n → integer (of_Z n) n.
Proof. apply of_Z_value. Qed.

Lemma to_Z_integer x n : integer x n → to_Z x = n.
Proof.
  intros [_ (q & E & H)]. unfold to_Z. rewrite E.
  by rewrite (Qfloor_comp _ _ H), Qfloor_Z.
Qed.

(** A rational equal to the value of a Number rounds to that value. *)
Lemma round_ne_same sz x q q' : value x q → (q' == q)%Q → value (round_ne sz q') q.
Proof.
  intros Hx E. destruct (round_ne_between sz x x q q q') as (v & Hv & H1 & H2);
    [done..|lra|].
  assert (v == q)%Q as <- by lra. done.
Qed.

Lemma round_ne_integer sz n q :
  safe n → (q == inject_Z n)%Q → integer (round_ne sz q) n.
Proof. intros Hn E. by apply (round_ne_same sz (of_Z n)); [apply integer_of_Z|]. Qed.

Section operations.
Context (x y : number) (a b : Z) (Hx : integer x a) (Hy : integer y b).

Lemma neg_integer : integer (neg x) (- a).
Proof using Hx. unfold integer. rewrite inject_Z_opp. by apply neg_value. Qed.

Lemma add_integer : safe (a + b) → integer (add x y) (a + b).
Proof using Hx Hy.
  intros Hs. rewrite (add_value x y _ _ Hx Hy).
  apply round_ne_integer; [done|]. by rewrite inject_Z_plus.
Qed.

Lemma gt_integer : gt x y = bool_decide (b < a).
Proof using Hx Hy.
  pose proof (gt_value x y _ _ Hx Hy) as H. rewrite <-Zlt_Qlt in H.
  case_bool; [tauto|]. destruct (gt x y); [tauto|done].
Qed.

Lemma floor_integer : integer (floor x) a.
Proof using Hx.
  rewrite (floor_value x _ Hx), Qfloor_Z. destruct a; [apply value_zero|..];
    destruct Hx as [Hw (q & Hq & E)].
  all: apply (round_ne_same false x); [by split; [|exists q]|done].
Qed.

End operations.

Lemma sub_integer x y a b :
  integer x a → integer y b → safe (a - b) → integer (sub x y) (a - b).
Proof. intros Hx Hy. apply add_integer; [done|by apply neg_integer]. Qed.

Lemma integral_integer s n : safe n → integer (integral s n) n.
Proof. intros Hn. destruct n; [apply value_zero|by apply integer_of_Z..]. Qed.

(** The floor of a finite Number is the integer below its value. *)
Lemma floor_value_integer x q :
  value x q → safe (Qfloor q) → integer (floor x) (Qfloor q).
Proof. intros Hx Hs. rewrite (floor_value x q Hx). by apply integral_integer. Qed.

(** A product with one is exact. *)
Lemma mul_one_value x q : value x q → value (mul x one) q.
Proof.
  intros Hx. rewrite (mul_value x one q 1 Hx (integer_of_Z 1 ltac:(done))).
  apply (round_ne_same _ x); [done|ring].
Qed.

(** The half of an integer is a Number. *)
Lemma half_value_integer x n :
  integer x n → safe n → value (div x two) (inject_Z n / 2).
Proof.
  intros Hx Hn. rewrite (div_value x two _ 2 Hx (integer_of_Z 2 ltac:(done))) by done.
  apply (round_ne_dyadic _ n (-1)); [done|done| |done].
  destruct (decide (n = 0)) as [->|]; [done|].
  assert (Z.log2 (Z.abs n) < prec) by (apply Z.log2_lt_pow2; unfold safe in *; lia).
  unfold prec, emax_m in *. lia.
Qed.

(** The floor of a rational between an integer and its successor. *)
Lemma Qfloor_unique h n : (inject_Z n <= h < inject_Z n + 1)%Q → Qfloor h = n.
Proof.
  intros [Hlo Hhi]. pose proof (Qfloor_le h). pose proof (Qlt_floor h) as Hlt.
  rewrite inject_Z_plus in Hlt. change (inject_Z 1) with 1%Q in Hlt.
  assert (inject_Z (Qfloor h) < inject_Z (n + 1))%Q as Hu
    by (rewrite inject_Z_plus; change (inject_Z 1) with 1%Q; lra).
  assert (inject_Z n < inject_Z (Qfloor h + 1))%Q as Hl
    by (rewrite inject_Z_plus; change (inject_Z 1) with 1%Q; lra).
  rewrite <-Zlt_Qlt in Hu, Hl. lia.
Qed.

Lemma Qfloor_half n : Qfloor (inject_Z n / 2) = n / 2.
Proof. change 2%Q with (inject_Z 2). by rewrite <-Zdiv_Qdiv. Qed.

(** [Math.floor(x / 2)] of an integer is the integer division by 2. *)
Lemma half_integer x n : integer x n → safe n → integer (floor (div x two)) (n / 2).
Proof.
  intros Hx Hn. rewrite <-Qfloor_half.
  apply floor_value_integer; [by apply half_value_integer|]. rewrite Qfloor_half.
  pose proof (Z.div_mod n 2 ltac:(done)). pose proof (Z.mod_pos_bound n 2 ltac:(done)).
  unfold safe in *. lia.
Qed.

(** A finite Number that is [=== 1] has the value one. *)
Lemma strict_ne_one x q : value x q → strict_ne x one = false → (q == 1)%Q.
Proof.
  intros Hx H. apply negb_false_iff in H.
  by apply (strict_eq_value x one q 1 Hx (integer_of_Z 1 ltac:(done))).
Qed.

Lemma strict_ne_one_value x q : value x q → (q == 1)%Q → strict_ne x one = false.
Proof.
  intros Hx H. apply negb_false_iff.
  by apply (strict_eq_value x one q 1 Hx (integer_of_Z 1 ltac:(done))).
Qed.
