(* ===== verification/RoundingNearest.v ===== *)
(** * Rounding to nearest, ties to even

    ECMA-262 defines the result of [+], [*] and [/] as the Number value
    for the exact result: a Number nearest to it, and of two that are
    equally near the one whose significand is even.  [round_ne] computes a
    mantissa and an exponent; this file proves that its result is as near
    to the rational as any finite Number and that it is the even one on a
    tie, so that the operations of [JsNumber] are those of the standard
    wherever their result is finite. *)

From Stdlib Require Import QArith Qabs Qround Lqa SpecFloat.
From stdpp Require Import numbers.
From S2P Require Import Prelude JsNumber Rounding SafeInteger RoundingError.
From S2P Require Import RoundingOrder IntegerNumber.

#[local] Open Scope Z_scope.

(** [v] is as near to [q] as the value of any finite Number. *)
Definition nearest_value (q v : Q) : Prop :=
  ∀ c vc, value c vc → (Qabs (v - q) <= Qabs (vc - q))%Q.

(** The significand of a Number is even.  Zero is even, and so is
    infinity, which stands for 2^1024 in the rounding of ECMA-262. *)
Definition even_significand (x : number) : bool :=
  match x with
  | S754_zero _ | S754_infinity _ => true
  | S754_finite _ m _ => Z.even (Zpos m)
  | S754_nan => false
  end.

(** [x] is the Number value for [q] of ECMA-262, where it is finite: its
    value is as near to [q] as that of any finite Number, and when another
    value is as near, the significand of [x] is even. *)
Definition number_value (q : Q) (x : number) : Prop :=
  ∀ v, value x v →
    nearest_value q v ∧
    ∀ c vc, value c vc → ¬ (vc == v)%Q → (Qabs (vc - q) == Qabs (v - q))%Q →
      even_significand x = true.

#[export] Instance nearest_value_Proper : Proper (Qeq ==> Qeq ==> iff) nearest_value.
Proof.
  intros q q' Eq v v' Ev. unfold nearest_value.
  split; intros H c vc Hc; specialize (H c vc Hc); by rewrite ?Eq, ?Ev in *.
Qed.

(** ** The nearest integer on a tie *)

(** Half way between two integers, the nearest integer chosen is even. *)
Lemma div_nearest_even_tie num den :
  0 < den → 2 * Z.abs (div_nearest_even num den * den - num) = den →
  Z.even (div_nearest_even num den) = true.
Proof.
  intros Hd. unfold div_nearest_even.
  pose proof (Z.div_mod num den ltac:(lia)) as E.
  pose proof (Z.mod_pos_bound num den Hd) as B.
  revert E B. generalize (num / den) (num mod den). intros fl r E B.
  destruct (Z.compare_spec (2 * r) den); [|intros; nia..].
  destruct (Z.even fl) eqn:Ev; [done|]. intros _.
  by rewrite Z.add_1_r, Z.even_succ, <-Z.negb_even, Ev.
Qed.

(** A quotient half way between two integers, in integers. *)
Lemma quotient_tie num den r :
  0 < den →
  (inject_Z num / inject_Z den == inject_Z r - (1 # 2) ∨
   inject_Z num / inject_Z den == inject_Z r + (1 # 2))%Q →
  2 * Z.abs (r * den - num) = den.
Proof.
  intros Hd H. assert (0 < inject_Z den)%Q as Hden by (by rewrite <-(Zlt_Qlt 0)).
  assert (inject_Z num / inject_Z den * inject_Z den == inject_Z num)%Q as E
    by (field; lra).
  revert E H. generalize (inject_Z num / inject_Z den)%Q. intros x E H.
  assert (inject_Z (2 * (r * den - num)) == inject_Z den ∨
          inject_Z (2 * (r * den - num)) == inject_Z (- den))%Q as Hz.
  { unfold Z.sub. rewrite !inject_Z_mult, !inject_Z_plus, !inject_Z_opp, !inject_Z_mult.
    change (inject_Z 2) with 2%Q. destruct H as [H|H]; [left|right]; nra. }
  destruct Hz as [Hz|Hz]; apply (proj1 (inject_Z_injective _ _)) in Hz; lia.
Qed.

(** A rational half way between two mantissae rounds to the even one. *)
Lemma mantissa_tie n d e :
  ((Zpos n # d) * pow2 (- e) == inject_Z (mantissa n d e) - (1 # 2) ∨
   (Zpos n # d) * pow2 (- e) == inject_Z (mantissa n d e) + (1 # 2))%Q →
  Z.even (mantissa n d e) = true.
Proof.
  destruct (mantissa_quotient n d e) as (num & den & Hden & Em & Eq).
  rewrite Em, Eq. intros H. apply div_nearest_even_tie; [done|]. by apply quotient_tie.
Qed.

(** ** Multiples of a power of two *)

(** Two different integers are one apart at least. *)
Lemma integers_apart (j m : Z) :
  j ≠ m → (inject_Z j <= inject_Z m - 1 ∨ inject_Z m + 1 <= inject_Z j)%Q.
Proof.
  intros Hne. destruct (Z.lt_total j m) as [Hlt|[->|Hgt]]; [left|done|right].
  - assert (j ≤ m - 1) as Hle by lia. rewrite Zle_Qle in Hle.
    unfold Z.sub in Hle. by rewrite inject_Z_plus, inject_Z_opp in Hle.
  - assert (m + 1 ≤ j) as Hle by lia. rewrite Zle_Qle in Hle.
    by rewrite inject_Z_plus in Hle.
Qed.

(** The integer within one half of a rational is as near to it as any
    integer; written for multiples of a positive [p]. *)
Lemma nearest_multiple (p y : Q) (m j : Z) :
  (0 < p)%Q → (inject_Z m - (1 # 2) <= y <= inject_Z m + (1 # 2))%Q →
  (Qabs (inject_Z m * p - y * p) <= Qabs (inject_Z j * p - y * p))%Q.
Proof.
  intros Hp [Hlo Hhi]. destruct (decide (j = m)) as [->|Hj]; [apply Qle_refl|].
  apply integers_apart in Hj.
  apply Qabs_case; intros H1; apply Qabs_case; intros H2; destruct Hj; nra.
Qed.

(** Another integer is as near only when the rational is half way. *)
Lemma nearest_multiple_tie (p y : Q) (m j : Z) :
  (0 < p)%Q → (inject_Z m - (1 # 2) <= y <= inject_Z m + (1 # 2))%Q → j ≠ m →
  (Qabs (inject_Z j * p - y * p) == Qabs (inject_Z m * p - y * p))%Q →
  (y == inject_Z m - (1 # 2) ∨ y == inject_Z m + (1 # 2))%Q.
Proof.
  intros Hp [Hlo Hhi] Hj%integers_apart. revert Hlo Hhi Hj.
  generalize (inject_Z m) (inject_Z j). intros M J Hlo Hhi Hj.
  apply Qabs_case; intros H1; apply Qabs_case; intros H2 E;
    (destruct Hj; [left|right]); apply Qle_antisym; try done;
    apply Qnot_lt_le; intros Hc; nra.
Qed.

(** A rational scaled to the exponent [e] and back. *)
Lemma scaled_back q e : (q == q * pow2 (- e) * pow2 e)%Q.
Proof.
  pose proof (pow2_opp_mul e) as E.
  rewrite <-Qmult_assoc, (Qmult_comm (pow2 (- e))), E. ring.
Qed.

(** ** The value [round_pos] returns *)

(** When [round_pos] returns a finite number, its value is the mantissa at
    the exponent chosen. *)
Lemma round_pos_value n d v :
  value (round_pos n d) v →
  (v == inject_Z (mantissa n d (exponent n d)) * pow2 (exponent n d))%Q.
Proof.
  intros Hv. set (e := exponent n d). set (m := mantissa n d e).
  destruct (decide (e + (if m =? 2 ^ prec then 1 else 0) ≤ emax_m)) as [Hmax|Hmax].
  { apply (value_unique _ _ _ Hv). by apply round_pos_finite. }
  exfalso. destruct (mantissa_range n d) as [[H0 Hm] Hn]. fold e m in H0, Hm, Hn.
  assert (emin < e) as He by (destruct (m =? 2 ^ prec); unfold emin, emax_m in *; lia).
  specialize (Hn He). revert Hv. rewrite round_pos_mantissa.
  fold (exponent n d). fold e. cbv zeta. fold m.
  destruct (Z.eqb_spec m (2 ^ prec)) as [E|E]; cbv beta iota.
  - rewrite (proj2 (Z.ltb_lt _ _)) by lia. by intros [? (? & ? & _)].
  - destruct m as [|p|p]; [done| |lia].
    rewrite (proj2 (Z.ltb_lt _ _)) by lia. by intros [? (? & ? & _)].
Qed.

(** A positive value of the format is a multiple of [2^e] for the exponent
    [e] that [round_pos] chooses, or it lies below the binade of the
    rational. *)
Lemma canonical_multiple n d m' e' :
  canonical m' e' →
  (∃ j, F2Q false m' e' == inject_Z j * pow2 (exponent n d))%Q ∨
  (F2Q false m' e' < inject_Z (2 ^ (prec - 1)) * pow2 (exponent n d) ∧
   inject_Z (2 ^ (prec - 1)) * pow2 (exponent n d) <= Zpos n # d)%Q.
Proof.
  intros Hc. set (e := exponent n d).
  destruct (decide (e ≤ e')) as [Hle|Hlt]; [left|right].
  - exists (Zpos m' * 2 ^ (e' - e)). unfold F2Q.
    replace e' with ((e' - e) + e) at 1 by lia.
    rewrite pow2_add, inject_Z_mult, pow2_inject_Z by lia. ring.
  - pose proof (ilog2_spec n d) as [Hk _]. pose proof (F2Q_binade m' e') as [_ Hb].
    pose proof (canonical_exponent m' e' Hc) as He'.
    assert (e = ilog2 n d - (prec - 1)) as Ee by (unfold e, exponent in *; lia).
    assert (inject_Z (2 ^ (prec - 1)) * pow2 e == pow2 (ilog2 n d))%Q as ->.
    { rewrite pow2_inject_Z by done. rewrite <-pow2_add. f_equiv. lia. }
    split; [|done]. eapply Qlt_le_trans; [apply Hb|]. apply pow2_le. lia.
Qed.

(** The value of a finite Number is a multiple of [2^e], or it is farther
    from the rational than a multiple is. *)
Lemma value_multiple n d c vc :
  value c vc →
  ∃ j, (vc == inject_Z j * pow2 (exponent n d))%Q ∨
       (Qabs (inject_Z j * pow2 (exponent n d) - (Zpos n # d)) <
        Qabs (vc - (Zpos n # d)))%Q.
Proof.
  intros Hc. set (q := (Zpos n # d)%Q). assert (0 < q)%Q as Hq by done.
  destruct (Q_dec 0 vc) as [[Hpos|Hneg]|E].
  - destruct (value_positive c vc Hc Hpos) as (m' & e' & Hc' & E).
    destruct (canonical_multiple n d m' e' Hc') as [[j Ej]|[Hlt Hle]].
    { exists j. left. by rewrite <-E. }
    exists (2 ^ (prec - 1)). right. fold q in Hle. rewrite !Qabs_neg by lra. lra.
  - exists 0. right. change (inject_Z 0) with 0%Q. rewrite !Qabs_neg by lra. lra.
  - exists 0. left. rewrite <-E. change (inject_Z 0) with 0%Q. ring.
Qed.

(** ** Rounding is to a nearest Number, the even one on a tie *)

(** The significand of the result is even when the mantissa is: a
    mantissa of 2^53 becomes 2^52. *)
Lemma round_pos_even n d :
  Z.even (mantissa n d (exponent n d)) = true → even_significand (round_pos n d) = true.
Proof.
  rewrite round_pos_mantissa. fold (exponent n d). cbv zeta.
  destruct (_ =? 2 ^ prec); cbv beta iota.
  - change (2 ^ (prec - 1)) with (Zpos 4503599627370496). cbv iota. by destruct (_ <? _).
  - destruct (mantissa n d (exponent n d)) as [|p|p]; [done| |done]. by destruct (_ <? _).
Qed.

Section round_pos.
Context (n d : positive).

#[local] Abbreviation e := (exponent n d).
#[local] Abbreviation m := (mantissa n d (exponent n d)).
#[local] Abbreviation q := (Zpos n # d)%Q.

(** The mantissa at the exponent chosen is as near as any multiple. *)
Lemma mantissa_nearest j :
  (Qabs (inject_Z m * pow2 e - q) <= Qabs (inject_Z j * pow2 e - q))%Q.
Proof using Type.
  pose proof (mantissa_error n d e) as Hm. pose proof (pow2_pos e) as Hp.
  rewrite (scaled_back q e). by apply nearest_multiple.
Qed.

Lemma round_pos_nearest v : value (round_pos n d) v → nearest_value q v.
Proof using Type.
  intros Hv c vc Hc. rewrite (round_pos_value n d v Hv).
  destruct (value_multiple n d c vc Hc) as [j [->|Hlt]]; [apply mantissa_nearest|].
  eapply Qle_trans; [apply (mantissa_nearest j)|]. by apply Qlt_le_weak.
Qed.

Lemma round_pos_ties_even v c vc :
  value (round_pos n d) v → value c vc → ¬ (vc == v)%Q →
  (Qabs (vc - q) == Qabs (v - q))%Q → even_significand (round_pos n d) = true.
Proof using Type.
  intros Hv Hc Hne Ht. apply round_pos_even, mantissa_tie.
  rewrite (round_pos_value n d v Hv) in Ht, Hne.
  destruct (value_multiple n d c vc Hc) as [j [Ej|Hlt]].
  2:{ pose proof (mantissa_nearest j). lra. }
  rewrite Ej in Ht, Hne. rewrite (scaled_back q e) in Ht.
  apply (nearest_multiple_tie (pow2 e) _ _ j);
    [apply pow2_pos|apply mantissa_error|by intros ->|done].
Qed.

Lemma round_pos_number_value : number_value q (round_pos n d).
Proof using Type.
  intros v Hv. split; [by apply round_pos_nearest|].
  intros c vc. by apply round_pos_ties_even.
Qed.

End round_pos.

(** The Number value for the opposite is the opposite. *)
Lemma Qabs_sub_opp a b : (Qabs (a - - b) == Qabs (- a - b))%Q.
Proof. rewrite <-(Qabs_opp (a - - b)). by assert (- (a - - b) == - a - b)%Q as -> by ring. Qed.

Lemma neg_neg x : neg (neg x) = x.
Proof. destruct x; simpl; by rewrite ?negb_involutive. Qed.

Lemma even_significand_neg x : even_significand (neg x) = even_significand x.
Proof. by destruct x. Qed.

Lemma number_value_neg q x : number_value q x → number_value (- q) (neg x).
Proof.
  intros H v Hv. apply neg_value in Hv. rewrite neg_neg in Hv.
  destruct (H _ Hv) as [Hn Ht]. split.
  - intros c vc Hc%neg_value. rewrite !Qabs_sub_opp. exact (Hn _ _ Hc).
  - intros c vc Hc%neg_value Hne E. rewrite even_significand_neg.
    rewrite !Qabs_sub_opp in E. apply (Ht _ _ Hc); [|done]. intros E'. apply Hne. lra.
Qed.

Lemma round_ne_number_value sz q : number_value q (round_ne sz q).
Proof.
  destruct q as [[|n|n] d]; unfold round_ne; simpl.
  - intros v Hv. split; [|done]. intros c vc Hc.
    rewrite (value_unique _ _ _ Hv (value_zero sz)).
    assert (0 # d == 0)%Q as -> by done.
    unfold Qminus. rewrite Qplus_0_l, Qabs_opp, Qabs_pos by lra. apply Qabs_nonneg.
  - apply round_pos_number_value.
  - apply (number_value_neg (Zpos n # d)), round_pos_number_value.
Qed.

(** ** Theorems *)

(** C27: the operations return the Number value of the exact result.  For
    finite operands, a finite result of [+], [*] or [/] is as near to the
    exact sum, product or quotient as any finite Number, and when another
    Number is as near, the significand of the result is even: the
    operations round to nearest, ties to even, as ECMA-262 defines them. *)
Theorem operations_nearest x y qx qy :
  value x qx → value y qy →
  number_value (qx + qy) (add x y) ∧
  number_value (qx * qy) (mul x y) ∧
  (¬ (qy == 0)%Q → number_value (qx / qy) (div x y)).
Proof.
  intros Hx Hy. split_and!.
  - rewrite (add_value x y qx qy) by done. apply round_ne_number_value.
  - rewrite (mul_value x y qx qy) by done. apply round_ne_number_value.
  - intros H0. rewrite (div_value x y qx qy) by done. apply round_ne_number_value.
Qed.

(** 2^53 + 1 is half way between the Numbers 2^53 and 2^53 + 2: the sum
    of 2^53 - 1 and 2 is the Number value for it. *)
Lemma operations_nearest_witness :
  let x := of_Z (2 ^ 53 - 1) in
  let y := of_Z 2 in
  number_value (inject_Z (2 ^ 53 - 1) + 2) (add x y) ∧
  number_value (inject_Z (2 ^ 53 - 1) * 2) (mul x y) ∧
  (¬ (2 == 0)%Q → number_value (inject_Z (2 ^ 53 - 1) / 2) (div x y)).
Proof.
  intros x y. apply (operations_nearest x y (inject_Z (2 ^ 53 - 1)) 2);
    by apply (of_Z_value _).
Defined.

(** Half way between two Numbers the sum is the one whose significand is
    even, below or above: 2^53 + 1 gives 2^53 and 2^53 + 3 gives 2^53 + 4;
    and 968 / 1086, which is no Number, is the double 0.8913443830570903. *)
Example ties_to_even :
  let big := S754_finite false 4503599627370496 1 in
  add (of_Z (2 ^ 53 - 1)) (of_Z 2) = big ∧
  add (add big (of_Z 2)) (of_Z 1) = S754_finite false 4503599627370498 1 ∧
  div (of_Z 968) (of_Z 1086) = S754_finite false 8028516462789393 (-53).
Proof. by vm_compute. Qed.
