(* ===== verification/Layout.v ===== *)
(** * The layout engine: [generateImage] (src/index.js, lines 72-120)

    Every rendered line gets its own fit scale and real size ([fit], the
    callback of [svgs.map]); the real heights and the line spacing add up to
    the total height ([totalHeight], the [reduce]); a block higher than the
    canvas sets the global scale and raises the warning; the [for] loop
    ([place], folded by [place_all]) pushes one overlay per line and advances
    [y].  All arithmetic is on binary64 Numbers, in the order the source
    writes it. *)

From S2P Require Import Prelude JsString JsNumber.

(** ** Data *)

(** What [textSvg] returns for a line: the reported size and the drawing. *)
Record rendered := Rendered {
  width : number;
  height : number;
  svg : jsstring
}.

(** The canvas size [{ width, height }]. *)
Record size := Size {
  size_width : number;
  size_height : number
}.

(** The object [{ scale, realWidth, realHeight, ...svg }] of [toDraws]. *)
Record to_draw := ToDraw {
  scale : number;
  realWidth : number;
  realHeight : number;
  drawn : rendered
}.

(** The [input] of an overlay: the drawing as it is ([Buffer.from(conf.svg)])
    or its rasterisation at a size
    ([sharp(...).resize(resizeWidth, resizeHeight).png().toBuffer()]). *)
Inductive overlay_input :=
  | Drawing (svg : jsstring)
  | Resized (svg : jsstring) (resizeWidth resizeHeight : number).

(** One element of [composites]. *)
Record overlay := Overlay {
  input : overlay_input;
  left : number;
  top : number
}.

(** What [generateImage] hands to [bg.composite], and the scale of the
    warning it printed, if it printed one. *)
Record image := Image {
  background : jsstring;
  composites : list overlay;
  warning : option number
}.

(** ** The steps of [generateImage] *)

(** The callback of [svgs.map]: the fit scale of one line and its real size. *)
Definition fit (sz : size) (svg : rendered) : to_draw :=
  let scale := one in
  let scale :=
    if gt (width svg) (size_width sz) then div (size_width sz) (width svg)
    else scale in
  let scale :=
    if gt (height svg) (size_height sz) then
      let _s := div (size_height sz) (height svg) in
      if lt _s scale then _s else scale
    else scale in
  {| scale := scale;
     realWidth := floor (mul (width svg) scale);
     realHeight := floor (mul (height svg) scale);
     drawn := svg |}.

(** The [reduce]: [prev + cur.realHeight + lineSpace] from [-lineSpace]. *)
Definition totalHeight (toDraws : list to_draw) (lineSpace : number) : number :=
  foldl (λ prev cur, add (add prev (realHeight cur)) lineSpace)
        (neg lineSpace) toDraws.

Definition globalScale (sz : size) (total : number) : number :=
  if gt total (size_height sz) then div (size_height sz) total else one.

(** The initial [y]. *)
Definition first_top (sz : size) (total gs : number) : number :=
  floor (div (sub (size_height sz) (mul total gs)) two).

(** The overlay pushed for one line at height [y]. *)
Definition place_one (sz : size) (gs : number) (y : number) (conf : to_draw)
  : overlay :=
  if strict_ne (scale conf) one || strict_ne gs one then
    let resizeWidth := floor (mul (realWidth conf) gs) in
    let resizeHeight := floor (mul (realHeight conf) gs) in
    {| input := Resized (svg (drawn conf)) resizeWidth resizeHeight;
       left := floor (div (sub (size_width sz) (mul (realWidth conf) gs)) two);
       top := y |}
  else
    {| input := Drawing (svg (drawn conf));
       left := floor (div (sub (size_width sz) (realWidth conf)) two);
       top := y |}.

(** [y += Math.floor(lineSpace * globalScale + conf.realHeight * globalScale)]. *)
Definition advance (gs lineSpace : number) (y : number) (conf : to_draw)
  : number :=
  add y (floor (add (mul lineSpace gs) (mul (realHeight conf) gs))).

(** The body of the [for] loop on the state [(y, composites)]. *)
Definition place (sz : size) (gs lineSpace : number)
    (st : number * list overlay) (conf : to_draw) : number * list overlay :=
  let '(y, composites) := st in
  (advance gs lineSpace y conf, composites ++ [place_one sz gs y conf]).

Definition place_all (sz : size) (gs lineSpace : number) (y : number)
    (toDraws : list to_draw) : number * list overlay :=
  foldl (place sz gs lineSpace) (y, []) toDraws.

(** The default value of the parameter [lineSpace]. *)
Definition default_lineSpace : number := of_Z 16.

Definition generateImage (background : jsstring) (sz : size)
    (svgs : list rendered) (lineSpace : number) : image :=
  let toDraws := fit sz <$> svgs in
  let total := totalHeight toDraws lineSpace in
  let gs := globalScale sz total in
  let y := first_top sz total gs in
  {| background := background;
     composites := (place_all sz gs lineSpace y toDraws).2;
     warning := if gt total (size_height sz) then Some gs else None |}.

(** ** The loop *)

(** The tops the loop assigns: the running [y] before each line. *)
Fixpoint tops (gs lineSpace : number) (y : number) (toDraws : list to_draw)
  : list number :=
  match toDraws with
  | [] => []
  | conf :: rest => y :: tops gs lineSpace (advance gs lineSpace y conf) rest
  end.

(** The loop started from any state. *)
Lemma foldl_place sz gs lineSpace toDraws y acc :
  foldl (place sz gs lineSpace) (y, acc) toDraws =
    (foldl (advance gs lineSpace) y toDraws,
     acc ++ zip_with (place_one sz gs) (tops gs lineSpace y toDraws) toDraws).
Proof.
  revert y acc. induction toDraws as [|conf rest IH]; intros y acc; simpl.
  { by rewrite app_nil_r. }
  by rewrite IH, <-app_assoc.
Qed.

Lemma place_all_composites sz gs lineSpace y toDraws :
  (place_all sz gs lineSpace y toDraws).2 =
    zip_with (place_one sz gs) (tops gs lineSpace y toDraws) toDraws.
Proof. unfold place_all. by rewrite foldl_place. Qed.

Lemma tops_length gs lineSpace y toDraws :
  length (tops gs lineSpace y toDraws) = length toDraws.
Proof. revert y. induction toDraws; intros; simpl; auto. Qed.

Lemma tops_lookup_0 gs lineSpace y conf rest :
  tops gs lineSpace y (conf :: rest) !! 0%nat = Some y.
Proof. reflexivity. Qed.

(** Each top is the one before it advanced by the height of the line
    before it. *)
Lemma tops_lookup_S gs lineSpace toDraws y i t conf :
  tops gs lineSpace y toDraws !! i = Some t → toDraws !! i = Some conf →
  i + 1 < length toDraws →
  tops gs lineSpace y toDraws !! S i = Some (advance gs lineSpace t conf).
Proof.
  revert y i. induction toDraws as [|c rest IH]; intros y i; [done|].
  destruct i as [|i]; simpl.
  - intros [= <-] [= <-] Hlen. destruct rest; [simpl in Hlen; lia|done].
  - intros Ht Hc Hlen. apply IH; [done..|lia].
Qed.

Lemma place_one_top sz gs y conf : top (place_one sz gs y conf) = y.
Proof. unfold place_one. by case_bool. Qed.

(** The drawing an overlay shows. *)
Definition overlay_svg (o : overlay) : jsstring :=
  match input o with
  | Drawing s | Resized s _ _ => s
  end.

Lemma place_one_svg sz gs y conf :
  overlay_svg (place_one sz gs y conf) = svg (drawn conf).
Proof. unfold place_one. by case_bool. Qed.

Lemma fit_drawn sz r : drawn (fit sz r) = r.
Proof. reflexivity. Qed.

Lemma placed_svgs sz gs lineSpace toDraws y :
  overlay_svg <$> zip_with (place_one sz gs) (tops gs lineSpace y toDraws) toDraws
  = (λ conf, svg (drawn conf)) <$> toDraws.
Proof.
  revert y. induction toDraws as [|conf rest IH]; intros y; [done|].
  simpl. by rewrite place_one_svg, IH.
Qed.

(** ** Structure of the result *)

Section generateImage.
Context (bg : jsstring) (sz : size) (svgs : list rendered) (lineSpace : number).

Let toDraws := fit sz <$> svgs.
Let total := totalHeight toDraws lineSpace.
Let gs := globalScale sz total.

Lemma generateImage_composites :
  composites (generateImage bg sz svgs lineSpace) =
    zip_with (place_one sz gs)
      (tops gs lineSpace (first_top sz total gs) toDraws) toDraws.
Proof. unfold generateImage. simpl. apply place_all_composites. Qed.

(** One overlay per rendered line. *)
Theorem generateImage_length :
  length (composites (generateImage bg sz svgs lineSpace)) = length svgs.
Proof.
  rewrite generateImage_composites, length_zip_with, tops_length.
  unfold toDraws. rewrite length_fmap. lia.
Qed.

(** C4: the overlays show the drawings of the lines, in the order of the
    lines. *)
Theorem generateImage_order :
  overlay_svg <$> composites (generateImage bg sz svgs lineSpace) = svg <$> svgs.
Proof.
  rewrite generateImage_composites, placed_svgs. unfold toDraws.
  by rewrite <-list_fmap_compose.
Qed.

(** C3: every overlay after the first is below the one before it by
    [floor (lineSpace * globalScale + realHeight * globalScale)], with the
    real height of the line before it. *)
Theorem generateImage_tops i o o' r :
  composites (generateImage bg sz svgs lineSpace) !! i = Some o →
  composites (generateImage bg sz svgs lineSpace) !! S i = Some o' →
  svgs !! i = Some r →
  top o' =
    add (top o)
        (floor (add (mul lineSpace gs) (mul (realHeight (fit sz r)) gs))).
Proof.
  rewrite generateImage_composites. intros Ho Ho' Hr.
  apply lookup_zip_with_Some in Ho as (t & c & -> & Ht & Hc).
  apply lookup_zip_with_Some in Ho' as (t' & c' & -> & Ht' & Hc').
  rewrite !place_one_top.
  assert (c = fit sz r) as ->.
  { unfold toDraws in Hc. rewrite list_lookup_fmap, Hr in Hc. by injection Hc. }
  apply lookup_lt_Some in Hc'.
  rewrite (tops_lookup_S _ _ _ _ _ _ _ Ht Hc) in Ht' by lia. by injection Ht'.
Qed.

(** The first overlay is at
    [floor ((height - totalHeight * globalScale) / 2)]. *)
Theorem generateImage_first_top o :
  composites (generateImage bg sz svgs lineSpace) !! 0%nat = Some o →
  top o = floor (div (sub (size_height sz) (mul total gs)) two).
Proof.
  rewrite generateImage_composites. intros Ho.
  apply lookup_zip_with_Some in Ho as (t & c & -> & Ht & Hc).
  rewrite place_one_top. destruct toDraws; [done|]. by injection Ht.
Qed.

End generateImage.

(** An empty list of lines gives an empty list of overlays. *)
Theorem generateImage_nil bg sz lineSpace :
  composites (generateImage bg sz [] lineSpace) = [].
Proof. reflexivity. Qed.

(** A line is passed as a drawing, without rasterising, exactly when
    its own scale and the global scale are both equal to one; otherwise it
    is resized to [floor (realWidth * globalScale)] by
    [floor (realHeight * globalScale)]. *)
Theorem place_one_input sz gs y conf :
  input (place_one sz gs y conf) =
    if strict_eq (scale conf) one && strict_eq gs one
    then Drawing (svg (drawn conf))
    else Resized (svg (drawn conf)) (floor (mul (realWidth conf) gs))
                 (floor (mul (realHeight conf) gs)).
Proof.
  unfold place_one, strict_ne, strict_eq.
  by destruct (SpecFloat.SFeqb (scale conf) one), (SpecFloat.SFeqb gs one).
Qed.

(** The warning is raised exactly when the total height is greater than
    the canvas height, and it reports the global scale
    [height / totalHeight]. *)
Theorem generateImage_warning bg sz svgs lineSpace :
  let total := totalHeight (fit sz <$> svgs) lineSpace in
  warning (generateImage bg sz svgs lineSpace) =
    if gt total (size_height sz) then Some (div (size_height sz) total) else None.
Proof. simpl. unfold globalScale. by case_bool. Qed.

(** ** The specification's examples, on binary64 *)

Definition canvas (w h : Z) : size := Size (of_Z w) (of_Z h).
Definition box (w h : Z) (s : jsstring) : rendered := Rendered (of_Z w) (of_Z h) s.

(** Two lines of height 100, spacing 16, canvas height 1000: total height
    216, no global scale, tops 392 and 508. *)
Example layout_two_lines :
  let svgs := [box 100 100 [1%N]; box 100 100 [2%N]] in
  let img := generateImage [] (canvas 1000 1000) svgs (of_Z 16) in
  totalHeight (fit (canvas 1000 1000) <$> svgs) (of_Z 16) = of_Z 216 ∧
  warning img = None ∧
  composites img =
    [Overlay (Drawing [1%N]) (of_Z 450) (of_Z 392);
     Overlay (Drawing [2%N]) (of_Z 450) (of_Z 508)].
Proof. vm_compute. done. Qed.

(** A line of width 2000 on a canvas of width 1000 has scale one half. *)
Example fit_half :
  scale (fit (canvas 1000 1000) (box 2000 100 [])) = div one two ∧
  realWidth (fit (canvas 1000 1000) (box 2000 100 [])) = of_Z 1000 ∧
  realHeight (fit (canvas 1000 1000) (box 2000 100 [])) = of_Z 50.
Proof. vm_compute. done. Qed.

(** Three lines too high for the canvas: the warning is raised and every
    line is resized. *)
Example layout_global_scale :
  let img := generateImage [] (canvas 1292 968)
               [box 700 400 []; box 800 400 []; box 600 400 []] (of_Z 16) in
  warning img = Some (div (of_Z 968) (of_Z 1232)) ∧
  composites img =
    [Overlay (Resized [] (of_Z 550) (of_Z 314)) (of_Z 371) (of_Z 0);
     Overlay (Resized [] (of_Z 628) (of_Z 314)) (of_Z 331) (of_Z 326);
     Overlay (Resized [] (of_Z 471) (of_Z 314)) (of_Z 410) (of_Z 652)].
Proof. vm_compute. done. Qed.

Lemma generateImage_tops_witness :
  let sz := canvas 1000 1000 in
  let svgs := [box 100 100 [1%N]; box 100 100 [2%N]] in
  top (Overlay (Drawing [2%N]) (of_Z 450) (of_Z 508)) =
    add (top (Overlay (Drawing [1%N]) (of_Z 450) (of_Z 392)))
        (floor (add (mul (of_Z 16) (globalScale sz (totalHeight (fit sz <$> svgs) (of_Z 16))))
                    (mul (realHeight (fit sz (box 100 100 [1%N])))
                         (globalScale sz (totalHeight (fit sz <$> svgs) (of_Z 16)))))).
Proof.
  intros sz svgs.
  apply (generateImage_tops [] sz svgs (of_Z 16) 0); vm_compute; reflexivity.
Defined.

Lemma generateImage_first_top_witness :
  let sz := canvas 1000 1000 in
  let svgs := [box 100 100 [1%N]; box 100 100 [2%N]] in
  top (Overlay (Drawing [1%N]) (of_Z 450) (of_Z 392)) =
    floor (div (sub (size_height sz)
                  (mul (totalHeight (fit sz <$> svgs) (of_Z 16))
                       (globalScale sz (totalHeight (fit sz <$> svgs) (of_Z 16)))))
               two).
Proof.
  intros sz svgs.
  apply (generateImage_first_top [] sz svgs (of_Z 16)); vm_compute; reflexivity.
Defined.

(** The fit scale is rounded: a line of height 1107 fitted to the canvas
    height 968 has real height 967, one pixel less than the canvas. *)
Example fit_rounds_down :
  realHeight (fit (canvas 1292 968) (box 100 1107 [])) = of_Z 967.
Proof. vm_compute. done. Qed.

(** The product of the total height and the global scale is rounded
    and can exceed the canvas height by a fraction: two lines of height 535
    on the canvas of height 968 have the total height 1086, the first top is
    [floor] of a negative fraction, and the first line is placed at -1,
    above the canvas. *)
Example global_scale_negative_top :
  let svgs := [box 100 535 []; box 100 535 []] in
  let img := generateImage [] (canvas 1292 968) svgs (of_Z 16) in
  totalHeight (fit (canvas 1292 968) <$> svgs) (of_Z 16) = of_Z 1086 ∧
  gt (mul (of_Z 1086) (div (of_Z 968) (of_Z 1086))) (of_Z 968) = true ∧
  top <$> composites img = [of_Z (-1); of_Z 490].
Proof. vm_compute. done. Qed.
