(* ===== verification/LayoutExact.v ===== *)
(** * The layout when nothing is scaled

    When every line fits the canvas and the block of lines is not higher
    than the canvas, no scale differs from one, and the binary64 arithmetic
    of [generateImage] is exact: sizes and offsets are safe integers.  The
    reference layout [centred] states the result on the integers, and
    [generateImage] is shown to compute it.  The properties of the layout
    (every line inside the canvas, centred, one below the other) are then
    proved on the reference. *)

From S2P Require Import Prelude JsString JsNumber Rounding SafeInteger Layout.

#[local] Open Scope Z_scope.

(** ** The reference layout on integers *)

(** A rendered line with integer sizes. *)
Record line_box := LineBox {
  box_width : Z;
  box_height : Z;
  box_svg : jsstring
}.

Definition to_rendered (b : line_box) : rendered :=
  box (box_width b) (box_height b) (box_svg b).

(** The height of the block: the heights of the lines and one line space
    between two lines. *)
Definition block_height (L : Z) (bs : list line_box) : Z :=
  foldl (λ prev b, prev + box_height b + L) (- L) bs.

(** The lines one below the other from [y], each centred in the width [W]. *)
Fixpoint stack (W L y : Z) (bs : list line_box) : list overlay :=
  match bs with
  | [] => []
  | b :: rest =>
    Overlay (Drawing (box_svg b)) (of_Z ((W - box_width b) / 2)) (of_Z y)
    :: stack W L (y + (L + box_height b)) rest
  end.

(** The block centred in the height [H]. *)
Definition centred (bg : jsstring) (W H L : Z) (bs : list line_box) : image :=
  {| background := bg;
     composites := stack W L ((H - block_height L bs) / 2) bs;
     warning := None |}.

(** Every line fits the canvas, and so does the block. *)
Definition unscaled (W H L : Z) (bs : list line_box) : Prop :=
  Forall (λ b, 0 ≤ box_width b ≤ W ∧ 0 ≤ box_height b ≤ H) bs ∧
  block_height L bs ≤ H.

(** ** Sums *)

Lemma foldl_heights L bs p q :
  foldl (λ prev b, prev + box_height b + L) p bs =
    foldl (λ prev b, prev + box_height b + L) q bs + (p - q).
Proof.
  revert p q. induction bs as [|b bs IH]; intros p q; simpl; [lia|].
  rewrite (IH (p + _ + _) (q + box_height b + L)). lia.
Qed.

Lemma foldl_block_height L bs p :
  foldl (λ prev b, prev + box_height b + L) p bs = p + (block_height L bs + L).
Proof. unfold block_height. rewrite (foldl_heights L bs p (- L)). lia. Qed.

Lemma block_height_cons L b bs :
  block_height L (b :: bs) = box_height b + (block_height L bs + L).
Proof. unfold block_height at 1. simpl. rewrite foldl_block_height. lia. Qed.

(** The height the lines from a line on need, line spaces included. *)
Definition stack_height (L : Z) (bs : list line_box) : Z :=
  foldr (λ b acc, L + box_height b + acc) 0 bs.

Lemma stack_height_cons L b bs :
  stack_height L (b :: bs) = L + box_height b + stack_height L bs.
Proof. reflexivity. Qed.

Lemma stack_height_app L bs bs' :
  stack_height L (bs ++ bs') = stack_height L bs + stack_height L bs'.
Proof. induction bs as [|b bs IH]; [done|]. rewrite <-app_comm_cons, !stack_height_cons. lia. Qed.

Lemma stack_height_total L bs : stack_height L bs = block_height L bs + L.
Proof.
  induction bs as [|b bs IH]; [unfold block_height; simpl; lia|].
  rewrite block_height_cons, stack_height_cons. lia.
Qed.

Lemma stack_height_nonneg L bs :
  0 ≤ L → Forall (λ b, 0 ≤ box_height b) bs → 0 ≤ stack_height L bs.
Proof. intros HL. induction 1; rewrite ?stack_height_cons; [done|lia]. Qed.

(** The lines before a line and the line itself are part of the block. *)
Lemma stack_height_take L bs i b :
  0 ≤ L → Forall (λ b, 0 ≤ box_height b) bs → bs !! i = Some b →
  0 ≤ stack_height L (take i bs) ∧
  stack_height L (take i bs) + box_height b ≤ block_height L bs.
Proof.
  intros HL Hbs Hb. pose proof (stack_height_total L bs) as Ht.
  rewrite <-(take_drop_middle bs i b Hb) in Ht at 1.
  rewrite stack_height_app, stack_height_cons in Ht.
  pose proof (Forall_lookup_1 _ _ _ _ Hbs Hb) as Hh. simpl in Hh.
  pose proof (stack_height_nonneg L (take i bs) HL (Forall_take _ _ _ Hbs)).
  pose proof (stack_height_nonneg L (drop (S i) bs) HL (Forall_drop _ _ _ Hbs)). lia.
Qed.

Lemma block_height_ge L bs :
  0 ≤ L → Forall (λ b, 0 ≤ box_height b) bs → - L ≤ block_height L bs.
Proof.
  intros HL Hbs. pose proof (stack_height_nonneg L bs HL Hbs).
  rewrite stack_height_total in *. lia.
Qed.

(** ** The arithmetic of [generateImage] on safe integers *)

Lemma safe_between lo hi n : safe lo → safe hi → lo ≤ n ≤ hi → safe n.
Proof. unfold safe. lia. Qed.

Section unscaled.
Context (W H L : Z).
Context (HW : 0 ≤ W) (HH : 0 ≤ H) (HL : 0 ≤ L).
Context (SW : safe W) (SHL : safe (H + L)).

#[local] Abbreviation fits :=
  (λ b, 0 ≤ box_width b ≤ W ∧ 0 ≤ box_height b ≤ H).

(** What [fit] returns for a line that fits. *)
Definition unscaled_draw (b : line_box) : to_draw :=
  {| scale := one;
     realWidth := of_Z (box_width b);
     realHeight := of_Z (box_height b);
     drawn := to_rendered b |}.

Lemma safe_small n : - (H + L) ≤ n ≤ H + L → safe n.
Proof using All. unfold safe in *. lia. Qed.

Lemma safe_width n : 0 ≤ n ≤ W → safe n.
Proof using All. unfold safe in *. lia. Qed.

#[local] Ltac side :=
  first [done | lia | apply safe_width; lia | apply safe_small; lia].

Lemma fit_unscaled b : fits b → fit (canvas W H) (to_rendered b) = unscaled_draw b.
Proof using All.
  intros [Hw Hh]. unfold fit, unscaled_draw. simpl.
  rewrite !gt_of_Z, !bool_decide_false by side.
  by rewrite !mul_one_r, !floor_of_Z by side.
Qed.

Lemma fit_all_unscaled bs :
  Forall fits bs → fit (canvas W H) <$> (to_rendered <$> bs) = unscaled_draw <$> bs.
Proof using All.
  intros Hbs. rewrite <-list_fmap_compose. apply Forall_fmap_ext_1.
  eapply Forall_impl; [done|]. intros b Hb. by apply fit_unscaled.
Qed.

(** The [reduce] from an integer accumulator. *)
Lemma foldl_add_exact bs p :
  Forall fits bs → - (H + L) ≤ p → p + (block_height L bs + L) ≤ H + L →
  foldl (λ prev cur, add (add prev (realHeight cur)) (of_Z L)) (of_Z p)
        (unscaled_draw <$> bs)
  = of_Z (p + (block_height L bs + L)).
Proof using All.
  intros Hbs. revert p. induction Hbs as [|b bs [_ Hb] Hbs IH]; intros p Hp Hmax.
  { unfold block_height. simpl. f_equal. lia. }
  pose proof (block_height_ge L bs HL) as Hge.
  rewrite block_height_cons in *. simpl.
  assert (- L ≤ block_height L bs) by (apply Hge; eapply Forall_impl; [done|]; simpl; lia).
  rewrite !add_of_Z, IH by side. f_equal. lia.
Qed.

Lemma totalHeight_unscaled bs :
  bs ≠ [] → Forall fits bs → block_height L bs ≤ H →
  totalHeight (unscaled_draw <$> bs) (of_Z L) = of_Z (block_height L bs).
Proof using All.
  intros Hne Hbs Hmax. destruct Hbs as [|b bs [_ Hb] Hbs]; [done|].
  pose proof (block_height_ge L bs HL) as Hge.
  assert (- L ≤ block_height L bs) by (apply Hge; eapply Forall_impl; [done|]; simpl; lia).
  rewrite block_height_cons in *. unfold totalHeight. simpl.
  rewrite add_neg_of_Z, add_of_Z, foldl_add_exact by side.
  f_equal. lia.
Qed.

Lemma place_one_unscaled y b :
  fits b →
  place_one (canvas W H) one (of_Z y) (unscaled_draw b) =
    Overlay (Drawing (box_svg b)) (of_Z ((W - box_width b) / 2)) (of_Z y).
Proof using All.
  intros [Hw Hh]. unfold place_one. simpl.
  change (strict_ne one one) with false. simpl.
  by rewrite sub_of_Z, floor_half_of_Z by side.
Qed.

Lemma advance_unscaled y b :
  fits b → 0 ≤ y → y + (L + box_height b) ≤ H + L →
  advance one (of_Z L) (of_Z y) (unscaled_draw b) = of_Z (y + (L + box_height b)).
Proof using All.
  intros [Hw Hh] Hy Hmax. unfold advance. simpl.
  by rewrite !mul_one_r, add_of_Z, floor_of_Z, add_of_Z by side.
Qed.

(** The [for] loop from an integer [y]. *)
Lemma place_all_unscaled bs y :
  Forall fits bs → 0 ≤ y → y + stack_height L bs ≤ H + L →
  zip_with (place_one (canvas W H) one)
    (tops one (of_Z L) (of_Z y) (unscaled_draw <$> bs)) (unscaled_draw <$> bs)
  = stack W L y bs.
Proof using All.
  intros Hbs. revert y. induction Hbs as [|b bs Hb Hbs IH]; intros y Hy Hmax; [done|].
  assert (0 ≤ stack_height L bs).
  { apply stack_height_nonneg; [done|]. eapply Forall_impl; [done|]. simpl. lia. }
  destruct (Hb) as [_ ?]. rewrite stack_height_cons in Hmax. simpl.
  rewrite place_one_unscaled, advance_unscaled, IH by side. done.
Qed.

(** ** The refinement *)

(** [generateImage] computes the reference layout. *)
Lemma generateImage_centred bg bs :
  unscaled W H L bs →
  generateImage bg (canvas W H) (to_rendered <$> bs) (of_Z L) = centred bg W H L bs.
Proof using All.
  intros [Hbs Hmax]. unfold generateImage, centred.
  rewrite fit_all_unscaled by done.
  destruct (decide (bs = [])) as [->|Hne].
  { simpl. f_equal. unfold totalHeight. simpl.
    pose proof (of_Z_value L ltac:(side)) as VL.
    pose proof (gt_value _ _ _ _ (neg_value _ _ VL) (of_Z_value H ltac:(side))) as Hgt.
    destruct (gt (neg (of_Z L)) (of_Z H)); [|done].
    destruct Hgt as [Hgt _]. specialize (Hgt eq_refl).
    revert Hgt. rewrite <-Rounding.inject_Z_opp_lt. lia. }
  pose proof (block_height_ge L bs HL) as Hge.
  assert (- L ≤ block_height L bs) by (apply Hge; eapply Forall_impl; [done|]; simpl; lia).
  rewrite totalHeight_unscaled by done. unfold globalScale, first_top. simpl.
  rewrite gt_of_Z, bool_decide_false by side.
  rewrite mul_one_r, sub_of_Z, floor_half_of_Z by side.
  f_equal. rewrite place_all_composites. apply place_all_unscaled; [done|..].
  - apply Z.div_pos; lia.
  - rewrite stack_height_total.
    pose proof (Z.mul_div_le (H - block_height L bs) 2). lia.
Qed.

End unscaled.

(** ** What the reference layout guarantees *)

(** The overlay of the line at index [i]: its drawing, centred in the
    width, below the lines before it. *)
Lemma stack_lookup W L y bs i b :
  bs !! i = Some b →
  stack W L y bs !! i =
    Some (Overlay (Drawing (box_svg b)) (of_Z ((W - box_width b) / 2))
                  (of_Z (y + stack_height L (take i bs)))).
Proof.
  revert y i. induction bs as [|b' bs IH]; intros y i; [done|].
  destruct i as [|i]; cbn [stack lookup list_lookup take].
  - intros [= ->]. by rewrite Z.add_0_r.
  - intros Hb. by rewrite (IH _ _ Hb), stack_height_cons, <-Z.add_assoc.
Qed.

Section guarantees.
Context (W H L : Z) (bg : jsstring) (bs : list line_box).
Context (HW : 0 ≤ W) (HH : 0 ≤ H) (HL : 0 ≤ L).
Context (SW : safe W) (SHL : safe (H + L)).
Context (Hfit : unscaled W H L bs).

(** C5: when every line fits the canvas and the block is not higher than the
    canvas, [generateImage] on binary64 Numbers returns the reference
    layout on integers: every line drawn unscaled, centred in the width,
    the block centred in the height, no warning. *)
Theorem generateImage_unscaled :
  generateImage bg (canvas W H) (to_rendered <$> bs) (of_Z L) = centred bg W H L bs.
Proof using All. by apply generateImage_centred. Qed.

(** C25: the closed form of the layout when nothing is scaled: the overlay
    of line [i] is its drawing, at left [(W - width) / 2] and at top
    [(H - block) / 2] plus the heights and line spaces of the lines before
    it. *)
Theorem generateImage_closed_form i b :
  bs !! i = Some b →
  composites (generateImage bg (canvas W H) (to_rendered <$> bs) (of_Z L)) !! i =
    Some (Overlay (Drawing (box_svg b)) (of_Z ((W - box_width b) / 2))
            (of_Z ((H - block_height L bs) / 2 + stack_height L (take i bs)))).
Proof using All.
  intros Hb. rewrite (generateImage_centred W H L) by done.
  by apply stack_lookup.
Qed.

(** When nothing is scaled every line is drawn inside the canvas, and
    it is centred in the width: the margins left and right differ by one
    pixel at most. *)
Theorem generateImage_inside i b o :
  bs !! i = Some b →
  composites (generateImage bg (canvas W H) (to_rendered <$> bs) (of_Z L)) !! i = Some o →
  ∃ l t, left o = of_Z l ∧ top o = of_Z t ∧
    0 ≤ l ∧ l + box_width b ≤ W ∧ 0 ≤ t ∧ t + box_height b ≤ H ∧
    l ≤ W - box_width b - l ≤ l + 1.
Proof using All.
  intros Hb. rewrite (generateImage_centred W H L) by done.
  cbn [composites centred]. rewrite (stack_lookup _ _ _ _ _ _ Hb). intros [= <-].
  eexists _, _. split; [done|]. split; [done|].
  destruct Hfit as [Hbs Hmax].
  pose proof (Forall_lookup_1 _ _ _ _ Hbs Hb) as [Hw Hh].
  destruct (stack_height_take L bs i b) as [? ?]; [done| |done|].
  { eapply Forall_impl; [apply Hfit|]. simpl. lia. }
  pose proof (Z.div_mod (W - box_width b) 2 ltac:(lia)).
  pose proof (Z.mod_pos_bound (W - box_width b) 2 ltac:(lia)).
  pose proof (Z.div_mod (H - block_height L bs) 2 ltac:(lia)).
  pose proof (Z.mod_pos_bound (H - block_height L bs) 2 ltac:(lia)).
  lia.
Qed.

End guarantees.

(** The presets: the banner of two lines of 852 and 252 by 108 pixels on
    the 1292 by 968 canvas. *)
Lemma generateImage_unscaled_witness :
  let bs := [LineBox 852 108 [1%N]; LineBox 252 108 [2%N]] in
  generateImage [] (canvas 1292 968) (to_rendered <$> bs) (of_Z 16)
    = centred [] 1292 968 16 bs.
Proof.
  intros bs. apply (generateImage_unscaled 1292 968 16 [] bs); try done.
  split; [|done]. repeat constructor; done.
Defined.

Lemma generateImage_closed_form_witness :
  let bs := [LineBox 852 108 [1%N]; LineBox 252 108 [2%N]] in
  composites (generateImage [] (canvas 1292 968) (to_rendered <$> bs) (of_Z 16)) !! 1%nat =
    Some (Overlay (Drawing (box_svg (LineBox 252 108 [2%N])))
            (of_Z ((1292 - 252) / 2))
            (of_Z ((968 - block_height 16 bs) / 2 + stack_height 16 (take 1 bs)))).
Proof.
  intros bs. apply (generateImage_closed_form 1292 968 16 [] bs); try done.
  split; [|done]. repeat constructor; done.
Defined.

Lemma generateImage_inside_witness :
  let bs := [LineBox 852 108 [1%N]; LineBox 252 108 [2%N]] in
  let o := Overlay (Drawing [2%N]) (of_Z 520) (of_Z 492) in
  ∃ l t, left o = of_Z l ∧ top o = of_Z t ∧
    0 ≤ l ∧ l + 252 ≤ 1292 ∧ 0 ≤ t ∧ t + 108 ≤ 968 ∧
    l ≤ 1292 - 252 - l ≤ l + 1.
Proof.
  intros bs o.
  apply (generateImage_inside 1292 968 16 [] bs ltac:(done) ltac:(done) ltac:(done)
           ltac:(done) ltac:(done)
           ltac:(split; [repeat constructor; done|done]) 1%nat (LineBox 252 108 [2%N]) o);
    [done|vm_compute; reflexivity].
Defined.
