(* ===== verification/LayoutFit.v ===== *)
(** * Every line is fitted to the canvas

    The fit scale of a line is a quotient of two sizes, rounded; the real
    size is the [Math.floor] of a product with it, rounded again.  For
    sizes below 2^51 the two roundings cannot take the real size above the
    canvas: the scale is in (0, 1] and the real width and height are
    integers within the canvas.  Nor can they take it more than one pixel
    below: a line larger than the canvas reaches the canvas width or the
    canvas height, up to one pixel.  A line wider than its height times the
    canvas width is fitted to the height 0. *)

From Stdlib Require Import QArith Qround Lqa SpecFloat.
From stdpp Require Import numbers.
From S2P Require Import Prelude JsString JsNumber Rounding SafeInteger RoundingError IntegerNumber Layout.

#[local] Open Scope Z_scope.

(** A size in pixels: a positive integer below 2^51. *)
Definition pixels (n : Z) : Prop := 1 ≤ n < 2 ^ 51.

Lemma pixels_safe n : pixels n → safe n.
Proof. unfold pixels, safe, prec. lia. Qed.

Lemma pixels_Q n : pixels n → (1 <= inject_Z n <= 2251799813685247)%Q.
Proof.
  intros [H1 H2]. change 1%Q with (inject_Z 1).
  change 2251799813685247%Q with (inject_Z (2 ^ 51 - 1)).
  rewrite <-!Zle_Qle. lia.
Qed.

Lemma unit_roundoff_eq : (unit_roundoff == 1 # 9007199254740992)%Q.
Proof. reflexivity. Qed.

Lemma normal_range_intro q : (1 # 9007199254740992 <= q <= 9007199254740992)%Q → normal_range q.
Proof.
  intros [H1 H2].
  assert (pow2 (emin + prec - 1) <= 1 # 9007199254740992)%Q by (by vm_compute).
  assert (9007199254740992 < pow2 (emax_m + prec - 1))%Q by (by vm_compute).
  split; lra.
Qed.

(** ** A rounded quotient of two sizes *)

(** The scale [W / w] of a line wider than the canvas. *)
Lemma quotient_near W w :
  pixels W → pixels w → W < w →
  ∃ v, value (div (of_Z W) (of_Z w)) v ∧
    (1 # 4503599627370496 <= v <= 1)%Q ∧
    (inject_Z w * v <= inject_Z W * (1 + unit_roundoff))%Q ∧
    (inject_Z W * (1 - unit_roundoff) <= inject_Z w * v)%Q.
Proof.
  intros HW Hw Hlt. pose proof (pixels_Q W HW) as [? ?].
  pose proof (pixels_Q w Hw) as [? ?].
  assert (inject_Z W + 1 <= inject_Z w)%Q as Hlt'.
  { change 1%Q with (inject_Z 1). rewrite <-inject_Z_plus, <-Zle_Qle. lia. }
  rewrite (div_value _ _ _ _ (of_Z_value W (pixels_safe W HW))
             (of_Z_value w (pixels_safe w Hw))) by lra.
  set (q := (inject_Z W / inject_Z w)%Q).
  assert (q * inject_Z w == inject_Z W)%Q as Hq by (unfold q; field; lra).
  assert (1 # 2251799813685248 <= q)%Q.
  { apply Qnot_lt_le. intros Hc. nra. }
  assert (q * 2251799813685248 <= 2251799813685247)%Q.
  { apply Qnot_lt_le. intros Hc. nra. }
  destruct (round_ne_near (xorb (sign (of_Z W)) (sign (of_Z w))) q)
    as (v & Hv & Hv1 & Hv2); [apply normal_range_intro; lra|].
  exists v. split; [done|]. rewrite unit_roundoff_eq in *.
  split_and!; [lra|..]; apply Qnot_lt_le; intros Hc; nra.
Qed.

(** ** The floor of a rounded product *)

Lemma integral_of_Z n : integral false n = of_Z n.
Proof. by destruct n. Qed.

(** [Math.floor(w * scale)] when [w * scale] is at most [X] up to one
    rounding: an integer from 0 to [X]. *)
Lemma floor_mul_fits w X s vs :
  pixels w → 0 ≤ X < 2 ^ 51 → value s vs →
  (1 # 4503599627370496 <= vs)%Q →
  (inject_Z w * vs <= inject_Z X * (1 + unit_roundoff))%Q →
  ∃ r, floor (mul (of_Z w) s) = of_Z r ∧ 0 ≤ r ≤ X ∧
    ((inject_Z X * (1 - unit_roundoff) <= inject_Z w * vs)%Q → X - 1 ≤ r).
Proof.
  intros Hw HX Hs Hvs Hle. pose proof (pixels_Q w Hw) as [? ?].
  assert (0 <= inject_Z X <= 2251799813685247)%Q as [? ?].
  { change 0%Q with (inject_Z 0). change 2251799813685247%Q with (inject_Z (2 ^ 51 - 1)).
    rewrite <-!Zle_Qle. lia. }
  rewrite unit_roundoff_eq in Hle.
  rewrite (mul_value _ _ _ _ (of_Z_value w (pixels_safe w Hw)) Hs).
  set (p := (inject_Z w * vs)%Q) in *.
  assert (1 # 4503599627370496 <= p)%Q by (unfold p; nra).
  destruct (round_ne_near (xorb (sign (of_Z w)) (sign s)) p) as (v & Hv & Hv1 & Hv2);
    [apply normal_range_intro; lra|].
  rewrite unit_roundoff_eq in *.
  assert (0 < v)%Q by lra.
  assert (v < inject_Z X + 1)%Q by nra.
  set (x := round_ne (xorb (sign (of_Z w)) (sign s)) p) in *.
  rewrite (floor_value _ _ Hv).
  assert (sign x = false) as ->.
  { destruct (sign x) eqn:Es; [|done].
    apply (sign_value _ _ Hv) in Es; lra. }
  exists (Qfloor v). split; [apply integral_of_Z|].
  pose proof (Qfloor_le v). pose proof (Qfloor_resp_le 0 v ltac:(lra)).
  split_and!; [done| |].
  - assert (inject_Z (Qfloor v) < inject_Z (X + 1))%Q as Hlt.
    { rewrite inject_Z_plus. change (inject_Z 1) with 1%Q. lra. }
    rewrite <-Zlt_Qlt in Hlt. lia.
  - intros Hge. rewrite unit_roundoff_eq in Hge.
    assert (inject_Z (X - 1) <= v)%Q as Hlow.
    { unfold Zminus. rewrite inject_Z_plus, inject_Z_opp. change (inject_Z 1) with 1%Q. lra. }
    apply Qfloor_resp_le in Hlow. by rewrite Qfloor_Z in Hlow.
Qed.

(** ** The fit scale *)

Section fit.
Context (W H w h : Z) (svg : jsstring).
Context (HW : pixels W) (HH : pixels H) (Hw : pixels w) (Hh : pixels h).

(** What is known of a scale on the way through [fit]: it is a finite
    number in (0, 1], and a side larger than the canvas, scaled, is at most
    the canvas side up to one rounding. *)
Definition fitting (width_done height_done : bool) (s : number) : Prop :=
  ∃ v, value s v ∧ (1 # 4503599627370496 <= v <= 1)%Q ∧
    (width_done = true → W < w →
     (inject_Z w * v <= inject_Z W * (1 + unit_roundoff))%Q) ∧
    (height_done = true → H < h →
     (inject_Z h * v <= inject_Z H * (1 + unit_roundoff))%Q).

Lemma fitting_one : fitting false false one.
Proof using Type.
  exists 1%Q. split; [apply (of_Z_value 1); done|]. split; [lra|]. by split.
Qed.

(** The scale after the test of the width. *)
Definition scale_width : number :=
  if gt (of_Z w) (of_Z W) then div (of_Z W) (of_Z w) else one.

Lemma fitting_width : fitting true false scale_width.
Proof using HW Hw.
  unfold scale_width. rewrite gt_of_Z by by apply pixels_safe.
  case_bool.
  - destruct (quotient_near W w) as (v & Hv & Hr & Hle & _); [done..|].
    exists v. split_and!; [done|lra|lra|done|done].
  - destruct fitting_one as (v & Hv & Hr & _). exists v. split_and!; [done|lra|lra| |done].
    intros _ ?. lia.
Qed.

(** The scale after the test of the height. *)
Definition scale_height : number :=
  if gt (of_Z h) (of_Z H) then
    let _s := div (of_Z H) (of_Z h) in
    if lt _s scale_width then _s else scale_width
  else scale_width.

Lemma fitting_height : fitting true true scale_height.
Proof using HW HH Hw Hh.
  destruct fitting_width as (v1 & Hv1 & Hr1 & Hw1 & _).
  unfold scale_height. rewrite gt_of_Z by by apply pixels_safe.
  case_bool; [|exists v1; split_and!; first [done|lra|intros _ ?; lia]].
  destruct (quotient_near H h) as (v2 & Hv2 & Hr2 & Hle2 & _); [done..|].
  pose proof (lt_value _ _ _ _ Hv2 Hv1) as Hlt.
  pose proof (pixels_Q w Hw) as [? ?]. pose proof (pixels_Q h Hh) as [? ?].
  cbv zeta. destruct (lt (div (of_Z H) (of_Z h)) scale_width).
  - assert (v2 < v1)%Q by by apply Hlt.
    exists v2. split_and!; [done|lra|lra| |done].
    intros _ Hlt'. specialize (Hw1 eq_refl Hlt'). nra.
  - assert (¬ (v2 < v1)%Q) as Hge by (intros ?%Hlt; done).
    apply Qnot_lt_le in Hge.
    exists v1. split_and!; [done|lra|lra|done|]. intros _ _. nra.
Qed.

(** A scale that takes a side larger than the canvas to the canvas side,
    up to one rounding, from below. *)
Definition tight (s : number) : Prop :=
  ∃ v, value s v ∧
    ((W < w ∧ (inject_Z W * (1 - unit_roundoff) <= inject_Z w * v)%Q) ∨
     (H < h ∧ (inject_Z H * (1 - unit_roundoff) <= inject_Z h * v)%Q)).

Lemma tight_width : W < w → tight scale_width.
Proof using HW Hw.
  intros Hlt. unfold scale_width. rewrite gt_of_Z by by apply pixels_safe.
  rewrite bool_decide_eq_true_2 by lia.
  destruct (quotient_near W w) as (v & Hv & _ & _ & Hge); [done..|].
  exists v. split; [done|]. by left.
Qed.

Lemma tight_height : W < w ∨ H < h → tight scale_height.
Proof using HW HH Hw Hh.
  intros Hlarger. unfold scale_height. rewrite gt_of_Z by by apply pixels_safe.
  case_bool; [|apply tight_width; lia].
  destruct (quotient_near H h) as (v2 & Hv2 & _ & _ & Hge); [done..|].
  cbv zeta. destruct (lt (div (of_Z H) (of_Z h)) scale_width); [by exists v2; auto|].
  destruct (decide (W < w)); [by apply tight_width|].
  unfold scale_width. rewrite gt_of_Z by by apply pixels_safe.
  rewrite bool_decide_eq_false_2 by lia.
  exists 1%Q. split; [apply (of_Z_value 1); done|]. right. split; [done|].
  pose proof (pixels_Q H HH) as [? ?].
  assert (inject_Z H <= inject_Z h)%Q by (rewrite <-Zle_Qle; lia).
  rewrite unit_roundoff_eq. lra.
Qed.

Lemma fit_scale : scale (fit (canvas W H) (box w h svg)) = scale_height.
Proof using Type. reflexivity. Qed.

End fit.

(** The fit of one line: the scale, the real sizes, and that the line
    reaches the canvas width or the canvas height, up to one pixel, when it
    was larger. *)
Lemma fit_sizes W H w h svg :
  pixels W → pixels H → pixels w → pixels h →
  let conf := fit (canvas W H) (box w h svg) in
  ∃ v rw rh,
    value (scale conf) v ∧ (0 < v <= 1)%Q ∧
    realWidth conf = of_Z rw ∧ realHeight conf = of_Z rh ∧
    0 ≤ rw ≤ W ∧ 0 ≤ rh ≤ H ∧
    (W < w ∨ H < h → W - 1 ≤ rw ∨ H - 1 ≤ rh).
Proof.
  intros HW HH Hw Hh conf.
  destruct (fitting_height W H w h HW HH Hw Hh) as (v & Hv & Hr & Hwd & Hht).
  pose proof (pixels_Q w Hw) as [? ?]. pose proof (pixels_Q h Hh) as [? ?].
  pose proof unit_roundoff_eq as Hu.
  destruct (floor_mul_fits w (Z.min w W) (scale_height W H w h) v)
    as (rw & Erw & Hrw & Htw); [done|unfold pixels in *; lia|done|lra| |].
  { destruct (Z.min_spec w W) as [[Hlt ->]|[Hge ->]]; [rewrite Hu; nra|].
    destruct (decide (W < w)); [by apply Hwd|].
    assert (w = W) as -> by lia. rewrite Hu. nra. }
  destruct (floor_mul_fits h (Z.min h H) (scale_height W H w h) v)
    as (rh & Erh & Hrh & Hth); [done|unfold pixels in *; lia|done|lra| |].
  { destruct (Z.min_spec h H) as [[Hlt ->]|[Hge ->]]; [rewrite Hu; nra|].
    destruct (decide (H < h)); [by apply Hht|].
    assert (h = H) as -> by lia. rewrite Hu. nra. }
  exists v, rw, rh. split_and!; [done|lra|lra|done|done|lia..|].
  intros Hlarger.
  destruct (tight_height W H w h HW HH Hw Hh Hlarger) as (v' & Hv' & Ht).
  rewrite <-(value_unique _ _ _ Hv Hv') in Ht.
  destruct Ht as [[Hlt Hge]|[Hlt Hge]]; [left|right].
  - rewrite Z.min_r in Htw by lia. by apply Htw.
  - rewrite Z.min_r in Hth by lia. by apply Hth.
Qed.

Lemma fit_within W H w h svg :
  pixels W → pixels H → pixels w → pixels h →
  let conf := fit (canvas W H) (box w h svg) in
  ∃ v rw rh,
    value (scale conf) v ∧ (0 < v <= 1)%Q ∧
    realWidth conf = of_Z rw ∧ realHeight conf = of_Z rh ∧
    0 ≤ rw ≤ W ∧ 0 ≤ rh ≤ H.
Proof.
  intros HW HH Hw Hh conf.
  destruct (fit_sizes W H w h svg HW HH Hw Hh) as (v & rw & rh & ? & ? & ? & ? & ? & ? & _).
  by exists v, rw, rh.
Qed.

(** ** A line much wider than it is high *)

(** [Math.floor(h * scale)] is 0 when [h * scale] is below 1 by more than
    one rounding. *)
Lemma floor_mul_zero h s vs :
  pixels h → value s vs → (1 # 4503599627370496 <= vs)%Q →
  (inject_Z h * vs * (1 + unit_roundoff) < 1)%Q →
  floor (mul (of_Z h) s) = of_Z 0.
Proof.
  intros Hh Hs Hvs Hlt. pose proof (pixels_Q h Hh) as [? ?].
  rewrite unit_roundoff_eq in Hlt.
  rewrite (mul_value _ _ _ _ (of_Z_value h (pixels_safe h Hh)) Hs).
  set (p := (inject_Z h * vs)%Q) in *.
  assert (1 # 4503599627370496 <= p)%Q by (unfold p; nra).
  destruct (round_ne_near (xorb (sign (of_Z h)) (sign s)) p) as (v & Hv & Hv1 & Hv2);
    [apply normal_range_intro; lra|].
  rewrite unit_roundoff_eq in *.
  set (x := round_ne (xorb (sign (of_Z h)) (sign s)) p) in *.
  rewrite (floor_value _ _ Hv).
  assert (sign x = false) as ->.
  { destruct (sign x) eqn:Es; [|done]. apply (sign_value _ _ Hv) in Es; lra. }
  by rewrite (Qfloor_unique v 0) by (change (inject_Z 0) with 0%Q; lra).
Qed.

(** The scale of a line with [h * W < w] takes its height below 1 by more
    than one rounding. *)
Lemma flat_scale W H w h :
  pixels W → pixels H → pixels w → pixels h → h * W < w →
  ∃ v, value (scale_height W H w h) v ∧ (1 # 4503599627370496 <= v < 1)%Q ∧
    (inject_Z h * v * (1 + unit_roundoff) < 1)%Q.
Proof.
  intros HW HH Hw Hh Hflat.
  destruct (fitting_height W H w h HW HH Hw Hh) as (v & Hv & Hr & Hwd & _).
  assert (W < w) as Hlt by (unfold pixels in *; nia). specialize (Hwd eq_refl Hlt).
  pose proof (pixels_Q w Hw) as [? ?]. pose proof (pixels_Q h Hh) as [? ?].
  pose proof (pixels_Q W HW) as [? ?].
  assert (inject_Z h * inject_Z W + 1 <= inject_Z w)%Q as Hflat'.
  { change 1%Q with (inject_Z 1). rewrite <-inject_Z_mult, <-inject_Z_plus, <-Zle_Qle. lia. }
  rewrite unit_roundoff_eq in *.
  assert (inject_Z h * v * inject_Z w
          <= (inject_Z w - 1) * (1 + (1 # 9007199254740992)))%Q as Hp by nra.
  assert (inject_Z h * v * (1 + (1 # 9007199254740992)) < 1)%Q as Hq.
  { apply Qnot_le_lt. intros Hc. nra. }
  exists v. split_and!; [done|lra|nra|done].
Qed.

(** ** Theorems *)

(** C11: every line is fitted to the canvas.  For a canvas and a line whose
    sizes are positive integers below 2^51, the fit scale is a finite
    number in (0, 1], and the real width and the real height are integers
    from 0 to the canvas width and the canvas height: the two roundings of
    the quotient and of the product never take a line beyond the canvas. *)
Theorem fit_fits W H w h svg :
  pixels W → pixels H → pixels w → pixels h →
  let conf := fit (canvas W H) (box w h svg) in
  ∃ v rw rh,
    value (scale conf) v ∧ (0 < v <= 1)%Q ∧
    realWidth conf = of_Z rw ∧ realHeight conf = of_Z rh ∧
    0 ≤ rw ≤ W ∧ 0 ≤ rh ≤ H.
Proof. apply fit_within. Qed.

(** The line of width 2000 and height 1107 on the 1292 by 968 canvas. *)
Lemma fit_fits_witness :
  let conf := fit (canvas 1292 968) (box 2000 1107 []) in
  ∃ v rw rh,
    value (scale conf) v ∧ (0 < v <= 1)%Q ∧
    realWidth conf = of_Z rw ∧ realHeight conf = of_Z rh ∧
    0 ≤ rw ≤ 1292 ∧ 0 ≤ rh ≤ 968.
Proof. apply (fit_fits 1292 968 2000 1107 []); done. Defined.

(** C12: a line larger than the canvas is scaled to the canvas.  For a canvas
    and a line whose sizes are positive integers below 2^51, when the line
    is wider or higher than the canvas its real size is within the canvas
    and reaches the canvas width or the canvas height, up to the one pixel
    the roundings can take: the line is not scaled further down than the
    canvas asks for. *)
Theorem fit_tight W H w h svg :
  pixels W → pixels H → pixels w → pixels h → W < w ∨ H < h →
  let conf := fit (canvas W H) (box w h svg) in
  ∃ rw rh, realWidth conf = of_Z rw ∧ realHeight conf = of_Z rh ∧
    0 ≤ rw ≤ W ∧ 0 ≤ rh ≤ H ∧ (W - 1 ≤ rw ∨ H - 1 ≤ rh) ∧ tight W H w h (scale conf).
Proof.
  intros HW HH Hw Hh Hlarger conf.
  destruct (fit_sizes W H w h svg HW HH Hw Hh) as (v & rw & rh & ? & ? & ? & ? & ? & ? & Ht).
  exists rw, rh. do 4 (split; [done|]). split; [by apply Ht|by apply tight_height].
Qed.

(** The line of width 2000 and height 1107 on the 1292 by 968 canvas is
    scaled to the height 967. *)
Lemma fit_tight_witness :
  let conf := fit (canvas 1292 968) (box 2000 1107 []) in
  ∃ rw rh, realWidth conf = of_Z rw ∧ realHeight conf = of_Z rh ∧
    0 ≤ rw ≤ 1292 ∧ 0 ≤ rh ≤ 968 ∧ (1292 - 1 ≤ rw ∨ 968 - 1 ≤ rh) ∧
    tight 1292 968 2000 1107 (scale conf).
Proof. apply (fit_tight 1292 968 2000 1107 []); try done. by right. Defined.

(** C36: a line much wider than it is high is fitted to the height 0.  For a
    canvas and a line whose sizes are positive integers below 2^51, when
    the width of the line is more than its height times the canvas width,
    the fit scale takes the height below one pixel: the real height is 0,
    and the overlay of the line, with no global scale, is the drawing
    resized to a width within the canvas and to the height 0. *)
Theorem fit_flat W H w h svg y :
  pixels W → pixels H → pixels w → pixels h → h * W < w →
  let conf := fit (canvas W H) (box w h svg) in
  realHeight conf = of_Z 0 ∧
  ∃ rw, 0 ≤ rw ≤ W ∧
    input (place_one (canvas W H) one y conf) = Resized svg (of_Z rw) (of_Z 0).
Proof.
  intros HW HH Hw Hh Hflat conf.
  destruct (flat_scale W H w h HW HH Hw Hh Hflat) as (v & Hv & Hr & Hlt).
  destruct (fit_within W H w h svg HW HH Hw Hh) as (_ & rw & _ & _ & _ & Erw & _ & Hrw & _).
  assert (realHeight conf = of_Z 0) as E0 by (apply (floor_mul_zero h _ v); by try lra).
  split; [done|]. exists rw. split; [done|]. unfold place_one.
  fold conf in Erw. rewrite E0, Erw.
  destruct (strict_ne (scale conf) one) eqn:Ene.
  - cbn [orb input]. unfold pixels in *.
    by rewrite !mul_one_r, !floor_of_Z by (unfold safe, prec; lia).
  - apply (strict_ne_one _ v Hv) in Ene. lra.
Qed.

(** A line 5000 wide and 3 high on the 1292 by 968 canvas. *)
Lemma fit_flat_witness :
  let conf := fit (canvas 1292 968) (box 5000 3 []) in
  realHeight conf = of_Z 0 ∧
  ∃ rw, 0 ≤ rw ≤ 1292 ∧
    input (place_one (canvas 1292 968) one (of_Z 0) conf) = Resized [] (of_Z rw) (of_Z 0).
Proof. apply (fit_flat 1292 968 5000 3 [] (of_Z 0)); done. Defined.
