(* ===== verification/LayoutScaled.v ===== *)
(** * The layout when lines are scaled

    A line larger than the canvas is drawn at its fit scale, and a block
    higher than the canvas sets the global scale: sizes and offsets are
    then [Math.floor] of rounded products and quotients.  This file bounds
    them.  Whatever is scaled, every overlay of [generateImage] has integer
    offsets and an integer size, it lies within the canvas from left to
    right, and from top to bottom but for the first row of pixels: the
    first top can be -1 where the global scale was rounded up. *)

From Stdlib Require Import QArith Qround Lqa SpecFloat.
From stdpp Require Import numbers.
From S2P Require Import Prelude JsString JsNumber Rounding SafeInteger.
From S2P Require Import RoundingError RoundingOrder IntegerNumber.
From S2P Require Import Layout LayoutExact LayoutFit.

#[local] Open Scope Z_scope.

(** ** Rounded products with a scale *)

(** The factor of one rounding upwards. *)
Definition up : Q := 1 + unit_roundoff.

Lemma up_eq : (up == 9007199254740993 # 9007199254740992)%Q.
Proof. reflexivity. Qed.

Lemma normal_range_wide q :
  (1 # 36028797018963968 <= q <= 9007199254740992)%Q → normal_range q.
Proof.
  intros [H1 H2].
  assert (pow2 (emin + prec - 1) <= 1 # 36028797018963968)%Q by (by vm_compute).
  assert (9007199254740992 < pow2 (emax_m + prec - 1))%Q by (by vm_compute).
  split; lra.
Qed.

Lemma safe_Q n : 0 ≤ n < 2 ^ prec → (0 <= inject_Z n <= 9007199254740991)%Q.
Proof.
  intros [H1 H2]. change 0%Q with (inject_Z 0).
  change 9007199254740991%Q with (inject_Z (2 ^ prec - 1)).
  rewrite <-!Zle_Qle. lia.
Qed.

Lemma positive_Q n : 1 ≤ n → (1 <= inject_Z n)%Q.
Proof. intros H. change 1%Q with (inject_Z 1). by rewrite <-Zle_Qle. Qed.

Lemma Qfloor_between v lo hi :
  (inject_Z lo <= v <= inject_Z hi)%Q → lo ≤ Qfloor v ≤ hi.
Proof.
  intros [H1 H2]. apply Qfloor_resp_le in H1, H2. by rewrite !Qfloor_Z in *.
Qed.

Section scaled.
Context (gs : number) (g : Q).
Context (Hgs : value gs g) (Hg : (1 # 18014398509481984 <= g <= 1)%Q).

(** The product of a non-negative integer and the scale, rounded: not
    above the integer, and within one rounding of the exact product. *)
Lemma scaled_product x n :
  integer x n → 0 ≤ n < 2 ^ prec →
  ∃ v, value (mul x gs) v ∧ (0 <= v <= inject_Z n)%Q ∧
    (inject_Z n * g * (1 - unit_roundoff) <= v <= inject_Z n * g * up)%Q.
Proof using Hgs Hg.
  intros Hx Hn. pose proof (safe_Q n Hn) as [? ?].
  rewrite (mul_value x gs _ g Hx Hgs). set (sz := xorb _ _).
  destruct (round_ne_between sz (of_Z 0) (of_Z n) 0 (inject_Z n) (inject_Z n * g))
    as (v & Hv & Hb); [apply integer_of_Z; unfold safe; lia..|split; nra|].
  destruct (round_ne_near0 sz (inject_Z n * g)) as (v' & Hv' & Hn').
  { destruct (decide (n = 0)) as [->|]; [left; ring|right].
    pose proof (positive_Q n ltac:(lia)). apply normal_range_wide. split; nra. }
  exists v. split; [done|]. split; [done|].
  by rewrite (value_unique _ _ _ Hv Hv').
Qed.

(** [Math.floor] of the product: an integer from 0 to the integer
    scaled. *)
Lemma scaled_floor x n :
  integer x n → 0 ≤ n < 2 ^ prec →
  ∃ a, integer (floor (mul x gs)) a ∧ 0 ≤ a ≤ n ∧
    (inject_Z a <= inject_Z n * g * up)%Q.
Proof using Hgs Hg.
  intros Hx Hn. destruct (scaled_product x n Hx Hn) as (v & Hv & Hb & _ & Hup).
  pose proof (Qfloor_between v 0 n Hb). pose proof (Qfloor_le v).
  exists (Qfloor v). split; [|split; [done|lra]].
  apply floor_value_integer; [done|]. unfold safe. lia.
Qed.

(** The left offset of a scaled line and its resized width: the line lies
    within the width of the canvas. *)
Lemma scaled_left x W rw :
  integer x rw → 0 ≤ rw ≤ W → W < 2 ^ prec →
  ∃ l a, integer (floor (div (sub (of_Z W) (mul x gs)) two)) l ∧
    integer (floor (mul x gs)) a ∧ 0 ≤ a ≤ rw ∧ 0 ≤ l ∧ l + a ≤ W.
Proof using Hgs Hg.
  intros Hx Hrw HW. destruct (scaled_product x rw Hx ltac:(lia)) as (v & Hv & Hb & _).
  pose proof (Qfloor_between v 0 rw Hb) as Ha. pose proof (Qfloor_le v) as Hfl.
  pose proof (floor_value_integer _ _ Hv ltac:(unfold safe; lia)) as Hfloor.
  set (a := Qfloor v) in *.
  assert (∀ n, 0 ≤ n ≤ W → integer (of_Z n) n) as HZ
    by (intros; apply integer_of_Z; unfold safe; lia).
  assert (inject_Z rw <= inject_Z W)%Q by (rewrite <-Zle_Qle; lia).
  unfold sub. rewrite (add_value _ _ _ _ (HZ W ltac:(lia)) (neg_value _ _ Hv)).
  set (s1 := _ && _).
  destruct (round_ne_between s1 (of_Z 0) (of_Z (W - a)) 0 (inject_Z (W - a))
              (inject_Z W + - v)) as (d & Hd & Hdb); [apply HZ; lia..| |].
  { unfold Z.sub. rewrite inject_Z_plus, inject_Z_opp. split; lra. }
  rewrite (div_value _ two d 2 Hd (integer_of_Z 2 ltac:(done))) by done.
  set (s2 := xorb _ _).
  destruct (round_ne_between s2 (of_Z 0) (of_Z (W - a)) 0 (inject_Z (W - a)) (d / 2))
    as (h & Hh & Hhb); [apply HZ; lia..| |].
  { assert (d / 2 == d * (1 # 2))%Q as -> by field. split; lra. }
  pose proof (Qfloor_between h 0 (W - a) Hhb).
  exists (Qfloor h), a. split_and!; [|done|lia..].
  apply floor_value_integer; [done|]. unfold safe. lia.
Qed.

(** The advance of [y] past a line: an integer from 0 to the line space
    and the real height, within two roundings of their scaled sum. *)
Lemma scaled_advance xl x L rh :
  integer xl L → integer x rh → 0 ≤ L → 0 ≤ rh → L + rh < 2 ^ prec →
  ∃ d, integer (floor (add (mul xl gs) (mul x gs))) d ∧ 0 ≤ d ≤ L + rh ∧
    (inject_Z d <= inject_Z (L + rh) * (g * up * up))%Q.
Proof using Hgs Hg.
  intros HL Hx ? ? Hs.
  destruct (scaled_product xl L HL) as (v1 & Hv1 & Hb1 & Hlo1 & Hup1); [lia|].
  destruct (scaled_product x rh Hx) as (v2 & Hv2 & Hb2 & Hlo2 & Hup2); [lia|].
  pose proof (safe_Q L ltac:(lia)) as [? ?]. pose proof (safe_Q rh ltac:(lia)) as [? ?].
  rewrite (add_value _ _ _ _ Hv1 Hv2). set (sz := _ && _).
  rewrite inject_Z_plus. rewrite unit_roundoff_eq, up_eq in *.
  destruct (round_ne_between sz (of_Z 0) (of_Z (L + rh)) 0 (inject_Z (L + rh)) (v1 + v2))
    as (v & Hv & Hb); [apply integer_of_Z; unfold safe; lia..|rewrite inject_Z_plus; lra|].
  destruct (round_ne_near0 sz (v1 + v2)) as (v' & Hv' & Hn').
  { destruct (decide (L + rh = 0)); [left|right].
    - assert (L = 0) as -> by lia. assert (rh = 0) as -> by lia.
      change (inject_Z 0) with 0%Q in *. lra.
    - pose proof (positive_Q (L + rh) ltac:(lia)) as Hp. rewrite inject_Z_plus in Hp.
      apply normal_range_wide. split; [nra|].
      pose proof (safe_Q (L + rh) ltac:(lia)) as [_ Hmax].
      rewrite inject_Z_plus in Hmax. lra. }
  rewrite <-(value_unique _ _ _ Hv Hv'), unit_roundoff_eq in Hn'.
  pose proof (Qfloor_between v 0 (L + rh) Hb). pose proof (Qfloor_le v).
  exists (Qfloor v). split_and!; [|lia..|rewrite up_eq; nra].
  apply floor_value_integer; [done|]. unfold safe. lia.
Qed.

End scaled.

(** ** The lines after the fit *)

(** The real size of a fitted line, on integers. *)
Definition real_box (c : to_draw) : line_box :=
  LineBox (to_Z (realWidth c)) (to_Z (realHeight c)) (svg (drawn c)).

(** The real size of a line is a size in integers within the canvas. *)
Definition fitted (W H : Z) (c : to_draw) : Prop :=
  integer (realWidth c) (box_width (real_box c)) ∧
  integer (realHeight c) (box_height (real_box c)) ∧
  0 ≤ box_width (real_box c) ≤ W ∧ 0 ≤ box_height (real_box c) ≤ H.

(** The size at which an overlay is composited: the size it is resized
    to, or the size [w] by [h] of its drawing. *)
Definition drawn_size (o : overlay) (w h : Z) (a b : Z) : Prop :=
  match input o with
  | Drawing _ => a = w ∧ b = h
  | Resized _ x y => integer x a ∧ integer y b
  end.

(** An overlay of the line [b] within the canvas: integer offsets and
    size, between the left and the right edge, at row -1 or below and above
    the bottom edge. *)
Definition within (W H : Z) (b : line_box) (o : overlay) : Prop :=
  ∃ l t w h, integer (left o) l ∧ integer (top o) t ∧
    drawn_size o (box_width b) (box_height b) w h ∧
    0 ≤ w ∧ 0 ≤ h ∧ 0 ≤ l ∧ l + w ≤ W ∧ -1 ≤ t ∧ t + h ≤ H.

Lemma fitted_heights W H cs :
  Forall (fitted W H) cs →
  Forall (λ b, 0 ≤ box_height b) (real_box <$> cs).
Proof.
  intros Hcs. apply Forall_fmap. eapply Forall_impl; [done|].
  intros c (_ & _ & _ & Hh). unfold compose. lia.
Qed.

(** Three roundings of a size below 2^51 add less than one pixel. *)
Lemma within_one X n :
  0 ≤ X < 2 ^ 51 → (inject_Z n <= inject_Z X * up * up * up)%Q → n ≤ X.
Proof.
  intros HX Hn. pose proof (safe_Q X ltac:(unfold prec; lia)) as [? _].
  assert (inject_Z X <= 2251799813685247)%Q.
  { change 2251799813685247%Q with (inject_Z (2 ^ 51 - 1)). rewrite <-Zle_Qle. lia. }
  assert (inject_Z n < inject_Z (X + 1))%Q as Hlt.
  { rewrite inject_Z_plus. change (inject_Z 1) with 1%Q. rewrite up_eq in Hn. lra. }
  rewrite <-Zlt_Qlt in Hlt. lia.
Qed.

Section loop.
Context (W H L : Z) (gs : number) (g : Q).
Context (Hgs : value gs g) (Hg : (1 # 18014398509481984 <= g <= 1)%Q).
Context (HW : 0 ≤ W < 2 ^ 51) (HH : 0 ≤ H < 2 ^ 51) (HL : 0 ≤ L).

(** The running [y] of the loop: an integer, not above the place the
    unscaled lines would take it to, and within two roundings of the
    scaled heights and line spaces before it. *)
Lemma tops_scaled cs y t i yi :
  Forall (fitted W H) cs → integer y t → -1 ≤ t →
  t + stack_height L (real_box <$> cs) < 2 ^ 52 →
  tops gs (of_Z L) y cs !! i = Some yi →
  ∃ ti, integer yi ti ∧ t ≤ ti ∧
    (inject_Z (ti - t) <=
       inject_Z (stack_height L (take i (real_box <$> cs))) * (g * up * up))%Q.
Proof using Hgs Hg HL.
  intros Hcs. revert y t i.
  induction Hcs as [|c cs (_ & Hh & _ & Hrh) Hcs IH]; intros y t i Hy Ht Hmax; [done|].
  pose proof (stack_height_nonneg L _ HL (fitted_heights W H cs Hcs)) as Hnn.
  rewrite fmap_cons, stack_height_cons in Hmax. simpl in Hmax, Hh, Hrh.
  destruct i as [|i]; simpl.
  { intros [= <-]. exists t. split_and!; [done|lia|].
    rewrite Z.sub_diag. change (stack_height L []) with 0. by rewrite Qmult_0_l. }
  intros Hyi. unfold advance in Hyi.
  destruct (scaled_advance gs g Hgs Hg (of_Z L) (realHeight c) L _
              (integer_of_Z L ltac:(unfold safe, prec; lia)) Hh) as (d & Hd & Hdb & Hdu);
    [unfold prec; lia..|].
  destruct (IH _ (t + d) i (add_integer _ _ _ _ Hy Hd ltac:(unfold safe, prec; lia))
              ltac:(lia) ltac:(lia) Hyi) as (ti & Hti & Hle & Hu).
  exists ti. split_and!; [done|lia|].
  change (list_fmap _ _ real_box cs) with (real_box <$> cs).
  replace (ti - t) with ((ti - (t + d)) + d) by lia.
  revert Hu Hdu. generalize (g * up * up)%Q. intros C.
  rewrite !inject_Z_plus. nra.
Qed.

(** The overlay of one line: its left offset and its size are integers,
    it lies within the width of the canvas, and its height is within two
    roundings of the scaled real height. *)
Lemma place_one_scaled y c :
  fitted W H c →
  let o := place_one (canvas W H) gs y c in
  ∃ l a b, integer (left o) l ∧
    drawn_size o (box_width (real_box c)) (box_height (real_box c)) a b ∧
    0 ≤ l ∧ l + a ≤ W ∧ 0 ≤ a ∧ 0 ≤ b ∧
    (inject_Z b <= inject_Z (box_height (real_box c)) * (g * up * up))%Q.
Proof using Hgs Hg HW HH.
  intros (Hw & Hh & Hrw & Hrh) o. subst o. unfold place_one, drawn_size.
  pose proof (safe_Q (box_height (real_box c)) ltac:(unfold prec; lia)) as [? ?].
  destruct (strict_ne (scale c) one || strict_ne gs one) eqn:E; cbn [input left size_width canvas].
  - destruct (scaled_left gs g Hgs Hg (realWidth c) W _ Hw Hrw)
      as (l & a & Hl & Ha & Hab & Hl0 & Hla); [unfold prec; lia|].
    destruct (scaled_floor gs g Hgs Hg (realHeight c) _ Hh) as (b & Hb & Hb0 & Hbu);
      [unfold prec; lia|].
    exists l, a, b. split_and!; try done; try lia. rewrite up_eq in *. nra.
  - apply orb_false_iff in E as [_ E]. pose proof (strict_ne_one gs g Hgs E) as Eg.
    pose proof (Z.div_mod (W - box_width (real_box c)) 2 ltac:(done)).
    pose proof (Z.mod_pos_bound (W - box_width (real_box c)) 2 ltac:(done)).
    exists ((W - box_width (real_box c)) / 2), (box_width (real_box c)),
      (box_height (real_box c)).
    split_and!; try done; try lia; [|rewrite Eg, up_eq; nra].
    apply half_integer; [apply sub_integer; [apply integer_of_Z|done|]|];
      unfold safe, prec; lia.
Qed.

(** The overlay of the line at index [i], when the loop starts at the
    integer [t] and the block scaled is at most [X] up to one rounding: the
    overlay lies within the width of the canvas, and from [t] to [t + X]
    in the height. *)
Lemma overlay_scaled X cs y t i c o :
  Forall (fitted W H) cs → integer y t → -1 ≤ t →
  t + stack_height L (real_box <$> cs) < 2 ^ 52 → 0 ≤ X < 2 ^ 51 →
  (inject_Z (block_height L (real_box <$> cs)) * g <= inject_Z X * up)%Q →
  cs !! i = Some c →
  zip_with (place_one (canvas W H) gs) (tops gs (of_Z L) y cs) cs !! i = Some o →
  ∃ l ti a b, integer (left o) l ∧ integer (top o) ti ∧
    drawn_size o (box_width (real_box c)) (box_height (real_box c)) a b ∧
    0 ≤ a ∧ 0 ≤ b ∧ 0 ≤ l ∧ l + a ≤ W ∧ t ≤ ti ∧ ti + b ≤ t + X.
Proof using All.
  intros Hcs Hy Ht Hmax HX HT Hc Ho.
  apply lookup_zip_with_Some in Ho as (yi & c' & -> & Hyi & Hc'). simplify_eq.
  destruct (tops_scaled cs y t i yi Hcs Hy Ht Hmax Hyi) as (ti & Hti & Hle & Hu).
  destruct (place_one_scaled yi c (Forall_lookup_1 _ _ _ _ Hcs Hc))
    as (l & a & b & Hl & Hd & Hl0 & Hla & Ha0 & Hb0 & Hbu).
  rewrite place_one_top. exists l, ti, a, b. split_and!; try done.
  destruct (stack_height_take L (real_box <$> cs) i (real_box c) HL) as [Hs0 Hs];
    [by apply (fitted_heights W H)|by rewrite list_lookup_fmap, Hc|].
  cut (ti - t + b ≤ X); [lia|]. apply within_one; [done|].
  pose proof (Forall_lookup_1 _ _ _ _ Hcs Hc) as (_ & _ & _ & [Hh _]).
  rewrite Zle_Qle, inject_Z_plus in Hs. rewrite Zle_Qle in Hs0, Hh.
  rewrite inject_Z_plus. rewrite up_eq in *. change (inject_Z 0) with 0%Q in Hs0, Hh.
  revert Hs Hs0 Hu Hbu HT Hh.
  generalize (inject_Z (ti - t)) (inject_Z b) (inject_Z X)
    (inject_Z (stack_height L (take i (real_box <$> cs))))
    (inject_Z (box_height (real_box c))) (inject_Z (block_height L (real_box <$> cs))).
  intros q1 q2 qX qS qh qT Hs Hs0 Hu Hbu HT Hh.
  assert ((qS + qh) * g <= qT * g)%Q by nra.
  nra.
Qed.

End loop.

(** ** The total height, the global scale and the first top *)

(** The [reduce] on integer heights is exact. *)
Lemma foldl_height_integer W H L cs acc p :
  0 ≤ L < 2 ^ 51 → Forall (fitted W H) cs → integer acc p → - L ≤ p →
  p + stack_height L (real_box <$> cs) < 2 ^ 52 →
  integer (foldl (λ prev cur, add (add prev (realHeight cur)) (of_Z L)) acc cs)
          (p + stack_height L (real_box <$> cs)).
Proof.
  intros HL Hcs. revert acc p.
  induction Hcs as [|c cs (_ & Hh & _ & Hrh) Hcs IH]; intros acc p Hacc Hp Hmax.
  { simpl. by rewrite Z.add_0_r. }
  pose proof (stack_height_nonneg L _ (proj1 HL) (fitted_heights W H cs Hcs)) as Hnn.
  rewrite fmap_cons, stack_height_cons in *. simpl in Hh, Hrh, Hmax |- *.
  replace (p + (L + to_Z (realHeight c) + stack_height L (real_box <$> cs)))
    with (p + to_Z (realHeight c) + L + stack_height L (real_box <$> cs)) by lia.
  apply IH; [|lia..].
  repeat apply add_integer; try done; [|apply integer_of_Z|]; unfold safe, prec; lia.
Qed.

Lemma totalHeight_integer W H L cs :
  0 ≤ L < 2 ^ 51 → Forall (fitted W H) cs →
  stack_height L (real_box <$> cs) < 2 ^ 52 →
  integer (totalHeight cs (of_Z L)) (block_height L (real_box <$> cs)).
Proof.
  intros HL Hcs Hmax. unfold totalHeight.
  pose proof (stack_height_nonneg L _ (proj1 HL) (fitted_heights W H cs Hcs)) as Hnn.
  replace (block_height L (real_box <$> cs))
    with (- L + stack_height L (real_box <$> cs)) by (rewrite stack_height_total; lia).
  apply (foldl_height_integer W H); [done..| |lia|lia].
  apply neg_integer, integer_of_Z. unfold safe, prec. lia.
Qed.

(** The global scale of a block higher than the canvas: the quotient
    [H / T] rounded, in (0, 1], and [T] times it is [H] up to one
    rounding. *)
Lemma global_quotient x H T :
  integer x T → 1 ≤ H → H < T < 2 ^ prec →
  ∃ g, value (div (of_Z H) x) g ∧ (1 # 18014398509481984 <= g <= 1)%Q ∧
    (inject_Z H * (1 - unit_roundoff) <= inject_Z T * g <= inject_Z H * up)%Q.
Proof.
  intros Hx H1 HT. pose proof (safe_Q T ltac:(lia)) as [_ ?].
  pose proof (safe_Q H ltac:(lia)) as [_ ?].
  pose proof (positive_Q H H1). pose proof (positive_Q T ltac:(lia)).
  assert (inject_Z H <= inject_Z T)%Q by (rewrite <-Zle_Qle; lia).
  rewrite (div_value _ x _ _ (integer_of_Z H ltac:(unfold safe; lia)) Hx) by lra.
  set (sz := xorb _ _). set (q := (inject_Z H / inject_Z T)%Q).
  assert (q * inject_Z T == inject_Z H)%Q as Hq by (unfold q; field; lra).
  assert (1 # 9007199254740992 <= q <= 1)%Q as [? ?].
  { split; apply Qnot_lt_le; intros Hc; nra. }
  destruct (round_ne_between sz (of_Z 0) (of_Z 1) 0 1 q) as (g & Hg & Hgb);
    [by apply integer_of_Z..|lra|].
  destruct (round_ne_near sz q) as (g' & Hg' & Hn); [apply normal_range_wide; lra|].
  rewrite <-(value_unique _ _ _ Hg Hg'), unit_roundoff_eq in Hn.
  exists g. rewrite unit_roundoff_eq, up_eq. split; [done|]. split; split; nra.
Qed.

Lemma half_value : value (div one two) (1 # 2).
Proof. split; [by vm_compute|]. eexists. split; [reflexivity|]. by vm_compute. Qed.

(** The first top under a global scale: the block scaled is the canvas
    height up to two roundings, so the block starts at row 0 or at row -1. *)
Lemma first_top_scaled W H x T gs g :
  1 ≤ H < 2 ^ 51 → integer x T → value gs g →
  (inject_Z H * (1 - unit_roundoff) <= inject_Z T * g <= inject_Z H * up)%Q →
  ∃ t, integer (first_top (canvas W H) x gs) t ∧ -1 ≤ t ≤ 0.
Proof.
  intros HH Hx Hgs Hb. unfold first_top, sub. cbn [size_height canvas].
  pose proof (positive_Q H ltac:(lia)).
  assert (inject_Z H <= 2251799813685247)%Q.
  { change 2251799813685247%Q with (inject_Z (2 ^ 51 - 1)). rewrite <-Zle_Qle. lia. }
  rewrite (mul_value x gs _ g Hx Hgs). set (s1 := xorb _ _).
  rewrite unit_roundoff_eq, up_eq in Hb. revert Hb.
  generalize (inject_Z T * g)%Q. intros q Hb.
  destruct (round_ne_near s1 q) as (p & Hp & Hpn); [apply normal_range_wide; lra|].
  rewrite unit_roundoff_eq in Hpn.
  rewrite (add_value _ _ _ _ (integer_of_Z H ltac:(unfold safe, prec; lia))
             (neg_value _ _ Hp)). set (s2 := _ && _).
  destruct (round_ne_between s2 (of_Z (-1)) (of_Z 1) (-1) 1 (inject_Z H + - p))
    as (d & Hd & Hdb); [by apply integer_of_Z..|lra|].
  rewrite (div_value _ two d 2 Hd (integer_of_Z 2 ltac:(done))) by done.
  set (s3 := xorb _ _).
  destruct (round_ne_between s3 (neg (div one two)) (div one two) (- (1 # 2)) (1 # 2) (d / 2))
    as (h & Hh & Hhb); [apply neg_value, half_value|apply half_value| |].
  { assert (d / 2 == d * (1 # 2))%Q as -> by field. lra. }
  pose proof (Qfloor_le h).
  assert (-1 ≤ Qfloor h) by (apply (Qfloor_between h (-1) 1); unfold inject_Z; lra).
  assert (Qfloor h ≤ 0) by (apply inject_Z_le_half; change (inject_Z 0) with 0%Q; lra).
  exists (Qfloor h). split; [|lia]. apply floor_value_integer; [done|]. unfold safe, prec. lia.
Qed.

(** The first top without a global scale: half of the height left. *)
Lemma first_top_unscaled W H x T :
  0 ≤ T ≤ H → H < 2 ^ 51 → integer x T →
  integer (first_top (canvas W H) x one) ((H - T) / 2).
Proof.
  intros HT HH Hx. unfold first_top. cbn [size_height canvas].
  apply half_integer; [apply sub_integer|]; [apply integer_of_Z|by apply mul_one_value|..];
    unfold safe, prec; lia.
Qed.

(** ** The lines [fit] returns *)

Lemma fit_fitted W H b :
  pixels W → pixels H → pixels (box_width b) → pixels (box_height b) →
  let c := fit (canvas W H) (to_rendered b) in
  fitted W H c ∧
  (strict_ne (scale c) one = false →
   box_width (real_box c) = box_width b ∧ box_height (real_box c) = box_height b).
Proof.
  intros HW HH Hw Hh c.
  destruct (fit_within W H (box_width b) (box_height b) (box_svg b) HW HH Hw Hh)
    as (v & rw & rh & Hv & Hvb & Erw & Erh & Hrw & Hrh).
  fold (to_rendered b) in *. fold c in Hv, Erw, Erh.
  assert (integer (realWidth c) rw) as Iw
    by (rewrite Erw; apply integer_of_Z; unfold pixels, safe, prec in *; lia).
  assert (integer (realHeight c) rh) as Ih
    by (rewrite Erh; apply integer_of_Z; unfold pixels, safe, prec in *; lia).
  assert (box_width (real_box c) = rw) as Ew by by apply to_Z_integer.
  assert (box_height (real_box c) = rh) as Eh by by apply to_Z_integer.
  split; [unfold fitted; by rewrite Ew, Eh|].
  intros Hs. pose proof (strict_ne_one _ _ Hv Hs) as E1.
  assert (∀ n, pixels n → integer (floor (mul (of_Z n) (scale c))) n) as Hone.
  { intros n Hn. pose proof (integer_of_Z n (pixels_safe n Hn)) as Hx.
    apply floor_integer. rewrite (mul_value _ _ _ v Hx Hv).
    apply (round_ne_same _ (of_Z n)); [done|]. rewrite E1. ring. }
  rewrite Ew, Eh. split.
  - apply (integer_unique (realWidth c)); [done|]. by apply Hone.
  - apply (integer_unique (realHeight c)); [done|]. by apply Hone.
Qed.

(** A drawing that is not resized has its declared size, because its fit
    scale is one. *)
Lemma place_one_drawn sz gs y c w h a b :
  (strict_ne (scale c) one = false →
   box_width (real_box c) = w ∧ box_height (real_box c) = h) →
  drawn_size (place_one sz gs y c) (box_width (real_box c)) (box_height (real_box c)) a b →
  drawn_size (place_one sz gs y c) w h a b.
Proof.
  unfold drawn_size, place_one. intros Hs.
  destruct (strict_ne (scale c) one); [done|].
  destruct (strict_ne gs one); [done|]. simpl.
  destruct Hs as [<- <-]; done.
Qed.

Lemma stack_height_le L H bs :
  0 ≤ L → Forall (λ b, 0 ≤ box_height b ≤ H) bs →
  stack_height L bs ≤ Z.of_nat (length bs) * (H + L).
Proof.
  intros HL. induction 1 as [|b bs Hb Hbs IH]; [done|].
  rewrite stack_height_cons, length_cons. lia.
Qed.

(** ** Every overlay lies within the canvas *)

Section within.
Context (W H L : Z) (bg : jsstring) (bs : list line_box).
Context (HW : pixels W) (HH : pixels H) (HL : 0 ≤ L).
Context (Hbs : Forall (λ b, pixels (box_width b) ∧ pixels (box_height b)) bs).
Context (Hmax : Z.of_nat (length bs) * (H + L) < 2 ^ 51).

#[local] Abbreviation cs := (fit (canvas W H) <$> (to_rendered <$> bs)).

Lemma fitted_all : Forall (fitted W H) cs.
Proof using HW HH Hbs.
  rewrite <-list_fmap_compose. apply Forall_fmap. eapply Forall_impl; [done|].
  intros b [Hw Hh]. by apply fit_fitted.
Qed.

Lemma stack_height_max : stack_height L (real_box <$> cs) < 2 ^ 51.
Proof using All.
  pose proof (stack_height_le L H (real_box <$> cs) HL) as Hle.
  rewrite !length_fmap in Hle. eapply Z.le_lt_trans; [apply Hle|done].
  apply Forall_fmap. eapply Forall_impl; [apply fitted_all|].
  intros c (_ & _ & _ & Hh). done.
Qed.

(** The loop of [generateImage] starts with a global scale [g] in (0, 1]
    and at an integer row [t], -1 or 0 when the block is scaled; the block
    scaled is at most [X] up to one rounding, and [X] rows from [t] end
    within the canvas. *)
Lemma generateImage_loop :
  bs ≠ [] →
  let total := totalHeight cs (of_Z L) in
  let gs := globalScale (canvas W H) total in
  ∃ g t X, value gs g ∧ (1 # 18014398509481984 <= g <= 1)%Q ∧
    integer (first_top (canvas W H) total gs) t ∧
    (if gt total (of_Z H) then -1 ≤ t else 0 ≤ t) ∧
    0 ≤ X < 2 ^ 51 ∧ t + X ≤ H ∧
    t + stack_height L (real_box <$> cs) < 2 ^ 52 ∧
    (inject_Z (block_height L (real_box <$> cs)) * g <= inject_Z X * up)%Q.
Proof using All.
  intros Hne total gs. subst total gs.
  pose proof fitted_all as Hcs. pose proof stack_height_max as Hsh.
  assert (0 ≤ L < 2 ^ 51) as HL'.
  { destruct HH. destruct bs; [done|]. simpl length in Hmax. nia. }
  pose proof (totalHeight_integer W H L cs HL' Hcs ltac:(lia)) as Htotal.
  pose proof (stack_height_total L (real_box <$> cs)) as Htot.
  assert (0 ≤ block_height L (real_box <$> cs)) as HT0.
  { assert (∃ b0, bs !! 0%nat = Some b0) as [b0 Hb0] by (destruct bs; [done|by eexists]).
    assert (cs !! 0%nat = Some (fit (canvas W H) (to_rendered b0))) as Hc0
      by (by rewrite !list_lookup_fmap, Hb0).
    destruct (stack_height_take L (real_box <$> cs) 0 (real_box (fit (canvas W H) (to_rendered b0))) HL)
      as [_ Hs]; [by apply (fitted_heights W H)|by rewrite list_lookup_fmap, Hc0|].
    pose proof (Forall_lookup_1 _ _ _ _ Hcs Hc0) as (_ & _ & _ & [Hh0 _]).
    change (stack_height L (take 0 (real_box <$> cs))) with 0 in Hs. lia. }
  unfold globalScale. cbn [size_height canvas].
  rewrite (gt_integer _ _ _ _ Htotal (integer_of_Z H (pixels_safe H HH))).
  set (T := block_height L (real_box <$> cs)) in *. destruct HW, HH.
  case_bool.
  - destruct (global_quotient _ H T Htotal) as (g & Hg & Hgb & Hlo & Hup);
      [lia|unfold prec; lia|].
    destruct (first_top_scaled W H _ T _ g ltac:(done) Htotal Hg) as (t & Ht & Htb);
      [done|].
    exists g, t, H. split_and!; try done; try lia; apply Hgb.
  - pose proof (Z.div_pos (H - T) 2). pose proof (Z.mul_div_le (H - T) 2).
    exists 1%Q, ((H - T) / 2), T.
    split_and!; try done; try lia.
    + by apply (integer_of_Z 1).
    + apply first_top_unscaled; [lia|lia|done].
    + rewrite up_eq, Qmult_1_r.
      assert (0 <= inject_Z T)%Q by (rewrite <-(Zle_Qle 0); lia). lra.
Qed.

(** The overlay of the line at index [i] in terms of its real size. *)
Lemma generateImage_overlay i b o :
  bs !! i = Some b →
  composites (generateImage bg (canvas W H) (to_rendered <$> bs) (of_Z L)) !! i = Some o →
  let c := fit (canvas W H) (to_rendered b) in
  let scaled := gt (totalHeight cs (of_Z L)) (of_Z H) in
  ∃ l t w h, integer (left o) l ∧ integer (top o) t ∧
    drawn_size o (box_width (real_box c)) (box_height (real_box c)) w h ∧
    0 ≤ w ∧ 0 ≤ h ∧ 0 ≤ l ∧ l + w ≤ W ∧ t + h ≤ H ∧
    (if scaled then -1 ≤ t else 0 ≤ t).
Proof using All.
  intros Hb Ho c scaled. rewrite generateImage_composites in Ho.
  assert (cs !! i = Some c) as Hc by (by rewrite !list_lookup_fmap, Hb).
  destruct generateImage_loop as (g & t & X & Hg & Hgb & Ht & Hsc & HX & HtX & Hsh & HT).
  { intros ->. done. }
  assert (-1 ≤ t) as Ht1 by (destruct (gt _ _); lia).
  destruct HW, HH.
  destruct (overlay_scaled W H L _ g Hg Hgb ltac:(lia) ltac:(lia) HL X cs _ t i c o
              fitted_all Ht Ht1 Hsh HX HT Hc Ho)
    as (lf & ti & a & b' & Hlf & Hti & Hd & Ha & Hb' & Hl0 & Hla & Hle & Hlt).
  exists lf, ti, a, b'. split_and!; try done; [lia|].
  subst scaled. destruct (gt _ _); lia.
Qed.

(** The scale of the warning: the canvas height over the height of the
    block, rounded. *)
Lemma generateImage_warned gs :
  bs ≠ [] →
  warning (generateImage bg (canvas W H) (to_rendered <$> bs) (of_Z L)) = Some gs →
  let T := block_height L (real_box <$> cs) in
  H < T ∧ ∃ g, value gs g ∧ (1 # 18014398509481984 <= g <= 1)%Q ∧
    (inject_Z H * (1 - unit_roundoff) <= inject_Z T * g <= inject_Z H * up)%Q.
Proof using All.
  intros Hne. pose proof fitted_all as Hcs. pose proof stack_height_max as Hsh.
  assert (0 ≤ L < 2 ^ 51) as HL'.
  { destruct HH. destruct bs; [done|]. simpl length in Hmax. nia. }
  pose proof (totalHeight_integer W H L cs HL' Hcs ltac:(lia)) as Htotal.
  pose proof (stack_height_total L (real_box <$> cs)) as Htot.
  unfold generateImage, globalScale. cbn [warning size_height canvas].
  rewrite (gt_integer _ _ _ _ Htotal (integer_of_Z H (pixels_safe H HH))).
  destruct HH. case_bool; [|done]. intros [= <-]. split; [lia|].
  apply global_quotient; [done|lia|unfold prec; lia].
Qed.

(** The size drawn, in terms of the size the line declares. *)
Lemma overlay_drawn_size i b o w h :
  bs !! i = Some b →
  composites (generateImage bg (canvas W H) (to_rendered <$> bs) (of_Z L)) !! i = Some o →
  let c := fit (canvas W H) (to_rendered b) in
  drawn_size o (box_width (real_box c)) (box_height (real_box c)) w h →
  drawn_size o (box_width b) (box_height b) w h.
Proof using HW HH Hbs.
  intros Hb Ho c Hd.
  pose proof (Forall_lookup_1 _ _ _ _ Hbs Hb) as [Hpw Hph].
  destruct (fit_fitted W H b HW HH Hpw Hph) as [_ Hdecl].
  rewrite generateImage_composites in Ho.
  apply lookup_zip_with_Some in Ho as (yi & c' & -> & _ & Hc).
  rewrite !list_lookup_fmap, Hb in Hc. injection Hc as <-.
  by apply place_one_drawn.
Qed.

Lemma generateImage_all_within :
  Forall2 (within W H) bs
    (composites (generateImage bg (canvas W H) (to_rendered <$> bs) (of_Z L))).
Proof using All.
  apply Forall2_same_length_lookup_2.
  { by rewrite generateImage_length, length_fmap. }
  intros i b o Hb Ho.
  destruct (generateImage_overlay i b o Hb Ho)
    as (l & t & w & h & Hl & Ht & Hd & Hw0 & Hh0 & Hl0 & Hlw & Hth & Hs).
  exists l, t, w, h. split_and!; try done.
  - by apply (overlay_drawn_size i).
  - destruct (gt _ _); lia.
Qed.

End within.

(** ** Theorems *)

(** C6: every overlay lies within the canvas, whatever is scaled.  For a
    canvas and lines whose sizes are positive integers below 2^51, a
    non-negative integer line space, and fewer than 2^51 / (H + L) lines:
    the left and top offsets of every overlay are integers, so is the size
    it is resized to; the overlay (at the size it is resized to, or at the
    size of its drawing when it is not resized) lies between the left and
    the right edge of the canvas and above its bottom edge; its top is at
    row -1 or below, and at row 0 or below when no warning was raised. *)
Theorem generateImage_within W H L bg bs i b o :
  pixels W → pixels H → 0 ≤ L →
  Forall (λ b, pixels (box_width b) ∧ pixels (box_height b)) bs →
  Z.of_nat (length bs) * (H + L) < 2 ^ 51 →
  bs !! i = Some b →
  let img := generateImage bg (canvas W H) (to_rendered <$> bs) (of_Z L) in
  composites img !! i = Some o →
  ∃ l t w h, integer (left o) l ∧ integer (top o) t ∧
    drawn_size o (box_width b) (box_height b) w h ∧
    0 ≤ w ∧ 0 ≤ h ∧ 0 ≤ l ∧ l + w ≤ W ∧ -1 ≤ t ∧ t + h ≤ H ∧
    (warning img = None → 0 ≤ t).
Proof.
  intros HW HH HL Hbs Hmax Hb img Ho.
  destruct (generateImage_overlay W H L bg bs HW HH HL Hbs Hmax i b o Hb Ho)
    as (l & t & w & h & Hl & Ht & Hd & Hw0 & Hh0 & Hl0 & Hlw & Hth & Hs).
  exists l, t, w, h. split_and!; try done.
  - by apply (overlay_drawn_size W H L bg bs HW HH Hbs i).
  - destruct (gt _ _); lia.
  - unfold img, generateImage. cbn [warning size_height canvas].
    destruct (gt _ _); [done|]. by intros _.
Qed.

(** Two lines of height 535 on the 1292 by 968 canvas: the block is
    scaled, and the first line is placed at row -1. *)
Lemma generateImage_within_witness :
  let bs := [LineBox 100 535 []; LineBox 100 535 []] in
  let img := generateImage [] (canvas 1292 968) (to_rendered <$> bs) (of_Z 16) in
  ∃ o, composites img !! 0%nat = Some o ∧
  ∃ l t w h, integer (left o) l ∧ integer (top o) t ∧
    drawn_size o 100 535 w h ∧
    0 ≤ w ∧ 0 ≤ h ∧ 0 ≤ l ∧ l + w ≤ 1292 ∧ -1 ≤ t ∧ t + h ≤ 968 ∧
    (warning img = None → 0 ≤ t).
Proof.
  intros bs img. eexists. split; [vm_compute; reflexivity|].
  apply (generateImage_within 1292 968 16 [] bs 0 (LineBox 100 535 []));
    [done|done|done|repeat constructor; done|done|done|vm_compute; reflexivity].
Defined.
