(* ===== verification/LayoutTop.v ===== *)
(** * The first row under a global scale

    When the block of lines is higher than the canvas, the block scaled,
    [totalHeight * globalScale], is the canvas height up to two roundings,
    and the first top, [Math.floor((height - totalHeight * globalScale) / 2)],
    is row 0 or row -1.  This file says which: the values of binary64 near
    the canvas height lie on a grid, so a product above the height is above
    it by a step of the grid, the difference is not lost by the rounding of
    the subtraction and of the halving, and the first line is at row -1
    exactly when the rounded product exceeds the height. *)

From Stdlib Require Import QArith Qround Lqa SpecFloat.
From stdpp Require Import numbers.
From S2P Require Import Prelude JsString JsNumber Rounding SafeInteger.
From S2P Require Import RoundingError RoundingOrder IntegerNumber.
From S2P Require Import Layout LayoutExact LayoutFit LayoutScaled.

#[local] Open Scope Z_scope.

(** The block scaled, as [generateImage] computes it for the first top:
    [totalHeight * globalScale]. *)
Definition scaled_total (sz : size) (svgs : list rendered) (lineSpace : number)
  : number :=
  let total := totalHeight (fit sz <$> svgs) lineSpace in
  mul total (globalScale sz total).

(** ** The grid of the Numbers from one half *)

(** A Number from one half on is a multiple of 2^-53. *)
Lemma value_grid x v :
  value x v → (1 # 2 <= v)%Q → ∃ j, (v == inject_Z j * pow2 (- 53))%Q.
Proof.
  intros Hx Hv. destruct (value_positive x v Hx ltac:(lra)) as (m & e & Hc & E).
  pose proof (F2Q_binade m e) as [_ Hb].
  pose proof (canonical_bounds m e Hc) as [_ Hlog].
  assert (-1 < Z.log2 (Zpos m) + e + 1) as He.
  { apply pow2_lt_inv. change (pow2 (-1)) with (1 # 2)%Q. lra. }
  exists (Zpos m * 2 ^ (e + 53)). rewrite <-E. unfold F2Q.
  rewrite inject_Z_mult, pow2_inject_Z by (unfold prec in *; lia).
  rewrite <-Qmult_assoc, <-pow2_add. by replace (e + 53 + - 53) with e by lia.
Qed.

(** A Number above an integer is above it by 2^-53 at least. *)
Lemma value_above x v n :
  value x v → (1 # 2 <= v)%Q → (inject_Z n < v)%Q → (inject_Z n + pow2 (- 53) <= v)%Q.
Proof.
  intros Hx Hv Hn. destruct (value_grid x v Hx Hv) as (j & E).
  assert (inject_Z n == inject_Z (n * 2 ^ 53) * pow2 (- 53))%Q as En.
  { rewrite inject_Z_mult, <-Qmult_assoc, (pow2_inject_Z 53), <-pow2_add by done.
    change (pow2 (53 + - 53)) with 1%Q. ring. }
  pose proof (pow2_pos (- 53)) as Hp. rewrite E, En in Hn |- *.
  assert (n * 2 ^ 53 < j) as Hj.
  { rewrite Zlt_Qlt. apply Qnot_le_lt. intros Hle. nra. }
  assert (inject_Z (n * 2 ^ 53 + 1) <= inject_Z j)%Q as Hj' by (rewrite <-Zle_Qle; lia).
  rewrite inject_Z_plus in Hj'. change (inject_Z 1) with 1%Q in Hj'. nra.
Qed.

(** The Numbers 2^-53 and 2^-54. *)
Lemma step_value : value (S754_finite false 4503599627370496 (-105)) (pow2 (- 53)).
Proof. split; [by vm_compute|]. eexists. split; [reflexivity|]. by vm_compute. Qed.

Lemma half_step_value : value (S754_finite false 4503599627370496 (-106)) (pow2 (- 54)).
Proof. split; [by vm_compute|]. eexists. split; [reflexivity|]. by vm_compute. Qed.

(** ** The first top *)

(** [Math.floor] of a Number whose value has the floor [n]. *)
Lemma floor_between x h n :
  value x h → (inject_Z n <= h < inject_Z n + 1)%Q → safe n → integer (floor x) n.
Proof.
  intros Hx Hh Hn. rewrite <-(Qfloor_unique h n Hh) in Hn |- *.
  by apply floor_value_integer.
Qed.

(** The half of the difference between the canvas height and a Number [p]
    within one of it, floored: -1 when [p] is above the height, 0 when it
    is not. *)
Lemma floor_half_difference H x p :
  1 ≤ H < 2 ^ 51 → value x p → (inject_Z H - 1 <= p <= inject_Z H + 1)%Q →
  integer (floor (div (sub (of_Z H) x) two)) (if gt x (of_Z H) then -1 else 0).
Proof.
  intros HH Hx Hp. pose proof (positive_Q H ltac:(lia)) as H1.
  pose proof (integer_of_Z H ltac:(unfold safe, prec; lia)) as HZ.
  pose proof (gt_value x (of_Z H) p _ Hx HZ) as Hgt.
  pose proof (pow2_pos (- 53)) as Hs. pose proof (pow2_pos (- 54)) as Hs'.
  assert (pow2 (- 54) == pow2 (- 53) * (1 # 2))%Q as Eh by (by vm_compute).
  assert (∀ q, q / 2 == q * (1 # 2))%Q as E2 by (intros; field).
  unfold sub. rewrite (add_value _ _ _ _ HZ (neg_value _ _ Hx)). set (s1 := _ && _).
  destruct (gt x (of_Z H)).
  - pose proof (value_above x p H Hx ltac:(lra) (proj1 Hgt eq_refl)) as Hab.
    destruct (round_ne_between s1 (of_Z (-1)) (neg (S754_finite false 4503599627370496 (-105)))
                (-1) (- pow2 (- 53)) (inject_Z H + - p)) as (d & Hd & Hdb);
      [by apply integer_of_Z|apply neg_value, step_value|lra|].
    rewrite (div_value _ two d 2 Hd (integer_of_Z 2 ltac:(done))) by done.
    set (s2 := xorb _ _).
    destruct (round_ne_between s2 (neg (div one two)) (neg (S754_finite false 4503599627370496 (-106)))
                (- (1 # 2)) (- pow2 (- 54)) (d / 2)) as (h & Hh & Hhb);
      [apply neg_value, half_value|apply neg_value, half_step_value|rewrite E2; lra|].
    apply (floor_between _ h); [done| |done].
    change (inject_Z (-1)) with (-1 # 1)%Q. lra.
  - assert (p <= inject_Z H)%Q as Hle.
    { apply Qnot_lt_le. intros Hc. by apply Hgt in Hc. }
    destruct (round_ne_between s1 (of_Z 0) (of_Z 1) 0 1 (inject_Z H + - p)) as (d & Hd & Hdb);
      [by apply integer_of_Z..|lra|].
    rewrite (div_value _ two d 2 Hd (integer_of_Z 2 ltac:(done))) by done.
    set (s2 := xorb _ _).
    destruct (round_ne_between s2 (of_Z 0) (div one two) 0 (1 # 2) (d / 2)) as (h & Hh & Hhb);
      [by apply integer_of_Z|apply half_value|rewrite E2; lra|].
    apply (floor_between _ h); [done| |done].
    change (inject_Z 0) with 0%Q. lra.
Qed.

(** The block scaled is within one of the canvas height. *)
Lemma scaled_total_value H x T gs g :
  1 ≤ H < 2 ^ 51 → integer x T → value gs g →
  (inject_Z H * (1 - unit_roundoff) <= inject_Z T * g <= inject_Z H * up)%Q →
  ∃ p, value (mul x gs) p ∧ (inject_Z H - 1 <= p <= inject_Z H + 1)%Q.
Proof.
  intros HH Hx Hgs Hb. pose proof (positive_Q H ltac:(lia)).
  assert (inject_Z H <= 2251799813685247)%Q.
  { change 2251799813685247%Q with (inject_Z (2 ^ 51 - 1)). rewrite <-Zle_Qle. lia. }
  rewrite (mul_value x gs _ g Hx Hgs). set (s1 := xorb _ _).
  rewrite unit_roundoff_eq, up_eq in Hb. revert Hb.
  generalize (inject_Z T * g)%Q. intros q Hb.
  destruct (round_ne_near s1 q) as (p & Hp & Hpn); [apply normal_range_wide; lra|].
  rewrite unit_roundoff_eq in Hpn. exists p. split; [done|]. lra.
Qed.

(** ** Theorems *)

Section top.
Context (W H L : Z) (bg : jsstring) (bs : list line_box).
Context (HW : pixels W) (HH : pixels H) (HL : 0 ≤ L).
Context (Hbs : Forall (λ b, pixels (box_width b) ∧ pixels (box_height b)) bs).
Context (Hmax : Z.of_nat (length bs) * (H + L) < 2 ^ 51).

#[local] Abbreviation svgs := (to_rendered <$> bs).
#[local] Abbreviation img := (generateImage bg (canvas W H) svgs (of_Z L)).

(** C35: the first line under a global scale is at row 0 or at row -1, and
    at row -1 exactly when the block scaled exceeds the canvas.  For a
    canvas and lines whose sizes are positive integers below 2^51, when the
    warning is raised the top of the first overlay is the integer -1 if the
    Number [totalHeight * globalScale] is greater than the canvas height,
    and 0 if it is not: the rounding of the quotient and of the product
    decides, and a first line above the canvas is what it costs. *)
Theorem generateImage_scaled_top gs o :
  warning img = Some gs → composites img !! 0%nat = Some o →
  integer (top o)
    (if gt (scaled_total (canvas W H) svgs (of_Z L)) (of_Z H) then -1 else 0).
Proof using All.
  intros Hwarn Ho. assert (bs ≠ []) as Hne by (by intros ->).
  destruct (generateImage_warned W H L bg bs HW HH HL Hbs Hmax gs Hne Hwarn)
    as (HT & g & Hg & _ & Hb).
  assert (0 ≤ L < 2 ^ 51) as HL'.
  { destruct HH. destruct bs; [done|]. simpl length in Hmax. nia. }
  pose proof (fitted_all W H bs HW HH Hbs) as Hcs.
  pose proof (stack_height_max W H L bg bs HW HH HL Hbs Hmax) as Hsh.
  pose proof (totalHeight_integer W H L _ HL' Hcs ltac:(lia)) as Htotal.
  rewrite (generateImage_first_top _ _ _ _ o Ho). unfold scaled_total.
  revert Hwarn. unfold generateImage. cbn [warning size_height canvas].
  destruct (gt _ (of_Z H)); [intros [= Egs]|done]. rewrite Egs.
  destruct (scaled_total_value H _ _ gs g HH Htotal Hg Hb) as (p & Hp & Hpb).
  by apply (floor_half_difference H _ p).
Qed.

End top.

(** Two lines of height 535 on the 1292 by 968 canvas: the block of 1086
    rows is scaled by 968 / 1086, the product is above 968, and the first
    line is at row -1. *)
Lemma generateImage_scaled_top_witness :
  let bs := [LineBox 100 535 []; LineBox 100 535 []] in
  let img := generateImage [] (canvas 1292 968) (to_rendered <$> bs) (of_Z 16) in
  ∃ o, composites img !! 0%nat = Some o ∧ integer (top o) (-1).
Proof.
  intros bs img.
  assert (pixels 1292 ∧ pixels 968 ∧ 0 ≤ 16) as (HW & HH & HL)
    by (unfold pixels; lia).
  assert (Forall (λ b, pixels (box_width b) ∧ pixels (box_height b)) bs) as Hbs
    by (repeat constructor; unfold pixels; simpl; lia).
  assert (Z.of_nat (length bs) * (968 + 16) < 2 ^ 51) as Hmax by (simpl; lia).
  pose proof (generateImage_scaled_top 1292 968 16 [] bs HW HH HL Hbs Hmax) as T.
  pose (o := Overlay (Resized [] (of_Z 89) (of_Z 476)) (of_Z 601) (of_Z (-1))).
  assert (composites img !! 0%nat = Some o) as Ho by (vm_compute; reflexivity).
  assert (warning img = Some (div (of_Z 968) (of_Z 1086))) as Hwarn
    by (vm_compute; reflexivity).
  assert (gt (scaled_total (canvas 1292 968) (to_rendered <$> bs) (of_Z 16)) (of_Z 968)
          = true) as E by (vm_compute; reflexivity).
  exists o. split; [exact Ho|].
  specialize (T _ o Hwarn Ho). rewrite E in T. exact T.
Defined.

(** Three lines of height 400 on the same canvas: the product is not above
    968 and the first line is at row 0. *)
Example scaled_top_examples :
  let sz := canvas 1292 968 in
  gt (scaled_total sz [box 100 535 []; box 100 535 []] (of_Z 16)) (of_Z 968) = true ∧
  gt (scaled_total sz [box 700 400 []; box 800 400 []; box 600 400 []] (of_Z 16))
     (of_Z 968) = false.
Proof. by vm_compute. Qed.
