(* ===== verification/LayoutDisjoint.v ===== *)
(** * The lines do not overlap

    The loop of [generateImage] advances [y] by
    [Math.floor(lineSpace * globalScale + realHeight * globalScale)] and
    draws the line at the height [Math.floor(realHeight * globalScale)],
    or at its own height when nothing is scaled.  The sum is rounded, but
    rounding never crosses a Number, so the advance is at least the height
    drawn: every line starts at or below the row where the line before it
    ends. *)

From Stdlib Require Import QArith Qround Lqa SpecFloat.
From stdpp Require Import numbers.
From S2P Require Import Prelude JsString JsNumber Rounding SafeInteger.
From S2P Require Import RoundingError RoundingOrder IntegerNumber.
From S2P Require Import Layout LayoutExact LayoutFit LayoutScaled.

#[local] Open Scope Z_scope.

(** Two overlays, one below the other: the second starts at or below the
    row where the first, drawn [h] high, ends. *)
Definition below (o o' : overlay) (h : Z) : Prop :=
  ∃ t t', integer (top o) t ∧ integer (top o') t' ∧ t + h ≤ t'.

Section scaled.
Context (gs : number) (g : Q).
Context (Hgs : value gs g) (Hg : (1 # 18014398509481984 <= g <= 1)%Q).

(** The advance of [y] past a line is at least the height the line is
    resized to. *)
Lemma advance_covers xl x L rh :
  integer xl L → integer x rh → 0 ≤ L → 0 ≤ rh → L + rh < 2 ^ prec →
  ∃ d b, integer (floor (add (mul xl gs) (mul x gs))) d ∧
    integer (floor (mul x gs)) b ∧ 0 ≤ b ≤ d ∧ d ≤ L + rh.
Proof using Hgs Hg.
  intros HL Hx ? ? Hs.
  destruct (scaled_product gs g Hgs Hg xl L HL) as (v1 & Hv1 & Hb1 & _); [lia|].
  destruct (scaled_product gs g Hgs Hg x rh Hx) as (v2 & Hv2 & Hb2 & _); [lia|].
  rewrite (add_value _ _ _ _ Hv1 Hv2). set (sz := _ && _).
  destruct (round_ne_between sz (mul x gs) (of_Z (L + rh)) v2 (inject_Z (L + rh)) (v1 + v2))
    as (v & Hv & Hb); [done|apply integer_of_Z; unfold safe; lia|rewrite inject_Z_plus; lra|].
  pose proof (Qfloor_between v2 0 rh Hb2).
  assert (0 <= v <= inject_Z (L + rh))%Q as Hv0 by lra.
  pose proof (Qfloor_between v 0 (L + rh) Hv0).
  pose proof (Qfloor_resp_le v2 v ltac:(lra)).
  exists (Qfloor v), (Qfloor v2).
  split_and!; [apply floor_value_integer|apply floor_value_integer|..];
    try done; unfold safe; lia.
Qed.

(** The height an overlay is drawn at is [Math.floor] of the scaled real
    height, also when the drawing is passed as it is. *)
Lemma drawn_height sz y c w a b b' :
  integer (realHeight c) (box_height (real_box c)) →
  drawn_size (place_one sz gs y c) w (box_height (real_box c)) a b →
  integer (floor (mul (realHeight c) gs)) b' → b = b'.
Proof using Hgs.
  intros Hh. unfold drawn_size, place_one.
  destruct (strict_ne (scale c) one || strict_ne gs one) eqn:E; cbn [input].
  - intros [_ Hb] Hb'. by apply (integer_unique _ _ _ Hb Hb').
  - apply orb_false_iff in E as [_ E]. pose proof (strict_ne_one gs g Hgs E) as Eg.
    intros [_ ->] Hb'. apply (integer_unique (floor (mul (realHeight c) gs))); [|done].
    apply floor_integer. rewrite (mul_value _ _ _ _ Hh Hgs).
    apply (round_ne_same _ (realHeight c)); [done|]. rewrite Eg. ring.
Qed.

End scaled.

Section loop.
Context (W H L : Z) (gs : number) (g : Q).
Context (Hgs : value gs g) (Hg : (1 # 18014398509481984 <= g <= 1)%Q).
Context (HL : 0 ≤ L).

Lemma tops_head lineSpace y cs y' :
  tops gs lineSpace y cs !! 0%nat = Some y' → y' = y.
Proof using Type. destruct cs; [done|]. by intros [= <-]. Qed.

(** Two consecutive values of the running [y]: integers, the second at
    least the first plus the height the line between them is resized
    to. *)
Lemma tops_disjoint cs y t i c yi yi' :
  Forall (fitted W H) cs → integer y t → -1 ≤ t →
  t + stack_height L (real_box <$> cs) < 2 ^ 52 →
  cs !! i = Some c →
  tops gs (of_Z L) y cs !! i = Some yi →
  tops gs (of_Z L) y cs !! S i = Some yi' →
  ∃ ti ti' b, integer yi ti ∧ integer yi' ti' ∧
    integer (floor (mul (realHeight c) gs)) b ∧ 0 ≤ b ∧ ti + b ≤ ti'.
Proof using Hgs Hg HL.
  intros Hcs. revert y t i.
  induction Hcs as [|c0 cs (_ & Hh & _ & Hrh) Hcs IH]; intros y t i Hy Ht Hmax Hc; [done|].
  pose proof (stack_height_nonneg L _ HL (fitted_heights W H cs Hcs)) as Hnn.
  rewrite fmap_cons, stack_height_cons in Hmax. simpl in Hmax, Hh, Hrh.
  destruct (advance_covers gs g Hgs Hg (of_Z L) (realHeight c0) L _
              (integer_of_Z L ltac:(unfold safe, prec; lia)) Hh)
    as (d & b & Hd & Hb & Hb0 & Hdu); [unfold prec; lia..|].
  pose proof (add_integer _ _ _ _ Hy Hd ltac:(unfold safe, prec; lia)) as Hy'.
  fold (advance gs (of_Z L) y c0) in Hy'.
  destruct i as [|i]; simpl.
  - injection Hc as <-. intros [= <-] ->%tops_head.
    exists t, (t + d), b. split_and!; [done..|lia|lia].
  - intros Hyi Hyi'. by apply (IH _ (t + d) i Hy'); [lia|lia|..].
Qed.

(** Two consecutive overlays of the loop. *)
Lemma overlays_disjoint cs y t i c o o' a b :
  Forall (fitted W H) cs → integer y t → -1 ≤ t →
  t + stack_height L (real_box <$> cs) < 2 ^ 52 →
  cs !! i = Some c →
  zip_with (place_one (canvas W H) gs) (tops gs (of_Z L) y cs) cs !! i = Some o →
  zip_with (place_one (canvas W H) gs) (tops gs (of_Z L) y cs) cs !! S i = Some o' →
  drawn_size o (box_width (real_box c)) (box_height (real_box c)) a b →
  below o o' b.
Proof using Hgs Hg HL.
  intros Hcs Hy Ht Hmax Hc Ho Ho' Hd.
  apply lookup_zip_with_Some in Ho as (yi & c1 & -> & Hyi & Hc1).
  apply lookup_zip_with_Some in Ho' as (yi' & c2 & -> & Hyi' & Hc2). simplify_eq.
  destruct (tops_disjoint cs y t i c yi yi' Hcs Hy Ht Hmax Hc Hyi Hyi')
    as (ti & ti' & b' & Hti & Hti' & Hb' & Hb0 & Hle).
  pose proof (Forall_lookup_1 _ _ _ _ Hcs Hc) as (_ & Hh & _).
  rewrite (drawn_height gs g Hgs _ _ _ _ _ _ _ Hh Hd Hb').
  exists ti, ti'. by rewrite !place_one_top.
Qed.

End loop.

(** ** Theorems *)

Section disjoint.
Context (W H L : Z) (bg : jsstring) (bs : list line_box).
Context (HW : pixels W) (HH : pixels H) (HL : 0 ≤ L).
Context (Hbs : Forall (λ b, pixels (box_width b) ∧ pixels (box_height b)) bs).
Context (Hmax : Z.of_nat (length bs) * (H + L) < 2 ^ 51).

#[local] Abbreviation cs := (fit (canvas W H) <$> (to_rendered <$> bs)).
#[local] Abbreviation img := (generateImage bg (canvas W H) (to_rendered <$> bs) (of_Z L)).

(** C7: the lines do not overlap.  For a canvas and lines whose sizes are
    positive integers below 2^51 and a non-negative integer line space,
    whatever is scaled, every overlay but the first starts at or below the
    row where the overlay before it ends, at the height it is drawn. *)
Theorem generateImage_disjoint i b o o' :
  bs !! i = Some b →
  composites img !! i = Some o → composites img !! S i = Some o' →
  ∃ w h, drawn_size o (box_width b) (box_height b) w h ∧ 0 ≤ h ∧ below o o' h.
Proof using All.
  intros Hb Ho Ho'.
  destruct (generateImage_overlay W H L bg bs HW HH HL Hbs Hmax i b o Hb Ho)
    as (l & t & w & h & _ & _ & Hd & _ & Hh0 & _).
  exists w, h. split; [by apply (overlay_drawn_size W H L bg bs HW HH Hbs i)|].
  split; [done|]. rewrite generateImage_composites in Ho, Ho'.
  destruct (generateImage_loop W H L bg bs HW HH HL Hbs Hmax)
    as (g & t0 & X & Hg & Hgb & Ht & Hsc & _ & _ & Hsh & _); [by intros ->|].
  assert (-1 ≤ t0) as Ht1 by (destruct (gt _ _); lia).
  eapply (overlays_disjoint W H L _ g Hg Hgb HL cs _ t0 i
            (fit (canvas W H) (to_rendered b)) o o' w h);
    [by apply fitted_all|exact Ht|done|done| |done..].
  by rewrite !list_lookup_fmap, Hb.
Qed.

End disjoint.

(** Three lines of 400 on the canvas 968 high, scaled by 0.7857: the
    second line starts at or below the end of the first. *)
Lemma generateImage_disjoint_witness :
  let bs := replicate 3 (LineBox 100 400 []) in
  let img := generateImage [] (canvas 1292 968) (to_rendered <$> bs) (of_Z 16) in
  ∃ o o', composites img !! 0%nat = Some o ∧ composites img !! 1%nat = Some o' ∧
  ∃ w h, drawn_size o 100 400 w h ∧ 0 ≤ h ∧ below o o' h.
Proof.
  intros bs img. eexists _, _. split; [vm_compute; reflexivity|].
  split; [vm_compute; reflexivity|].
  apply (generateImage_disjoint 1292 968 16 [] bs) with (i := 0%nat) (b := LineBox 100 400 []);
    try done; [repeat constructor; done|vm_compute; reflexivity..].
Defined.
