(* ===== verification/LayoutCentred.v ===== *)
(** * Every line is centred in the width

    The left offset of an overlay is
    [Math.floor((width - realWidth * globalScale) / 2)] and its width is
    [Math.floor(realWidth * globalScale)]: two different roundings of the
    same product.  Rounding never crosses an integer or the half of one, so
    the offset is the exact centring offset of the width drawn, or of one
    pixel more: the margin on the right is the margin on the left, or one
    or two pixels more. *)

From Stdlib Require Import QArith Qround Lqa SpecFloat.
From stdpp Require Import numbers.
From S2P Require Import Prelude JsString JsNumber Rounding SafeInteger.
From S2P Require Import RoundingError RoundingOrder IntegerNumber.
From S2P Require Import Layout LayoutExact LayoutFit LayoutScaled.

#[local] Open Scope Z_scope.

(** An overlay drawn [w] wide is centred in the width [W]: its left offset
    is an integer, and the margin on its right is the margin on its left or
    up to two pixels more. *)
Definition centred_in (W : Z) (o : overlay) (w : Z) : Prop :=
  ∃ l, integer (left o) l ∧ 0 ≤ l ∧ l ≤ W - w - l ≤ l + 2.

Section scaled.
Context (gs : number) (g : Q).
Context (Hgs : value gs g) (Hg : (1 # 18014398509481984 <= g <= 1)%Q).

(** The left offset against the width drawn. *)
Lemma scaled_centre x W rw :
  integer x rw → 0 ≤ rw ≤ W → W < 2 ^ 51 →
  ∃ l a, integer (floor (div (sub (of_Z W) (mul x gs)) two)) l ∧
    integer (floor (mul x gs)) a ∧ 0 ≤ a ≤ rw ∧ 0 ≤ l ∧ l ≤ W - a - l ≤ l + 2.
Proof using Hgs Hg.
  intros Hx Hrw HW.
  destruct (scaled_product gs g Hgs Hg x rw Hx ltac:(unfold prec; lia)) as (v & Hv & Hb & _).
  pose proof (Qfloor_between v 0 rw Hb) as Ha. pose proof (Qfloor_le v) as Hfl.
  pose proof (Qlt_floor v) as Hlt. rewrite inject_Z_plus in Hlt.
  change (inject_Z 1) with 1%Q in Hlt.
  pose proof (floor_value_integer _ _ Hv ltac:(unfold safe, prec; lia)) as Hfloor.
  set (a := Qfloor v) in *.
  assert (∀ n, -1 ≤ n ≤ W → integer (of_Z n) n) as HZ
    by (intros; apply integer_of_Z; unfold safe, prec; lia).
  assert (∀ n, -1 ≤ n ≤ W → value (div (of_Z n) two) (inject_Z n / 2)) as HZ2
    by (intros; apply half_value_integer; [by apply HZ|unfold safe, prec; lia]).
  unfold sub. rewrite (add_value _ _ _ _ (HZ W ltac:(lia)) (neg_value _ _ Hv)).
  set (s1 := _ && _). set (n := Z.max (W - a - 1) 0).
  assert (inject_Z n <= inject_Z W + - v <= inject_Z (W - a))%Q as Hn.
  { assert (inject_Z rw <= inject_Z W)%Q by (rewrite <-Zle_Qle; lia).
    unfold n. destruct (Z.max_spec (W - a - 1) 0) as [[_ ->]|[_ ->]];
      unfold Z.sub; rewrite ?inject_Z_plus, ?inject_Z_opp;
      change (inject_Z 1) with 1%Q; change (inject_Z 0) with 0%Q; split; lra. }
  destruct (round_ne_between s1 (of_Z n) (of_Z (W - a)) (inject_Z n) (inject_Z (W - a))
              (inject_Z W + - v)) as (d & Hd & Hdb); [apply HZ; lia..|done|].
  rewrite (div_value _ two d 2 Hd (integer_of_Z 2 ltac:(done))) by done.
  set (s2 := xorb _ _).
  destruct (round_ne_between s2 (div (of_Z n) two) (div (of_Z (W - a)) two)
              (inject_Z n / 2) (inject_Z (W - a) / 2) (d / 2))
    as (h & Hh & Hhb); [apply HZ2; lia..| |].
  { assert (∀ q, q / 2 == q * (1 # 2))%Q as E by (intros; field). rewrite !E. split; lra. }
  destruct Hhb as [Hlo Hhi]. apply Qfloor_resp_le in Hlo, Hhi.
  rewrite Qfloor_half in Hlo, Hhi. subst n.
  assert (0 ≤ Qfloor h ∧ Qfloor h ≤ W - a - Qfloor h ≤ Qfloor h + 2) as Hl
    by (clear -Hlo Hhi Ha Hrw; Z.div_mod_to_equations; lia).
  exists (Qfloor h), a. split_and!; [|done|lia..].
  apply floor_value_integer; [done|]. unfold safe, prec. lia.
Qed.

End scaled.

Section centre.
Context (W H : Z) (gs : number) (g : Q).
Context (Hgs : value gs g) (Hg : (1 # 18014398509481984 <= g <= 1)%Q).
Context (HW : 0 ≤ W < 2 ^ 51) (HH : 0 ≤ H < 2 ^ 51).

(** The overlay of one line is centred at the width it is drawn. *)
Lemma place_one_centre y c :
  fitted W H c →
  let o := place_one (canvas W H) gs y c in
  ∃ a b, drawn_size o (box_width (real_box c)) (box_height (real_box c)) a b ∧
    centred_in W o a.
Proof using Hgs Hg HW HH.
  intros (Hw & Hh & Hrw & Hrh) o. subst o. unfold place_one, drawn_size, centred_in.
  destruct (strict_ne (scale c) one || strict_ne gs one) eqn:E; cbn [input left size_width canvas].
  - destruct (scaled_centre gs g Hgs Hg (realWidth c) W _ Hw Hrw)
      as (l & a & Hl & Ha & Hab & Hl0 & Hla); [lia|].
    destruct (scaled_floor gs g Hgs Hg (realHeight c) _ Hh) as (b & Hb & _);
      [unfold prec; lia|].
    exists a, b. split; [done|]. by exists l.
  - exists (box_width (real_box c)), (box_height (real_box c)). split; [done|].
    exists ((W - box_width (real_box c)) / 2).
    split; [|clear -Hrw; Z.div_mod_to_equations; lia].
    apply half_integer; [apply sub_integer; [apply integer_of_Z|done|]|];
      unfold safe, prec; lia.
Qed.

End centre.

(** ** Theorems *)

Section centred.
Context (W H L : Z) (bg : jsstring) (bs : list line_box).
Context (HW : pixels W) (HH : pixels H) (HL : 0 ≤ L).
Context (Hbs : Forall (λ b, pixels (box_width b) ∧ pixels (box_height b)) bs).
Context (Hmax : Z.of_nat (length bs) * (H + L) < 2 ^ 51).

#[local] Abbreviation cs := (fit (canvas W H) <$> (to_rendered <$> bs)).
#[local] Abbreviation img := (generateImage bg (canvas W H) (to_rendered <$> bs) (of_Z L)).

(** C8: every line is centred in the width.  For a canvas and lines whose
    sizes are positive integers below 2^51, whatever is scaled, the left
    offset of every overlay is an integer that is not negative, and the
    margin on the right of the overlay, at the width it is drawn or
    resized to, is the margin on its left or up to two pixels more. *)
Theorem generateImage_centre i b o :
  bs !! i = Some b → composites img !! i = Some o →
  ∃ w h, drawn_size o (box_width b) (box_height b) w h ∧ centred_in W o w.
Proof using All.
  intros Hb Ho.
  destruct (generateImage_loop W H L bg bs HW HH HL Hbs Hmax)
    as (g & _ & _ & Hg & Hgb & _); [by intros ->|].
  pose proof Ho as Ho'. rewrite generateImage_composites in Ho'.
  apply lookup_zip_with_Some in Ho' as (yi & c & Eo & _ & Hc).
  pose proof (fitted_all W H bs HW HH Hbs) as Hcs.
  destruct (place_one_centre W H _ g Hg Hgb ltac:(destruct HW; lia)
              ltac:(destruct HH; lia) yi c
              (Forall_lookup_1 _ _ _ _ Hcs Hc)) as (w & h & Hd & Hcen).
  rewrite <-Eo in Hd, Hcen. exists w, h. split; [|done].
  apply (overlay_drawn_size W H L bg bs HW HH Hbs i b o w h Hb Ho).
  rewrite !list_lookup_fmap, Hb in Hc. by injection Hc as <-.
Qed.

End centred.

(** Two lines of height 535 on the 1292 by 968 canvas: the block is
    scaled by 968 / 1086, and the line of width 100 is drawn 89 wide
    between margins of 601 and 602. *)
Lemma generateImage_centre_witness :
  let bs := [LineBox 100 535 []; LineBox 100 535 []] in
  let img := generateImage [] (canvas 1292 968) (to_rendered <$> bs) (of_Z 16) in
  ∃ o, composites img !! 0%nat = Some o ∧
  ∃ w h, drawn_size o 100 535 w h ∧ centred_in 1292 o w.
Proof.
  intros bs img. eexists. split; [vm_compute; reflexivity|].
  apply (generateImage_centre 1292 968 16 [] bs) with (i := 0%nat) (b := LineBox 100 535 []);
    try done; repeat constructor; done.
Defined.
