(* ===== verification/WellFormed.v ===== *)
(** * The Numbers are closed under the operations

    A Number is well formed when it is a value of binary64: a NaN, an
    infinity, a zero, or a finite number whose mantissa has 53 bits (fewer
    at the least exponent) and whose exponent is in the format.  Every
    rounding returns such a value, so every operation does, whatever its
    operands. *)

From Stdlib Require Import QArith Qround Lqa SpecFloat.
From stdpp Require Import numbers.
From S2P Require Import Prelude JsNumber Rounding RoundingError RoundingOrder.

#[local] Open Scope Z_scope.

(** ** Rounding *)

Lemma round_pos_wf n d : wf (round_pos n d) = true.
Proof.
  set (e := exponent n d). set (m := mantissa n d e).
  destruct (decide (e + (if m =? 2 ^ prec then 1 else 0) ≤ emax_m)) as [Hle|Hgt].
  { by destruct (round_pos_finite n d Hle). }
  revert Hgt. rewrite round_pos_mantissa. fold (exponent n d). fold e. cbv zeta. fold m.
  destruct (m =? 2 ^ prec); intros Hgt; cbv beta iota.
  - by rewrite (proj2 (Z.ltb_lt _ _)) by lia.
  - destruct m; [done| |done]. by rewrite (proj2 (Z.ltb_lt _ _)) by lia.
Qed.

Lemma SFopp_wf x : wf (SFopp x) = wf x.
Proof. by destruct x. Qed.

Lemma round_ne_wf sz q : wf (round_ne sz q) = true.
Proof.
  unfold round_ne. destruct (Qnum q); [done|apply round_pos_wf|].
  rewrite SFopp_wf. apply round_pos_wf.
Qed.

#[export] Hint Resolve round_ne_wf round_pos_wf : xibao.

(** ** The operations *)

Lemma neg_wf x : wf x = true → wf (neg x) = true.
Proof. intros H. unfold neg. by rewrite SFopp_wf. Qed.

Lemma add_wf x y : wf x = true → wf y = true → wf (add x y) = true.
Proof.
  intros Hx Hy. destruct x as [sx|sx| |sx mx ex], y as [sy|sy| |sy my ey];
    try done; simpl; auto with xibao. by destruct (Bool.eqb sx sy).
Qed.

Lemma sub_wf x y : wf x = true → wf y = true → wf (sub x y) = true.
Proof. intros Hx Hy. apply add_wf; [done|by apply neg_wf]. Qed.

Lemma mul_wf x y : wf (mul x y) = true.
Proof. destruct x, y; simpl; auto with xibao. Qed.

Lemma div_wf x y : wf (div x y) = true.
Proof. destruct x, y; simpl; auto with xibao. Qed.

Lemma integral_wf s n : wf (integral s n) = true.
Proof. destruct n; [done|apply round_ne_wf..]. Qed.

Lemma floor_wf x : wf x = true → wf (floor x) = true.
Proof. destruct x; try done. intros _. apply integral_wf. Qed.

Lemma ceil_wf x : wf x = true → wf (ceil x) = true.
Proof. destruct x; try done. intros _. apply integral_wf. Qed.

#[export] Hint Resolve neg_wf add_wf sub_wf mul_wf div_wf floor_wf ceil_wf integral_wf
  : xibao.

(** ** Theorems *)

(** The operations return Numbers.  Whatever the operands, [*], [/] and
    every rounding return a value of binary64, and [+], [-], unary minus,
    [Math.floor] and [Math.ceil] do on values of binary64: no finite
    result has a mantissa of more than 53 bits or an exponent outside the
    format. *)
Theorem operations_wf x y sz q :
  wf (round_ne sz q) = true ∧ wf (mul x y) = true ∧ wf (div x y) = true ∧
  (wf x = true → wf y = true →
   wf (add x y) = true ∧ wf (sub x y) = true ∧ wf (neg x) = true ∧
   wf (floor x) = true ∧ wf (ceil x) = true).
Proof. split_and!; [auto with xibao..|]. intros Hx Hy. split_and!; auto with xibao. Qed.
