(* ===== verification/Options.v ===== *)
(** * The option normaliser: [parseTextOption] (src/index.js, lines 179-203)

    The argument is a string or an array of strings and option objects.  A
    string is split by [textToLines] (with the default width limit), an
    array is taken element by element; every option object is then completed
    by [Object.assign({...built-in}, defaultConfig, conf)].  Objects are
    records whose style fields may be absent ([None]); [assign] copies the
    fields that are present, so the last layer that has a field wins. *)

From Stdlib Require Import String.
From S2P Require Import Prelude JsString JsNumber LineSplitter.

(** ** Data *)

(** [TextConfig], possibly partial: a field is [None] when the object has no
    such property. *)
Record TextConfig := mkTextConfig {
  color : option jsstring;
  strokeColor : option jsstring;
  strokeSize : option number;
  fontSize : option number
}.

(** [TextOption]: a text and the style properties the object has. *)
Record TextOption := mkTextOption {
  text : jsstring;
  style : TextConfig
}.

(** [SvgOption]: every property present. *)
Record SvgOption := mkSvgOption {
  svg_text : jsstring;
  svg_color : jsstring;
  svg_strokeColor : jsstring;
  svg_strokeSize : number;
  svg_fontSize : number
}.

(** An element of the array: [string | TextOption]. *)
Inductive textlike :=
  | TextString (s : jsstring)
  | TextObject (o : TextOption).

(** The argument [textOrTexts]: [string | Array<string | TextOption>]. *)
Inductive textOrTexts :=
  | OneText (s : jsstring)
  | Texts (l : list textlike).

(** An object without any style property. *)
Definition no_style : TextConfig := mkTextConfig None None None None.

(** The style every preset and default in the source is built from. *)
Definition red : jsstring := str "red".
Definition pale_yellow : jsstring := str "#fcf88d".

(** The literal [{ color: 'red', strokeColor: '#fcf88d', strokeSize: 12,
    fontSize: 108 }], which is both the target of [Object.assign] and the
    default value of the parameter [defaultConfig]. *)
Definition builtin_config : TextConfig :=
  mkTextConfig (Some red) (Some pale_yellow) (Some (of_Z 12)) (Some (of_Z 108)).

(** ** [Object.assign] on style objects *)

(** One property copied from a source onto a target. *)
Definition assign_field {A} (target source : option A) : option A :=
  match source with
  | Some v => Some v
  | None => target
  end.

(** [Object.assign(target, source)] on the style properties. *)
Definition assign (target source : TextConfig) : TextConfig :=
  {| color := assign_field (color target) (color source);
     strokeColor := assign_field (strokeColor target) (strokeColor source);
     strokeSize := assign_field (strokeSize target) (strokeSize source);
     fontSize := assign_field (fontSize target) (fontSize source) |}.

(** The callback of [opts.map]: the built-in literal, then [defaultConfig],
    then the line's own object.  The result is read as an [SvgOption]; the
    fall-back values are never used, the built-in literal has every
    property. *)
Definition complete (defaultConfig : TextConfig) (conf : TextOption) : SvgOption :=
  let merged := assign (assign builtin_config defaultConfig) (style conf) in
  {| svg_text := text conf;
     svg_color := default [] (color merged);
     svg_strokeColor := default [] (strokeColor merged);
     svg_strokeSize := default NaN (strokeSize merged);
     svg_fontSize := default NaN (fontSize merged) |}.

(** The callback of [textOrTexts.map]: a string becomes [{ text }], an
    object is kept. *)
Definition to_option (t : textlike) : TextOption :=
  match t with
  | TextString s => mkTextOption s no_style
  | TextObject o => o
  end.

(** [opts]: the lines of a string, or the elements of the array. *)
Definition parse_opts (t : textOrTexts) : completion (list TextOption) :=
  match t with
  | OneText s =>
    textToLines s default_max ≫= λ lines : list jsstring,
    mret ((λ text, mkTextOption text no_style) <$> lines)
  | Texts l => mret (to_option <$> l)
  end.

(** [parseTextOption(textOrTexts, defaultConfig)]; [defaultConfig] is [None]
    when the argument is missing or [undefined], and the parameter then takes
    its default value. *)
Definition parseTextOption (t : textOrTexts) (defaultConfig : option TextConfig)
  : completion (list SvgOption) :=
  let defaultConfig := default builtin_config defaultConfig in
  parse_opts t ≫= λ opts : list TextOption,
  mret (complete defaultConfig <$> opts).

(** ** The merge *)

(** The value a property resolves to: the line's, else the default's, else
    the built-in one. *)
Definition resolve {A} (builtin : A) (dflt line : option A) : A :=
  match line, dflt with
  | Some v, _ => v
  | None, Some v => v
  | None, None => builtin
  end.

(** C32: every property of a completed option is the line's own when the
    line has it, else the default configuration's when that has it, else the
    built-in value ([red], [#fcf88d], 12, 108); the text is the line's. *)
Theorem complete_precedence dflt conf :
  complete dflt conf =
    {| svg_text := text conf;
       svg_color := resolve red (color dflt) (color (style conf));
       svg_strokeColor :=
         resolve pale_yellow (strokeColor dflt) (strokeColor (style conf));
       svg_strokeSize :=
         resolve (of_Z 12) (strokeSize dflt) (strokeSize (style conf));
       svg_fontSize :=
         resolve (of_Z 108) (fontSize dflt) (fontSize (style conf)) |}.
Proof.
  destruct dflt as [[] [] [] []], conf as [t [[] [] [] []]]; reflexivity.
Qed.

(** A default configuration that only sets the colour keeps the built-in
    stroke colour, stroke size and font size on a plain line. *)
Example complete_color_only c s :
  complete (mkTextConfig (Some c) None None None) (mkTextOption s no_style) =
    mkSvgOption s c pale_yellow (of_Z 12) (of_Z 108).
Proof. reflexivity. Qed.

(** ** The result *)

(** On an array, [parseTextOption] returns one completed option per
    element, in order, with the element's text; it never throws. *)
Theorem parseTextOption_texts l dflt :
  ∃ opts, parseTextOption (Texts l) dflt = Normal opts ∧
          svg_text <$> opts = (λ t, text (to_option t)) <$> l.
Proof.
  eexists. split; [reflexivity|].
  rewrite <-!list_fmap_compose. by apply list_fmap_ext.
Qed.

(** On a string, [parseTextOption] returns one completed option per
    line of [textToLines] at width 16, in order, and throws when
    [textToLines] throws. *)
Theorem parseTextOption_string s dflt :
  parseTextOption (OneText s) dflt =
    textToLines s 16 ≫= λ lines : list jsstring,
    mret ((λ text, complete (default builtin_config dflt)
                     (mkTextOption text no_style)) <$> lines).
Proof.
  unfold parseTextOption, parse_opts, default_max.
  destruct (textToLines s 16) as [ls|e]; simpl; [|done].
  unfold mret, completion_ret. f_equal. by rewrite <-list_fmap_compose.
Qed.

(** On a string of white space without line feed [parseTextOption] throws
    the TypeError of [textToLines]. *)
Lemma parseTextOption_blank text dflt :
  includes_LF text = false → Forall (λ c, is_whitespace c = true) text →
  parseTextOption (OneText text) dflt = Throw TypeError.
Proof.
  intros HLF Hws. unfold parseTextOption, parse_opts.
  by rewrite (textToLines_blank text default_max HLF Hws).
Qed.

(** On the empty string [parseTextOption] throws, where the specification
    promises an empty sequence. *)
Example parseTextOption_empty_throws dflt :
  parseTextOption (OneText []) dflt = Throw TypeError.
Proof. reflexivity. Qed.
