(* ===== verification/FontCache.v ===== *)
(** * The font cache: [t2sConfig], [getT2s], [setFont]
    (src/index.js, lines 8-19 and 279-281)

    The module keeps one process-wide object with the configured font file,
    the font file the instance was loaded from, and the instance.  [getT2s]
    loads the font when there is no instance or the configured file differs
    from the loaded one; [setFont] only changes the configured file.  The
    loader [TextToSVG.loadSync] is a parameter: a function from paths to a
    font or a thrown error.  A call that throws leaves the object as it
    was, so [getT2s] returns the object together with its completion. *)

From Stdlib Require Import String.
From S2P Require Import Prelude JsString.

Section font_cache.
Context {font : Type}.
Context (loadSync : jsstring → completion font).
Context (default_font : jsstring).

(** The object [t2sConfig]; [instance] is [None] for [null]. *)
Record t2sConfig := mkT2sConfig {
  fontfile : jsstring;
  loadedFontfile : jsstring;
  instance : option font
}.

(** Its initial value; [default_font] stands for
    [resolve(__dirname, 'assets/font.ttf')]. *)
Definition t2sConfig_init : t2sConfig :=
  {| fontfile := default_font; loadedFontfile := []; instance := None |}.

(** The two assignments of the [if] branch, after a load that returned. *)
Definition loaded (cfg : t2sConfig) (f : font) : t2sConfig :=
  {| fontfile := fontfile cfg;
     loadedFontfile := fontfile cfg;
     instance := Some f |}.

(** The branch of [getT2s] that loads. *)
Definition load (cfg : t2sConfig) : completion font * t2sConfig :=
  match loadSync (fontfile cfg) with
  | Normal f => (Normal f, loaded cfg f)
  | Throw e => (Throw e, cfg)
  end.

(** [getT2s]: the instance and the object after the call. *)
Definition getT2s (cfg : t2sConfig) : completion font * t2sConfig :=
  match instance cfg with
  | None => load cfg
  | Some f =>
    if bool_decide (fontfile cfg ≠ loadedFontfile cfg) then load cfg
    else (Normal f, cfg)
  end.

Definition setFont (fontpath : jsstring) (cfg : t2sConfig) : t2sConfig :=
  {| fontfile := fontpath;
     loadedFontfile := loadedFontfile cfg;
     instance := instance cfg |}.

(** ** The state machine *)

(** The calls that touch the object. *)
Inductive call :=
  | GetT2s
  | SetFont (fontpath : jsstring).

Definition step (cfg : t2sConfig) (c : call) : t2sConfig :=
  match c with
  | GetT2s => (getT2s cfg).2
  | SetFont p => setFont p cfg
  end.

(** The object after a sequence of calls from the initial value. *)
Definition run (calls : list call) : t2sConfig := foldl step t2sConfig_init calls.

(** The states a sequence of calls can reach. *)
Inductive reachable : t2sConfig → Prop :=
  | reachable_init : reachable t2sConfig_init
  | reachable_step cfg c : reachable cfg → reachable (step cfg c).

(** The invariant: an instance is the font of the file it is recorded to
    be loaded from. *)
Definition cache_ok (cfg : t2sConfig) : Prop :=
  ∀ f, instance cfg = Some f → loadSync (loadedFontfile cfg) = Normal f.

(** The font file the last [setFont] of a sequence configured. *)
Definition configured (calls : list call) : jsstring :=
  foldl (λ p c, match c with GetT2s => p | SetFont q => q end) default_font calls.

(** ** Lemmas *)

Lemma cache_ok_init : cache_ok t2sConfig_init.
Proof. intros f. by simpl. Qed.

Lemma cache_ok_setFont p cfg : cache_ok cfg → cache_ok (setFont p cfg).
Proof. intros H f. apply H. Qed.

Lemma cache_ok_load cfg : cache_ok cfg → cache_ok (load cfg).2.
Proof.
  intros H. unfold load. destruct (loadSync (fontfile cfg)) eqn:Hl; simpl; [|done].
  intros f [= <-]. done.
Qed.

Lemma cache_ok_getT2s cfg : cache_ok cfg → cache_ok (getT2s cfg).2.
Proof.
  intros H. unfold getT2s.
  destruct (instance cfg); [case_bool|]; auto using cache_ok_load.
Qed.

Lemma load_result cfg : (load cfg).1 = loadSync (fontfile cfg).
Proof. unfold load. by destruct (loadSync (fontfile cfg)). Qed.

Lemma load_fontfile cfg : fontfile (load cfg).2 = fontfile cfg.
Proof. unfold load. by destruct (loadSync (fontfile cfg)). Qed.

Lemma getT2s_fontfile cfg : fontfile (getT2s cfg).2 = fontfile cfg.
Proof.
  unfold getT2s. destruct (instance cfg); [case_bool|]; auto using load_fontfile.
Qed.

Lemma step_cache_ok cfg c : cache_ok cfg → cache_ok (step cfg c).
Proof. destruct c; simpl; auto using cache_ok_getT2s, cache_ok_setFont. Qed.

Lemma run_snoc calls c : run (calls ++ [c]) = step (run calls) c.
Proof. unfold run. by rewrite foldl_app. Qed.

Lemma reachable_run calls : reachable (run calls).
Proof.
  induction calls as [|c calls IH] using rev_ind; [constructor|].
  rewrite run_snoc. by constructor.
Qed.

Lemma run_fontfile calls : fontfile (run calls) = configured calls.
Proof.
  induction calls as [|c calls IH] using rev_ind; [done|].
  rewrite run_snoc. unfold configured. rewrite foldl_app. simpl.
  destruct c; simpl; [|done]. by rewrite getT2s_fontfile.
Qed.

(** [getT2s] when the configured font loads: the font, and the object
    with the font recorded as loaded (the object itself on a cache hit). *)
Lemma getT2s_loaded cfg f :
  cache_ok cfg → loadSync (fontfile cfg) = Normal f →
  getT2s cfg = (Normal f, loaded cfg f).
Proof.
  intros Hok Hl. unfold getT2s, load. rewrite Hl.
  destruct (instance cfg) as [g|] eqn:Hi; [case_bool|]; try done.
  apply dec_stable in n. specialize (Hok g Hi). rewrite <-n, Hl in Hok.
  injection Hok as ->. destruct cfg; simpl in *. unfold loaded; simpl.
  by rewrite n, Hi.
Qed.

(** [getT2s] when the configured font fails to load. *)
Lemma getT2s_failed cfg e :
  cache_ok cfg → loadSync (fontfile cfg) = Throw e → getT2s cfg = (Throw e, cfg).
Proof.
  intros Hok Hl. unfold getT2s, load. rewrite Hl.
  destruct (instance cfg) as [g|] eqn:Hi; [case_bool|]; try done.
  apply dec_stable in n. specialize (Hok g Hi). by rewrite <-n, Hl in Hok.
Qed.

Lemma run_cache_ok calls : cache_ok (run calls).
Proof.
  induction calls as [|c calls IH] using rev_ind; [apply cache_ok_init|].
  rewrite run_snoc. by apply step_cache_ok.
Qed.

(** A call right after one that returned a font returns the same font and
    leaves the object as it is. *)
Lemma getT2s_again cfg f cfg' :
  getT2s cfg = (Normal f, cfg') → getT2s cfg' = (Normal f, cfg').
Proof.
  unfold getT2s at 1.
  assert (Hl : load cfg = (Normal f, cfg') → getT2s cfg' = (Normal f, cfg')).
  { unfold load. destruct (loadSync (fontfile cfg)); intros [= <- <-].
    unfold getT2s, loaded; simpl. by rewrite bool_decide_eq_false_2 by auto. }
  destruct (instance cfg) as [g|] eqn:Hi; [|done].
  case_bool; [done|]. intros [= <- <-].
  unfold getT2s. rewrite Hi. by rewrite bool_decide_eq_false_2.
Qed.

(** ** Theorems *)

(** C31: in every reachable state of the module, the instance, when there is
    one, is the font of [loadedFontfile]. *)
Theorem reachable_cache_ok cfg : reachable cfg → cache_ok cfg.
Proof. induction 1; auto using cache_ok_init, step_cache_ok. Qed.

(** C15: the cache is transparent: in a state that satisfies the invariant,
    [getT2s] completes as [loadSync] on the configured font file does, with
    the same font or the same error. *)
Theorem getT2s_refines_loadSync cfg :
  cache_ok cfg → (getT2s cfg).1 = loadSync (fontfile cfg).
Proof.
  intros H. unfold getT2s. destruct (instance cfg) as [f|] eqn:Hi.
  - case_bool; [apply load_result|]. simpl.
    rewrite (dec_stable n). symmetry. by apply H.
  - apply load_result.
Qed.

(** After any sequence of calls, [getT2s] completes as loading the font
    file of the last [setFont] does (the default font file when there was
    none). *)
Theorem getT2s_after_calls calls :
  (getT2s (run calls)).1 = loadSync (configured calls).
Proof.
  rewrite <-run_fontfile. pose proof (run_cache_ok calls) as Hok.
  destruct (loadSync (fontfile (run calls))) as [f|e] eqn:Hl.
  - by rewrite (getT2s_loaded _ _ Hok Hl).
  - by rewrite (getT2s_failed _ _ Hok Hl).
Qed.

(** Once a call has returned a font, any number of further calls without
    a [setFont] in between return the same font and leave the object
    unchanged: the font is loaded once. *)
Theorem getT2s_hit cfg f cfg' n :
  getT2s cfg = (Normal f, cfg') →
  foldl step cfg' (replicate n GetT2s) = cfg' ∧ getT2s cfg' = (Normal f, cfg').
Proof.
  intros H%getT2s_again. split; [|done].
  induction n as [|n IH]; [done|]. simpl. by rewrite H.
Qed.

End font_cache.

Arguments t2sConfig : clear implicits.
Arguments call : clear implicits.

(** ** A sample loader

    Fonts are named by their path; the file [missing.ttf] does not load. *)

Definition sample_loadSync (p : jsstring) : completion jsstring :=
  if bool_decide (p = str "missing.ttf") then Throw Error else Normal p.

Definition sample_init : t2sConfig jsstring := t2sConfig_init (str "assets/font.ttf").

Lemma reachable_cache_ok_witness :
  cache_ok sample_loadSync
    (run sample_loadSync (str "assets/font.ttf")
       [GetT2s; SetFont (str "a.ttf"); GetT2s; SetFont (str "missing.ttf"); GetT2s]).
Proof. apply (reachable_cache_ok sample_loadSync (str "assets/font.ttf")), reachable_run. Defined.

Lemma getT2s_refines_loadSync_witness :
  (getT2s sample_loadSync (setFont (str "a.ttf") (getT2s sample_loadSync sample_init).2)).1
  = sample_loadSync (str "a.ttf").
Proof.
  apply (getT2s_refines_loadSync sample_loadSync
           (setFont (str "a.ttf") (getT2s sample_loadSync sample_init).2)).
  apply cache_ok_setFont, cache_ok_getT2s, cache_ok_init.
Defined.

Lemma getT2s_hit_witness :
  let cfg' := loaded sample_init (str "assets/font.ttf") in
  foldl (step sample_loadSync) cfg' (replicate 3 GetT2s) = cfg' ∧
  getT2s sample_loadSync cfg' = (Normal (str "assets/font.ttf"), cfg').
Proof.
  intros cfg'. apply (getT2s_hit sample_loadSync sample_init). vm_compute. reflexivity.
Defined.

(** The sequence of the cache: a first call loads, a second call hits, a
    changed font file loads again, a missing file throws and keeps the
    object. *)
Example cache_sequence :
  let c0 := sample_init in
  let '(r1, c1) := getT2s sample_loadSync c0 in
  let '(r2, c2) := getT2s sample_loadSync c1 in
  let c3 := setFont (str "b.ttf") c2 in
  let '(r4, c4) := getT2s sample_loadSync c3 in
  let c5 := setFont (str "missing.ttf") c4 in
  let '(r6, c6) := getT2s sample_loadSync c5 in
  r1 = Normal (str "assets/font.ttf") ∧ r2 = r1 ∧ c2 = c1 ∧
  r4 = Normal (str "b.ttf") ∧ loadedFontfile c4 = str "b.ttf" ∧
  r6 = Throw Error ∧ c6 = c5 ∧ instance c6 = Some (str "b.ttf").
Proof. vm_compute. done. Qed.
