(* ===== verification/NumberToString.v ===== *)
(** * Number::toString

    A template literal converts a Number to a string with Number::toString
    (ECMA-262 6.1.6.1.20): the decimal digits of the shortest decimal
    numeral that rounds to the Number, laid out as an integer, as a decimal
    fraction, or with an exponent.  [textSvg] prints the width of a line
    with it.  The digits of a natural number and the integer a Number is
    are also here, for [parseInt] and for the integers the layout meets. *)

From Stdlib Require Import String QArith Qround SpecFloat Floats.
From stdpp Require Import numbers.
From S2P Require Import Prelude JsString JsNumber.

#[local] Open Scope N_scope.
#[local] Set Warnings "-inexact-float".

(** ** Decimal digits *)

(** The decimal digits of a natural number. *)
Fixpoint uint_units (d : Decimal.uint) : jsstring :=
  match d with
  | Decimal.Nil => []
  | Decimal.D0 d => 48 :: uint_units d
  | Decimal.D1 d => 49 :: uint_units d
  | Decimal.D2 d => 50 :: uint_units d
  | Decimal.D3 d => 51 :: uint_units d
  | Decimal.D4 d => 52 :: uint_units d
  | Decimal.D5 d => 53 :: uint_units d
  | Decimal.D6 d => 54 :: uint_units d
  | Decimal.D7 d => 55 :: uint_units d
  | Decimal.D8 d => 56 :: uint_units d
  | Decimal.D9 d => 57 :: uint_units d
  end.

Definition decimal (n : N) : jsstring := uint_units (N.to_uint n).

(** The integer a finite number is, when it is one. *)
Definition integer_value (x : number) : option Z :=
  match x with
  | S754_zero _ => Some 0%Z
  | S754_finite s m e =>
    let q := Qred (F2Q s m e) in
    if bool_decide (Qden q = 1%positive) then Some (Qnum q) else None
  | _ => None
  end.

#[local] Open Scope Z_scope.

(** ** The shortest digits *)

(** [10^n] as a rational, for any integer [n]. *)
Definition pow10 (n : Z) : Q :=
  if 0 <=? n then inject_Z (10 ^ n) else Qmake 1 (Z.to_pos (10 ^ (- n))).

(** The number of decimal digits of a positive integer. *)
Definition digits (z : Z) : Z := Z.of_nat (length (decimal (Z.to_N z))).

(** The [n] of the standard for a positive rational:
    [10^(n-1) <= q < 10^n]. *)
Definition decimal_exponent (q : Q) : Z :=
  if Qle_bool 1 q then digits (Qfloor q)
  else 1 - digits (Qceiling (/ q) - 1).

(** The [k] digits [s] at the exponent [n], when [s * 10^(n-k)] rounds to
    [x]; a numeral of [k + 1] digits that ends in zero is taken at the next
    exponent. *)
Definition with_digits (x : number) (n k s : Z) : option (Z * Z) :=
  let '(s, n) := if s =? 10 ^ k then (10 ^ (k - 1), n + 1) else (s, n) in
  if bool_decide (round_ne false (inject_Z s * pow10 (n - k)) = x)
  then Some (s, n) else None.

(** The numeral of [k] digits that rounds to [x], the nearest to the value
    [q] of [x] if there are two, the even one if they are as near. *)
Definition candidate (x : number) (q : Q) (n k : Z) : option (Z * Z) :=
  let y := (q / pow10 (n - k))%Q in
  let lo := Qfloor y in
  match with_digits x n k lo, with_digits x n k (lo + 1) with
  | Some a, Some b =>
    match (y - inject_Z lo ?= inject_Z (lo + 1) - y)%Q with
    | Lt => Some a
    | Gt => Some b
    | Eq => if Z.even lo then Some a else Some b
    end
  | Some a, None => Some a
  | None, b => b
  end.

(** The digits [s] and the exponent [n] of a positive finite Number: the
    least number of digits that round to it; 17 digits always do. *)
Definition shortest_digits (x : number) (q : Q) : Z * Z :=
  let n := decimal_exponent q in
  default (Qfloor (q / pow10 (n - 17)), n)
          (head (omap (candidate x q n) (seqZ 1 17))).

(** ** The layout of the digits *)

Definition zeros (n : Z) : jsstring := replicate (Z.to_nat n) 48%N.

(** Steps 5 to 11 of Number::toString, for the digits [ds] and the
    exponent [n]. *)
Definition format_digits (ds : jsstring) (n : Z) : jsstring :=
  let k := Z.of_nat (length ds) in
  if bool_decide (-5 ≤ n ≤ 21) then
    if bool_decide (k ≤ n) then ds ++ zeros (n - k)
    else if bool_decide (0 < n) then
      take (Z.to_nat n) ds ++ str "." ++ drop (Z.to_nat n) ds
    else str "0." ++ zeros (- n) ++ ds
  else
    let exponent :=
      str "e" ++ (if bool_decide (n < 0) then str "-" else str "+")
      ++ decimal (Z.abs_N (n - 1)) in
    match ds with
    | d :: (_ :: _) as rest => d :: str "." ++ rest ++ exponent
    | _ => ds ++ exponent
    end.

(** Number::toString of a positive finite Number.  A safe integer is its
    own shortest numeral. *)
Definition positive_toString (x : number) (q : Q) : jsstring :=
  match integer_value x with
  | Some n =>
    if bool_decide (n < 2 ^ prec) then decimal (Z.to_N n)
    else let '(s, e) := shortest_digits x q in format_digits (decimal (Z.to_N s)) e
  | None => let '(s, e) := shortest_digits x q in format_digits (decimal (Z.to_N s)) e
  end.

Definition Number_toString (x : number) : jsstring :=
  match x with
  | S754_nan => str "NaN"
  | S754_zero _ => str "0"
  | S754_infinity false => str "Infinity"
  | S754_infinity true => str "-Infinity"
  | S754_finite s m e =>
    (if s then str "-" else [])
    ++ positive_toString (S754_finite false m e) (F2Q false m e)
  end.

(** ** Examples

    The strings are those of an ECMAScript engine. *)

Definition toString (x : float) : jsstring := Number_toString (Prim2SF x).

Example toString_fractions :
  toString <$> [0.1; 0.5; 1.5; 852.1875; 123.456; 4.35; -1.5; 0.000001;
                0x1.3333333333334p-2; 0x1.5555555555555p-2]%float
  = str <$> ["0.1"; "0.5"; "1.5"; "852.1875"; "123.456"; "4.35"; "-1.5";
             "0.000001"; "0.30000000000000004"; "0.3333333333333333"]%string.
Proof. vm_compute. reflexivity. Qed.

Example toString_exponents :
  toString <$> [1e21; 1e-7; 0x1p-1074; 0x1.fffffffffffffp+1023; 1e300;
                1.5e-10; 123456789e20]%float
  = str <$> ["1e+21"; "1e-7"; "5e-324"; "1.7976931348623157e+308"; "1e+300";
             "1.5e-10"; "1.23456789e+28"]%string.
Proof. vm_compute. reflexivity. Qed.

Example toString_integers :
  toString <$> [0; -0; 1; 10; 312; 1292; 1000000; 9007199254740991;
                9007199254740992; 0x1p+60; 123456789012345680000; -42;
                infinity; neg_infinity; nan]%float
  = str <$> ["0"; "0"; "1"; "10"; "312"; "1292"; "1000000"; "9007199254740991";
             "9007199254740992"; "1152921504606847000"; "123456789012345680000";
             "-42"; "Infinity"; "-Infinity"; "NaN"]%string.
Proof. vm_compute. reflexivity. Qed.

(** On safe integers the shortest numeral is the integer itself. *)
Example shortest_digits_integers :
  (λ z, let '(s, n) := shortest_digits (of_Z z) (inject_Z z) in
        format_digits (decimal (Z.to_N s)) n)
    <$> [1; 10; 312; 1292; 1000000; 9007199254740991; 4503599627370497]
  = (λ z, decimal (Z.to_N z))
    <$> [1; 10; 312; 1292; 1000000; 9007199254740991; 4503599627370497].
Proof. vm_compute. reflexivity. Qed.
