(* ===== verification/Warning.v ===== *)
(** * The warning of [generateImage] (src/index.js, line 96)

    When the block of lines is higher than the canvas, [generateImage]
    prints the global scale with four decimal places:
    [globalScale.toFixed(4)].  Number.prototype.toFixed (ECMA-262
    21.1.3.3) takes the integer nearest to the exact value of the Number
    times 10^4, the larger one of two that are as near, and writes it with
    a decimal point before its last four digits.  The scale is the canvas
    height over the height of the block, so the text is a digit, a point
    and four digits, and the number it shows is less than 0.0001 away from
    that quotient. *)

From Stdlib Require Import String QArith Qround Lqa SpecFloat Floats.
From stdpp Require Import numbers.
From S2P Require Import Prelude JsString JsNumber Rounding SafeInteger RoundingError.
From S2P Require Import IntegerNumber Layout LayoutExact LayoutFit LayoutScaled NumberToString.

#[local] Open Scope Z_scope.
#[local] Set Warnings "-inexact-float".

(** ** [toFixed] *)

(** The integer [n] for which [n - q] is as close to zero as possible, the
    larger one if there are two. *)
Definition nearest (q : Q) : Z := Qfloor (q + (1 # 2)).

(** Steps 11.b and 11.c: the digits of [n] with a point before the last
    [f], after as many zeros as it takes to have a digit before the
    point. *)
Definition fixed_digits (n : Z) (f : nat) : jsstring :=
  let m := decimal (Z.to_N n) in
  if bool_decide (f = 0%nat) then m
  else
    let m := zeros (Z.of_nat f + 1 - Z.of_nat (length m)) ++ m in
    let k := length m in
    take (k - f) m ++ str "." ++ drop (k - f) m.

(** [x.toFixed(f)] for [f] from 0 to 100 (a greater [f] is a RangeError). *)
Definition toFixed (x : number) (f : nat) : jsstring :=
  match x with
  | S754_zero _ => fixed_digits 0 f
  | S754_finite s m e =>
    let q := F2Q false m e in
    (if s then str "-" else [])
    ++ (if Qle_bool (inject_Z (10 ^ 21)) q
        then positive_toString (S754_finite false m e) q
        else fixed_digits (nearest (q * inject_Z (10 ^ Z.of_nat f))) f)
  | _ => Number_toString x
  end.

(** ** The text printed *)

(** The template literal of the warning. *)
Definition warning_message (globalScale : number) : jsstring :=
  str "Warn: Input lines are too high for image and will be scaled to "
  ++ toFixed globalScale 4 ++ str "x".

(** What [console.warn] was called with, if it was called. *)
Definition warned (img : image) : option jsstring :=
  warning_message <$> warning img.

(** A number from 0 to 1 with four decimal places, in ten-thousandths. *)
Definition four_places (n : Z) : jsstring :=
  Z.to_N <$> [48 + n / 10000; 46; 48 + n / 1000 mod 10; 48 + n / 100 mod 10;
              48 + n / 10 mod 10; 48 + n mod 10].

(** ** Examples

    The strings are those of an ECMAScript engine. *)

Example toFixed_examples :
  zip_with (λ x f, toFixed (Prim2SF x) f)
    [0.7857142857142857; 1.005; 8.345; 1.255; 0.5; 2.5; -0.5; 0; -0; 123.456;
     0.000001; -0.00001; 1e21; 0.99995; 0.99994; 1; nan; infinity]%float
    [4; 2; 2; 2; 0; 0; 0; 2; 2; 2; 7; 4; 2; 4; 4; 4; 4; 4]%nat
  = str <$> ["0.7857"; "1.00"; "8.35"; "1.25"; "1"; "3"; "-1"; "0.00"; "0.00";
             "123.46"; "0.0000010"; "-0.0000"; "1e+21"; "1.0000"; "0.9999";
             "1.0000"; "NaN"; "Infinity"]%string.
Proof. vm_compute. reflexivity. Qed.

(** The warning of three lines of 400 on the canvas 968 high. *)
Example warned_three_lines :
  warned (generateImage [] (canvas 1292 968)
            (to_rendered <$> replicate 3 (LineBox 100 400 [])) (of_Z 16))
  = Some (str "Warn: Input lines are too high for image and will be scaled to 0.7857x").
Proof. vm_compute. reflexivity. Qed.

(** ** Lemmas *)

Lemma nearest_bounds q : (inject_Z (nearest q) - (1 # 2) <= q < inject_Z (nearest q) + (1 # 2))%Q.
Proof.
  unfold nearest. pose proof (Qfloor_le (q + (1 # 2))).
  pose proof (Qlt_floor (q + (1 # 2))) as Hlt.
  rewrite inject_Z_plus in Hlt. change (inject_Z 1) with 1%Q in Hlt. lra.
Qed.

Lemma nearest_range q X :
  (0 <= q <= inject_Z X)%Q → 0 ≤ nearest q ≤ X.
Proof.
  intros [H0 HX]. pose proof (nearest_bounds q) as [Hlo Hhi]. split.
  - assert (inject_Z (-1) < inject_Z (nearest q))%Q as Hlt
      by (change (inject_Z (-1)) with (-1 # 1)%Q; lra).
    rewrite <-Zlt_Qlt in Hlt. lia.
  - assert (inject_Z (nearest q) < inject_Z (X + 1))%Q as Hlt.
    { rewrite inject_Z_plus. change (inject_Z 1) with 1%Q. lra. }
    rewrite <-Zlt_Qlt in Hlt. lia.
Qed.

#[export] Instance nearest_Proper : Proper (Qeq ==> eq) nearest.
Proof. intros q q' E. unfold nearest. by rewrite E. Qed.

(** The ten thousand and one texts of a number from 0 to 1. *)
Lemma fixed_digits_four n : 0 ≤ n ≤ 10000 → fixed_digits n 4 = four_places n.
Proof.
  intros Hn.
  assert (forallb (λ n, bool_decide (fixed_digits n 4 = four_places n))
            (seqZ 0 10001) = true) as Hall by (vm_compute; reflexivity).
  rewrite forallb_forall in Hall. eapply bool_decide_eq_true_1, Hall.
  apply list_elem_of_In, elem_of_seqZ. lia.
Qed.

(** [toFixed] of a finite number from 0 to 1. *)
Lemma toFixed_unit x q :
  value x q → (0 <= q <= 1)%Q →
  toFixed x 4 = four_places (nearest (q * 10000)) ∧ 0 ≤ nearest (q * 10000) ≤ 10000.
Proof.
  intros Hv Hq.
  assert (0 ≤ nearest (q * 10000) ≤ 10000) as Hn.
  { apply nearest_range. change (inject_Z 10000) with 10000%Q. lra. }
  split; [|done]. rewrite <-fixed_digits_four by done.
  destruct Hv as [_ (q' & Eq & E)]. destruct x as [sz| | |s m e]; try done.
  - injection Eq as <-. by rewrite <-E.
  - injection Eq as <-. unfold toFixed.
    destruct s; [pose proof (F2Q_opp m e); pose proof (F2Q_pos m e); lra|].
    destruct (Qle_bool _ _) eqn:Hle.
    { apply Qle_bool_iff in Hle. change (inject_Z (10 ^ 21)) with (10 ^ 21)%Q in Hle.
      exfalso. revert Hle. rewrite E. apply Qlt_not_le.
      eapply Qle_lt_trans; [apply Hq|done]. }
    simpl. change (inject_Z (10 ^ Z.of_nat 4)) with 10000%Q. by rewrite E.
Qed.

(** ** Theorems *)

Section warning.
Context (W H L : Z) (bg : jsstring) (bs : list line_box).
Context (HW : pixels W) (HH : pixels H) (HL : 0 ≤ L).
Context (Hbs : Forall (λ b, pixels (box_width b) ∧ pixels (box_height b)) bs).
Context (Hmax : Z.of_nat (length bs) * (H + L) < 2 ^ 51).

#[local] Abbreviation img := (generateImage bg (canvas W H) (to_rendered <$> bs) (of_Z L)).
#[local] Abbreviation T :=
  (block_height L (real_box <$> (fit (canvas W H) <$> (to_rendered <$> bs)))).

(** C26: the warning shows the scale.  For a canvas and lines whose sizes
    are positive integers below 2^51, the warning is printed with a global
    scale below 1, the canvas height over the height [T] of the block of
    fitted lines; its text shows the scale as a digit, a point and four
    digits, and the number shown is less than 0.0001 away from the
    quotient [H / T]. *)
Theorem warning_shows_scale text :
  bs ≠ [] → warned img = Some text →
  ∃ gs n, warning img = Some gs ∧ lt gs one = true ∧
    text = str "Warn: Input lines are too high for image and will be scaled to "
           ++ four_places n ++ str "x" ∧
    0 ≤ n ≤ 10000 ∧ H < T ∧ (n - 1) * T < 10000 * H < (n + 1) * T.
Proof using All.
  intros Hne. unfold warned. destruct (warning img) as [gs|] eqn:Hw; [|done].
  intros [= <-].
  destruct (generateImage_warned W H L bg bs HW HH HL Hbs Hmax gs Hne Hw)
    as (HT & g & Hg & [Hg0 Hg1] & Hlo & Hup).
  destruct (toFixed_unit gs g Hg) as [Ef Hn]; [lra|].
  unfold warning_message. rewrite Ef.
  exists gs, (nearest (g * 10000)).
  pose proof (nearest_bounds (g * 10000)) as [Hnl Hnh].
  rewrite up_eq in Hup. rewrite unit_roundoff_eq in Hlo.
  assert (inject_Z H + 1 <= inject_Z T)%Q.
  { change 1%Q with (inject_Z 1). rewrite <-inject_Z_plus, <-Zle_Qle. lia. }
  assert (0 < inject_Z H < 2251799813685248)%Q.
  { destruct HH. change 2251799813685248%Q with (inject_Z (2 ^ 51)).
    rewrite <-(Zlt_Qlt 0), <-Zlt_Qlt. lia. }
  split_and!; [done| |done|lia..| |].
  - apply (lt_value _ _ _ _ Hg (of_Z_value 1 ltac:(done))).
    change (inject_Z 1) with 1%Q. nra.
  - rewrite Zlt_Qlt, !inject_Z_mult. unfold Zminus.
    rewrite inject_Z_plus, inject_Z_opp.
    change (inject_Z 1) with 1%Q. change (inject_Z 10000) with 10000%Q. nra.
  - rewrite Zlt_Qlt, !inject_Z_mult, inject_Z_plus.
    change (inject_Z 1) with 1%Q. change (inject_Z 10000) with 10000%Q. nra.
Qed.

End warning.

(** Three lines of 400 on the canvas 968 high: the block is 1232 high and
    the warning shows 0.7857. *)
Lemma warning_shows_scale_witness :
  let bs := replicate 3 (LineBox 100 400 []) in
  let img := generateImage [] (canvas 1292 968) (to_rendered <$> bs) (of_Z 16) in
  let T := block_height 16 (real_box <$> (fit (canvas 1292 968) <$> (to_rendered <$> bs))) in
  ∃ gs n, warning img = Some gs ∧ lt gs one = true ∧
    str "Warn: Input lines are too high for image and will be scaled to 0.7857x"
    = str "Warn: Input lines are too high for image and will be scaled to "
      ++ four_places n ++ str "x" ∧
    0 ≤ n ≤ 10000 ∧ 968 < T ∧ (n - 1) * T < 10000 * 968 < (n + 1) * T.
Proof.
  intros bs img T.
  apply (warning_shows_scale 1292 968 16 [] bs); try done.
  repeat constructor; done.
Defined.

(** On a canvas 20000 high a block of 20001 is scaled by 0.99995 and the
    warning shows 1.0000. *)
Example warned_one :
  warned (generateImage [] (canvas 20000 20000)
            (to_rendered <$> [LineBox 100 10000 []; LineBox 100 9985 []]) (of_Z 16))
  = Some (str "Warn: Input lines are too high for image and will be scaled to 1.0000x").
Proof. vm_compute. reflexivity. Qed.
