(* ===== verification/Renderer.v ===== *)
(** * The glyph renderer adaptor: [textSvg] (src/index.js, lines 41-63)

    [textSvg] asks the font ([getT2s]) for the SVG of a line, reads the
    integer [width] and [height] the SVG declares with two regular
    expressions, adds the stroke size to the width and patches the declared
    width in the SVG text.  The font library's [getSVG] is a parameter.
    [parseInt] is modelled on what the two expressions can capture, a
    string of decimal digits; the conversion of the width to a string is
    Number::toString of [NumberToString]. *)

From Stdlib Require Import String QArith SpecFloat.
From stdpp Require Import numbers.
From S2P Require Import Prelude JsString JsNumber Options FontCache Layout NumberToString.

#[local] Open Scope N_scope.

(** ** Numbers and strings *)

(** The value of a string of decimal digits. *)
Definition digits_value (ds : jsstring) : N :=
  foldl (λ acc c, 10 * acc + (c - 48)) 0 ds.

(** [parseInt] on what [match(...)?.[1]] gives: the value of the captured
    digits, NaN for [undefined]. *)
Definition parseInt (capture : option jsstring) : number :=
  match capture with
  | Some ds => of_Z (Z.of_N (digits_value ds))
  | None => NaN
  end.

Section renderer.
Context {font : Type}.
Context (loadSync : jsstring → completion font).

(** ** The request to the font library *)

Record svg_attributes := mkAttributes {
  fill : jsstring;
  stroke : jsstring;
  stroke_width : number;
  paint_order : jsstring
}.

Record svg_request := mkRequest {
  req_fontSize : number;
  req_x : number;
  req_y : number;
  req_anchor : jsstring;
  req_attributes : svg_attributes
}.

Context (getSVG : font → jsstring → svg_request → jsstring).

(** The options object [textSvg] passes to [getSVG]. *)
Definition request (option : SvgOption) : svg_request :=
  {| req_fontSize := svg_fontSize option;
     req_x := ceil (div (svg_strokeSize option) two);
     req_y := of_Z 0;
     req_anchor := str "top";
     req_attributes :=
       {| fill := svg_color option;
          stroke := svg_strokeColor option;
          stroke_width := svg_strokeSize option;
          paint_order := str "stroke" |} |}.

(** The text [width="] and [height="] of the two regular expressions. *)
Definition width_attr : jsstring := str "width=" ++ [34].
Definition height_attr : jsstring := str "height=" ++ [34].

(** What [textSvg] makes of the SVG text the font returned. *)
Definition measure (strokeSize : number) (svg : jsstring) : rendered :=
  let width := parseInt (match_digits width_attr svg) in
  let height := parseInt (match_digits height_attr svg) in
  {| Layout.width := add width strokeSize;
     Layout.height := height;
     Layout.svg :=
       replace_first (width_attr ++ Number_toString width)
                     (width_attr ++ Number_toString (add width strokeSize)) svg |}.

(** [textSvg]: the rendered line and the font cache after the call; a font
    that fails to load is the call's exception. *)
Definition textSvg (option : SvgOption) (cfg : t2sConfig font)
  : completion rendered * t2sConfig font :=
  let '(t2s, cfg) := getT2s loadSync cfg in
  (t2s ≫= λ t2s : font,
     mret (measure (svg_strokeSize option)
             (getSVG t2s (svg_text option) (request option))),
   cfg).

(** [options.map(conf => textSvg(conf))] with the cache threaded through
    the calls; the first exception ends the map. *)
Fixpoint textSvg_all (options : list SvgOption) (cfg : t2sConfig font)
  : completion (list rendered) * t2sConfig font :=
  match options with
  | [] => (Normal [], cfg)
  | option :: rest =>
    match textSvg option cfg with
    | (Normal r, cfg) =>
      let '(rs, cfg) := textSvg_all rest cfg in
      ((λ rs, r :: rs) <$> rs, cfg)
    | (Throw e, cfg) => (Throw e, cfg)
    end
  end.

(** ** Lemmas *)

Lemma textSvg_config option cfg :
  (textSvg option cfg).2 = (getT2s loadSync cfg).2.
Proof. unfold textSvg. by destruct (getT2s loadSync cfg). Qed.

Lemma textSvg_Normal option cfg r cfg' :
  textSvg option cfg = (Normal r, cfg') →
  ∃ t2s, getT2s loadSync cfg = (Normal t2s, cfg') ∧
         r = measure (svg_strokeSize option)
               (getSVG t2s (svg_text option) (request option)).
Proof.
  unfold textSvg. destruct (getT2s loadSync cfg) as [[t2s|e] c]; [|done].
  intros [= <- <-]. eauto.
Qed.

(** After a call that returned, the font is cached: the next call gets the
    same font and leaves the cache as it is. *)
Lemma textSvg_hit option option' cfg r cfg' :
  textSvg option cfg = (Normal r, cfg') →
  ∃ t2s, getT2s loadSync cfg' = (Normal t2s, cfg') ∧
    textSvg option' cfg' =
      (Normal (measure (svg_strokeSize option')
                 (getSVG t2s (svg_text option') (request option'))), cfg').
Proof.
  intros (t2s & Hg & _)%textSvg_Normal. exists t2s.
  apply getT2s_again in Hg. split; [done|]. unfold textSvg. by rewrite Hg.
Qed.

(** ** Theorems *)

(** The width [textSvg] reports is the integer the SVG declares plus
    the stroke size, its height the integer the SVG declares; both are NaN
    when the SVG declares none. *)
Theorem measure_size strokeSize svg :
  Layout.width (measure strokeSize svg) =
    add (parseInt (match_digits width_attr svg)) strokeSize ∧
  Layout.height (measure strokeSize svg) =
    parseInt (match_digits height_attr svg).
Proof. done. Qed.

(** C34: in a state of the font cache where the instance, when present, is
    the font of [loadedFontfile] ([cache_ok], which every reachable state
    satisfies), [textSvg] throws exactly when the font fails to load, with
    the loader's error.  [getSVG] is a total function here: the font
    library is taken not to throw. *)
Theorem textSvg_throws option cfg e :
  cache_ok loadSync cfg →
  ((textSvg option cfg).1 = Throw e ↔ loadSync (fontfile cfg) = Throw e).
Proof.
  intros Hok. unfold textSvg.
  destruct (loadSync (fontfile cfg)) as [f|e'] eqn:Hl.
  - by rewrite (getT2s_loaded _ _ _ Hok Hl).
  - rewrite (getT2s_failed _ _ _ Hok Hl). simpl. by split; intros [= ->].
Qed.

(** Mapping [textSvg] over the options gives one rendered line per
    option when it returns. *)
Theorem textSvg_all_length options cfg rs cfg' :
  textSvg_all options cfg = (Normal rs, cfg') → length rs = length options.
Proof.
  revert cfg rs. induction options as [|o rest IH]; intros cfg rs; simpl.
  { by intros [= <- <-]. }
  destruct (textSvg o cfg) as [[r|e] c]; [|done].
  destruct (textSvg_all rest c) as [[rs'|e] c'] eqn:Hrest; [|done].
  simpl. intros [= <- <-]. simpl. f_equal. eauto.
Qed.

End renderer.

(** ** A sample font library

    Every character is 60 wide and a line is 108 high; the SVG declares
    both, as the font library's output does. *)

Definition sample_getSVG (t2s text : jsstring) (req : svg_request) : jsstring :=
  str "<svg " ++ width_attr ++ decimal (60 * N.of_nat (length text)) ++ [34]
  ++ str " " ++ height_attr ++ str "108" ++ [34] ++ str ">" ++ text
  ++ str "</svg>".

Definition sample_option (s : string) : SvgOption :=
  mkSvgOption (str s) (str "red") (str "#fcf88d") (of_Z 12) (of_Z 108).

(** The line "hello": 300 wide, reported 312 with the stroke, and the SVG
    patched to declare 312. *)
Example textSvg_hello :
  (textSvg sample_loadSync sample_getSVG
     (sample_option "hello") sample_init).1 =
  Normal (Rendered (of_Z 312) (of_Z 108)
            (str "<svg " ++ width_attr ++ str "312" ++ [34] ++ str " "
             ++ height_attr ++ str "108" ++ [34] ++ str ">hello</svg>")).
Proof. vm_compute. reflexivity. Qed.

Lemma textSvg_throws_witness :
  (textSvg sample_loadSync sample_getSVG (sample_option "hello")
     (setFont (str "missing.ttf") sample_init)).1 = Throw Error
  ↔ sample_loadSync (fontfile (setFont (str "missing.ttf") sample_init)) = Throw Error.
Proof.
  apply (textSvg_throws sample_loadSync sample_getSVG).
  apply cache_ok_setFont, cache_ok_init.
Defined.

Lemma textSvg_all_length_witness :
  length [Rendered (of_Z 72) (of_Z 108)
            (str "<svg " ++ width_attr ++ str "72" ++ [34] ++ str " "
             ++ height_attr ++ str "108" ++ [34] ++ str ">a</svg>")]
  = length [sample_option "a"].
Proof.
  apply (textSvg_all_length sample_loadSync sample_getSVG _
           sample_init _ (loaded sample_init (str "assets/font.ttf"))).
  vm_compute. reflexivity.
Defined.

