(* ===== verification/StringMatch.v ===== *)
(** * Matching and replacing in a string

    [textSvg] finds the declared width with a regular expression and then
    replaces the text it found.  The lemmas here relate the two: after the
    digits captured by [/name(\d+)/] are replaced by other digits, the same
    expression captures the new digits at the same place, and an
    expression for another name is not disturbed. *)

From stdpp Require Import numbers.
From S2P Require Import Prelude JsString.

#[local] Open Scope N_scope.

(** What [/name(\d+)/] captures when it matches at the start of [s]. *)
Definition match_here (name s : jsstring) : option jsstring :=
  match strip_prefix name s with
  | Some rest =>
    match leading_digits rest with
    | [] => None
    | ds => Some ds
    end
  | None => None
  end.

Lemma match_digits_unfold name s :
  match_digits name s =
    match match_here name s, s with
    | Some ds, _ => Some ds
    | None, [] => None
    | None, _ :: tl => match_digits name tl
    end.
Proof. by destruct s. Qed.

Lemma match_digits_skip name c s :
  match_here name (c :: s) = None → match_digits name (c :: s) = match_digits name s.
Proof. intros H. by rewrite match_digits_unfold, H. Qed.

(** ** Prefixes *)

Lemma strip_prefix_app_l p u x :
  (length p ≤ length u)%nat → strip_prefix p (u ++ x) = (.++ x) <$> strip_prefix p u.
Proof.
  revert u. induction p as [|a p IH]; intros [|b u] Hlen; simpl in *; try done; [lia|].
  case_bool; [|done]. apply IH. lia.
Qed.

(** The digits a string starts with end at its first character that is
    not a digit. *)
Lemma leading_digits_stop w q x :
  is_digit q = false → leading_digits (w ++ q :: x) = leading_digits (w ++ [q]).
Proof.
  intros Hq. induction w as [|c w IH]; simpl; [by rewrite Hq|].
  destruct (is_digit c); [by rewrite IH|done].
Qed.

(** A match that starts in a text ending with a character that is not a
    digit does not depend on what follows the text. *)
Lemma match_here_app name u q x y :
  is_digit q = false → (length name ≤ length (u ++ [q]))%nat →
  strip_prefix name (u ++ [q]) ≠ Some [] →
  match_here name (u ++ q :: x) = match_here name (u ++ q :: y).
Proof.
  intros Hq Hlen Hne. unfold match_here.
  replace (u ++ q :: x) with ((u ++ [q]) ++ x) by (by rewrite <-app_assoc).
  replace (u ++ q :: y) with ((u ++ [q]) ++ y) by (by rewrite <-app_assoc).
  rewrite (strip_prefix_app_l name (u ++ [q]) x), (strip_prefix_app_l name (u ++ [q]) y)
    by done.
  destruct (strip_prefix name (u ++ [q])) as [v|] eqn:Hp; [|done]. simpl.
  apply strip_prefix_Some in Hp.
  destruct (exists_last (l := v)) as (w & q' & ->); [by intros ->|].
  rewrite app_assoc in Hp. apply app_inj_tail in Hp as [_ <-].
  rewrite <-!app_assoc. simpl.
  by rewrite (leading_digits_stop w q x), (leading_digits_stop w q y).
Qed.

(** ** The match after the replacement *)

Lemma match_here_Some name s ds :
  match_here name s = Some ds →
  ∃ post, s = name ++ ds ++ post ∧ leading_digits post = [] ∧ ds ≠ [] ∧
    Forall (λ c, is_digit c = true) ds.
Proof.
  unfold match_here. destruct (strip_prefix name s) as [rest|] eqn:Hp; [|done].
  destruct (leading_digits_split rest) as (post & Hrest & Hpost).
  pose proof (leading_digits_all rest) as Hall.
  destruct (leading_digits rest) as [|d ds'] eqn:Hd; [done|]. intros [= <-].
  exists post. apply strip_prefix_Some in Hp. by rewrite Hp, Hrest.
Qed.

Lemma match_here_digits name ds post :
  ds ≠ [] → Forall (λ c, is_digit c = true) ds → leading_digits post = [] →
  match_here name (name ++ ds ++ post) = Some ds.
Proof.
  intros Hne Hds Hpost. unfold match_here.
  rewrite strip_prefix_app, leading_digits_app by done. by destruct ds.
Qed.

(** After the captured digits are replaced by the digits [ds'], the
    expression captures [ds']. *)
Lemma match_digits_patched name s ds ds' :
  name ≠ [] → Forall (λ c, is_digit c = false) name →
  match_digits name s = Some ds →
  ds' ≠ [] → Forall (λ c, is_digit c = true) ds' →
  match_digits name (replace_first (name ++ ds) (name ++ ds') s) = Some ds'.
Proof.
  intros Hname Hnd H Hne' Hds'. induction s as [|c s IH].
  { rewrite match_digits_unfold in H.
    destruct (match_here name []) eqn:Eh; [|done].
    apply match_here_Some in Eh as (post & Hs & _). by destruct name. }
  rewrite match_digits_unfold in H. destruct (match_here name (c :: s)) as [ds0|] eqn:Eh.
  - injection H as ->. apply match_here_Some in Eh as (post & -> & Hpost & Hne & Hds).
    rewrite (replace_first_prefix _ _ _ post)
      by (rewrite (app_assoc name ds post); apply strip_prefix_app).
    rewrite match_digits_unfold, <-app_assoc.
    rewrite match_here_digits by done. done.
  - destruct (match_digits_Some _ _ _ H) as (Hne & Hds & pre & post & -> & Hpost & Hrep).
    rewrite replace_first_cons, Hrep.
    2:{ apply strip_prefix_no_digits; [done..|]. unfold match_here in Eh.
        destruct (strip_prefix name _); [|done]. by destruct (leading_digits _). }
    specialize (IH H). rewrite Hrep in IH.
    destruct (exists_last (l := name)) as (n' & q & ->); [done|].
    apply Forall_app in Hnd as [_ Hq]. rewrite Forall_singleton in Hq.
    rewrite match_digits_skip; [done|].
    rewrite <-Eh, <-!app_assoc, !app_comm_cons, !(app_assoc _ n'). simpl.
    apply (match_here_app _ (c :: pre ++ n') q);
      [done|simpl; rewrite !length_app; simpl; lia|].
    intros Hp%strip_prefix_Some. apply (f_equal length) in Hp.
    simpl in Hp. rewrite !length_app in Hp. simpl in Hp. lia.
Qed.
