(* ===== verification/RendererExact.v ===== *)
(** * [textSvg] on an SVG that declares its size

    The font library returns an SVG whose text declares the width and the
    height in decimal.  For such an SVG [measure] reads the two integers,
    reports the width plus the stroke size, and replaces the declared width
    at the place where it was read.  The result is a rendered line with
    integer sizes, as the exact layout of [LayoutExact] takes them. *)

From Stdlib Require Import String QArith Qreduction SpecFloat DecimalPos DecimalN.
From stdpp Require Import numbers.
From S2P Require Import Prelude JsString JsNumber Rounding SafeInteger Options FontCache Layout LayoutExact NumberToString Renderer StringMatch.

#[local] Open Scope N_scope.

(** ** Decimal digits *)

(** The digits of a decimal numeral read from the left, after [acc]. *)
Lemma foldl_uint_units d acc :
  foldl (λ acc c, 10 * acc + (c - 48)) acc (uint_units d) =
    Unsigned.of_lu (Decimal.rev d) + acc * 10 ^ Unsigned.usize d.
Proof.
  revert acc. induction d as [|d IH|d IH|d IH|d IH|d IH|d IH|d IH|d IH|d IH|d IH];
    intros acc; [simpl; rewrite N.pow_0_r; lia|..];
    cbn [uint_units foldl Unsigned.usize]; rewrite IH; set (r := Decimal.rev d);
    unfold Decimal.rev; cbn [Decimal.revapp]; rewrite (Unsigned.of_lu_revapp d);
    subst r; cbn [Unsigned.of_lu]; rewrite N.pow_succ_r'; lia.
Qed.

(** Printing then reading a natural number gives it back. *)
Lemma digits_value_decimal n : digits_value (decimal n) = n.
Proof.
  unfold digits_value, decimal. rewrite foldl_uint_units, N.mul_0_l, N.add_0_r.
  rewrite <-Unsigned.of_uint_alt. apply DecimalN.Unsigned.of_to.
Qed.

#[local] Open Scope Z_scope.

(** ** Integers as strings *)

Lemma Qred_inject_Z n : Qred (inject_Z n) = inject_Z n.
Proof.
  unfold Qred, inject_Z. pose proof (Z.ggcd_gcd n 1) as Hg.
  pose proof (Z.ggcd_correct_divisors n 1) as Hd.
  destruct (Z.ggcd n 1) as [g [q1 q2]]. simpl in *.
  rewrite Z.gcd_1_r in Hg. subst g. destruct Hd as [-> Hq2].
  assert (q2 = 1) as -> by lia. f_equal. lia.
Qed.

Lemma integer_value_of_Z n : safe n → integer_value (of_Z n) = Some n.
Proof.
  intros Hn.
  destruct (value_cases _ _ (of_Z_value n Hn))
    as [(s & -> & E)|(s & m & e & -> & _ & E & _)]; simpl.
  - f_equal. symmetry. by apply inject_Z_eq0.
  - by rewrite (Qred_complete _ _ E), Qred_inject_Z.
Qed.

(** A safe integer that is not negative prints as its decimal digits. *)
Lemma Number_toString_of_Z n :
  safe n → 0 ≤ n → Number_toString (of_Z n) = decimal (Z.to_N n).
Proof.
  intros Hn H0. pose proof (integer_value_of_Z n Hn) as Hi.
  pose proof (sign_of_Z n Hn) as Hs. rewrite bool_decide_false in Hs by lia.
  destruct (value_cases _ _ (of_Z_value n Hn))
    as [(s & E & H)|(s & m & e & E & _)]; rewrite E in *.
  - by injection Hi as <-.
  - simpl in Hs. subst s. unfold Number_toString, positive_toString.
    rewrite Hi, bool_decide_true by (unfold safe in Hn; lia). done.
Qed.

Lemma parseInt_decimal n : parseInt (Some (decimal n)) = of_Z (Z.of_N n).
Proof. unfold parseInt. by rewrite digits_value_decimal. Qed.

(** ** The measured line *)

(** The SVG declares the width [w] and the height [h]: they are what the
    two regular expressions capture, in decimal. *)
Definition declares (svg : jsstring) (w h : N) : Prop :=
  match_digits width_attr svg = Some (decimal w) ∧
  match_digits height_attr svg = Some (decimal h).

(** For an SVG that declares the width [w] and the height [h] and a
    stroke size [s] that is a natural number, [textSvg] reports the width
    [w + s] and the height [h], and the SVG it returns is the SVG of the
    font with the digits of the declared width replaced, where they were
    read, by the digits of [w + s]. *)
Lemma measure_patch svg (w h s : N) :
  declares svg w h → safe (Z.of_N w) → safe (Z.of_N h) → safe (Z.of_N (w + s)) →
  ∃ pre post, svg = pre ++ width_attr ++ decimal w ++ post ∧
    measure (of_Z (Z.of_N s)) svg =
      to_rendered (LineBox (Z.of_N (w + s)) (Z.of_N h)
                     (pre ++ (width_attr ++ decimal (w + s)) ++ post)).
Proof.
  intros [Hw Hh] Sw Sh Sws.
  destruct (match_digits_Some _ _ _ Hw) as (_ & _ & pre & post & Hsvg & _ & Hrep).
  exists pre, post. split; [done|]. unfold measure, to_rendered, box. simpl.
  rewrite Hw, Hh, !parseInt_decimal.
  assert (safe (Z.of_N s)) by (unfold safe in *; lia).
  rewrite add_of_Z, <-N2Z.inj_add by done.
  rewrite !Number_toString_of_Z, !N2Z.id by (done || lia).
  by rewrite Hrep.
Qed.

(** ** The patched SVG *)

Lemma uint_units_digits d : Forall (λ c, is_digit c = true) (uint_units d).
Proof. induction d; simpl; by constructor. Qed.

Lemma decimal_digits n : Forall (λ c, is_digit c = true) (decimal n).
Proof. apply uint_units_digits. Qed.

Lemma decimal_nonempty n : decimal n ≠ [].
Proof.
  intros E. pose proof (digits_value_decimal n) as H. rewrite E in H.
  simpl in H. by subst n.
Qed.

(** No digit starts a match of the height attribute. *)
Lemma match_height_digits ds s :
  Forall (λ c, is_digit c = true) ds →
  match_digits height_attr (ds ++ s) = match_digits height_attr s.
Proof.
  induction 1 as [|d ds Hd _ IH]; [done|]. simpl app.
  rewrite match_digits_skip; [done|]. unfold match_here, height_attr. simpl.
  case_bool; [|done]. by subst d.
Qed.

(** No match of the height attribute starts in the text of the width
    attribute. *)
Lemma match_height_width s :
  match_digits height_attr (width_attr ++ s) = match_digits height_attr s.
Proof.
  unfold width_attr. simpl app. by repeat (rewrite match_digits_skip; [|by vm_compute]).
Qed.

(** Replacing the digits of the declared width leaves the match of the
    declared height as it is. *)
Lemma match_height_patched pre ds ds' post :
  Forall (λ c, is_digit c = true) ds → Forall (λ c, is_digit c = true) ds' →
  match_digits height_attr (pre ++ width_attr ++ ds ++ post) =
  match_digits height_attr (pre ++ width_attr ++ ds' ++ post).
Proof.
  intros Hds Hds'. induction pre as [|c pre IH].
  { by rewrite !app_nil_l, !match_height_width, !match_height_digits. }
  rewrite <-!app_comm_cons, !(match_digits_unfold _ (c :: _)).
  assert (match_here height_attr (c :: pre ++ width_attr ++ ds ++ post) =
          match_here height_attr (c :: pre ++ width_attr ++ ds' ++ post)) as ->.
  { change width_attr with (str "width=" ++ [34%N]).
    rewrite <-!(app_assoc (str "width=")), !(app_assoc pre), !app_comm_cons. simpl.
    apply (match_here_app _ (c :: pre ++ str "width=") 34); [done|..].
    - simpl. rewrite !length_app. simpl. lia.
    - intros Hp%strip_prefix_Some. destruct pre as [|c' pre]; [done|].
      apply (f_equal length) in Hp. simpl in Hp. rewrite !length_app in Hp.
      simpl in Hp. lia. }
  by rewrite IH.
Qed.

(** The SVG [textSvg] returns is the SVG of the font with the declared
    width replaced. *)
Lemma measure_replace svg (w h s : N) :
  declares svg w h → safe (Z.of_N w) → safe (Z.of_N (w + s)) →
  Layout.svg (measure (of_Z (Z.of_N s)) svg) =
    replace_first (width_attr ++ decimal w) (width_attr ++ decimal (w + s)) svg.
Proof.
  intros [Hw Hh] Sw Sws. unfold measure. cbn [Layout.svg].
  rewrite Hw, !parseInt_decimal.
  assert (safe (Z.of_N s)) by (unfold safe in *; lia).
  rewrite add_of_Z, <-N2Z.inj_add by done.
  by rewrite !Number_toString_of_Z, !N2Z.id by (done || lia).
Qed.

(** The SVG [textSvg] returns declares the width it reports: the two
    regular expressions read from it the patched width and the height. *)
Lemma measure_declares svg (w h s : N) :
  declares svg w h → safe (Z.of_N w) → safe (Z.of_N (w + s)) →
  declares (Layout.svg (measure (of_Z (Z.of_N s)) svg)) (w + s) h.
Proof.
  intros Hd Sw Sws. pose proof Hd as [Hw Hh].
  rewrite (measure_replace svg w h s) by done. split.
  - apply match_digits_patched;
      [done|by repeat constructor|done|apply decimal_nonempty|apply decimal_digits].
  - destruct (match_digits_Some _ _ _ Hw) as (_ & _ & pre & post & Hsvg & _ & Hrep).
    rewrite Hrep, <-Hh, Hsvg, <-app_assoc.
    apply match_height_patched; apply decimal_digits.
Qed.

(** C18: for an SVG that declares the width [w] and the height [h] and a
    stroke size [s] that is a natural number, all three below 2^53,
    [textSvg] reports the integer width [w + s] and the height [h], and the
    SVG it returns is the SVG of the font with the digits of the declared
    width replaced, where they were read, by the digits of [w + s]. *)
Theorem measure_declared svg (w h s : N) :
  declares svg w h → safe (Z.of_N w) → safe (Z.of_N h) → safe (Z.of_N (w + s)) →
  ∃ pre post, svg = pre ++ width_attr ++ decimal w ++ post ∧
    width (measure (of_Z (Z.of_N s)) svg) = of_Z (Z.of_N w + Z.of_N s) ∧
    height (measure (of_Z (Z.of_N s)) svg) = of_Z (Z.of_N h) ∧
    Layout.svg (measure (of_Z (Z.of_N s)) svg)
      = pre ++ (width_attr ++ decimal (w + s)) ++ post.
Proof.
  intros Hd Sw Sh Sws.
  destruct (measure_patch svg w h s Hd Sw Sh Sws) as (pre & post & Hsvg & ->).
  exists pre, post. split; [done|]. unfold to_rendered, box. simpl.
  by rewrite N2Z.inj_add.
Qed.

(** C19: the rendered line is consistent.  For an SVG that declares the
    width [w] and the height [h] and a stroke size [s] that is a natural
    number, the SVG [textSvg] returns declares the width [w + s] and the
    height [h]: the two regular expressions of [textSvg], applied to the
    SVG returned, read the width and the height that are reported beside
    it. *)
Theorem measure_consistent svg (w h s : N) :
  declares svg w h → safe (Z.of_N w) → safe (Z.of_N h) → safe (Z.of_N (w + s)) →
  let r := measure (of_Z (Z.of_N s)) svg in
  declares (Layout.svg r) (w + s) h ∧
  parseInt (match_digits width_attr (Layout.svg r)) = width r ∧
  parseInt (match_digits height_attr (Layout.svg r)) = height r.
Proof.
  intros Hd Sw Sh Sws r. subst r.
  pose proof (measure_declares svg w h s Hd Sw Sws) as Hr.
  split; [done|]. destruct Hr as [-> ->]. rewrite !parseInt_decimal.
  destruct (measure_patch svg w h s Hd Sw Sh Sws) as (pre & post & _ & ->).
  done.
Qed.

Lemma measure_declared_witness :
  let svg := sample_getSVG [] (str "hello") (request (sample_option "hello")) in
  ∃ pre post, svg = pre ++ width_attr ++ decimal 300 ++ post ∧
    width (measure (of_Z (Z.of_N 12)) svg) = of_Z (Z.of_N 300 + Z.of_N 12) ∧
    height (measure (of_Z (Z.of_N 12)) svg) = of_Z (Z.of_N 108) ∧
    Layout.svg (measure (of_Z (Z.of_N 12)) svg)
      = pre ++ (width_attr ++ decimal (300 + 12)) ++ post.
Proof.
  intros svg. apply (measure_declared svg 300 108 12); try done.
Defined.

Lemma measure_consistent_witness :
  let svg := sample_getSVG [] (str "hello") (request (sample_option "hello")) in
  let r := measure (of_Z (Z.of_N 12)) svg in
  declares (Layout.svg r) (300 + 12) 108 ∧
  parseInt (match_digits width_attr (Layout.svg r)) = width r ∧
  parseInt (match_digits height_attr (Layout.svg r)) = height r.
Proof.
  intros svg. apply (measure_consistent svg 300 108 12); try done.
Defined.

(** ** A stroke size that is not an integer *)

(** C39: [textSvg] with any stroke size.  For an SVG whose first match of
    the width expression captures the digits of [w] and a stroke size [s]
    that is any Number, a fraction, a negative Number or NaN included, the
    width reported is the Number [w + s], and the SVG returned is the SVG
    of the font with the digits captured, and nothing else, replaced by the
    string of that Number: the text [post] that follows the digits, which
    begins with no digit, is kept as it is.  So a fraction that the font
    declares after the digits stays behind the new width, and a width
    [w + s] that is no integer is written with its own fraction in front
    of it. *)
Theorem measure_stroke svg (w h : N) (s : number) :
  declares svg w h → safe (Z.of_N w) →
  ∃ pre post, svg = pre ++ width_attr ++ decimal w ++ post ∧
    leading_digits post = [] ∧
    measure s svg =
      Rendered (add (of_Z (Z.of_N w)) s) (of_Z (Z.of_N h))
        (pre ++ (width_attr ++ Number_toString (add (of_Z (Z.of_N w)) s)) ++ post).
Proof.
  intros [Hw Hh] Sw.
  destruct (match_digits_Some _ _ _ Hw) as (_ & _ & pre & post & Hsvg & Hpost & Hrep).
  exists pre, post. split_and!; [done..|]. unfold measure.
  rewrite Hw, Hh, !parseInt_decimal.
  by rewrite Number_toString_of_Z, N2Z.id, Hrep by (done || lia).
Qed.

(** The font declares the width 852.1875 and the stroke size is 1.5: the
    width reported is 853.5 and the SVG returned declares the text
    853.5.1875, which is no number. *)
Lemma measure_stroke_witness :
  let svg := str "<svg " ++ width_attr ++ str "852.1875" ++ [34%N] ++ str " "
             ++ height_attr ++ str "108" ++ [34%N] ++ str ">" in
  ∃ pre post, svg = pre ++ width_attr ++ decimal 852 ++ post ∧
    leading_digits post = [] ∧
    measure (div (of_Z 3) two) svg =
      Rendered (add (of_Z (Z.of_N 852)) (div (of_Z 3) two)) (of_Z (Z.of_N 108))
        (pre ++ (width_attr
                 ++ Number_toString (add (of_Z (Z.of_N 852)) (div (of_Z 3) two)))
             ++ post).
Proof. intros svg. by apply (measure_stroke svg 852 108). Defined.

Example measure_fractional_stroke :
  let svg := str "<svg " ++ width_attr ++ str "852.1875" ++ [34%N] ++ str " "
             ++ height_attr ++ str "108" ++ [34%N] ++ str ">" in
  measure (div (of_Z 3) two) svg =
    Rendered (div (of_Z 1707) two) (of_Z 108)
      (str "<svg " ++ width_attr ++ str "853.5.1875" ++ [34%N] ++ str " "
       ++ height_attr ++ str "108" ++ [34%N] ++ str ">").
Proof. by vm_compute. Qed.
