(* ===== verification/Api.v ===== *)
(** * The public operations: [custom], [xibao], [beibao]
    (src/index.js, lines 21-28 and 217-272)

    [custom] normalises the text, renders every line with [textSvg] and
    lays the lines out with [generateImage]; [xibao] and [beibao] are
    [custom] on the two bundled backgrounds.  The arguments of the call to
    [generateImage] are evaluated first, so an exception of
    [parseTextOption] or of the font loader is the exception of [custom].
    [resolve_asset] stands for [resolve(__dirname, ...)]. *)

From Stdlib Require Import String.
From S2P Require Import Prelude JsString JsNumber LineSplitter Layout Options FontCache Renderer.

(** ** The presets *)

Definition xibaoSize : size := Size (of_Z 1292) (of_Z 968).
Definition beibaoSize : size := Size (of_Z 1300) (of_Z 974).

(** The default styles of the two presets. *)
Definition xibao_config : TextConfig :=
  mkTextConfig (Some (str "red")) (Some (str "#fcf88d"))
               (Some (of_Z 12)) (Some (of_Z 108)).
Definition beibao_config : TextConfig :=
  mkTextConfig (Some (str "#2d2d2d")) (Some (str "white"))
               (Some (of_Z 12)) (Some (of_Z 108)).

(** The argument of [custom]. *)
Record background_options := mkBackground {
  path : jsstring;
  bg_width : number;
  bg_height : number
}.

Record custom_options := mkCustom {
  opt_background : background_options;
  opt_textOrTexts : textOrTexts;
  opt_defaultConfig : option TextConfig;
  opt_lineSpace : option number
}.

Section api.
Context {font : Type}.
Context (loadSync : jsstring → completion font).
Context (getSVG : font → jsstring → svg_request → jsstring).
Context (resolve_asset : jsstring → jsstring).

#[local] Abbreviation textSvg_all := (textSvg_all loadSync getSVG).
#[local] Abbreviation getT2s := (getT2s loadSync).

(** [custom]: the image and the font cache after the call. *)
Definition custom (options : custom_options) (cfg : t2sConfig font)
  : completion image * t2sConfig font :=
  let background := opt_background options in
  let lineSpace := default (of_Z 16) (opt_lineSpace options) in
  match parseTextOption (opt_textOrTexts options) (opt_defaultConfig options) with
  | Throw e => (Throw e, cfg)
  | Normal confs =>
    let '(svgs, cfg) := textSvg_all confs cfg in
    (svgs ≫= λ svgs : list rendered,
       mret (generateImage (path background)
               (Size (bg_width background) (bg_height background))
               svgs lineSpace),
     cfg)
  end.

Definition xibao (t : textOrTexts) : t2sConfig font → completion image * t2sConfig font :=
  custom {| opt_background :=
              {| path := resolve_asset (str "assets/xibao.webp");
                 bg_width := size_width xibaoSize;
                 bg_height := size_height xibaoSize |};
            opt_textOrTexts := t;
            opt_defaultConfig := Some xibao_config;
            opt_lineSpace := Some (of_Z 16) |}.

Definition beibao (t : textOrTexts) : t2sConfig font → completion image * t2sConfig font :=
  custom {| opt_background :=
              {| path := resolve_asset (str "assets/beibao.webp");
                 bg_width := size_width beibaoSize;
                 bg_height := size_height beibaoSize |};
            opt_textOrTexts := t;
            opt_defaultConfig := Some beibao_config;
            opt_lineSpace := Some (of_Z 16) |}.

(** ** One font for all lines *)

(** The rendered line of an option with a given font. *)
Definition render (t2s : font) (conf : SvgOption) : rendered :=
  measure (svg_strokeSize conf)
    (getSVG t2s (svg_text conf) (request conf)).

Lemma textSvg_all_hit confs cfg t2s :
  getT2s cfg = (Normal t2s, cfg) →
  textSvg_all confs cfg = (Normal (render t2s <$> confs), cfg).
Proof.
  intros Hg. induction confs as [|conf rest IH]; simpl; [done|].
  unfold textSvg. rewrite Hg. simpl. by rewrite IH.
Qed.

(** The map over a non-empty list: one call of [getT2s] decides. *)
Lemma textSvg_all_cons conf rest cfg :
  textSvg_all (conf :: rest) cfg =
    match getT2s cfg with
    | (Normal t2s, cfg') => (Normal (render t2s <$> conf :: rest), cfg')
    | (Throw e, cfg') => (Throw e, cfg')
    end.
Proof.
  simpl. unfold textSvg. destruct (getT2s cfg) as [[t2s|e] cfg'] eqn:Hg; [|done].
  simpl. by rewrite (textSvg_all_hit rest cfg' t2s) by by eapply getT2s_again.
Qed.

(** [custom] when there is a line to draw: the font is obtained once. *)
Lemma custom_Normal options cfg conf rest :
  cache_ok loadSync cfg →
  parseTextOption (opt_textOrTexts options) (opt_defaultConfig options)
    = Normal (conf :: rest) →
  custom options cfg =
    match loadSync (fontfile cfg) with
    | Throw e => (Throw e, cfg)
    | Normal t2s =>
      (Normal (generateImage (path (opt_background options))
                 (Size (bg_width (opt_background options))
                       (bg_height (opt_background options)))
                 (render t2s <$> conf :: rest)
                 (default (of_Z 16) (opt_lineSpace options))),
       loaded cfg t2s)
    end.
Proof.
  intros Hok Hp. unfold custom. rewrite Hp, textSvg_all_cons.
  destruct (loadSync (fontfile cfg)) as [t2s|e] eqn:Hl.
  - by rewrite (getT2s_loaded _ _ _ Hok Hl).
  - by rewrite (getT2s_failed _ _ _ Hok Hl).
Qed.

(** ** Theorems *)

(** C13: what [custom] does, case by case, in a state of the font cache
    where the instance, when present, is the font of [loadedFontfile]
    ([cache_ok], which every reachable state satisfies).  An exception of
    [parseTextOption] is the result and the font is not touched.  With no
    line to draw the image has no overlay and the font is not loaded.
    Otherwise the font of the configured file is obtained once (from the
    cache or the loader): its error is the result, or every line is rendered
    with that font and laid out on the background. *)
Theorem custom_cases options cfg :
  cache_ok loadSync cfg →
  let sz := Size (bg_width (opt_background options)) (bg_height (opt_background options)) in
  let lineSpace := default (of_Z 16) (opt_lineSpace options) in
  let bg := path (opt_background options) in
  custom options cfg =
    match parseTextOption (opt_textOrTexts options) (opt_defaultConfig options) with
    | Throw e => (Throw e, cfg)
    | Normal [] => (Normal (generateImage bg sz [] lineSpace), cfg)
    | Normal confs =>
      match loadSync (fontfile cfg) with
      | Throw e => (Throw e, cfg)
      | Normal t2s =>
        (Normal (generateImage bg sz (render t2s <$> confs) lineSpace),
         loaded cfg t2s)
      end
    end.
Proof.
  intros Hok sz lineSpace bg.
  destruct (parseTextOption _ _) as [[|conf rest]|e] eqn:Hp;
    [| by apply custom_Normal |]; unfold custom; by rewrite Hp.
Qed.

(** C40: [xibao] on a string of white space without line feed, the empty
    string included, rejects with a TypeError and leaves the font cache
    untouched, where the specification promises the unmodified
    background. *)
Theorem xibao_blank_throws text cfg :
  includes_LF text = false → Forall (λ c, is_whitespace c = true) text →
  xibao (OneText text) cfg = (Throw TypeError, cfg).
Proof.
  intros HLF Hws. unfold xibao, custom. cbn [opt_textOrTexts opt_defaultConfig].
  by rewrite (parseTextOption_blank text _ HLF Hws).
Qed.

(** C33: when the font loads, [xibao] on an array of lines returns an image
    on the xibao background with one overlay per line, in the order of the
    lines. *)
Theorem xibao_texts l cfg t2s :
  cache_ok loadSync cfg → loadSync (fontfile cfg) = Normal t2s →
  ∃ img cfg', xibao (Texts l) cfg = (Normal img, cfg') ∧
    background img = resolve_asset (str "assets/xibao.webp") ∧
    overlay_svg <$> composites img =
      (λ t, svg (render t2s (complete xibao_config (to_option t)))) <$> l.
Proof.
  intros Hok Hl. destruct l as [|t l]; [by eexists _, _|].
  unfold xibao.
  rewrite (custom_Normal _ _ (complete xibao_config (to_option t))
             (complete xibao_config <$> (to_option <$> l))) by done.
  rewrite Hl.
  eexists _, _. split; [done|]. split; [done|].
  cbn [composites]. rewrite generateImage_composites, placed_svgs.
  simpl. f_equal. rewrite <-!list_fmap_compose. by apply list_fmap_ext.
Qed.

End api.

(** ** The pipeline on the sample font library *)

Definition sample_xibao :=
  xibao sample_loadSync sample_getSVG (λ p, str "/pkg/" ++ p).

Definition sample_render := render sample_getSVG (str "assets/font.ttf").

Lemma custom_cases_witness :
  let options :=
    mkCustom (mkBackground (str "bg.png") (of_Z 1000) (of_Z 1000))
             (Texts [TextString (str "ab"); TextString (str "cd")]) None None in
  custom sample_loadSync sample_getSVG options sample_init =
    match parseTextOption (opt_textOrTexts options) (opt_defaultConfig options) with
    | Throw e => (Throw e, sample_init)
    | Normal [] =>
      (Normal (generateImage (str "bg.png") (Size (of_Z 1000) (of_Z 1000)) []
                 (default (of_Z 16) None)), sample_init)
    | Normal confs =>
      match sample_loadSync (fontfile sample_init) with
      | Throw e => (Throw e, sample_init)
      | Normal t2s =>
        (Normal (generateImage (str "bg.png") (Size (of_Z 1000) (of_Z 1000))
                   (render sample_getSVG t2s <$> confs)
                   (default (of_Z 16) None)),
         loaded sample_init t2s)
      end
    end.
Proof.
  intros options.
  apply (custom_cases sample_loadSync sample_getSVG options sample_init).
  apply cache_ok_init.
Defined.

Lemma xibao_texts_witness :
  let l := [TextString (str "ab"); TextString (str "cd")] in
  ∃ img cfg', sample_xibao (Texts l) sample_init = (Normal img, cfg') ∧
    background img = str "/pkg/" ++ str "assets/xibao.webp" ∧
    overlay_svg <$> composites img =
      (λ t, svg (sample_render (complete xibao_config (to_option t)))) <$> l.
Proof.
  intros l.
  apply (xibao_texts sample_loadSync sample_getSVG _ l sample_init).
  - apply cache_ok_init.
  - reflexivity.
Defined.

(** The text "ABCDEFGHIJKLMNOPQR": split in two lines of 16 and 2
    characters, rebalanced to 14 and 4, rendered 852 and 252 wide, centred
    on the 1292 by 968 canvas: lefts 220 and 520, tops 368 and 492. *)
Example xibao_two_lines :
  (λ img, (λ o, (left o, top o)) <$> composites img) <$>
    (sample_xibao (OneText (str "ABCDEFGHIJKLMNOPQR")) sample_init).1
  = Normal [(of_Z 220, of_Z 368); (of_Z 520, of_Z 492)].
Proof. vm_compute. reflexivity. Qed.

Lemma xibao_blank_throws_witness :
  sample_xibao (OneText (str "   ")) sample_init = (Throw TypeError, sample_init).
Proof.
  apply (xibao_blank_throws sample_loadSync sample_getSVG);
    [done|repeat constructor].
Defined.
