(* ===== verification/EndToEnd.v ===== *)
(** * From the text to the overlays

    [custom] composed with the exact results of its parts: when the font
    loads, every SVG of the font declares its size, and the lines with
    their strokes fit the canvas, the image [custom] returns is the
    reference layout of the measured lines; whatever the sizes of the
    lines, every overlay of the image lies within the canvas. *)

From Stdlib Require Import String.
From S2P Require Import Prelude JsString JsNumber Rounding SafeInteger LineSplitter Layout LayoutExact LayoutFit LayoutScaled Options FontCache Renderer RendererExact Api.

#[local] Open Scope Z_scope.

Section end_to_end.
Context {font : Type}.
Context (loadSync : jsstring → completion font).
Context (getSVG : font → jsstring → svg_request → jsstring).

#[local] Abbreviation render := (render getSVG).
#[local] Abbreviation custom := (custom loadSync getSVG).

(** The line of the option [conf] is measured as the box [b]: the SVG of
    the font declares a width and a height, the stroke size is a natural
    number, the box is as wide as the declared width plus the stroke, as
    high as the declared height, and holds the patched SVG. *)
Definition measured_as (t2s : font) (conf : SvgOption) (b : line_box) : Prop :=
  ∃ w h s : N,
    svg_strokeSize conf = of_Z (Z.of_N s) ∧
    declares (getSVG t2s (svg_text conf) (request conf)) w h ∧
    box_width b = Z.of_N (w + s) ∧ box_height b = Z.of_N h ∧
    box_svg b = svg (render t2s conf).

(** A measured line is the rendered line of its box. *)
Lemma render_box t2s conf b :
  safe (box_width b) → safe (box_height b) →
  measured_as t2s conf b → render t2s conf = to_rendered b.
Proof.
  intros Sw Sh (w & h & s & Hs & Hd & Ew & Eh & Esvg).
  unfold Api.render in *. rewrite Hs in *.
  destruct (measure_patch _ w h s Hd) as (pre & post & _ & Hm);
    [unfold safe in *; lia..|].
  rewrite Hm in *. destruct b as [bw bh bsvg]. simpl in *. by subst.
Qed.

Lemma render_all_boxes t2s confs bs :
  Forall (λ b, safe (box_width b) ∧ safe (box_height b)) bs →
  Forall2 (measured_as t2s) confs bs → render t2s <$> confs = to_rendered <$> bs.
Proof.
  intros Hbs Hm. induction Hm as [|conf b confs bs Hb _ IH]; [done|].
  apply Forall_cons_1 in Hbs as [[Hw Hh] Hbs]. simpl. f_equal; [|by apply IH].
  by apply render_box.
Qed.

Lemma render_all_measured t2s confs bs W H L :
  0 ≤ H → 0 ≤ L → safe W → safe (H + L) → unscaled W H L bs →
  Forall2 (measured_as t2s) confs bs → render t2s <$> confs = to_rendered <$> bs.
Proof.
  intros HH HL SW SHL [Hfit _]. apply render_all_boxes.
  eapply Forall_impl; [done|]. unfold safe in *. intros b ?. simpl in *. lia.
Qed.

(** C9: from the options to the overlays.  When the font loads, the SVG of
    every line declares its size, and the measured lines fit the canvas,
    [custom] returns the reference layout of the measured lines on the
    background, and records the font as loaded. *)
Theorem custom_centred options cfg t2s conf confs bs bg W H L :
  cache_ok loadSync cfg → loadSync (fontfile cfg) = Normal t2s →
  parseTextOption (opt_textOrTexts options) (opt_defaultConfig options)
    = Normal (conf :: confs) →
  opt_background options = mkBackground bg (of_Z W) (of_Z H) →
  default (of_Z 16) (opt_lineSpace options) = of_Z L →
  0 ≤ W → 0 ≤ H → 0 ≤ L → safe W → safe (H + L) →
  Forall2 (measured_as t2s) (conf :: confs) bs → unscaled W H L bs →
  custom options cfg = (Normal (centred bg W H L bs), loaded cfg t2s).
Proof.
  intros Hok Hl Hp Hbg HL ? ? ? ? ? Hm Hfit.
  rewrite (custom_Normal _ _ _ _ _ _ Hok Hp), Hl, Hbg, HL.
  cbn [path bg_width bg_height].
  rewrite (render_all_measured t2s (conf :: confs) bs W H L) by done.
  by rewrite (generateImage_centred W H L).
Qed.

(** C10: from the options to the overlays, whatever is scaled.  When the
    font loads and the SVG of every line declares its size, for a canvas
    and lines whose sizes are positive integers below 2^51, [custom]
    returns an image with one overlay per line, each within the canvas. *)
Theorem custom_within options cfg t2s conf confs bs bg W H L :
  cache_ok loadSync cfg → loadSync (fontfile cfg) = Normal t2s →
  parseTextOption (opt_textOrTexts options) (opt_defaultConfig options)
    = Normal (conf :: confs) →
  opt_background options = mkBackground bg (of_Z W) (of_Z H) →
  default (of_Z 16) (opt_lineSpace options) = of_Z L →
  pixels W → pixels H → 0 ≤ L →
  Forall2 (measured_as t2s) (conf :: confs) bs →
  Forall (λ b, pixels (box_width b) ∧ pixels (box_height b)) bs →
  Z.of_nat (length bs) * (H + L) < 2 ^ 51 →
  ∃ img, custom options cfg = (Normal img, loaded cfg t2s) ∧
    background img = bg ∧ Forall2 (within W H) bs (composites img).
Proof.
  intros Hok Hl Hp Hbg HL HW HH HL0 Hm Hbs Hmax.
  rewrite (custom_Normal _ _ _ _ _ _ Hok Hp), Hl, Hbg, HL.
  cbn [path bg_width bg_height]. eexists. split; [done|].
  rewrite (render_all_boxes t2s (conf :: confs) bs); [|..|done].
  - split; [done|]. by apply generateImage_all_within.
  - eapply Forall_impl; [done|]. intros b []. auto using pixels_safe.
Qed.

End end_to_end.

(** The banner "ABCDEFGHIJKLMNOPQR" with the sample font: two lines of 14
    and 4 characters, 840 and 240 wide, 852 and 252 with the stroke. *)
Lemma custom_centred_witness :
  let options :=
    mkCustom (mkBackground (str "bg.webp") (of_Z 1292) (of_Z 968))
             (OneText (str "ABCDEFGHIJKLMNOPQR")) (Some xibao_config) None in
  let conf (s : string) := complete xibao_config (mkTextOption (str s) no_style) in
  let b (s : string) (w : Z) := LineBox w 108 (svg (sample_render (conf s))) in
  custom sample_loadSync sample_getSVG options sample_init =
    (Normal (centred (str "bg.webp") 1292 968 16
               [b "ABCDEFGHIJKLMN"%string 852; b "OPQR"%string 252]),
     loaded sample_init (str "assets/font.ttf")).
Proof.
  intros options conf b.
  apply (custom_centred sample_loadSync sample_getSVG options
           sample_init (str "assets/font.ttf") (conf "ABCDEFGHIJKLMN"%string) [conf "OPQR"%string]);
    try done.
  - repeat constructor; [exists 840%N, 108%N, 12%N|exists 240%N, 108%N, 12%N]; done.
  - split; [repeat constructor; done|done].
Defined.

(** The banner of one very long line and one line with the sample font:
    40 characters are 2400 wide, 2412 with the stroke, on the canvas 1292
    wide; the line is scaled and lies within the canvas. *)
Lemma custom_within_witness :
  let long := String.concat "" (repeat "ABCDEFGHIJ"%string 4) in
  let options :=
    mkCustom (mkBackground (str "bg.webp") (of_Z 1292) (of_Z 968))
             (Texts [TextString (str long); TextString (str "OPQR")]) (Some xibao_config) None in
  let conf (s : string) := complete xibao_config (mkTextOption (str s) no_style) in
  let b (s : string) (w : Z) := LineBox w 108 (svg (sample_render (conf s))) in
  ∃ img, custom sample_loadSync sample_getSVG options sample_init =
           (Normal img, loaded sample_init (str "assets/font.ttf")) ∧
    background img = str "bg.webp" ∧
    Forall2 (within 1292 968) [b long 2412; b "OPQR"%string 252] (composites img).
Proof.
  intros long options conf b.
  apply (custom_within sample_loadSync sample_getSVG options
           sample_init (str "assets/font.ttf") (conf long) [conf "OPQR"%string]
           [b long 2412; b "OPQR"%string 252] (str "bg.webp") 1292 968 16);
    try done.
  - repeat constructor; [exists 2400%N, 108%N, 12%N|exists 240%N, 108%N, 12%N]; done.
  - repeat constructor; done.
Defined.
